(* ===== verification/_CoqProject ===== *)
-Q . S2P
Prelude.v
Text.v
Ip.v
Json.v
Crypto.v
Event.v
Dag.v
Store.v
Room.v
Sync.v
Net.v
Noise.v
Relay.v
Link.v
Base64.v
Passkey.v
E2ee.v
Seal.v
Persist.v
Quic.v
Rate.v
Access.v
Files.v
Ota.v
Wifi.v
Session.v
Peers.v
Messages.v
Script.v
Demos.v
Catchup.v
Bench.v
Assist.v
Notify.v
Serve.v
Status.v
Cli.v
Integrity.v
Concrete.v
Witness.v
ConcreteNet.v
WitnessNet.v
ConcreteNode.v
WitnessNode.v
ConcreteRpc.v
WitnessRpc.v
ConcreteServe.v
WitnessServe.v
WitnessDemos.v
