(* ===== verification/Prelude.v ===== *)
(** * Thunderducks: a verification development of the node and the relay

    Thunderducks is a peer-to-peer messenger.  A device signs events, which form one
    directed acyclic graph per room; a node keeps the graphs, membership and message
    state of its rooms, exchanges events with other nodes over HTTP, TCP, Noise and
    QUIC, encrypts messages with room sessions, and leaves sealed events at a relay for
    devices that are away.  A node is an appliance of its owner: it is claimed, updates
    itself and joins wireless networks.  This library models the Rust code of [src/crates] and [src/relays]
    definition by definition and proves what makes it correct.

    ** Parts and files

    Foundations
    - [Prelude.v]: results with errors, fixed-size arrays, machine integers ([wrap w],
      big- and little-endian bytes), iteration over hash maps in an unknown order
      ([HashIter]), sorting; shared lemmas and tactics.
    - [Text.v]: Rust's string operations on bytes, UTF-8, decimal numbers.
    - [Ip.v], [Json.v]: the parser of IP addresses of the standard library; JSON values
      as the code builds and reads them, on a parameter for their text.
    - [Crypto.v]: interfaces of hashing, signatures, hex and JSON codecs with their
      laws.

    Events and rooms (td-event)
    - [Event.v] (event.rs): identifiers, canonical bytes, signing, verification.
    - [Dag.v] (dag.rs): the graph of a room: ingestion, tips.
    - [Store.v] (store.rs): the memory and SQLite stores and their common contract.
    - [Room.v] (room.rs): rooms, membership as a state machine, message rights.

    Exchange (td-node, td-net, td-relay)
    - [Sync.v] (sync.rs): [DeviceNode]: commits, parking and draining of events whose
      parents are missing, the durable log, offers and responses.
    - [Net.v] (frame.rs, relay_proto.rs, peer.rs, relay_client.rs): frames, relay
      messages, peer addresses, the relay client.
    - [Noise.v] (noise.rs): handshake, transport messages, the byte stream chunked into
      them and JSON frames above it.
    - [Quic.v] (quic.rs): certificate pins, TLS policies, the identity on disk.
    - [Relay.v] (td-relay/src/main.rs): rate limits, envelope store, connections.

    Devices (td-crypto)
    - [Link.v] (device.rs, link.rs): key pairs and the linking of devices.
    - [Base64.v], [Passkey.v] (passkey.rs): the codec, WebAuthn ceremonies.
    - [E2ee.v] (e2ee.rs): Olm and Megolm sessions of a device.
    - [Seal.v] (relay_seal.rs, sync.rs): what is left at a relay is sealed, for all
      devices of a key or for one.

    The node (td-node)
    - [Persist.v] (persist.rs): the data directory on a disk whose calls may fail and
      that may crash.
    - [Rate.v], [Access.v] (rpc.rs): rate limits, claim, recovery, owner sessions,
      pairing, the gate in front of the handlers.
    - [Session.v], [Peers.v] (rpc.rs): [NodeSession], how it starts, the steps its
      handlers share, options and peers.
    - [Messages.v] (rpc.rs): the handlers for rooms, messages, session keys, sync.
    - [Script.v] (rpc.rs): the scripted run of [tducks happy-path].
    - [Assist.v] (rpc.rs): fetching from and pushing to the relay.
    - [Notify.v] (rpc.rs): the long poll and the event stream, as machines that step
      beside the handlers ([World]: the session, the announcements, the clock).
    - [Files.v], [Ota.v], [Wifi.v] (rpc.rs): updates over the air and the wireless
      network, on the disk of [Persist.v].
    - [Serve.v] (rpc.rs): from options to a running node ([prepare_serve]), the routes,
      the listener for events of peers over each transport.
    - [Status.v] (rpc.rs): the requests that report, and the passkey requests.
    - [Integrity.v]: the invariant of a node session under every step above.
    - [Cli.v] (td-cli/src/main.rs): options of [tducks serve], the client's requests.

    Programs on top (the [examples] of the crates)
    - [Demos.v] (two_user_p2p.rs): two devices that share a room over framed
      connections; the steps both demonstrations share.
    - [Catchup.v] (relay_offline_catchup.rs): a message for a device that is offline,
      with the client, the connection loop and the store of the relay, the Olm seal and
      both nodes run together ([relay_call] joins the two ends of a connection).
    - [Bench.v] (ingest_bench.rs, e2ee_bench.rs): what the benchmarks run.

    [Concrete.v], [ConcreteNet.v], [ConcreteNode.v], [ConcreteRpc.v] and
    [ConcreteServe.v] give executable instances of the interfaces with their laws;
    [Witness.v], [WitnessNet.v], [WitnessNode.v], [WitnessRpc.v], [WitnessServe.v] and
    [WitnessDemos.v] apply the theorems to concrete rooms, nodes and relays on them.

    ** How code corresponds to definitions

    A struct is a record, an enum an inductive type, a method a function with the
    method's name; a method on [&mut self] returns its result and the new state, also
    when it fails.  A handler that releases its lock takes what other requests do in
    between as an argument.  Random draws, readings of clocks, answers of other nodes
    and failures of system calls are arguments.  Hash maps are finite maps whose order
    of iteration is a parameter, so no theorem depends on it.  Unsigned integers are
    numbers of [N], with the wrap-around of release builds written out ([wrap]).
    Third-party libraries are type classes: the signature scheme, [vodozemac], the
    AEAD, P-256, SQL statements, [serde_json], [snow], [rustls_pemfile], the channels of
    [tokio].  Each has a class of laws, which state documented behaviour only.
    Environment variables, downloads, [nmcli] and [systemctl] are arguments, an outcome
    for each call.

    ** What the theorems show

    - Convergence: [converge_with_converges], [sync_peer_converges] (two nodes end with
      the union of their events), [drain_inbox_complete], [ingest_order_independent].
    - Authenticity: [verify_event_refines], [verify_event_binds], [sign_event_correct],
      [relay_olm_addressed], [linked_devices_vouched], [authentication_sound].
    - Transports: [noise_session], [p2p_listener_exact], [frame_stream_roundtrip] (what
      one side writes the other reads and ingests), [quic_peers_pinned] and
      [pem_identity_roundtrip].
    - Rooms: [joined_accounted], [membership_event_correct], [message_gate],
      [ingest_invariant].
    - Messages: [send_message_exact], [shared_message_readable],
      [room_messages_decrypt], [room_import_exact], [happy_path_succeeds].
    - End to end: [offline_catchup_converges] (seal, relay, fetch, open, commit,
      acknowledge), [two_user_p2p_shares]; [ingest_bench_complete] and
      [e2ee_bench_reads] for any number of events and messages.  They rest on the law
      of [OlmStartLaws]: the first message of a session opens for the account whose
      published keys it was made for; and on the hash telling the events of the run
      apart ([collision_free]).
    - Waiting readers: [stream_converges], [wait_messages_answers], [send_wakes].
    - Restarts and crashes: [restart_recovers], [restart_session], [identity_durable],
      [e2ee_restart], [claim_node_durable], [sqlite_refines_memory].  After a save a
      process that starts finds what was saved; after a crash it finds that, whole, or
      what a crash before the save could have left, since the directory is not synced.
    - Access: [owner_tokens_earned], [pair_token_single_use], [challenge_single_use],
      [recovery_throttle], [gate_exact], [linking_completes]; from the options of a start
      on, [exposed_node_gated]; [status_truthful].
    - The appliance: [ota_apply_genuine], [ota_rollback_exact], [wifi_apply_exact].
    - The relay: [relay_put_refines], [relay_fetch_exact], [relay_keeps_envelopes],
      [relay_session], [rate_limit_bound]; of a node: [relay_delivers],
      [push_outbox_exact].
    - The codec of passkeys and PEM files: [base64_roundtrip].
    - The whole node: [served_node_integrity], [session_integrity]: from any start and
      whatever requests arrive, every part of a session keeps its invariant.

    Lemmas that show a defect of the code: [ban_is_cleared_by_leave],
    [missing_not_causal], [oversized_response_closes], [late_timestamp_unreachable],
    [late_since_returns_older], [claim_may_roll_back], [identity_may_be_lost],
    [stat_error_replaces_identity], [status_paths_gated], [room_import_rolls_back], [sign_count_unchecked], [stat_error_unclaims],
    [clock_poisoned], [quic_peer_misfiled], [poll_acks_unsaved],
    [poll_keeps_unopened], [noise_oversized], [noise_peer_unreachable],
    [fanout_counts_refusal], [gate_refuses_peers], [pins_ignored_inbound], [mtls_dropped], [mtls_without_pins],
    [wait_wakeup_lost], [stream_skips_spelling], [ota_channel_unsigned],
    [bad_pubkey_accepts], [unhashed_artifact], [apply_replaces_pending],
    [ota_check_forgets], [wifi_unpersisted], [scan_line_escaped], [blank_relay_kept].

    ** Fuel

    [Sync.drain_loop] takes the length of the inbox: every pass but the last removes
    an event, and [drain_inbox_complete] shows that the loop's own equation holds.
    [Relay.handle_conn] takes the length of the input: every request consumes some.
    The functions of [Text.v] that strip or replace take the length of the text, and
    decimal numbers of 64 bits have at most twenty digits.

    [Noise.fill], the loop of [read_exact], takes twice the number of bytes asked for: a
    pass that reads a message is followed by one that takes a byte of it ([fill_fuel]);
    [Noise.write_chunks] takes the length of the data, of which each pass writes a byte
    at least ([write_chunks_fuel]).  [Serve.serve_tcp] and [serve_quic] take the length
    of the input, of which each event takes four bytes; [serve_noise] is proved for any
    fuel above the number of events.  [Quic.chunks] and [Quic.split_any] take the length
    of what they cut.  [Catchup.relay_call] gives the relay one request more than it
    was sent bytes; [wait_relay] makes the fifty attempts of the code.

    ** Not modelled

    - The accept loops, background tasks and shutdown of a node and of the relay, CORS,
      and what axum does with a request before its handler.
    - Generating certificates ([rcgen]), the signatures of the TLS handshake ([rustls])
      and the endpoints of [quinn]: a connection is what [rustls_checks] says of the two
      configurations.
    - The parsing of arguments ([clap]) and the bodies of requests ([serde]): a request
      is its parsed record.  The texts of some errors are left as values.
    - Tests, the clients in TypeScript, scripts, and the helper that installs an
      update.  Of the programs in [examples], the clocks, the printed rates and the
      starting of processes.
    - What is left of the Rust files are uses, derived implementations, request and
      response structs that only [serde] reads, and wrappers of the libraries named
      above: nothing of it decides or changes state.
    - File modes, and two names for one file: [Persist.crash] takes the entries of a
      directory to be independent files, also after a crash during a rename.

    This file: the shared vocabulary. *)

From Stdlib Require Export Lia.
From Stdlib Require Export Init.Byte Strings.Byte.
From Stdlib Require Import Eqdep_dec.
From stdpp Require Export base tactics option list gmap sets strings sorting numbers.

(** ** Results

    Rust's [Result<A, E>].  The [?] operator is the bind of the monad. *)

Inductive result (E A : Type) : Type :=
| Ok (a : A)
| Err (e : E).
Arguments Ok {E A} a.
Arguments Err {E A} e.

#[global] Instance result_eq_dec `{EqDecision E, EqDecision A} :
  EqDecision (result E A).
Proof. solve_decision. Defined.

#[global] Instance result_ret {E} : MRet (result E) := λ A a, Ok a.
#[global] Instance result_bind {E} : MBind (result E) := λ A B f r,
  match r with Ok a => f a | Err e => Err e end.
#[global] Instance result_fmap {E} : FMap (result E) := λ A B f r,
  match r with Ok a => Ok (f a) | Err e => Err e end.

Definition is_ok {E A} (r : result E A) : bool :=
  match r with Ok _ => true | Err _ => false end.

Definition map_err {E F A} (f : E → F) (r : result E A) : result F A :=
  match r with Ok a => Ok a | Err e => Err (f e) end.

(** [Option::ok_or]. *)
Definition ok_or {E A} (o : option A) (e : E) : result E A :=
  match o with Some a => Ok a | None => Err e end.

Lemma bind_ok_inv {E A B} (r : result E A) (f : A → result E B) b :
  r ≫= f = Ok b → ∃ a, r = Ok a ∧ f a = Ok b.
Proof. destruct r; cbn; [eauto | discriminate]. Qed.

Lemma ok_or_ok_inv {E A} (o : option A) (e : E) a :
  ok_or o e = Ok a → o = Some a.
Proof. destruct o; cbn; congruence. Qed.

Lemma map_err_ok_inv {E F A} (f : E → F) (r : result E A) a :
  map_err f r = Ok a → r = Ok a.
Proof. destruct r; cbn; congruence. Qed.

(** The fallible computations of the model return either a result or a result
    paired with the state left behind: a Rust method on [&mut self] that fails
    keeps the mutations made before the failing call. *)

Declare Scope td_scope.
Delimit Scope td_scope with td.
#[global] Open Scope td_scope.

Notation "'let?' x ':=' e 'in' k" := (mbind (λ x, k) e)
  (at level 10, x binder, e at level 100, k at level 200) : td_scope.
Notation "'guard?' b 'else' e 'in' k" := (if b then k else Err e)
  (at level 10, b at level 100, e at level 100, k at level 200) : td_scope.

(** ** Bytes and fixed-size arrays *)

#[global] Instance byte_eq_dec : EqDecision byte := Byte.byte_eq_dec.
#[global] Program Instance byte_countable : Countable byte :=
  inj_countable Byte.to_N Byte.of_N _.
Next Obligation. intros b. apply Byte.of_to_N. Qed.
#[global] Instance byte_inhabited : Inhabited byte := populate x00.

(** [[u8; n]] *)
Record array (n : nat) : Type := Array {
  array_bytes : list byte;
  array_len : Nat.eqb (length array_bytes) n = true;
}.
Arguments Array {n} _ _.
Arguments array_bytes {n} _.
Arguments array_len {n} _.

Abbreviation bytes32 := (array 32).

Lemma length_array {n} (a : array n) : length (array_bytes a) = n.
Proof. apply Nat.eqb_eq, array_len. Qed.

Lemma array_ext {n} (a b : array n) : array_bytes a = array_bytes b → a = b.
Proof.
  destruct a as [l Hl], b as [k Hk]; cbn; intros ->.
  f_equal. apply UIP_dec, bool_dec.
Qed.

#[global] Instance array_bytes_inj n : Inj (=) (=) (@array_bytes n).
Proof. intros a b. apply array_ext. Qed.

#[global] Instance array_eq_dec n : EqDecision (array n).
Proof.
  refine (λ a b, cast_if (decide (array_bytes a = array_bytes b))).
  - by apply array_ext.
  - by intros ->.
Defined.

(** [TryFrom<&[u8]> for [u8; n]]: succeeds exactly on slices of length [n]. *)
Definition try_into_array (n : nat) (l : list byte) : option (array n) :=
  match bool_dec (Nat.eqb (length l) n) true with
  | left H => Some (Array l H)
  | right _ => None
  end.

Lemma try_into_array_bytes {n} (a : array n) :
  try_into_array n (array_bytes a) = Some a.
Proof.
  unfold try_into_array. destruct bool_dec as [H|H].
  - f_equal. by apply array_ext.
  - destruct a as [l Hl]; cbn in *; congruence.
Qed.

Lemma try_into_array_Some n l (a : array n) :
  try_into_array n l = Some a ↔ array_bytes a = l.
Proof.
  split.
  - unfold try_into_array. destruct bool_dec; intros [= <-]; done.
  - intros <-. apply try_into_array_bytes.
Qed.

Lemma try_into_array_None n l : try_into_array n l = None ↔ length l ≠ n.
Proof.
  unfold try_into_array. destruct bool_dec as [H|H].
  - pose proof (proj1 (Nat.eqb_eq _ _) H). naive_solver.
  - split; [|done]. intros _ Hl. by apply Nat.eqb_eq in Hl.
Qed.

Lemma try_into_array_is_Some n l : is_Some (try_into_array n l) ↔ length l = n.
Proof.
  rewrite <-not_eq_None_Some, try_into_array_None. lia.
Qed.

#[global] Program Instance array_countable n : Countable (array n) :=
  inj_countable array_bytes (try_into_array n) _.
Next Obligation. intros n a. apply try_into_array_bytes. Qed.

(** [[b; n]] *)
Program Definition repeat_array (n : nat) (b : byte) : array n :=
  Array (replicate n b) _.
Next Obligation. intros n b. rewrite length_replicate. apply Nat.eqb_refl. Qed.

(** ** Machine integers

    Unsigned integers of width [w] are natural numbers ([N]) below [2 ^ w];
    the wrap-around of casts and of release-mode arithmetic is [wrap w]. *)

Definition wrap (w n : N) : N := (n mod 2 ^ w)%N.
Definition U32 (n : N) : Prop := (n < 2 ^ 32)%N.
Definition U64 (n : N) : Prop := (n < 2 ^ 64)%N.

(** [x as i64] for [x : u64] and back: two's complement reinterpretation. *)
Definition u64_as_i64 (n : N) : Z :=
  if (n <? 2 ^ 63)%N then Z.of_N n else (Z.of_N n - 2 ^ 64)%Z.
Definition i64_as_u64 (z : Z) : N := Z.to_N (z mod 2 ^ 64)%Z.

Lemma wrap_small w n : (n < 2 ^ w)%N → wrap w n = n.
Proof. apply N.mod_small. Qed.

Lemma wrap_lt w n : (wrap w n < 2 ^ w)%N.
Proof. apply N.mod_lt. by apply N.pow_nonzero. Qed.

Lemma u64_i64_roundtrip n : U64 n → i64_as_u64 (u64_as_i64 n) = n.
Proof.
  unfold U64, i64_as_u64, u64_as_i64. intros Hn.
  destruct (N.ltb_spec n (2 ^ 63)) as [H|H].
  - rewrite Z.mod_small; lia.
  - replace (Z.of_N n - 2 ^ 64)%Z with (Z.of_N n + (-1) * 2 ^ 64)%Z by lia.
    rewrite Z.mod_add, Z.mod_small; lia.
Qed.

Lemma u64_as_i64_inj n m : U64 n → U64 m → u64_as_i64 n = u64_as_i64 m → n = m.
Proof.
  intros Hn Hm H. rewrite <-(u64_i64_roundtrip n Hn), <-(u64_i64_roundtrip m Hm).
  by rewrite H.
Qed.

(** [u64_as_i64] is monotone exactly below [2 ^ 63]; above, the value is
    negative. *)
Lemma u64_as_i64_small n : (n < 2 ^ 63)%N → u64_as_i64 n = Z.of_N n.
Proof. unfold u64_as_i64. intros H. by apply N.ltb_lt in H as ->. Qed.

Lemma u64_as_i64_neg n : U64 n → (2 ^ 63 ≤ n)%N → (u64_as_i64 n < 0)%Z.
Proof.
  unfold U64, u64_as_i64. intros Hn H. destruct (N.ltb_spec n (2 ^ 63)); lia.
Qed.

(** *** Byte encodings of integers ([to_le_bytes], [to_be_bytes] and back) *)

Definition byte_of_N (n : N) : byte := default x00 (Byte.of_N (n mod 256)).

Lemma byte_of_N_to_N b : byte_of_N (Byte.to_N b) = b.
Proof.
  unfold byte_of_N. rewrite N.mod_small, Byte.of_to_N; [done|].
  pose proof (Byte.to_N_bounded b). lia.
Qed.

Lemma byte_to_N_of_N n : Byte.to_N (byte_of_N n) = (n mod 256)%N.
Proof.
  unfold byte_of_N. destruct (Byte.of_N (n mod 256)) as [b|] eqn:E; cbn.
  - by apply Byte.to_of_N.
  - apply Byte.of_N_None_iff in E. pose proof (N.mod_lt n 256). lia.
Qed.

Lemma byte_to_N_lt b : (Byte.to_N b < 256)%N.
Proof. pose proof (Byte.to_N_bounded b). lia. Qed.

Fixpoint le_bytes (k : nat) (n : N) : list byte :=
  match k with
  | O => []
  | S k => byte_of_N n :: le_bytes k (n / 256)
  end.

Fixpoint from_le_bytes (l : list byte) : N :=
  match l with
  | [] => 0
  | b :: l => Byte.to_N b + 256 * from_le_bytes l
  end%N.

Definition be_bytes (k : nat) (n : N) : list byte := rev (le_bytes k n).
Definition from_be_bytes (l : list byte) : N := from_le_bytes (rev l).

Lemma length_le_bytes k n : length (le_bytes k n) = k.
Proof. revert n. induction k; intros n; cbn; auto. Qed.

Lemma length_be_bytes k n : length (be_bytes k n) = k.
Proof. unfold be_bytes. by rewrite length_rev, length_le_bytes. Qed.

Lemma from_le_bytes_le_bytes k n :
  from_le_bytes (le_bytes k n) = wrap (8 * N.of_nat k) n.
Proof.
  unfold wrap. revert n. induction k as [|k IH]; intros n.
  - cbn. by rewrite N.mod_1_r.
  - cbn [le_bytes from_le_bytes]. rewrite IH, byte_to_N_of_N.
    replace (8 * N.of_nat (S k))%N with (8 + 8 * N.of_nat k)%N by lia.
    rewrite N.pow_add_r. change (2 ^ 8)%N with 256%N.
    rewrite (N.Div0.mod_mul_r n 256). lia.
Qed.

Lemma from_be_bytes_be_bytes k n :
  from_be_bytes (be_bytes k n) = wrap (8 * N.of_nat k) n.
Proof.
  unfold from_be_bytes, be_bytes. rewrite rev_involutive.
  apply from_le_bytes_le_bytes.
Qed.

Lemma le_bytes_inj k n m :
  (n < 2 ^ (8 * N.of_nat k))%N → (m < 2 ^ (8 * N.of_nat k))%N →
  le_bytes k n = le_bytes k m → n = m.
Proof.
  intros Hn Hm H. apply (f_equal from_le_bytes) in H.
  rewrite !from_le_bytes_le_bytes, !wrap_small in H; auto.
Qed.

(** ** Hash maps

    A [HashMap] is a finite map whose iteration order is unspecified.  The
    order is an argument of every definition that iterates: [map_iter] and
    [set_iter] are some enumeration of the map or set, and nothing else is
    known of them. *)

Class HashIter : Type := {
  map_iter {K V : Type} {HK : EqDecision K} {CK : Countable K} :
    gmap K V → list (K * V);
  set_iter {K : Type} {HK : EqDecision K} {CK : Countable K} : gset K → list K;
  map_iter_perm {K V} {HK : EqDecision K} {CK : Countable K} (m : gmap K V) :
    map_iter m ≡ₚ map_to_list m;
  set_iter_perm {K} {HK : EqDecision K} {CK : Countable K} (s : gset K) :
    set_iter s ≡ₚ elements s;
}.

Section hash_iter.
Context {HI : HashIter}.

Definition map_keys {K V} `{Countable K} (m : gmap K V) : list K := (map_iter m).*1.
Definition map_values {K V} `{Countable K} (m : gmap K V) : list V := (map_iter m).*2.

Lemma elem_of_map_iter {K V} `{Countable K} (m : gmap K V) k v :
  (k, v) ∈ map_iter m ↔ m !! k = Some v.
Proof. by rewrite map_iter_perm, elem_of_map_to_list. Qed.

Lemma elem_of_map_keys {K V} `{Countable K} (m : gmap K V) k :
  k ∈ map_keys m ↔ is_Some (m !! k).
Proof.
  unfold map_keys. rewrite list_elem_of_fmap. split.
  - intros ([k' v] & -> & Hv%elem_of_map_iter). eauto.
  - intros [v Hv]. exists (k, v). by rewrite elem_of_map_iter.
Qed.

Lemma elem_of_map_values {K V} `{Countable K} (m : gmap K V) v :
  v ∈ map_values m ↔ ∃ k, m !! k = Some v.
Proof.
  unfold map_values. rewrite list_elem_of_fmap. split.
  - intros ([k' v'] & -> & Hv%elem_of_map_iter). eauto.
  - intros [k Hv]. exists (k, v). by rewrite elem_of_map_iter.
Qed.

Lemma NoDup_map_keys {K V} `{Countable K} (m : gmap K V) : NoDup (map_keys m).
Proof. unfold map_keys. rewrite map_iter_perm. apply NoDup_fst_map_to_list. Qed.

Lemma length_map_iter {K V} `{Countable K} (m : gmap K V) :
  length (map_iter m) = size m.
Proof. by rewrite map_iter_perm, length_map_to_list. Qed.

Lemma elem_of_set_iter {K} `{Countable K} (s : gset K) k : k ∈ set_iter s ↔ k ∈ s.
Proof. by rewrite set_iter_perm, elem_of_elements. Qed.

Lemma map_iter_singleton {K V} `{Countable K} (k : K) (v : V) :
  map_iter {[ k := v ]} = [(k, v)].
Proof.
  apply Permutation_length_1_inv. by rewrite map_iter_perm, map_to_list_singleton.
Qed.
End hash_iter.

(** Choosing a value for each entry of a finite map. *)
Lemma map_Forall_choice {K V W} `{Countable K} `{!Inhabited W} (P : K → V → W → Prop)
    (m : gmap K V) :
  map_Forall (λ k v, ∃ w, P k v w) m → ∃ f : K → W, map_Forall (λ k v, P k v (f k)) m.
Proof.
  induction m as [|k v m Hk IH] using map_ind; intros Hm.
  - exists (λ _, inhabitant). apply map_Forall_empty.
  - apply map_Forall_insert in Hm as [[w Hw] Hm]; [|done].
    destruct (IH Hm) as [f Hf]. exists (λ k', if decide (k' = k) then w else f k').
    apply map_Forall_insert; [done|]. split; [by rewrite decide_True|].
    intros k' v' Hv'. rewrite decide_False; [by apply Hf|]. intros ->. congruence.
Qed.

(** ** Stable sorting ([slice::sort_by]) *)

Section sort_by.
Context {A : Type} (cmp : A → A → comparison).

Definition cmp_le (x y : A) : bool :=
  match cmp x y with Gt => false | _ => true end.

Fixpoint insert_by (x : A) (l : list A) : list A :=
  match l with
  | [] => [x]
  | y :: l => if cmp_le x y then x :: y :: l else y :: insert_by x l
  end.

Definition sort_by (l : list A) : list A := foldr insert_by [] l.

Lemma insert_by_perm x l : insert_by x l ≡ₚ x :: l.
Proof.
  induction l as [|y l IH]; cbn; [done|]. destruct (cmp_le x y); [done|].
  rewrite IH. apply Permutation_swap.
Qed.

Lemma sort_by_perm l : sort_by l ≡ₚ l.
Proof. induction l as [|x l IH]; cbn; [done|]. by rewrite insert_by_perm, IH. Qed.

Lemma elem_of_sort_by x l : x ∈ sort_by l ↔ x ∈ l.
Proof. by rewrite sort_by_perm. Qed.

Hypothesis cmp_total : ∀ x y, cmp_le x y = false → cmp_le y x = true.
Hypothesis cmp_trans : ∀ x y z, cmp_le x y = true → cmp_le y z = true → cmp_le x z = true.

Lemma insert_by_sorted x l :
  StronglySorted (λ x y, cmp_le x y = true) l →
  StronglySorted (λ x y, cmp_le x y = true) (insert_by x l).
Proof.
  induction 1 as [|y l Hl IH Hy]; cbn; [by repeat constructor|].
  destruct (cmp_le x y) eqn:Hxy.
  - constructor; [by constructor|]. constructor; [done|].
    eapply Forall_impl; [|exact Hy]. eauto.
  - constructor; [done|]. rewrite insert_by_perm. constructor; auto.
Qed.

Lemma sort_by_sorted l : StronglySorted (λ x y, cmp_le x y = true) (sort_by l).
Proof. induction l; cbn; [constructor|]. by apply insert_by_sorted. Qed.
End sort_by.

Lemma StronglySorted_weaken {A} (R R' : A → A → Prop) l :
  (∀ x y, R x y → R' x y) → StronglySorted R l → StronglySorted R' l.
Proof.
  intros HR. induction 1; constructor; eauto using Forall_impl.
Qed.

(** [Ordering::then] *)
Definition cmp_then (c d : comparison) : comparison :=
  match c with Eq => d | _ => c end.

(** ** Tactics *)

(** Case analysis on every [match] of the hypotheses and the goal. *)
Ltac case_all := repeat (case_match || case_decide); simplify_eq/=.

(** Unpacks the success of a chain of [?]. *)
Ltac inv_ok :=
  repeat match goal with
  | H : Ok _ = Ok _ |- _ => injection H as H
  | H : Err _ = Err _ |- _ => injection H as H
  | H : Ok _ = Err _ |- _ => discriminate H
  | H : Err _ = Ok _ |- _ => discriminate H
  | H : mbind _ _ = Ok _ |- _ => apply bind_ok_inv in H as (? & ? & ?)
  | H : ok_or _ _ = Ok _ |- _ => apply ok_or_ok_inv in H
  | H : map_err _ _ = Ok _ |- _ => apply map_err_ok_inv in H
  end; simplify_eq.

Create HintDb td discriminated.
#[export] Hint Resolve length_array elem_of_sort_by NoDup_map_keys : td.
