(* ===== verification/Text.v ===== *)
(** * Text

    Rust strings are their UTF-8 bytes.  The operations of [str] the program
    uses on ASCII patterns, and decimal numbers. *)

From S2P Require Import Prelude.
From Stdlib Require Import Strings.String.

Definition text (s : string) : list byte := list_byte_of_string s.

(** [str::strip_prefix] *)
Fixpoint strip_prefix (p s : list byte) : option (list byte) :=
  match p, s with
  | [], _ => Some s
  | b :: p, c :: s => if decide (b = c) then strip_prefix p s else None
  | _ :: _, [] => None
  end.

Definition starts_with (s p : list byte) : bool :=
  match strip_prefix p s with Some _ => true | None => false end.

(** [str::split_once] and [str::rsplit_once] on a one-byte pattern. *)
Fixpoint split_once (c : byte) (s : list byte) : option (list byte * list byte) :=
  match s with
  | [] => None
  | b :: s =>
    if decide (b = c) then Some ([], s)
    else match split_once c s with Some (l, r) => Some (b :: l, r) | None => None end
  end.

Fixpoint rsplit_once (c : byte) (s : list byte) : option (list byte * list byte) :=
  match s with
  | [] => None
  | b :: s =>
    match rsplit_once c s with
    | Some (l, r) => Some (b :: l, r)
    | None => if decide (b = c) then Some ([], s) else None
    end
  end.

Lemma strip_prefix_app p s : strip_prefix p (p ++ s) = Some s.
Proof. induction p as [|b p IH]; cbn; [done|]. by rewrite decide_True. Qed.

Lemma strip_prefix_Some p s r : strip_prefix p s = Some r ↔ s = p ++ r.
Proof.
  split; [|intros ->; apply strip_prefix_app].
  revert s. induction p as [|b p IH]; intros [|c s]; cbn; try congruence.
  case_decide as H; [|done]. intros ->%IH. by rewrite H.
Qed.

Lemma rsplit_once_none c s : c ∉ s → rsplit_once c s = None.
Proof.
  induction s as [|b s IH]; cbn; [done|]. intros Hn. rewrite not_elem_of_cons in Hn.
  rewrite IH by tauto. rewrite decide_False; [done|]. intros ->. tauto.
Qed.

(** The last occurrence splits. *)
Lemma rsplit_once_app c l r : c ∉ r → rsplit_once c (l ++ c :: r) = Some (l, r).
Proof.
  intros Hr. induction l as [|b l IH]; cbn.
  - rewrite rsplit_once_none by done. by rewrite decide_True.
  - by rewrite IH.
Qed.

Lemma rsplit_once_None c s : rsplit_once c s = None ↔ c ∉ s.
Proof.
  split; [|apply rsplit_once_none]. intros Hs Hin.
  apply list_elem_of_split in Hin as (x & y & ->). revert Hs. induction x as [|z x IHx]; cbn.
  - destruct (rsplit_once c y) as [[]|]; [done|]. by rewrite decide_True.
  - destruct (rsplit_once c (x ++ c :: y)) as [[]|]; [done|]. by destruct IHx.
Qed.

Lemma rsplit_once_Some c s l r : rsplit_once c s = Some (l, r) ↔ s = l ++ c :: r ∧ c ∉ r.
Proof.
  split; [|intros [-> ?]; by apply rsplit_once_app].
  revert l. induction s as [|b s IH]; intros l H; cbn in H; [done|].
  destruct (rsplit_once c s) as [[l' r']|] eqn:Hs.
  - injection H as <- <-. destruct (IH l' eq_refl) as [-> ?]. done.
  - case_decide as Hb; [|done]. injection H as <- <-.
    split; [by rewrite Hb|by apply rsplit_once_None].
Qed.

(** ** Decimal numbers *)

Definition digit (n : N) : byte := byte_of_N (48 + n).
Definition is_digit (b : byte) : bool := (48 <=? Byte.to_N b)%N && (Byte.to_N b <=? 57)%N.

(** The digits of [n], most significant first; [fuel] bounds their number. *)
Fixpoint dec_digits (fuel : nat) (n : N) (acc : list byte) : list byte :=
  match fuel with
  | O => acc
  | S fuel =>
    let acc := digit (n mod 10) :: acc in
    if (n <? 10)%N then acc else dec_digits fuel (n / 10) acc
  end.

(** [n.to_string()]; a 64-bit number has at most 20 digits. *)
Definition dec (n : N) : list byte := dec_digits 20 n [].

(** The loop of [from_str_radix(_, 10)] on the digits, with the overflow check
    of the width. *)
Fixpoint dec_loop (bound : N) (s : list byte) (acc : N) : option N :=
  match s with
  | [] => Some acc
  | b :: s =>
    if is_digit b then
      let acc := (acc * 10 + (Byte.to_N b - 48))%N in
      if (acc <? bound)%N then dec_loop bound s acc else None
    else None
  end.

(** [str::parse] for an unsigned integer below [bound]: not empty, an optional
    leading plus, digits only, no overflow. *)
Definition parse_uint (bound : N) (s : list byte) : option N :=
  match s with
  | [] => None
  | x2b :: [] => None
  | x2b :: s => dec_loop bound s 0
  | s => dec_loop bound s 0
  end.

Lemma digit_to_N n : (n < 10)%N → Byte.to_N (digit n) = (48 + n)%N.
Proof. intros Hn. unfold digit. rewrite byte_to_N_of_N, N.mod_small; lia. Qed.

Lemma digit_is_digit n : (n < 10)%N → is_digit (digit n) = true.
Proof. intros Hn. unfold is_digit. rewrite digit_to_N by done.
  apply andb_true_intro; split; apply N.leb_le; lia. Qed.

Lemma dec_digits_digits fuel : ∀ n acc, Forall (λ b, is_digit b = true) acc →
  Forall (λ b, is_digit b = true) (dec_digits fuel n acc).
Proof.
  induction fuel as [|fuel IH]; intros n acc Ha; cbn; [done|].
  assert (is_digit (digit (n mod 10)) = true) by (apply digit_is_digit, N.mod_lt; lia).
  destruct (n <? 10)%N; [by constructor|]. apply IH. by constructor.
Qed.

Lemma dec_loop_app bound s t acc m :
  dec_loop bound s acc = Some m → dec_loop bound (s ++ t) acc = dec_loop bound t m.
Proof.
  revert acc. induction s as [|b s IH]; intros acc; cbn; [by intros [= ->]|].
  destruct (is_digit b); [|done]. destruct (_ <? bound)%N; [|done]. apply IH.
Qed.

(** Reading the printed digits adds the number in front of what was read. *)
Lemma dec_loop_digits fuel : ∀ n acc bound, (n < 10 ^ N.of_nat fuel)%N → fuel ≠ 0 → (n < bound)%N →
  dec_loop bound (dec_digits fuel n acc) 0 = dec_loop bound acc n.
Proof.
  induction fuel as [|fuel IH]; intros n acc bound Hn Hf Hb; [done|]. cbn.
  assert (dec_loop bound (digit (n mod 10) :: acc) (n / 10) = dec_loop bound acc n) as Hlast.
  { cbn. assert (n mod 10 < 10)%N by (apply N.mod_lt; lia).
    rewrite digit_is_digit, digit_to_N by done.
    rewrite N.add_comm, (N.add_comm 48), N.add_sub, (N.mul_comm (n / 10)), N.add_comm.
    rewrite <-N.Div0.div_mod.
    by apply N.ltb_lt in Hb as ->. }
  destruct (N.ltb_spec n 10) as [Hlt|Hge].
  - rewrite <-Hlast. by rewrite N.div_small.
  - rewrite IH; [done| | |].
    + replace (N.of_nat (S fuel)) with (N.succ (N.of_nat fuel)) in Hn by lia.
      rewrite N.pow_succ_r' in Hn. apply N.Div0.div_lt_upper_bound; lia.
    + intros ->. change (10 ^ N.of_nat 1)%N with 10%N in Hn. lia.
    + pose proof (N.Div0.div_le_upper_bound n 10 n). lia.
Qed.

Lemma dec_nonempty n : ∃ b l, dec n = b :: l ∧ is_digit b = true.
Proof.
  pose proof (dec_digits_digits 20 n [] (List.Forall_nil _)) as Hd. fold (dec n) in Hd.
  assert (∀ fuel m acc, fuel ≠ 0 ∨ acc ≠ [] → dec_digits fuel m acc ≠ []) as Hne.
  { induction fuel as [|fuel IH]; intros m acc Ha; cbn; [by destruct Ha|].
    destruct (m <? 10)%N; [done|]. apply IH. by right. }
  specialize (Hne 20 n [] ltac:(by left)). fold (dec n) in Hne.
  destruct (dec n) as [|b l]; [done|]. inversion Hd; subst; eauto.
Qed.

Lemma parse_dec bound n : (n < bound)%N → U64 n → parse_uint bound (dec n) = Some n.
Proof.
  intros Hb HU. unfold U64 in HU.
  assert (dec_loop bound (dec n) 0 = Some n) as Hl.
  { unfold dec. rewrite dec_loop_digits; [done| |done|done].
    change (10 ^ N.of_nat 20)%N with 100000000000000000000%N. lia. }
  destruct (dec_nonempty n) as (b & l & Hd & Hdig). rewrite Hd in *.
  unfold parse_uint. destruct b; try done.
Qed.

Lemma dec_no_colon n : x3a ∉ dec n.
Proof.
  intros Hin. pose proof (dec_digits_digits 20 n [] (List.Forall_nil _)) as Hd.
  rewrite list.Forall_forall in Hd. by specialize (Hd _ Hin).
Qed.

(** ** Blanks *)

(** The UTF-8 encodings of the characters with the property [White_Space]. *)
Definition white_space : list (list byte) :=
  [[x09]; [x0a]; [x0b]; [x0c]; [x0d]; [x20]; [xc2; x85]; [xc2; xa0]; [xe1; x9a; x80];
   [xe2; x80; x80]; [xe2; x80; x81]; [xe2; x80; x82]; [xe2; x80; x83]; [xe2; x80; x84];
   [xe2; x80; x85]; [xe2; x80; x86]; [xe2; x80; x87]; [xe2; x80; x88]; [xe2; x80; x89];
   [xe2; x80; x8a]; [xe2; x80; xa8]; [xe2; x80; xa9]; [xe2; x80; xaf]; [xe2; x81; x9f];
   [xe3; x80; x80]].

(** The rest after the first of [ps] that is a prefix. *)
Fixpoint strip_any (ps : list (list byte)) (s : list byte) : option (list byte) :=
  match ps with
  | [] => None
  | p :: ps => match strip_prefix p s with Some r => Some r | None => strip_any ps s end
  end.

(** Each round drops a byte at least, so the length bounds the rounds. *)
Fixpoint strip_all (fuel : nat) (ps : list (list byte)) (s : list byte) : list byte :=
  match fuel with
  | O => s
  | S fuel => match strip_any ps s with Some r => strip_all fuel ps r | None => s end
  end.

Definition trim_start (s : list byte) : list byte := strip_all (List.length s) white_space s.
Definition trim_end (s : list byte) : list byte :=
  rev (strip_all (List.length s) ((λ p, rev p) <$> white_space) (rev s)).

(** [str::trim] *)
Definition trim (s : list byte) : list byte := trim_end (trim_start s).

(** ** Hexadecimal digits *)

Definition hex_val (b : byte) : option N :=
  let n := Byte.to_N b in
  if ((48 <=? n) && (n <=? 57))%N then Some (n - 48)%N
  else if ((97 <=? n) && (n <=? 102))%N then Some (n - 87)%N
  else if ((65 <=? n) && (n <=? 70))%N then Some (n - 55)%N
  else None.

(** [char::is_ascii_hexdigit] *)
Definition is_hex_digit (b : byte) : bool :=
  match hex_val b with Some _ => true | None => false end.

(** ** Patterns *)

(** [str::replace] for a pattern that is not empty; each round drops a byte at
    least. *)
Fixpoint replace_loop (fuel : nat) (pat to s : list byte) : list byte :=
  match fuel, s with
  | S fuel, b :: r =>
    match strip_prefix pat s with
    | Some r => to ++ replace_loop fuel pat to r
    | None => b :: replace_loop fuel pat to r
    end
  | _, _ => s
  end.
Definition replace (pat to s : list byte) : list byte := replace_loop (List.length s) pat to s.

(** [str::trim_start_matches] *)
Definition trim_start_matches (pat s : list byte) : list byte := strip_all (List.length s) [pat] s.

(** [str::trim_end_matches] *)
Definition trim_end_matches (pat s : list byte) : list byte :=
  rev (strip_all (List.length s) [rev pat] (rev s)).

(** [s.split(c).next()] *)
Definition before (c : byte) (s : list byte) : list byte :=
  match split_once c s with Some (l, _) => l | None => s end.

(** ** Case and pieces *)

(** [u8::to_ascii_uppercase] *)
Definition ascii_upper (b : byte) : byte :=
  let n := Byte.to_N b in
  if ((97 <=? n) && (n <=? 122))%N then byte_of_N (n - 32) else b.

(** [u8::to_ascii_lowercase] *)
Definition ascii_lower (b : byte) : byte :=
  let n := Byte.to_N b in
  if ((65 <=? n) && (n <=? 90))%N then byte_of_N (n + 32) else b.

Definition to_ascii_lowercase (s : list byte) : list byte := ascii_lower <$> s.
Definition to_ascii_uppercase (s : list byte) : list byte := ascii_upper <$> s.
Definition eq_ignore_ascii_case (a b : list byte) : bool :=
  bool_decide (to_ascii_uppercase a = to_ascii_uppercase b).

(** [str::split] on a one-byte pattern *)
Fixpoint split (c : byte) (s : list byte) : list (list byte) :=
  match s with
  | [] => [[]]
  | b :: s =>
    if decide (b = c) then [] :: split c s
    else match split c s with p :: ps => (b :: p) :: ps | [] => [[b]] end
  end.

(** The first [n] characters of a UTF-8 text. *)
Fixpoint take_chars (n : nat) (s : list byte) : list byte :=
  match s with
  | [] => []
  | b :: s =>
    if ((128 <=? Byte.to_N b) && (Byte.to_N b <=? 191))%N then b :: take_chars n s
    else match n with O => [] | S n => b :: take_chars n s end
  end.

(** ** UTF-8 *)

Definition in_range (lo hi : N) (b : byte) : bool := ((lo <=? Byte.to_N b) && (Byte.to_N b <=? hi))%N.
Definition cont (b : byte) : bool := in_range 0x80 0xbf b.

(** Well-formed sequences: one to four bytes, no overlong form, no surrogate. *)
Fixpoint is_utf8 (s : list byte) : bool :=
  match s with
  | [] => true
  | a :: s =>
    if in_range 0 0x7f a then is_utf8 s else
    match s with
    | [] => false
    | b :: s =>
      if in_range 0xc2 0xdf a then cont b && is_utf8 s else
      match s with
      | [] => false
      | c :: s =>
        if in_range 0xe0 0xef a then
          (if in_range 0xe0 0xe0 a then in_range 0xa0 0xbf b
           else if in_range 0xed 0xed a then in_range 0x80 0x9f b else cont b) &&
          cont c && is_utf8 s
        else
        match s with
        | [] => false
        | d :: s =>
          in_range 0xf0 0xf4 a &&
          (if in_range 0xf0 0xf0 a then in_range 0x90 0xbf b
           else if in_range 0xf4 0xf4 a then in_range 0x80 0x8f b else cont b) &&
          cont c && cont d && is_utf8 s
        end
      end
    end
  end.

(** The code of the second byte of a sequence of three, or of four, led by [a]. *)
Definition second3 (a b : byte) : bool :=
  if in_range 0xe0 0xe0 a then in_range 0xa0 0xbf b
  else if in_range 0xed 0xed a then in_range 0x80 0x9f b else cont b.
Definition second4 (a b : byte) : bool :=
  if in_range 0xf0 0xf0 a then in_range 0x90 0xbf b
  else if in_range 0xf4 0xf4 a then in_range 0x80 0x8f b else cont b.

(** [String::from_utf8_lossy]: U+FFFD for every maximal prefix of a sequence that is
    not completed, and for every byte that starts none. *)
Definition replacement : list byte := [xef; xbf; xbd].
Fixpoint from_utf8_lossy (s : list byte) : list byte :=
  match s with
  | [] => []
  | a :: s1 =>
    if in_range 0 0x7f a then a :: from_utf8_lossy s1 else
    match s1 with
    | [] => replacement
    | b :: s2 =>
      if in_range 0xc2 0xdf a then
        if cont b then a :: b :: from_utf8_lossy s2 else replacement ++ from_utf8_lossy s1
      else if in_range 0xe0 0xef a && second3 a b then
        match s2 with
        | [] => replacement
        | c :: s3 =>
          if cont c then a :: b :: c :: from_utf8_lossy s3 else replacement ++ from_utf8_lossy s2
        end
      else if in_range 0xf0 0xf4 a && second4 a b then
        match s2 with
        | [] => replacement
        | c :: s3 =>
          if cont c then
            match s3 with
            | [] => replacement
            | d :: s4 =>
              if cont d then a :: b :: c :: d :: from_utf8_lossy s4
              else replacement ++ from_utf8_lossy s3
            end
          else replacement ++ from_utf8_lossy s2
        end
      else replacement ++ from_utf8_lossy s1
    end
  end.
