(* ===== verification/Ip.v ===== *)
(** * IP addresses as text ([std::net::IpAddr]'s [FromStr])

    What [crates/td-node/src/rpc.rs] uses to tell a loopback address from another
    one: the parser of the standard library, which reads from the front of the text and
    takes nothing back but as a whole. *)

From S2P Require Import Prelude Text.

Inductive IpAddr : Type :=
| V4 (a b c d : N)
| V6 (segments : list N).

Abbreviation Parser A := (list byte → option (A * list byte)).

(** [read_given_char] *)
Definition read_char (c : byte) : Parser unit := λ s,
  match s with b :: r => if decide (b = c) then Some (tt, r) else None | [] => None end.

Definition digit_val (radix : N) (b : byte) : option N :=
  n ← hex_val b; if (n <? radix)%N then Some n else None.

(** The longest run of digits, at most [max]: its value, their number, whether the
    bound was passed. *)
Fixpoint read_digits (radix bound : N) (max : nat) (s : list byte) (acc : N) (count : nat) {struct s} :
    option (N * nat * list byte) :=
  match s with
  | b :: r =>
    match digit_val radix b with
    | None => Some (acc, count, s)
    | Some d =>
      match max with
      | O => None
      | S max =>
        let acc := (acc * radix + d)%N in
        if (acc <? bound)%N then read_digits radix bound max r acc (S count) else None
      end
    end
  | [] => Some (acc, count, s)
  end.

(** [read_number] with [max_digits] *)
Definition read_number (radix bound : N) (max : nat) (allow_zero_prefix : bool) : Parser N := λ s,
  match read_digits radix bound max s 0 0 with
  | Some (n, count, r) =>
    if count =? 0 then None
    else if negb allow_zero_prefix && bool_decide (head s = Some x30) && (1 <? count) then None
    else Some (n, r)
  | None => None
  end.

(** [read_separator]: the separator comes before every element but the first. *)
Definition read_separator {A} (sep : byte) (index : nat) (p : Parser A) : Parser A := λ s,
  match index with
  | O => p s
  | S _ => match read_char sep s with Some (_, r) => p r | None => None end
  end.

Definition read_ipv4_addr : Parser (N * N * N * N) := λ s,
  let octet := read_number 10 256 3 false in
  '(a, s) ← read_separator x2e 0 octet s;
  '(b, s) ← read_separator x2e 1 octet s;
  '(c, s) ← read_separator x2e 2 octet s;
  '(d, s) ← read_separator x2e 3 octet s;
  Some (a, b, c, d, s).

(** [read_groups] into the groups from [i] on, [n] of them; whether it ended with an
    IPv4 address. *)
Fixpoint read_groups (n i : nat) (s : list byte) : list N * bool * list byte :=
  match n with
  | O => ([], false, s)
  | S n' =>
    match (if 0 <? n' then read_separator x3a i read_ipv4_addr s else None) with
    | Some (a, b, c, d, s) => ([a * 256 + b; c * 256 + d]%N, true, s)
    | None =>
      match read_separator x3a i (read_number 16 65536 4 true) s with
      | Some (g, s) => let '(gs, v4, s) := read_groups n' (S i) s in (g :: gs, v4, s)
      | None => ([], false, s)
      end
    end
  end.

Definition read_ipv6_addr : Parser (list N) := λ s,
  let '(head, head_ipv4, s) := read_groups 8 0 s in
  if length head =? 8 then Some (head, s) else
  if head_ipv4 : bool then None else
  '(_, s) ← read_char x3a s;
  '(_, s) ← read_char x3a s;
  let limit := 8 - (length head + 1) in
  let '(tail, _, s) := read_groups limit 0 s in
  Some (head ++ repeat 0%N (8 - length head - length tail) ++ tail, s).

(** [str::parse::<IpAddr>] *)
Definition parse_ip (s : list byte) : option IpAddr :=
  '(ip, r) ← match read_ipv4_addr s with
             | Some (a, b, c, d, r) => Some (V4 a b c d, r)
             | None => match read_ipv6_addr s with Some (g, r) => Some (V6 g, r) | None => None end
             end;
  match r with [] => Some ip | _ :: _ => None end.

Definition is_loopback (ip : IpAddr) : bool :=
  match ip with
  | V4 a _ _ _ => (a =? 127)%N
  | V6 g => bool_decide (g = [0; 0; 0; 0; 0; 0; 0; 1])%N
  end.

Definition print_v4 (a b c d : N) : list byte := dec a ++ x2e :: dec b ++ x2e :: dec c ++ x2e :: dec d.

(** ** Lemmas *)

Example parse_ip_v6 : parse_ip (text "0:0::1") = Some (V6 [0; 0; 0; 0; 0; 0; 0; 1]%N).
Proof. reflexivity. Qed.
Example parse_ip_mapped : parse_ip (text "::ffff:127.0.0.1") = Some (V6 [0; 0; 0; 0; 0; 65535; 32512; 1]%N).
Proof. reflexivity. Qed.
Example parse_ip_zero : parse_ip (text "127.0.0.01") = None.
Proof. reflexivity. Qed.
Example parse_ip_full : parse_ip (text "1:2:3:4:5:6:7:8") = Some (V6 [1; 2; 3; 4; 5; 6; 7; 8]%N).
Proof. reflexivity. Qed.

(** An octet reads back before a dot or the end. *)
Lemma read_octet_table : forallb (λ n : nat,
  bool_decide (read_number 10 256 3 false (dec (N.of_nat n) ++ [x2e]) = Some (N.of_nat n, [x2e])) &&
  bool_decide (read_number 10 256 3 false (dec (N.of_nat n)) = Some (N.of_nat n, []))) (seq 0 256) = true.
Proof. vm_compute. reflexivity. Qed.

Lemma read_digits_app radix bound max s rest acc count n c :
  digit_val radix x2e = None →
  read_digits radix bound max (s ++ [x2e]) acc count = Some (n, c, [x2e]) →
  read_digits radix bound max (s ++ x2e :: rest) acc count = Some (n, c, x2e :: rest).
Proof.
  intros Hd. revert max acc count. induction s as [|b s IH]; intros max acc count; cbn [app read_digits].
  - rewrite Hd. by intros [= -> ->].
  - destruct (digit_val radix b) as [d|].
    + destruct max; [done|]. destruct (_ <? bound)%N; [apply IH|done].
    + intros [= _ _ _ H]. by apply app_eq_nil in H as [_ [=]].
Qed.

Lemma read_octet n : (n < 256)%N →
  (∀ r, read_number 10 256 3 false (dec n ++ x2e :: r) = Some (n, x2e :: r)) ∧
  read_number 10 256 3 false (dec n) = Some (n, []).
Proof.
  intros Hn. pose proof read_octet_table as H.
  pose proof (proj1 (forallb_forall _ _) H (N.to_nat n)) as Ht. clear H.
  cbv beta in Ht. rewrite N2Nat.id in Ht. apply andb_true_iff in Ht as [H1%bool_decide_eq_true H2%bool_decide_eq_true];
    [|apply in_seq; lia].
  split; [|exact H2]. intros r. revert H1. unfold read_number.
  destruct (read_digits 10 256 3 (dec n ++ [x2e]) 0 0) as [[[m c] rest]|] eqn:Hd; [|done].
  assert (∀ l, head (l ++ x2e :: r) = head (l ++ [x2e])) as -> by (by intros [|? ?]).
  destruct (c =? 0) eqn:Hc; [done|]. destruct (_ && _ && _) eqn:Hz; [done|]. intros [= -> ->].
  rewrite (read_digits_app _ _ _ _ r _ _ _ _ eq_refl Hd). by rewrite Hc, Hz.
Qed.

(** The address a socket prints parses back. *)
Lemma parse_ip_v4 a b c d : (a < 256)%N → (b < 256)%N → (c < 256)%N → (d < 256)%N →
  parse_ip (print_v4 a b c d) = Some (V4 a b c d).
Proof.
  intros Ha Hb Hc Hd. unfold parse_ip, read_ipv4_addr, print_v4, read_separator, read_char.
  rewrite (proj1 (read_octet a Ha)). cbn [mbind option_bind].
  rewrite decide_True by done. rewrite (proj1 (read_octet b Hb)). cbn [mbind option_bind].
  rewrite decide_True by done. rewrite (proj1 (read_octet c Hc)). cbn [mbind option_bind].
  rewrite decide_True by done. by rewrite (proj2 (read_octet d Hd)).
Qed.
