(* ===== verification/Json.v ===== *)
(** * JSON values ([serde_json::Value])

    The tree of a parsed document and its accessors, as the appliance handlers of
    [crates/td-node/src/rpc.rs] use them on files whose fields they do not know in
    full.  An object is the sorted map of [serde_json] without [preserve_order]. *)

From S2P Require Import Prelude Text.

(** [VOther]: a number that is not in [u64]. *)
Inductive Jv : Type :=
| VNull
| VBool (b : bool)
| VNumber (n : N)
| VOther (raw : list byte)
| VString (s : list byte)
| VArray (l : list Jv)
| VObject (l : list (list byte * Jv)).

(** [str]'s [Ord]: bytewise, lexicographic. *)
Fixpoint str_lt (a b : list byte) : bool :=
  match a, b with
  | _, [] => false
  | [], _ :: _ => true
  | x :: a, y :: b =>
    if (Byte.to_N x =? Byte.to_N y)%N then str_lt a b else (Byte.to_N x <? Byte.to_N y)%N
  end.

(** [BTreeMap::insert] *)
Fixpoint obj_insert (k : list byte) (v : Jv) (l : list (list byte * Jv)) : list (list byte * Jv) :=
  match l with
  | [] => [(k, v)]
  | (k', v') :: r =>
    if decide (k = k') then (k, v) :: r
    else if str_lt k k' then (k, v) :: l
    else (k', v') :: obj_insert k v r
  end.

Fixpoint obj_get (k : list byte) (l : list (list byte * Jv)) : option Jv :=
  match l with
  | [] => None
  | (k', v) :: l => if decide (k = k') then Some v else obj_get k l
  end.

(** [Value::get] with a string key, [as_str], [as_u64], [as_bool] *)
Definition jv_get (v : Jv) (k : list byte) : option Jv :=
  match v with VObject l => obj_get k l | _ => None end.
Definition as_str (v : Jv) : option (list byte) := match v with VString s => Some s | _ => None end.
Definition as_u64 (v : Jv) : option N := match v with VNumber n => Some n | _ => None end.
Definition as_bool (v : Jv) : option bool := match v with VBool b => Some b | _ => None end.

(** [json!({ .. })] *)
Definition jobj (l : list (list byte * Jv)) : Jv :=
  VObject (foldl (λ m x, obj_insert x.1 x.2 m) [] l).
(** The value of an [Option]. *)
Definition jopt {A} (f : A → Jv) (x : option A) : Jv := match x with Some a => f a | None => VNull end.

(** The keys of every object are in strict order. *)
Fixpoint keys_sorted (l : list (list byte)) : bool :=
  match l with
  | [] => true
  | k :: l => match l with [] => true | k' :: _ => str_lt k k' end && keys_sorted l
  end.
Fixpoint jv_ok (v : Jv) : bool :=
  match v with
  | VArray l => forallb jv_ok l
  | VObject l => keys_sorted (map fst l) && forallb (λ x, jv_ok x.2) l
  | _ => true
  end.

(** [serde_json::from_str::<Value>] and [to_vec_pretty] *)
Class JvText : Type := {
  jv_from_str : list byte → option Jv;
  jv_pretty : Jv → list byte;
}.
(** A printed value is UTF-8 and parses to itself. *)
Class JvTextLaws `{!JvText} : Prop := {
  jv_from_pretty v : jv_ok v = true → jv_from_str (jv_pretty v) = Some v;
  jv_pretty_utf8 v : is_utf8 (jv_pretty v) = true;
}.

(** ** Lemmas *)

Lemma obj_get_insert k k' v l : obj_get k (obj_insert k' v l) =
  if decide (k = k') then Some v else obj_get k l.
Proof.
  induction l as [|[k1 v1] l IH]; [done|]. cbn. destruct (decide (k' = k1)) as [<-|Hne]; cbn.
  - by destruct (decide (k = k')).
  - destruct (str_lt k' k1); cbn; [done|]. rewrite IH.
    destruct (decide (k = k1)) as [->|]; [|done]. by rewrite (decide_False (P:=k1 = k')) by congruence.
Qed.

(** The field of a literal object: the last one of that name. *)
Lemma jobj_get l k v : jv_get (jobj (l ++ [(k, v)])) k = Some v.
Proof. unfold jobj; cbn. rewrite foldl_app; cbn. by rewrite obj_get_insert, decide_True. Qed.

Lemma str_lt_trans a b c : str_lt a b = true → str_lt b c = true → str_lt a c = true.
Proof.
  revert b c. induction a as [|x a IH]; intros [|y b] [|z c]; cbn; try done.
  destruct (N.eqb_spec (Byte.to_N x) (Byte.to_N y)), (N.eqb_spec (Byte.to_N y) (Byte.to_N z)),
    (N.eqb_spec (Byte.to_N x) (Byte.to_N z)); rewrite ?N.ltb_lt; try lia; eauto.
Qed.
Lemma str_lt_total a b : a ≠ b → str_lt a b = false → str_lt b a = true.
Proof.
  revert b. induction a as [|x a IH]; intros [|y b] Hne; cbn; try done.
  destruct (N.eqb_spec (Byte.to_N x) (Byte.to_N y)) as [He|He];
    destruct (N.eqb_spec (Byte.to_N y) (Byte.to_N x)); rewrite ?N.ltb_ge, ?N.ltb_lt; try lia.
  intros H. apply IH; [|done]. intros ->. apply Hne. f_equal.
  apply (f_equal Byte.of_N) in He. rewrite !Byte.of_to_N in He. congruence.
Qed.

Lemma keys_sorted_cons k l : keys_sorted (k :: l) = true ↔
  match l with [] => True | k' :: _ => str_lt k k' = true end ∧ keys_sorted l = true.
Proof. cbn. rewrite andb_true_iff. by destruct l. Qed.

(** Insertion keeps an object in order. *)
Lemma obj_insert_sorted k v l : keys_sorted (map fst l) = true →
  keys_sorted (map fst (obj_insert k v l)) = true ∧
  (∀ x, match map fst l with [] => True | y :: _ => str_lt x y = true end → str_lt x k = true →
     match map fst (obj_insert k v l) with [] => True | y :: _ => str_lt x y = true end).
Proof.
  induction l as [|[k1 v1] l IH]; intros Hs; [by split|]. cbn [obj_insert].
  cbn [map fst] in Hs. apply keys_sorted_cons in Hs as [Hh Ht]. destruct (IH Ht) as [IH1 IH2].
  destruct (decide (k = k1)) as [->|Hne]; [|destruct (str_lt k k1) eqn:Hlt]; cbn [map fst].
  - split; [by apply keys_sorted_cons|done].
  - split; [apply keys_sorted_cons; split; [done|by apply keys_sorted_cons]|done].
  - split; [|done]. apply keys_sorted_cons. split; [|done]. apply IH2; [exact Hh|by apply str_lt_total].
Qed.

Lemma obj_insert_ok k v l : jv_ok (VObject l) = true → jv_ok v = true →
  jv_ok (VObject (obj_insert k v l)) = true.
Proof.
  cbn [jv_ok]. rewrite !andb_true_iff. intros [Hs Hv] Hok. split; [by apply obj_insert_sorted|].
  clear Hs. induction l as [|[k1 v1] l IH]; cbn in *; [by rewrite Hok|].
  apply andb_true_iff in Hv as [H1 H2]. destruct (decide (k = k1)); [by cbn; rewrite Hok|].
  destruct (str_lt k k1); cbn; [by rewrite Hok, H1|]. by rewrite H1, IH.
Qed.

(** A literal object with good fields is good. *)
Lemma jobj_ok l : forallb (λ x, jv_ok x.2) l = true → jv_ok (jobj l) = true.
Proof.
  unfold jobj. assert (jv_ok (VObject []) = true) as H0 by done. revert H0. generalize (@nil (list byte * Jv)).
  induction l as [|[k v] l IH]; intros m Hm; [done|]. cbn [forallb foldl snd fst].
  intros [Hv Hl]%andb_true_iff. apply IH; [|done]. by apply obj_insert_ok.
Qed.
