(* ===== verification/Crypto.v ===== *)
(** * External primitives

    The interfaces of the third-party crates the program calls, as type
    classes: the operations are arguments of every definition that uses them,
    and the [...Laws] classes state the documented behaviour the proofs use.
    [Concrete.v] has an instance of each. *)

From S2P Require Import Prelude.

(** ** [blake3] and [ed25519_dalek] *)

Abbreviation bytes64 := (array 64).

Class Crypto : Type := {
  (** [*blake3::hash(m).as_bytes()] *)
  blake3 : list byte → bytes32;
  SigningKey : Type;
  VerifyingKey : Type;
  (** [SigningKey::verifying_key] *)
  verifying_key : SigningKey → VerifyingKey;
  (** [*VerifyingKey::as_bytes] and [VerifyingKey::from_bytes] *)
  vk_as_bytes : VerifyingKey → bytes32;
  vk_from_bytes : bytes32 → option VerifyingKey;
  (** [Signer::sign(..).to_bytes()] *)
  ed_sign : SigningKey → list byte → bytes64;
  (** [Verifier::verify(..).is_ok()] on [Signature::from_bytes] *)
  ed_verify : VerifyingKey → list byte → bytes64 → bool;
}.

Class CryptoLaws `{!Crypto} : Prop := {
  vk_from_as_bytes vk : vk_from_bytes (vk_as_bytes vk) = Some vk;
  vk_as_from_bytes b vk : vk_from_bytes b = Some vk → vk_as_bytes vk = b;
  ed_verify_sign sk m : ed_verify (verifying_key sk) m (ed_sign sk m) = true;
}.

(** Signing keys and their 32-byte seeds ([SigningKey::from_bytes], [to_bytes]). *)
Class KeyBytes `{!Crypto} : Type := {
  sk_from_bytes : bytes32 → SigningKey;
  sk_to_bytes : SigningKey → bytes32;
}.
Class KeyBytesLaws `{!Crypto, !KeyBytes} : Prop := {
  sk_from_to_bytes sk : sk_from_bytes (sk_to_bytes sk) = sk;
}.

(** ** [hex]: lower-case encoding, and decoding or the text of its error *)

Class Hex : Type := {
  hex_encode : list byte → list byte;
  hex_decode : list byte → result (list byte) (list byte);
}.
Class HexLaws `{!Hex} : Prop := {
  hex_decode_encode b : hex_decode (hex_encode b) = Ok b;
}.

(** ** [serde_json]

    [serde_json::to_vec] and [from_slice] at one type.  Serialisation of a
    value whose derived [Serialize] contains no map cannot fail (the crate
    documents the two failing cases), so [to_vec] is total. *)

Class Encode (A : Type) : Type := to_vec : A → list byte.
Class Decode (A : Type) : Type := from_slice : list byte → option A.

(** Distinct values have distinct JSON texts. *)
Class EncodeInj (A : Type) `{!Encode A} : Prop :=
  #[global] to_vec_inj :: Inj (=) (=) (to_vec (A:=A)).

(** Parsing a printed value gives it back. *)
Class CodecLaws (A : Type) `{!Encode A, !Decode A} : Prop :=
  from_slice_to_vec (a : A) : from_slice (to_vec a) = Some a.

#[global] Instance codec_inj `{CodecLaws A} : EncodeInj A.
Proof.
  intros a b Hab. apply (f_equal from_slice) in Hab.
  rewrite !from_slice_to_vec in Hab. congruence.
Qed.
