(* ===== verification/Event.v ===== *)
(** * Signed events ([crates/td-event/src/event.rs])

    Identifiers, the event records, the canonical encodings and the
    [sign_event]/[verify_event] pair. *)

From S2P Require Import Prelude Crypto.

(** ** Data *)

Record EventId : Type := mkEventId { EventId_0 : bytes32 }.
Record RoomId : Type := mkRoomId { RoomId_0 : bytes32 }.
Record DeviceId : Type := mkDeviceId { DeviceId_0 : bytes32 }.

Inductive EventKind : Type :=
| CreateRoom
| Membership
| Message
| DeviceLink
| Custom.

Record UnsignedEvent : Type := mkUnsignedEvent {
  ue_room_id : RoomId;
  ue_parents : list EventId;
  ue_kind : EventKind;
  ue_payload : list byte;
  ue_author_device : DeviceId;
  ue_ts_ms : N;
}.

Record SignedEvent : Type := mkSignedEvent {
  se_id : EventId;
  se_room_id : RoomId;
  se_parents : list EventId;
  se_kind : EventKind;
  se_payload : list byte;
  se_author_device : DeviceId;
  se_ts_ms : N;
  se_author_vk : bytes32;
  se_signature : list byte;
}.

Inductive EventError : Type :=
| EventSerde
| InvalidVerifyingKey
| InvalidSignature
| IdMismatch
| AuthorMismatch.

#[global] Instance EventId_eq_dec : EqDecision EventId.
Proof. solve_decision. Defined.
#[global] Instance RoomId_eq_dec : EqDecision RoomId.
Proof. solve_decision. Defined.
#[global] Instance DeviceId_eq_dec : EqDecision DeviceId.
Proof. solve_decision. Defined.
#[global] Program Instance EventId_countable : Countable EventId :=
  inj_countable' EventId_0 mkEventId _.
Next Obligation. by intros []. Qed.
#[global] Program Instance RoomId_countable : Countable RoomId :=
  inj_countable' RoomId_0 mkRoomId _.
Next Obligation. by intros []. Qed.
#[global] Program Instance DeviceId_countable : Countable DeviceId :=
  inj_countable' DeviceId_0 mkDeviceId _.
Next Obligation. by intros []. Qed.
#[global] Instance EventKind_eq_dec : EqDecision EventKind.
Proof. solve_decision. Defined.
#[global] Instance UnsignedEvent_eq_dec : EqDecision UnsignedEvent.
Proof. solve_decision. Defined.
#[global] Instance SignedEvent_eq_dec : EqDecision SignedEvent.
Proof. solve_decision. Defined.
#[global] Instance EventError_eq_dec : EqDecision EventError.
Proof. solve_decision. Defined.

(** The local [struct Body] of [body_bytes] and [struct Canon] of
    [canonical_bytes]: the fields the two encodings cover, in order. *)
Record Body : Type := mkBody {
  body_room_id : RoomId;
  body_parents : list EventId;
  body_kind : EventKind;
  body_payload : list byte;
  body_author_device : DeviceId;
  body_ts_ms : N;
  body_author_vk : bytes32;
}.

Record Canon : Type := mkCanon {
  canon_room_id : RoomId;
  canon_parents : list EventId;
  canon_kind : EventKind;
  canon_payload : list byte;
  canon_author_device : DeviceId;
  canon_ts_ms : N;
  canon_author_vk : bytes32;
  canon_signature : list byte;
}.

(** What the event code uses of its environment. *)
Class EventEnv : Type := {
  env_crypto :: Crypto;
  env_body :: Encode Body;
  env_canon :: Encode Canon;
}.
Class EventEnvLaws `{!EventEnv} : Prop := {
  env_crypto_laws :: CryptoLaws;
  env_body_laws :: EncodeInj Body;
  env_canon_laws :: EncodeInj Canon;
}.

Section event.
  Context {ENV : EventEnv}.

Definition DeviceId_from_verifying_key (vk : VerifyingKey) : DeviceId :=
  mkDeviceId (blake3 (array_bytes (vk_as_bytes vk))).

Definition event_id_from_bytes (bytes : list byte) : EventId :=
  mkEventId (blake3 bytes).

Definition body_bytes (ev : UnsignedEvent) (author_vk : bytes32) :
    result EventError (list byte) :=
  Ok (to_vec {|
    body_room_id := ue_room_id ev;
    body_parents := ue_parents ev;
    body_kind := ue_kind ev;
    body_payload := ue_payload ev;
    body_author_device := ue_author_device ev;
    body_ts_ms := ue_ts_ms ev;
    body_author_vk := author_vk |}).

Definition canonical_bytes (ev : SignedEvent) : list byte :=
  to_vec {|
    canon_room_id := se_room_id ev;
    canon_parents := se_parents ev;
    canon_kind := se_kind ev;
    canon_payload := se_payload ev;
    canon_author_device := se_author_device ev;
    canon_ts_ms := se_ts_ms ev;
    canon_author_vk := se_author_vk ev;
    canon_signature := se_signature ev |}.

Definition sign_event (sk : SigningKey) (unsigned : UnsignedEvent) :
    result EventError SignedEvent :=
  let vk := verifying_key sk in
  let author_vk := vk_as_bytes vk in
  let expected_device := DeviceId_from_verifying_key vk in
  if decide (ue_author_device unsigned ≠ expected_device) then Err AuthorMismatch else
  let? body := body_bytes unsigned author_vk in
  let sig := ed_sign sk body in
  let signed id := {|
    se_id := id;
    se_room_id := ue_room_id unsigned;
    se_parents := ue_parents unsigned;
    se_kind := ue_kind unsigned;
    se_payload := ue_payload unsigned;
    se_author_device := ue_author_device unsigned;
    se_ts_ms := ue_ts_ms unsigned;
    se_author_vk := author_vk;
    se_signature := array_bytes sig |} in
  let canon := canonical_bytes (signed (mkEventId (repeat_array 32 x00))) in
  Ok (signed (event_id_from_bytes canon)).

Definition unsigned_of (ev : SignedEvent) : UnsignedEvent := {|
  ue_room_id := se_room_id ev;
  ue_parents := se_parents ev;
  ue_kind := se_kind ev;
  ue_payload := se_payload ev;
  ue_author_device := se_author_device ev;
  ue_ts_ms := se_ts_ms ev |}.

Definition verify_event (ev : SignedEvent) : result EventError unit :=
  let? vk := ok_or (vk_from_bytes (se_author_vk ev)) InvalidVerifyingKey in
  let device := DeviceId_from_verifying_key vk in
  if decide (device ≠ se_author_device ev) then Err AuthorMismatch else
  let? body := body_bytes (unsigned_of ev) (se_author_vk ev) in
  let? sig := ok_or (try_into_array 64 (se_signature ev)) InvalidSignature in
  if negb (ed_verify vk body sig) then Err InvalidSignature else
  let id := event_id_from_bytes (canonical_bytes ev) in
  if decide (id ≠ se_id ev) then Err IdMismatch else
  Ok tt.

(** An event that passes [verify_event], as a predicate. *)
Definition verified (ev : SignedEvent) : Prop := verify_event ev = Ok tt.

#[export] Instance verified_dec ev : Decision (verified ev).
Proof. unfold verified. apply _. Defined.

(** ** What verification establishes *)

Lemma verify_event_Ok ev u : verify_event ev = Ok u → verified ev.
Proof. by destruct u. Qed.

(** The facts [verify_event] checks, as an abstract specification: a key, a
    matching author, a signature of 64 bytes over the body, a content id. *)
Inductive event_valid (ev : SignedEvent) : Prop :=
| event_valid_intro vk sig body :
    vk_from_bytes (se_author_vk ev) = Some vk →
    DeviceId_from_verifying_key vk = se_author_device ev →
    body_bytes (unsigned_of ev) (se_author_vk ev) = Ok body →
    array_bytes sig = se_signature ev →
    ed_verify vk body sig = true →
    se_id ev = event_id_from_bytes (canonical_bytes ev) →
    event_valid ev.

Lemma verified_valid ev : verified ev → event_valid ev.
Proof.
  unfold verified, verify_event. intros H.
  apply bind_ok_inv in H as (vk & Hvk%ok_or_ok_inv & H).
  destruct (decide (_ ≠ se_author_device ev)) as [|Hdev]; [discriminate|].
  apply bind_ok_inv in H as (body & Hbody & H).
  apply bind_ok_inv in H as (sig & Hsig%ok_or_ok_inv & H).
  destruct (ed_verify vk body sig) eqn:Hv; [|discriminate]. cbn in H.
  destruct (decide (_ ≠ se_id ev)) as [|Hid]; [discriminate|].
  apply try_into_array_Some in Hsig.
  apply dec_stable in Hdev. apply dec_stable in Hid.
  by econstructor.
Qed.

Lemma valid_verified ev : event_valid ev → verified ev.
Proof.
  destruct 1 as [vk sig body Hvk Hdev Hbody Hsig Hv Hid].
  unfold verified, verify_event. rewrite Hvk. cbn.
  rewrite decide_False by (intros Hne; by apply Hne).
  unfold body_bytes in Hbody |- *. injection Hbody as Hbody. cbn. rewrite Hbody.
  rewrite <-Hsig, try_into_array_bytes. cbn. rewrite Hv. cbn.
  rewrite decide_False; [done|]. intros Hne. by apply Hne.
Qed.

Lemma verified_id ev : verified ev → se_id ev = event_id_from_bytes (canonical_bytes ev).
Proof. by intros [????????]%verified_valid. Qed.

Lemma canonical_bytes_inj `{EI : !EncodeInj Canon} ev ev' :
  se_id ev = se_id ev' → canonical_bytes ev = canonical_bytes ev' → ev = ev'.
Proof.
  intros Hid Hc. unfold canonical_bytes in Hc. apply to_vec_inj in Hc.
  destruct ev, ev'; cbn in *. congruence.
Qed.

Lemma content_address `{EI : !EncodeInj Canon} ev ev' :
  verified ev → verified ev' → se_id ev = se_id ev' →
  ev = ev' ∨
  (canonical_bytes ev ≠ canonical_bytes ev' ∧
   blake3 (canonical_bytes ev) = blake3 (canonical_bytes ev')).
Proof.
  intros H%verified_id H'%verified_id Hid.
  destruct (decide (canonical_bytes ev = canonical_bytes ev')) as [Hc|Hc].
  - left. by apply canonical_bytes_inj.
  - right. split; [done|]. rewrite Hid, H' in H. by injection H.
Qed.

(** The success and failure of [sign_event]. *)
Lemma sign_event_author sk unsigned :
  is_ok (sign_event sk unsigned) = true ↔
  ue_author_device unsigned = DeviceId_from_verifying_key (verifying_key sk).
Proof.
  unfold sign_event. destruct (decide _) as [Hne|Heq]; cbn.
  - split; [discriminate|done].
  - apply dec_stable in Heq. done.
Qed.

Lemma sign_event_Ok sk unsigned signed :
  sign_event sk unsigned = Ok signed →
  unsigned_of signed = unsigned ∧
  se_author_device signed = DeviceId_from_verifying_key (verifying_key sk) ∧
  se_author_vk signed = vk_as_bytes (verifying_key sk) ∧
  se_id signed = event_id_from_bytes (canonical_bytes signed).
Proof.
  unfold sign_event. destruct (decide _) as [Hne|Heq]; [discriminate|].
  apply dec_stable in Heq. cbn. intros [= <-].
  unfold unsigned_of; cbn. destruct unsigned; cbn in *. auto.
Qed.

Lemma sign_event_verified `{CL : !CryptoLaws} sk unsigned signed :
  sign_event sk unsigned = Ok signed → verified signed.
Proof.
  intros H. apply valid_verified.
  pose proof (sign_event_Ok _ _ _ H) as (Hun & Hdev & Hvk & Hid).
  unfold sign_event in H. destruct (decide _) as [Hne|Heq]; [discriminate|].
  cbn in H. injection H as H.
  eapply (event_valid_intro _ (verifying_key sk)).
  - rewrite Hvk. apply vk_from_as_bytes.
  - done.
  - reflexivity.
  - subst signed; cbn. reflexivity.
  - rewrite Hun, Hvk. unfold body_bytes. apply ed_verify_sign.
  - done.
Qed.

(** Events made by [sign_event] pass [verify_event], carry the caller's
    fields unchanged, are attributed to the signing key and are addressed by
    the hash of their canonical bytes; signing fails exactly when the claimed
    author is another device. *)
Lemma sign_event_correct `{CL : !CryptoLaws} (sk : SigningKey) (unsigned : UnsignedEvent) :
  (ue_author_device unsigned ≠ DeviceId_from_verifying_key (verifying_key sk) ∧
   sign_event sk unsigned = Err AuthorMismatch) ∨
  (∃ signed, sign_event sk unsigned = Ok signed ∧
    verify_event signed = Ok tt ∧
    unsigned_of signed = unsigned ∧
    se_author_vk signed = vk_as_bytes (verifying_key sk) ∧
    se_id signed = event_id_from_bytes (canonical_bytes signed)).
Proof.
  destruct (decide (ue_author_device unsigned =
    DeviceId_from_verifying_key (verifying_key sk))) as [Heq|Hne].
  - right. apply sign_event_author in Heq as Hok.
    destruct (sign_event sk unsigned) as [signed|] eqn:H; [|discriminate].
    exists signed. pose proof (sign_event_Ok _ _ _ H) as (?&?&?&?).
    pose proof (sign_event_verified _ _ _ H). done.
  - left. split; [done|]. unfold sign_event. by rewrite decide_True.
Qed.

(** C15: [verify_event] accepts exactly the events that meet the abstract
    specification [event_valid]. *)
Theorem verify_event_refines (ev : SignedEvent) :
  verify_event ev = Ok tt ↔ event_valid ev.
Proof. split; [apply verified_valid | apply valid_verified]. Qed.

(** Ids are content addresses: two verified events with the same id are
    the same event, unless their canonical encodings are an explicit blake3
    collision. *)
Lemma event_id_content_address `{EI : !EncodeInj Canon} (ev ev' : SignedEvent) :
  verify_event ev = Ok tt → verify_event ev' = Ok tt → se_id ev = se_id ev' →
  ev = ev' ∨
  (canonical_bytes ev ≠ canonical_bytes ev' ∧
   blake3 (canonical_bytes ev) = blake3 (canonical_bytes ev')).
Proof. apply content_address. Qed.

(** The signature binds every field: an event that keeps the key, the
    author and the signature of a verified event but changes its content
    verifies only with a signature that is valid for two different bodies. *)
Lemma verify_event_binds `{EI : !EncodeInj Body} (ev ev' : SignedEvent) :
  verify_event ev = Ok tt → verify_event ev' = Ok tt →
  se_author_vk ev' = se_author_vk ev → se_signature ev' = se_signature ev →
  ev = ev' ∨
  (∃ vk sig body body', body ≠ body' ∧
    vk_from_bytes (se_author_vk ev) = Some vk ∧ array_bytes sig = se_signature ev ∧
    ed_verify vk body sig = true ∧ ed_verify vk body' sig = true).
Proof.
  intros Hv Hv' Hvk Hsig.
  pose proof (verified_id _ Hv) as Hid. pose proof (verified_id _ Hv') as Hid'.
  destruct (verified_valid _ Hv) as [vk sig body H1 H2 H3 H4 H5 _].
  destruct (verified_valid _ Hv') as [vk' sig' body' H1' H2' H3' H4' H5' _].
  rewrite Hvk, H1 in H1'. injection H1' as <-.
  rewrite Hsig, <-H4 in H4'. apply (inj _) in H4' as ->.
  destruct (decide (body = body')) as [->|Hne]; [|right; by exists vk, sig, body, body'].
  left. unfold body_bytes in H3, H3'. rewrite <-H3' in H3. injection H3 as H3.
  apply to_vec_inj in H3.
  assert (canonical_bytes ev = canonical_bytes ev') as Hc.
  { unfold canonical_bytes. unfold unsigned_of in H3. cbn in H3.
    destruct ev, ev'; cbn in *. congruence. }
  rewrite Hc, <-Hid' in Hid.
  destruct ev, ev'; cbn in *. unfold unsigned_of in H3; cbn in H3. congruence.
Qed.

End event.

#[export] Hint Resolve verified_valid valid_verified verify_event_Ok : td.
