(* ===== verification/Dag.v ===== *)
(** * The per-room causal DAG ([crates/td-event/src/dag.rs]) *)

From S2P Require Import Prelude Crypto Event.

Inductive DagError : Type :=
| DagEvent (e : EventError)
| RoomMismatch
| MissingParent (id : EventId).

#[global] Instance DagError_eq_dec : EqDecision DagError.
Proof. solve_decision. Defined.

Record RoomDag : Type := mkRoomDag {
  dag_room_id : option RoomId;
  dag_events : gmap EventId SignedEvent;
  dag_children : gmap EventId (list EventId);
}.

Section dag.
  Context {ENV : EventEnv} {HI : HashIter}.

(** ** Operations *)

Definition RoomDag_default : RoomDag := mkRoomDag None ∅ ∅.

Definition RoomDag_new (room_id : RoomId) : RoomDag := mkRoomDag (Some room_id) ∅ ∅.

Definition RoomDag_len (self : RoomDag) : nat := size (dag_events self).

Definition RoomDag_is_empty (self : RoomDag) : bool := bool_decide (dag_events self = ∅).

Definition RoomDag_get (self : RoomDag) (id : EventId) : option SignedEvent :=
  dag_events self !! id.

Definition no_children (self : RoomDag) (id : EventId) : bool :=
  match dag_children self !! id with
  | Some v => match v with [] => true | _ => false end
  | None => true
  end.

Definition tips (self : RoomDag) : list EventId :=
  filter (λ id, no_children self id = true) (map_keys (dag_events self)).

Definition contains_key (self : RoomDag) (id : EventId) : bool :=
  bool_decide (is_Some (dag_events self !! id)).

(** [self.children.entry(p).or_default().push(id)] *)
Definition push_child (id : EventId) (children : gmap EventId (list EventId)) (p : EventId) :
    gmap EventId (list EventId) :=
  <[p := default [] (children !! p) ++ [id]]> children.

(** The first parent that is not in the DAG. *)
Fixpoint find_missing (self : RoomDag) (parents : list EventId) : option EventId :=
  match parents with
  | [] => None
  | p :: ps => if contains_key self p then find_missing self ps else Some p
  end.

Definition with_room (self : RoomDag) (r : RoomId) : RoomDag :=
  {| dag_room_id := Some r; dag_events := dag_events self; dag_children := dag_children self |}.

(** The insertion at the end of [ingest]: children of every parent, then the event. *)
Definition insert_event (self : RoomDag) (ev : SignedEvent) : RoomDag :=
  {| dag_room_id := dag_room_id self;
     dag_events := <[se_id ev := ev]> (dag_events self);
     dag_children := foldl (push_child (se_id ev)) (dag_children self) (se_parents ev) |}.

(** The tail of [ingest], after the room has been checked or adopted. *)
Definition ingest_checked (self : RoomDag) (ev : SignedEvent) :
    result DagError bool * RoomDag :=
  if contains_key self (se_id ev) then (Ok false, self) else
  match find_missing self (se_parents ev) with
  | Some p => (Err (MissingParent p), self)
  | None => (Ok true, insert_event self ev)
  end.

Definition ingest (self : RoomDag) (ev : SignedEvent) : result DagError bool * RoomDag :=
  match verify_event ev with
  | Err e => (Err (DagEvent e), self)
  | Ok _ =>
    match dag_room_id self with
    | Some rid =>
      if decide (se_room_id ev ≠ rid) then (Err RoomMismatch, self)
      else ingest_checked self ev
    | None => ingest_checked (with_room self (se_room_id ev)) ev
    end
  end.

(** ** The invariant *)

(** [c] is listed as a child of [p] exactly when [c] is an event of the DAG
    that names [p] as a parent. *)
Definition children_exact (d : RoomDag) : Prop :=
  ∀ p c, c ∈ default [] (dag_children d !! p) ↔
    ∃ ev, dag_events d !! c = Some ev ∧ p ∈ se_parents ev.

(** A rank that decreases along parent links: the graph is acyclic. *)
Definition ranked (E : gmap EventId SignedEvent) (rank : EventId → nat) : Prop :=
  ∀ id ev p, E !! id = Some ev → p ∈ se_parents ev → rank p < rank id.

Record dag_wf (d : RoomDag) : Prop := {
  wf_keys : ∀ id ev, dag_events d !! id = Some ev → se_id ev = id;
  wf_verified : ∀ id ev, dag_events d !! id = Some ev → verified ev;
  wf_room : ∀ id ev, dag_events d !! id = Some ev → dag_room_id d = Some (se_room_id ev);
  wf_parents : ∀ id ev p, dag_events d !! id = Some ev → p ∈ se_parents ev →
    is_Some (dag_events d !! p);
  wf_children : children_exact d;
  wf_acyclic : ∃ rank, ranked (dag_events d) rank;
}.

Lemma contains_key_true d id : contains_key d id = true ↔ is_Some (dag_events d !! id).
Proof. unfold contains_key. apply bool_decide_eq_true. Qed.

Lemma contains_key_false d id : contains_key d id = false ↔ dag_events d !! id = None.
Proof. unfold contains_key. rewrite bool_decide_eq_false, eq_None_not_Some. done. Qed.

Lemma find_missing_None d ps :
  find_missing d ps = None ↔ ∀ p, p ∈ ps → is_Some (dag_events d !! p).
Proof.
  induction ps as [|p ps IH]; cbn.
  - split; [intros _ p []%not_elem_of_nil | done].
  - destruct (contains_key d p) eqn:Hp.
    + apply contains_key_true in Hp. rewrite IH. set_solver.
    + apply contains_key_false in Hp. split; [done|].
      intros H. destruct (H p) as [? ?]; [set_solver | congruence].
Qed.

Lemma find_missing_Some d ps p :
  find_missing d ps = Some p → p ∈ ps ∧ dag_events d !! p = None.
Proof.
  induction ps as [|q ps IH]; cbn; [done|].
  destruct (contains_key d q) eqn:Hq.
  - intros [? ?]%IH. set_solver.
  - intros [= <-]. apply contains_key_false in Hq. set_solver.
Qed.

Lemma dag_wf_empty r : dag_wf (mkRoomDag r ∅ ∅).
Proof.
  split; cbn; try (intros * H; by rewrite lookup_empty in H).
  - intros p c; cbn. rewrite lookup_empty; cbn. split.
    + intros []%not_elem_of_nil.
    + intros (ev & Hev & _). by rewrite lookup_empty in Hev.
  - exists (λ _, 0). intros ??? H. by rewrite lookup_empty in H.
Qed.

(** The children lists after [insert_event]. *)
Lemma push_children_lookup id ps (m : gmap EventId (list EventId)) p c :
  c ∈ default [] (foldl (push_child id) m ps !! p) ↔
  c ∈ default [] (m !! p) ∨ (c = id ∧ p ∈ ps).
Proof.
  revert m. induction ps as [|q ps IH]; intros m; cbn.
  - set_solver.
  - rewrite IH. unfold push_child. destruct (decide (q = p)) as [->|Hne].
    + rewrite lookup_insert_eq; cbn. set_solver.
    + rewrite lookup_insert_ne by done. set_solver.
Qed.

Lemma insert_event_wf d ev :
  dag_wf d → verified ev → dag_room_id d = Some (se_room_id ev) →
  dag_events d !! se_id ev = None → find_missing d (se_parents ev) = None →
  dag_wf (insert_event d ev).
Proof.
  intros [W1 W2 W3 W4 W5 [rank W6]] Hv Hr Hnew Hps.
  rewrite find_missing_None in Hps.
  assert (∀ id e, <[se_id ev := ev]> (dag_events d) !! id = Some e →
    (id = se_id ev ∧ e = ev) ∨ (id ≠ se_id ev ∧ dag_events d !! id = Some e)) as Hcase.
  { intros id e. rewrite lookup_insert. case_decide; naive_solver. }
  assert (∀ p, is_Some (dag_events d !! p) → p ≠ se_id ev) as Hold.
  { intros p [e He] ->. congruence. }
  split; cbn.
  - intros id e [[-> ->]|[_ ?]]%Hcase; eauto.
  - intros id e [[-> ->]|[_ ?]]%Hcase; eauto.
  - intros id e [[-> ->]|[_ ?]]%Hcase; eauto.
  - intros id e p He Hp. assert (is_Some (dag_events d !! p)) as HS.
    { apply Hcase in He as [[-> ->]|[_ ?]]; eauto. }
    rewrite lookup_insert_ne; [done | by apply not_eq_sym, Hold].
  - intros p c; cbn. rewrite push_children_lookup. rewrite (W5 p c). split.
    + intros [(e & He & Hp)|[-> Hp]].
      * exists e. rewrite lookup_insert_ne; [done|]. apply not_eq_sym, Hold; eauto.
      * exists ev. by rewrite lookup_insert_eq.
    + intros (e & [[-> ->]|[_ ?]]%Hcase & Hp); [by right | left; eauto].
  - exists (λ id, if decide (id = se_id ev)
      then S (max_list (rank <$> se_parents ev)) else rank id).
    intros id e p [[-> ->]|[Hne He]]%Hcase Hp.
    + rewrite decide_False by (apply Hold; eauto). rewrite decide_True by done.
      apply Nat.lt_succ_r, max_list_elem_of_le. apply list_elem_of_fmap. eauto.
    + rewrite decide_False by (apply Hold; eauto). rewrite decide_False by done. eauto.
Qed.

Lemma with_room_wf d ev : dag_wf d → dag_room_id d = None → dag_wf (with_room d (se_room_id ev)).
Proof.
  intros [W1 W2 W3 W4 W5 W6] Hr. split; cbn; eauto.
  intros id e He. apply W3 in He. congruence.
Qed.

(** ** Behaviour of [ingest] *)

(** The room adopted by a DAG made with [Default]. *)
Definition adopt (d : RoomDag) (ev : SignedEvent) : RoomDag :=
  match dag_room_id d with Some _ => d | None => with_room d (se_room_id ev) end.

Lemma adopt_events d ev : dag_events (adopt d ev) = dag_events d.
Proof. unfold adopt. by destruct (dag_room_id d). Qed.
Lemma adopt_children d ev : dag_children (adopt d ev) = dag_children d.
Proof. unfold adopt. by destruct (dag_room_id d). Qed.
Lemma adopt_wf d ev : dag_wf d → dag_wf (adopt d ev).
Proof.
  intros Hd. unfold adopt. destruct (dag_room_id d) eqn:Hr; [done|]. by apply with_room_wf.
Qed.

(** Same room, or no room yet. *)
Definition room_ok (d : RoomDag) (ev : SignedEvent) : Prop :=
  dag_room_id d = None ∨ dag_room_id d = Some (se_room_id ev).

#[export] Instance room_ok_dec d ev : Decision (room_ok d ev).
Proof. unfold room_ok. apply _. Defined.

Lemma adopt_room d ev : room_ok d ev → dag_room_id (adopt d ev) = Some (se_room_id ev).
Proof. unfold adopt. intros [H|H]; by rewrite H. Qed.

(** The outcomes of [ingest], one per branch of the code. *)
Inductive ingest_outcome (d : RoomDag) (ev : SignedEvent) :
    result DagError bool * RoomDag → Prop :=
| outcome_event e : verify_event ev = Err e → ingest_outcome d ev (Err (DagEvent e), d)
| outcome_room : verified ev → ¬ room_ok d ev → ingest_outcome d ev (Err RoomMismatch, d)
| outcome_dup : verified ev → room_ok d ev → is_Some (dag_events d !! se_id ev) →
    ingest_outcome d ev (Ok false, adopt d ev)
| outcome_missing p : verified ev → room_ok d ev → dag_events d !! se_id ev = None →
    p ∈ se_parents ev → dag_events d !! p = None →
    ingest_outcome d ev (Err (MissingParent p), adopt d ev)
| outcome_new : verified ev → room_ok d ev → dag_events d !! se_id ev = None →
    (∀ p, p ∈ se_parents ev → is_Some (dag_events d !! p)) →
    ingest_outcome d ev (Ok true, insert_event (adopt d ev) ev).

Lemma ingest_room_ok d ev :
  verified ev → room_ok d ev → ingest d ev = ingest_checked (adopt d ev) ev.
Proof.
  unfold verified, ingest, room_ok, adopt. intros -> [Hr|Hr]; rewrite Hr; [done|].
  rewrite decide_False; [done|]. intros H; by apply H.
Qed.

Lemma ingest_outcomes d ev : ingest_outcome d ev (ingest d ev).
Proof.
  destruct (verify_event ev) as [[]|e] eqn:Hv.
  2: { unfold ingest. rewrite Hv. by constructor. }
  destruct (decide (room_ok d ev)) as [Hr|Hr].
  2: { unfold ingest. rewrite Hv. destruct (dag_room_id d) as [rid|] eqn:Hrid.
       - rewrite decide_True; [by constructor|].
         intros Heq. apply Hr. right. congruence.
       - exfalso. apply Hr. by left. }
  rewrite ingest_room_ok by done. unfold ingest_checked.
  destruct (contains_key (adopt d ev) (se_id ev)) eqn:Hc.
  - apply contains_key_true in Hc. rewrite adopt_events in Hc. by constructor.
  - apply contains_key_false in Hc. rewrite adopt_events in Hc.
    destruct (find_missing (adopt d ev) (se_parents ev)) as [p|] eqn:Hm.
    + apply find_missing_Some in Hm as [? Hm]. rewrite adopt_events in Hm.
      by constructor.
    + rewrite find_missing_None in Hm. setoid_rewrite adopt_events in Hm.
      by constructor.
Qed.

Lemma outcome_new_wf d ev :
  dag_wf d → verified ev → room_ok d ev → dag_events d !! se_id ev = None →
  (∀ p, p ∈ se_parents ev → is_Some (dag_events d !! p)) →
  dag_wf (insert_event (adopt d ev) ev).
Proof.
  intros Hd Hv Hr Hn Hp. apply insert_event_wf.
  - by apply adopt_wf.
  - done.
  - by apply adopt_room.
  - by rewrite adopt_events.
  - rewrite find_missing_None. by setoid_rewrite adopt_events.
Qed.

Lemma ingest_preserves_wf d ev : dag_wf d → dag_wf (ingest d ev).2.
Proof.
  intros Hd. destruct (ingest_outcomes d ev); cbn;
    auto using adopt_wf, outcome_new_wf.
Qed.

(** Inversion of a successful [ingest]. *)
Lemma ingest_Ok_true d ev d' : ingest d ev = (Ok true, d') →
  verified ev ∧ room_ok d ev ∧ dag_events d !! se_id ev = None ∧
  (∀ p, p ∈ se_parents ev → is_Some (dag_events d !! p)) ∧
  d' = insert_event (adopt d ev) ev.
Proof.
  intros H. pose proof (ingest_outcomes d ev) as Ho. rewrite H in Ho.
  inversion Ho; subst; auto.
Qed.

Lemma ingest_events d ev r d' : ingest d ev = (r, d') →
  dag_events d' = match r with Ok true => <[se_id ev := ev]> (dag_events d) | _ => dag_events d end.
Proof.
  intros H. pose proof (ingest_outcomes d ev) as Ho. rewrite H in Ho.
  inversion Ho; subst; cbn; auto using adopt_events. by rewrite adopt_events.
Qed.

Lemma ingest_new_Ok d ev :
  verified ev → room_ok d ev → dag_events d !! se_id ev = None →
  (∀ p, p ∈ se_parents ev → is_Some (dag_events d !! p)) →
  ingest d ev = (Ok true, insert_event (adopt d ev) ev).
Proof.
  intros Hv Hr Hn Hp. destruct (ingest_outcomes d ev) as [e He| |_ _ [? ?]|p ? ? ? Hin Hm|];
    unfold verified in *; try congruence; try contradiction.
  destruct (Hp p Hin); congruence.
Qed.

Lemma ingest_room d ev : (ingest d ev).2 = d ∨ dag_room_id (ingest d ev).2 = Some (se_room_id ev).
Proof.
  destruct (ingest_outcomes d ev); cbn; auto using adopt_room.
Qed.

Lemma ingest_keeps_room d ev r :
  dag_room_id d = Some r → dag_room_id (ingest d ev).2 = Some r.
Proof.
  intros Hr. destruct (ingest_outcomes d ev); cbn; unfold adopt; by rewrite Hr.
Qed.

Lemma ingest_grows d ev : dag_events d ⊆ dag_events (ingest d ev).2.
Proof.
  destruct (ingest_outcomes d ev); cbn; rewrite ?adopt_events; try done.
  by apply insert_subseteq.
Qed.

Lemma ingest_old_tips d ev r d' :
  ingest d ev = (r, d') → r ≠ Ok true → tips d' = tips d.
Proof.
  intros H Hr. pose proof (ingest_outcomes d ev) as Ho. rewrite H in Ho.
  inversion Ho; subst; try done; unfold adopt; by destruct (dag_room_id d).
Qed.

(** ** Tips *)

Lemma no_children_spec d id : dag_wf d →
  no_children d id = true ↔
  ∀ c ev, dag_events d !! c = Some ev → id ∉ se_parents ev.
Proof.
  intros [_ _ _ _ W _]. unfold no_children. specialize (W id).
  destruct (dag_children d !! id) as [[|x v]|]; cbn in W.
  - split; [|done]. intros _ c ev Hc Hin.
    destruct (not_elem_of_nil c). apply W. eauto.
  - split; [done|]. intros H. destruct (proj1 (W x)) as (ev & Hev & Hin); [set_solver|].
    by destruct (H x ev).
  - split; [|done]. intros _ c ev Hc Hin.
    destruct (not_elem_of_nil c). apply W. eauto.
Qed.

Lemma elem_of_tips d id : dag_wf d →
  id ∈ tips d ↔ is_Some (dag_events d !! id) ∧
    ∀ c ev, dag_events d !! c = Some ev → id ∉ se_parents ev.
Proof.
  intros Hd. unfold tips. rewrite list_elem_of_filter, elem_of_map_keys.
  rewrite no_children_spec by done. tauto.
Qed.

(** Parenthood in the DAG, and ancestry as its closure. *)
Definition parent_of (d : RoomDag) (p c : EventId) : Prop :=
  ∃ ev, dag_events d !! c = Some ev ∧ p ∈ se_parents ev.

Lemma max_rank (E : gmap EventId SignedEvent) (rank : EventId → nat) id :
  is_Some (E !! id) → rank id ≤ max_list (rank <$> (map_to_list E).*1).
Proof.
  intros [e He]. apply max_list_elem_of_le, list_elem_of_fmap.
  exists id. split; [done|]. apply list_elem_of_fmap. exists (id, e).
  by rewrite elem_of_map_to_list.
Qed.

(** From any event a chain of children leads to a tip: by induction on the
    distance of the rank to its maximum. *)
Lemma tip_above d id : dag_wf d → is_Some (dag_events d !! id) →
  ∃ t, t ∈ tips d ∧ rtc (parent_of d) id t.
Proof.
  intros Hd. destruct (wf_acyclic d Hd) as [rank Hr].
  set (M := max_list (rank <$> (map_to_list (dag_events d)).*1)).
  remember (M - rank id) as k eqn:Hk. revert id Hk.
  induction k as [k IH] using lt_wf_ind. intros id -> Hid.
  destruct (no_children d id) eqn:Hn.
  - exists id. split; [|done]. apply elem_of_tips; [done|].
    split; [done|]. by apply no_children_spec.
  - assert (¬ ∀ c ev, dag_events d !! c = Some ev → id ∉ se_parents ev) as Hnot.
    { rewrite <-no_children_spec by done. congruence. }
    unfold no_children in Hn.
    destruct (dag_children d !! id) as [[|c v]|] eqn:Hch; try done.
    destruct (proj1 (wf_children d Hd id c)) as (ev & Hev & Hin).
    { rewrite Hch; cbn. set_solver. }
    pose proof (Hr _ _ _ Hev Hin). assert (rank c ≤ M) by (apply max_rank; eauto).
    destruct (IH (M - rank c)) with (id := c) as (t & Ht & Hpath); eauto; [lia|].
    exists t. split; [done|]. eapply rtc_l; [|done]. by exists ev.
Qed.

(** Paths of parent links never close. *)
Lemma parent_path_acyclic d p c : dag_wf d →
  parent_of d p c → ¬ rtc (parent_of d) c p.
Proof.
  intros Hd Hpc. destruct (wf_acyclic d Hd) as [rank Hr].
  assert (∀ a b, parent_of d a b → rank a < rank b) as Hlt.
  { intros a b (ev & Hev & Hin). eauto. }
  assert (∀ a b, rtc (parent_of d) a b → rank a ≤ rank b) as Hle.
  { induction 1 as [|a b c' Hab _ IH]; [done|]. apply Hlt in Hab. lia. }
  intros Hcp%Hle. apply Hlt in Hpc. lia.
Qed.

(** A new event replaces its parents among the tips. *)
Lemma elem_of_tips_ingest (d : RoomDag) (ev : SignedEvent) (d' : RoomDag) (id : EventId) :
  dag_wf d → ingest d ev = (Ok true, d') →
  id ∈ tips d' ↔ id = se_id ev ∨ (id ∈ tips d ∧ id ∉ se_parents ev).
Proof.
  intros Hd H. pose proof (ingest_preserves_wf d ev Hd) as Hd'. rewrite H in Hd'.
  pose proof (ingest_events _ _ _ _ H) as He.
  apply ingest_Ok_true in H as (_ & _ & Hnew & Hps & _).
  rewrite !elem_of_tips, He by done. clear Hd'.
  assert (∀ c e, dag_events d !! c = Some e → se_id ev ∉ se_parents e) as Hfresh.
  { intros c e Hc Hin. destruct (wf_parents d Hd c e _ Hc Hin). congruence. }
  assert (se_id ev ∉ se_parents ev) as Hself.
  { intros Hin. destruct (Hps _ Hin). congruence. }
  rewrite lookup_insert_is_Some. setoid_rewrite lookup_insert_Some. split.
  - intros [[->|[_ Hid]] Hall]; [by left|]. right. split_and!; [done| |naive_solver].
    intros c e Hc. apply (Hall c). right. split; [congruence|done].
  - intros [->|[[Hid Hall] Hn]].
    + split; [by left|]. intros c e [[_ <-]|[_ ?]]; eauto.
    + assert (id ≠ se_id ev) by (intros ->; destruct Hid; congruence).
      split; [by right|]. intros c e [[_ <-]|[_ ?]]; eauto.
Qed.

(** The events of a DAG determine its tips, up to the unspecified order. *)
Lemma tips_determined d d' :
  dag_wf d → dag_wf d' → dag_events d = dag_events d' → tips d ≡ₚ tips d'.
Proof.
  intros Hd Hd' He. apply NoDup_Permutation.
  1,2: by apply list.NoDup_filter, NoDup_map_keys.
  intros id. rewrite !elem_of_tips by done. by rewrite He.
Qed.

(** ** Sequences of ingests *)

(** Ingests a list of events, stopping at the first error. *)
Fixpoint ingest_all (d : RoomDag) (l : list SignedEvent) : option RoomDag :=
  match l with
  | [] => Some d
  | ev :: l => match ingest d ev with (Ok _, d') => ingest_all d' l | (Err _, _) => None end
  end.

(** No two different events of [S] share an id. *)
Definition no_collision (S : SignedEvent → Prop) : Prop :=
  ∀ e e', S e → S e' → se_id e = se_id e' → e = e'.

Lemma ingest_Ok_events d ev b d' :
  (∀ e, dag_events d !! se_id ev = Some e → e = ev) →
  ingest d ev = (Ok b, d') → dag_events d' = <[se_id ev := ev]> (dag_events d).
Proof.
  intros Hc H. pose proof (ingest_outcomes d ev) as Ho. rewrite H in Ho.
  inversion Ho as [| |_ _ [e He]| |]; subst; cbn; rewrite adopt_events; [|done].
  symmetry. apply insert_id. rewrite He. f_equal. by apply Hc.
Qed.

Lemma ingest_all_events d l d' :
  (∀ id e, dag_events d !! id = Some e → se_id e = id) →
  no_collision (λ e, e ∈ l ∨ ∃ id, dag_events d !! id = Some e) →
  ingest_all d l = Some d' →
  ∀ id e, dag_events d' !! id = Some e ↔
    dag_events d !! id = Some e ∨ (e ∈ l ∧ se_id e = id).
Proof.
  revert d. induction l as [|ev l IH]; intros d Hk Hc H id e; cbn in H.
  - injection H as ->. set_solver.
  - destruct (ingest d ev) as [[b|] d1] eqn:Hi; [|done].
    assert (∀ e, dag_events d !! se_id ev = Some e → e = ev) as Hsame.
    { intros e0 He0. apply Hc; [right; eauto | left; set_solver | by apply Hk]. }
    pose proof (ingest_Ok_events _ _ _ _ Hsame Hi) as He1.
    rewrite (IH d1); [| | |done]; rewrite ?He1.
    + rewrite lookup_insert_Some. split.
      * set_solver.
      * intros [H0|[[->|?]%elem_of_cons <-]]; [|set_solver..].
        destruct (decide (se_id ev = id)) as [<-|]; [|set_solver].
        left; left. split; [done|]. symmetry; by apply Hsame.
    + intros i x. rewrite lookup_insert_Some. intros [[<- <-]|[_ ?]]; eauto.
    + intros x y Hx Hy. assert (∀ z, z ∈ l ∨ (∃ i, <[se_id ev := ev]> (dag_events d) !! i = Some z) →
        z ∈ ev :: l ∨ ∃ i, dag_events d !! i = Some z) as Hz.
      { intros z [?|[i [[_ <-]|[_ ?]]%lookup_insert_Some]]; [left; set_solver|left; set_solver|eauto]. }
      apply Hc; auto.
Qed.

Lemma ingest_all_wf d l d' : dag_wf d → ingest_all d l = Some d' → dag_wf d'.
Proof.
  revert d. induction l as [|ev l IH]; intros d Hd; cbn; [by intros [= <-]|].
  pose proof (ingest_preserves_wf d ev Hd) as Hwf.
  destruct (ingest d ev) as [[b|] d1]; [|done]. by apply IH.
Qed.

(** ** Theorems *)

(** C14: [ingest] preserves the DAG invariant: every stored event is verified,
    belongs to the room, is stored under its own id, has all its parents
    stored, the children index is exact, and the graph is acyclic. *)
Theorem ingest_invariant (d : RoomDag) (ev : SignedEvent) :
  dag_wf d → dag_wf (ingest d ev).2.
Proof. apply ingest_preserves_wf. Qed.

(** The result of [ingest] on every branch, with the state it leaves:
    unverified events and foreign rooms leave the DAG as it was, a duplicate
    is [Ok(false)], a missing parent is named by the error, and only a new
    event whose parents are all present changes the events. *)
Lemma ingest_functional (d : RoomDag) (ev : SignedEvent) :
  let '(r, d') := ingest d ev in
  (∀ e, r = Err (DagEvent e) ↔ verify_event ev = Err e) ∧
  (r = Err RoomMismatch ↔ verified ev ∧ ¬ room_ok d ev) ∧
  (r = Ok false ↔ verified ev ∧ room_ok d ev ∧ is_Some (dag_events d !! se_id ev)) ∧
  (r = Ok true ↔ verified ev ∧ room_ok d ev ∧ dag_events d !! se_id ev = None ∧
     ∀ p, p ∈ se_parents ev → is_Some (dag_events d !! p)) ∧
  (∀ p, r = Err (MissingParent p) → p ∈ se_parents ev ∧ dag_events d !! p = None) ∧
  dag_events d' = match r with
                  | Ok true => <[se_id ev := ev]> (dag_events d)
                  | _ => dag_events d
                  end.
Proof.
  pose proof (ingest_outcomes d ev) as Ho.
  assert (∀ p, p ∈ se_parents ev → dag_events d !! p = None →
    ¬ ∀ p, p ∈ se_parents ev → is_Some (dag_events d !! p)) as Habs.
  { intros p Hin Hp H. destruct (H p Hin). congruence. }
  destruct (ingest d ev) as [r d'] eqn:Hi.
  split_and!; [..|by eapply ingest_events]; clear Hi;
    inversion Ho; subst; unfold verified in *;
    repeat split; intros; destruct_and?; simplify_eq; eauto; try congruence;
    exfalso; try match goal with H : is_Some _ |- _ => destruct H; congruence end;
    eauto. by eapply Habs.
Qed.

(** Ingesting an event a second time reports a duplicate and changes
    nothing. *)
Lemma ingest_idempotent (d : RoomDag) (ev : SignedEvent) (b : bool) (d' : RoomDag) :
  ingest d ev = (Ok b, d') → ingest d' ev = (Ok false, d').
Proof.
  intros H. pose proof (ingest_outcomes d ev) as Ho. rewrite H in Ho.
  assert (verified ev ∧ room_ok d ev ∧ dag_room_id d' = Some (se_room_id ev) ∧
    is_Some (dag_events d' !! se_id ev)) as (Hv & Hr & Hr' & Hin).
  { inversion Ho; subst; rewrite ?adopt_events; cbn;
      rewrite ?adopt_room, ?lookup_insert_eq; eauto. }
  rewrite ingest_room_ok by (unfold room_ok; auto).
  unfold adopt, ingest_checked. rewrite Hr'.
  by apply contains_key_true in Hin as ->.
Qed.

(** The tips of a well-formed DAG are exactly its events that are no
    event's parent, each listed once; every event is an ancestor of a tip, so a
    non-empty DAG has one. *)
Lemma tips_maximal (d : RoomDag) :
  dag_wf d →
  NoDup (tips d) ∧
  (∀ id, id ∈ tips d ↔ is_Some (dag_events d !! id) ∧ ∀ c, ¬ parent_of d id c) ∧
  (∀ id, is_Some (dag_events d !! id) → ∃ t, t ∈ tips d ∧ rtc (parent_of d) id t).
Proof.
  intros Hd. split_and!.
  - by apply list.NoDup_filter, NoDup_map_keys.
  - intros id. rewrite elem_of_tips by done. unfold parent_of. naive_solver.
  - intros id. by apply tip_above.
Qed.

(** After a new event is ingested it is a tip, its parents are not, and
    every other event keeps its status. *)
Lemma ingest_tips (d : RoomDag) (ev : SignedEvent) (d' : RoomDag) (id : EventId) :
  dag_wf d → ingest d ev = (Ok true, d') →
  id ∈ tips d' ↔ id = se_id ev ∨ (id ∈ tips d ∧ id ∉ se_parents ev).
Proof. apply elem_of_tips_ingest. Qed.

(** C40: ingestion is confluent: two orders of the same events that both go
    through leave the same events and the same tips, when no two of the events
    share an id. *)
Theorem ingest_order_independent (d : RoomDag) (l l' : list SignedEvent) (d1 d2 : RoomDag) :
  dag_wf d → l ≡ₚ l' →
  no_collision (λ e, e ∈ l ∨ ∃ id, dag_events d !! id = Some e) →
  ingest_all d l = Some d1 → ingest_all d l' = Some d2 →
  dag_events d1 = dag_events d2 ∧ tips d1 ≡ₚ tips d2.
Proof.
  intros Hd Hl Hc H1 H2.
  assert (dag_events d1 = dag_events d2) as He.
  { apply map_eq. intros id. apply option_eq. intros e.
    rewrite (ingest_all_events _ _ _ (wf_keys d Hd) Hc H1).
    rewrite (ingest_all_events d l' d2); [by rewrite Hl|apply Hd| |done].
    intros x y. rewrite <-!Hl. apply Hc. }
  split; [done|]. apply tips_determined; eauto using ingest_all_wf.
Qed.

End dag.

#[export] Hint Resolve dag_wf_empty ingest_preserves_wf : td.
