(* ===== verification/Store.v ===== *)
(** * Event stores ([crates/td-event/src/store.rs])

    The [EventStore] trait as a type class with its contract, its two
    implementations, and the queries of the SQLite store.  The contract is an
    append-only log of verified events keyed by id ([log_wf]); both
    implementations refine it. *)

From S2P Require Import Prelude Crypto Event.

(** ** The SQLite database

    [rusqlite] is a parameter: one operation per SQL statement of the file. *)

Class EventsDb : Type := {
  Connection : Type;
  DbError : Type;
  IoError : Type;
  FsPath : Type;
  (** [path.parent()], [create_dir_all], [Connection::open],
      [Connection::open_in_memory], [execute_batch] of the schema *)
  path_parent : FsPath → option FsPath;
  create_dir_all : FsPath → result IoError unit;
  connection_open : FsPath → result DbError Connection;
  connection_open_in_memory : result DbError Connection;
  execute_schema : Connection → result DbError Connection;
  (** [INSERT OR IGNORE INTO events (id, room_id, body)]: rows changed *)
  insert_or_ignore : Connection → list byte → list byte → list byte →
    result DbError N * Connection;
  (** [SELECT body FROM events]: the statement, then a result per row *)
  select_bodies : Connection → result DbError (list (result DbError (list byte)));
  (** [SELECT body FROM events WHERE id = ?1], [.optional()] *)
  select_body : Connection → list byte → result DbError (option (list byte));
  (** [SELECT COUNT( * ) FROM events] *)
  select_count : Connection → result DbError Z;
}.

(** The documented behaviour of these statements on the table [db_rows], a map
    from the primary key to the other two columns.  Any statement may fail; a
    failed insertion changes nothing. *)
Class EventsDbLaws `{!EventsDb} : Type := {
  db_rows : Connection → gmap (list byte) (list byte * list byte);
  insert_or_ignore_spec c id room body :
    match insert_or_ignore c id room body with
    | (Err _, c') => db_rows c' = db_rows c
    | (Ok n, c') =>
      match db_rows c !! id with
      | Some _ => n = 0%N ∧ db_rows c' = db_rows c
      | None => n = 1%N ∧ db_rows c' = <[id := (room, body)]> (db_rows c)
      end
    end;
  select_body_spec c id o : select_body c id = Ok o → o = snd <$> db_rows c !! id;
  select_bodies_spec c rs l : select_bodies c = Ok rs → rs = Ok <$> l →
    l ≡ₚ (map_to_list (db_rows c)).*2.*2;
  select_count_spec c n : select_count c = Ok n → n = Z.of_nat (size (db_rows c));
  execute_schema_spec c c' : execute_schema c = Ok c' → db_rows c' = db_rows c;
  open_in_memory_spec c : connection_open_in_memory = Ok c → db_rows c = ∅;
}.

Inductive StoreError `{EventsDb} : Type :=
| StoreEvent (e : EventError)
| StoreDb (e : DbError)
| StoreIo (e : IoError).

(** What the store code uses of its environment. *)
Class StoreEnv : Type := {
  store_event :: EventEnv;
  store_db :: EventsDb;
  store_encode :: Encode SignedEvent;
  store_decode :: Decode SignedEvent;
}.
Class StoreEnvLaws `{!StoreEnv} : Type := {
  store_db_laws :: EventsDbLaws;
  store_codec :: CodecLaws SignedEvent;
}.

(** ** The trait *)

Class EventStore `{StoreEnv} (S : Type) : Type := {
  put : S → SignedEvent → result StoreError bool * S;
  get : S → EventId → result StoreError (option SignedEvent);
}.

(** The abstract state of a store: verified events under their own ids. *)
Definition log_wf `{EventEnv} (M : gmap EventId SignedEvent) : Prop :=
  map_Forall (λ id ev, se_id ev = id ∧ verified ev) M.

(** The contract of the trait: [represents] relates a store to the log it
    holds; [put] refuses unverified events, never overwrites, and a failed
    [put] leaves the log as it was; [get] reads the log. *)
Class EventStoreLaws `{StoreEnv} (S : Type) `{!EventStore S} : Type := {
  represents : S → gmap EventId SignedEvent → Prop;
  represents_wf s M : represents s M → log_wf M;
  put_spec s M ev : represents s M →
    match put s ev with
    | (Ok true, s') => verified ev ∧ M !! se_id ev = None ∧
        represents s' (<[se_id ev := ev]> M)
    | (Ok false, s') => verified ev ∧ is_Some (M !! se_id ev) ∧ represents s' M
    | (Err _, s') => represents s' M
    end;
  put_unverified s ev e : verify_event ev = Err e → put s ev = (Err (StoreEvent e), s);
  get_spec s M id o : represents s M → get s id = Ok o → o = M !! id;
}.

Section store.
  Context {SE : StoreEnv}.

Lemma log_wf_empty : log_wf ∅.
Proof. apply map_Forall_empty. Qed.

Lemma log_wf_insert M ev : log_wf M → verified ev → log_wf (<[se_id ev := ev]> M).
Proof. intros HM Hv. by apply map_Forall_insert_2. Qed.

(** ** [MemoryStore] *)

Record MemoryStore : Type := mkMemoryStore { ms_map : gmap EventId SignedEvent }.

Definition MemoryStore_default : MemoryStore := mkMemoryStore ∅.

Definition MemoryStore_put (self : MemoryStore) (ev : SignedEvent) :
    result StoreError bool * MemoryStore :=
  match verify_event ev with
  | Err e => (Err (StoreEvent e), self)
  | Ok _ =>
    if bool_decide (is_Some (ms_map self !! se_id ev)) then (Ok false, self)
    else (Ok true, mkMemoryStore (<[se_id ev := ev]> (ms_map self)))
  end.

Definition MemoryStore_get (self : MemoryStore) (id : EventId) :
    result StoreError (option SignedEvent) :=
  Ok (ms_map self !! id).

#[export] Instance MemoryStore_EventStore : EventStore MemoryStore :=
  {| put := MemoryStore_put; get := MemoryStore_get |}.

(** ** [SqliteStore] *)

Record SqliteStore : Type := mkSqliteStore { sq_conn : Connection }.

Definition SqliteStore_open (path : FsPath) : result StoreError SqliteStore :=
  let? _ := match path_parent path with
            | Some parent => map_err StoreIo (create_dir_all parent)
            | None => Ok tt
            end in
  let? conn := map_err StoreDb (connection_open path) in
  let? conn := map_err StoreDb (execute_schema conn) in
  Ok (mkSqliteStore conn).

Definition SqliteStore_open_in_memory : result StoreError SqliteStore :=
  let? conn := map_err StoreDb connection_open_in_memory in
  let? conn := map_err StoreDb (execute_schema conn) in
  Ok (mkSqliteStore conn).

(** [a.parents.len().cmp(&b.parents.len()).then(a.ts_ms.cmp(&b.ts_ms))] *)
Definition event_order (a b : SignedEvent) : comparison :=
  cmp_then (Nat.compare (length (se_parents a)) (length (se_parents b)))
    (N.compare (se_ts_ms a) (se_ts_ms b)).

(** [serde_json::from_str(&body).map_err(EventError::from)?; verify_event(&ev)?] *)
Definition parse_row (body : list byte) : result StoreError SignedEvent :=
  let? ev := ok_or (from_slice body) (StoreEvent EventSerde) in
  let? _ := map_err StoreEvent (verify_event ev) in
  Ok ev.

(** The loop of [list_all] over the rows. *)
Fixpoint read_rows (rows : list (result DbError (list byte))) (out : list SignedEvent) :
    result StoreError (list SignedEvent) :=
  match rows with
  | [] => Ok out
  | r :: rows =>
    let? body := map_err StoreDb r in
    let? ev := parse_row body in
    read_rows rows (out ++ [ev])
  end.

Definition SqliteStore_list_all (self : SqliteStore) : result StoreError (list SignedEvent) :=
  let? rows := map_err StoreDb (select_bodies (sq_conn self)) in
  let? out := read_rows rows [] in
  Ok (sort_by event_order out).

Definition SqliteStore_count (self : SqliteStore) : result StoreError N :=
  let? n := map_err StoreDb (select_count (sq_conn self)) in
  Ok (i64_as_u64 n).

(** [id.0.as_slice()] *)
Definition key_of (id : EventId) : list byte := array_bytes (EventId_0 id).

Definition SqliteStore_put (self : SqliteStore) (ev : SignedEvent) :
    result StoreError bool * SqliteStore :=
  match verify_event ev with
  | Err e => (Err (StoreEvent e), self)
  | Ok _ =>
    let body := to_vec ev in
    let '(r, conn) := insert_or_ignore (sq_conn self)
      (key_of (se_id ev)) (array_bytes (RoomId_0 (se_room_id ev))) body in
    match r with
    | Err e => (Err (StoreDb e), mkSqliteStore conn)
    | Ok changed => (Ok (changed =? 1)%N, mkSqliteStore conn)
    end
  end.

Definition SqliteStore_get (self : SqliteStore) (id : EventId) :
    result StoreError (option SignedEvent) :=
  let? body := map_err StoreDb (select_body (sq_conn self) (key_of id)) in
  match body with
  | None => Ok None
  | Some s => let? ev := parse_row s in Ok (Some ev)
  end.

#[export] Instance SqliteStore_EventStore : EventStore SqliteStore :=
  {| put := SqliteStore_put; get := SqliteStore_get |}.

(** ** The memory store implements the contract *)

#[export] Instance MemoryStore_laws : EventStoreLaws MemoryStore.
Proof.
  refine {| represents s M := ms_map s = M ∧ log_wf M |}.
  - by intros s M [_ ?].
  - intros [m] M ev [<- Hwf]; cbn in *. unfold MemoryStore_put; cbn.
    destruct (verify_event ev) as [u|e] eqn:Hv; [|done].
    apply verify_event_Ok in Hv. case_bool_decide as Hin; [done|].
    apply eq_None_not_Some in Hin. split_and!; auto using log_wf_insert.
  - intros s ev e Hv; cbn. unfold MemoryStore_put. by rewrite Hv.
  - intros [m] M id o [<- _]. by intros [= <-].
Defined.

(** ** The SQLite store implements the contract *)

Context {SL : StoreEnvLaws}.

Definition row_of (ev : SignedEvent) : list byte * list byte :=
  (array_bytes (RoomId_0 (se_room_id ev)), to_vec ev).

#[local] Instance key_of_inj : Inj (=) (=) key_of.
Proof. intros [a] [b]; cbn. intros H. f_equal. by apply array_ext. Qed.

(** The table of a log. *)
Definition table_of (M : gmap EventId SignedEvent) : gmap (list byte) (list byte * list byte) :=
  kmap key_of (row_of <$> M).

Lemma table_of_lookup M id : table_of M !! key_of id = row_of <$> M !! id.
Proof. unfold table_of. by rewrite (lookup_kmap key_of), lookup_fmap. Qed.

Lemma table_of_insert M ev :
  table_of (<[se_id ev := ev]> M) = <[key_of (se_id ev) := row_of ev]> (table_of M).
Proof. unfold table_of. by rewrite fmap_insert, (kmap_insert key_of). Qed.

Lemma table_of_size M : size (table_of M) = size M.
Proof.
  unfold table_of. rewrite <-!length_map_to_list.
  rewrite (map_to_list_kmap key_of), length_fmap.
  by rewrite map_to_list_fmap, length_fmap.
Qed.

Lemma table_of_bodies M : (map_to_list (table_of M)).*2.*2 ≡ₚ to_vec <$> (map_to_list M).*2.
Proof.
  unfold table_of. rewrite (map_to_list_kmap key_of), map_to_list_fmap.
  rewrite <-!list_fmap_compose. apply reflexive_eq, list_fmap_ext.
  by intros i [id ev] _.
Qed.

(** The rows of the store are the table of a well-formed log. *)
Definition sqlite_represents (s : SqliteStore) (M : gmap EventId SignedEvent) : Prop :=
  log_wf M ∧ db_rows (sq_conn s) = table_of M.

Lemma parse_row_to_vec ev : verified ev → parse_row (to_vec ev) = Ok ev.
Proof. intros Hv. unfold parse_row. by rewrite from_slice_to_vec; cbn; rewrite Hv. Qed.

Lemma SqliteStore_put_cases s M ev : sqlite_represents s M → verified ev →
  (∃ e c, SqliteStore_put s ev = (Err (StoreDb e), mkSqliteStore c) ∧ db_rows c = table_of M) ∨
  (∃ c, SqliteStore_put s ev = (Ok false, mkSqliteStore c) ∧
     is_Some (M !! se_id ev) ∧ db_rows c = table_of M) ∨
  (∃ c, SqliteStore_put s ev = (Ok true, mkSqliteStore c) ∧
     M !! se_id ev = None ∧ db_rows c = table_of (<[se_id ev := ev]> M)).
Proof.
  intros [Hwf Hc] Hv. unfold SqliteStore_put. rewrite Hv.
  pose proof (insert_or_ignore_spec (sq_conn s) (key_of (se_id ev))
    (array_bytes (RoomId_0 (se_room_id ev))) (to_vec ev)) as Hi.
  destruct (insert_or_ignore _ _ _ _) as [[n|e] c].
  - rewrite Hc, table_of_lookup in Hi. destruct (M !! se_id ev); cbn in Hi.
    + destruct Hi as [-> Hr]. right; left. exists c. eauto.
    + destruct Hi as [-> Hr]. right; right. exists c. by rewrite table_of_insert.
  - left. exists e, c. by rewrite Hi.
Qed.

Lemma SqliteStore_get_spec s M id o :
  sqlite_represents s M → SqliteStore_get s id = Ok o → o = M !! id.
Proof.
  intros [Hwf Hc] H. unfold SqliteStore_get in H. inv_ok.
  match goal with H : select_body _ _ = Ok _ |- _ => apply select_body_spec in H as -> end.
  rewrite Hc, (table_of_lookup M id) in *.
  destruct (M !! id) as [ev|] eqn:Hid; cbn in *; [|congruence].
  inv_ok. rewrite parse_row_to_vec in * by apply (Hwf _ _ Hid). congruence.
Qed.

(** Writes fail only when the database does. *)
Lemma put_reliable (s : SqliteStore) ev :
  (∀ c id room body, is_ok (insert_or_ignore c id room body).1 = true) →
  verified ev → is_ok (put s ev).1 = true.
Proof.
  intros Hdb Hv. unfold put; cbn. unfold SqliteStore_put. rewrite Hv.
  specialize (Hdb (sq_conn s) (key_of (se_id ev)) (array_bytes (RoomId_0 (se_room_id ev))) (to_vec ev)).
  by destruct (insert_or_ignore _ _ _ _) as [[n|e] c].
Qed.

#[export] Instance SqliteStore_laws : EventStoreLaws SqliteStore.
Proof.
  refine {| represents := sqlite_represents |}.
  - by intros s M [? _].
  - intros s M ev HM; cbn. pose proof HM as [Hwf Hc].
    destruct (verify_event ev) as [u|e] eqn:Hv.
    + apply verify_event_Ok in Hv. unfold sqlite_represents.
      destruct (SqliteStore_put_cases s M ev HM Hv) as
        [(e & c & -> & ?)|[(c & -> & ? & ?)|(c & -> & ? & ?)]];
        split_and?; auto using log_wf_insert.
    + unfold SqliteStore_put. by rewrite Hv.
  - intros s ev e Hv; cbn. unfold SqliteStore_put. by rewrite Hv.
  - apply SqliteStore_get_spec.
Defined.

Lemma read_rows_verified l out :
  (∀ ev, ev ∈ l → verified ev) → read_rows (Ok <$> (to_vec <$> l)) out = Ok (out ++ l).
Proof.
  revert out. induction l as [|ev l IH]; intros out Hl; cbn; [by rewrite app_nil_r|].
  rewrite parse_row_to_vec by set_solver. cbn. rewrite IH by set_solver.
  by rewrite <-app_assoc.
Qed.

Lemma read_rows_all_ok rs out l : read_rows rs out = Ok l → ∃ bs, rs = Ok <$> bs.
Proof.
  revert out. induction rs as [|r rs IH]; intros out H; [by exists []|].
  cbn in H. inv_ok. match goal with H : read_rows _ _ = _ |- _ => apply IH in H as [bs ->] end.
  by eexists (_ :: bs).
Qed.

Lemma read_rows_fmap bs out l : read_rows (Ok <$> bs) out = Ok l →
  ∃ k, l = out ++ k ∧ Forall2 (λ b ev, parse_row b = Ok ev) bs k.
Proof.
  revert out. induction bs as [|b bs IH]; intros out H; cbn in H.
  - inv_ok. exists []. by rewrite app_nil_r.
  - inv_ok. match goal with H : read_rows _ _ = _ |- _ => apply IH in H as (k & -> & Hk) end.
    eexists (_ :: k). rewrite <-app_assoc. split; [done|]. by constructor.
Qed.

Lemma parse_rows_to_vec l k :
  (∀ ev, ev ∈ l → verified ev) → Forall2 (λ b ev, parse_row b = Ok ev) (to_vec <$> l) k → k = l.
Proof.
  revert k. induction l as [|ev l IH]; intros k Hl; cbn; inversion 1; subst; [done|].
  rewrite parse_row_to_vec in * by set_solver. inv_ok. f_equal. apply IH; set_solver.
Qed.

Lemma log_wf_values M ev : log_wf M → ev ∈ (map_to_list M).*2 → verified ev.
Proof.
  intros Hwf ([id e] & -> & Hin)%list_elem_of_fmap; cbn.
  apply elem_of_map_to_list in Hin. apply (Hwf _ _ Hin).
Qed.

Lemma list_all_spec s M l : sqlite_represents s M →
  SqliteStore_list_all s = Ok l → l ≡ₚ (map_to_list M).*2.
Proof.
  intros [Hwf Hc] H. unfold SqliteStore_list_all in H. inv_ok.
  rewrite sort_by_perm.
  match goal with H : read_rows _ _ = _ |- _ => rename H into Hread end.
  destruct (read_rows_all_ok _ _ _ Hread) as [bs ->].
  apply read_rows_fmap in Hread as (k & -> & Hk); cbn.
  match goal with H : select_bodies _ = _ |- _ => eapply select_bodies_spec in H; [|done] end.
  rewrite Hc, table_of_bodies in *.
  match goal with H : bs ≡ₚ _ |- _ => apply Permutation_map_inv in H as (l' & -> & Hl') end.
  rewrite Hl'. apply parse_rows_to_vec in Hk; [by rewrite Hk|].
  intros ev. rewrite <-Hl'. by apply log_wf_values.
Qed.

(** ** Theorems *)

Lemma event_order_total a b :
  cmp_le event_order a b = false → cmp_le event_order b a = true.
Proof.
  unfold cmp_le, event_order, cmp_then.
  destruct (Nat.compare_spec (length (se_parents a)) (length (se_parents b)));
  destruct (Nat.compare_spec (length (se_parents b)) (length (se_parents a)));
  destruct (N.compare_spec (se_ts_ms a) (se_ts_ms b));
  destruct (N.compare_spec (se_ts_ms b) (se_ts_ms a)); try done; lia.
Qed.

Lemma event_order_le a b : cmp_le event_order a b = true ↔
  length (se_parents a) < length (se_parents b) ∨
  (length (se_parents a) = length (se_parents b) ∧ (se_ts_ms a ≤ se_ts_ms b)%N).
Proof.
  unfold cmp_le, event_order, cmp_then.
  destruct (Nat.compare_spec (length (se_parents a)) (length (se_parents b)));
  destruct (N.compare_spec (se_ts_ms a) (se_ts_ms b)); (split; [intros|]); try done; lia.
Qed.

Lemma event_order_trans a b c :
  cmp_le event_order a b = true → cmp_le event_order b c = true →
  cmp_le event_order a c = true.
Proof. rewrite !event_order_le. lia. Qed.

Lemma event_order_sorted l :
  StronglySorted (λ a b, cmp_le event_order a b = true) (sort_by event_order l).
Proof. apply sort_by_sorted; [apply event_order_total | apply event_order_trans]. Qed.

(** C39: [SqliteStore] refines [MemoryStore]: on a database that holds the
    memory store's log, [put] and [get] return what the memory store returns
    and keep the two in step, or fail with a database error that leaves the
    log unchanged. *)
Theorem sqlite_refines_memory (s : SqliteStore) (m : MemoryStore) (ev : SignedEvent)
    (id : EventId) :
  sqlite_represents s (ms_map m) →
  let '(r, s') := SqliteStore_put s ev in
  let '(r', m') := MemoryStore_put m ev in
  ((∃ e, r = Err (StoreDb e) ∧ sqlite_represents s' (ms_map m)) ∨
   (r = r' ∧ sqlite_represents s' (ms_map m'))) ∧
  ((∃ e, SqliteStore_get s id = Err (StoreDb e)) ∨
   SqliteStore_get s id = MemoryStore_get m id).
Proof.
  intros HM. destruct (SqliteStore_put s ev) as [r s'] eqn:Hp.
  destruct (MemoryStore_put m ev) as [r' m'] eqn:Hp'. split.
  - unfold MemoryStore_put in Hp'. destruct (verify_event ev) as [u|e] eqn:Hv.
    2: { unfold SqliteStore_put in Hp. rewrite Hv in Hp. right. by simplify_eq. }
    apply verify_event_Ok in Hv. pose proof HM as [Hwf _].
    destruct (SqliteStore_put_cases s _ ev HM Hv) as
      [(e & c & Hs & ?)|[(c & Hs & Hin & ?)|(c & Hs & Hin & ?)]];
      rewrite Hs in Hp; simplify_eq; [left; by eexists|right..];
      case_bool_decide; simplify_eq; try by split.
    + by apply eq_None_not_Some in Hin.
    + split; [done|]. split; [by apply log_wf_insert|done].
  - destruct (SqliteStore_get s id) as [o|e] eqn:Hg.
    + right. apply (SqliteStore_get_spec _ _ _ _ HM) in Hg. by subst.
    + left. unfold SqliteStore_get in Hg. pose proof HM as [Hwf Hc].
      destruct (select_body _ _) as [o|e'] eqn:Hs; cbn in Hg; [|inv_ok; eauto].
      apply select_body_spec in Hs as ->. rewrite Hc, (table_of_lookup _ id) in Hg.
      destruct (ms_map m !! id) eqn:Hid; cbn in Hg; [|done].
      by rewrite parse_row_to_vec in Hg by apply (Hwf _ _ Hid).
Qed.

(** [list_all] returns every event of the log exactly once, all verified,
    sorted by number of parents and then by timestamp; [count] is their
    number. *)
Lemma list_all_correct (s : SqliteStore) (M : gmap EventId SignedEvent)
    (l : list SignedEvent) (n : N) :
  sqlite_represents s M →
  SqliteStore_list_all s = Ok l → SqliteStore_count s = Ok n → (U64 (N.of_nat (size M))) →
  l ≡ₚ (map_to_list M).*2 ∧ NoDup (se_id <$> l) ∧ Forall verified l ∧
  StronglySorted (λ a b, length (se_parents a) < length (se_parents b) ∨
    (length (se_parents a) = length (se_parents b) ∧ (se_ts_ms a ≤ se_ts_ms b)%N)) l ∧
  n = N.of_nat (length l).
Proof.
  intros HM Hl Hn HU. pose proof HM as [Hwf Hc].
  pose proof (list_all_spec _ _ _ HM Hl) as Hperm. split_and!; [done|..].
  - rewrite Hperm, <-list_fmap_compose.
    erewrite list_fmap_ext; [apply (NoDup_fst_map_to_list M)|].
    intros i [id ev] Hi%list_elem_of_lookup_2. apply elem_of_map_to_list in Hi. apply (Hwf _ _ Hi).
  - apply list.Forall_forall. intros ev Hin. rewrite Hperm in Hin. by eapply log_wf_values.
  - unfold SqliteStore_list_all in Hl. inv_ok.
    eapply StronglySorted_weaken; [|apply event_order_sorted]. intros a b. apply event_order_le.
  - rewrite Hperm, length_fmap, length_map_to_list.
    unfold SqliteStore_count in Hn. inv_ok.
    match goal with H : select_count _ = _ |- _ => apply select_count_spec in H as -> end.
    rewrite Hc, table_of_size. unfold i64_as_u64, U64 in *. rewrite Z.mod_small; lia.
Qed.

End store.

#[export] Hint Resolve log_wf_empty log_wf_insert : td.
