(* ===== verification/Room.v ===== *)
(** * Rooms and membership ([crates/td-event/src/room.rs])

    The membership state machine, folded from signed events by
    [apply_event], and the authoring operations [create_room] and
    [membership_event].  A Rust [String] is its UTF-8 bytes. *)

From S2P Require Import Prelude Crypto Event Dag.

Inductive RoomError : Type :=
| RoomEvent (e : EventError)
| RoomDagError (e : DagError)
| RoomSerde
| NotMember (d : DeviceId)
| UnknownRoom
| InvalidTransition
| Unauthorized.

Inductive MembershipAction : Type := Join | Invite | Leave | Ban.
Inductive MemberState : Type := Invited | Joined | Left | Banned.

#[global] Instance MembershipAction_eq_dec : EqDecision MembershipAction.
Proof. solve_decision. Defined.
#[global] Instance MemberState_eq_dec : EqDecision MemberState.
Proof. solve_decision. Defined.
#[global] Instance RoomError_eq_dec : EqDecision RoomError.
Proof. solve_decision. Defined.

Record CreateRoomPayload : Type := mkCreateRoomPayload {
  cp_creator : DeviceId;
  cp_name : list byte;
}.

Record MembershipPayload : Type := mkMembershipPayload {
  mp_target : DeviceId;
  mp_action : MembershipAction;
  mp_actor : DeviceId;
}.

#[global] Instance CreateRoomPayload_eq_dec : EqDecision CreateRoomPayload.
Proof. solve_decision. Defined.
#[global] Instance MembershipPayload_eq_dec : EqDecision MembershipPayload.
Proof. solve_decision. Defined.

Record RoomState : Type := mkRoomState {
  rs_room_id : RoomId;
  rs_name : list byte;
  rs_creator : DeviceId;
  rs_members : gmap DeviceId MemberState;
  rs_dag : RoomDag;
  rs_tips : list EventId;
}.

(** [RoomRegistry]: rooms by the bytes of their id. *)
Abbreviation RoomRegistry := (gmap bytes32 RoomState).

(** What the room code uses of its environment. *)
Class RoomEnv : Type := {
  room_event :: EventEnv;
  room_iter :: HashIter;
  room_create_encode :: Encode CreateRoomPayload;
  room_create_decode :: Decode CreateRoomPayload;
  room_member_encode :: Encode MembershipPayload;
  room_member_decode :: Decode MembershipPayload;
}.
Class RoomEnvLaws `{!RoomEnv} : Prop := {
  room_event_laws :: EventEnvLaws;
  room_create_codec :: CodecLaws CreateRoomPayload;
  room_member_codec :: CodecLaws MembershipPayload;
}.

Section room.
  Context {RE : RoomEnv}.

(** ** [impl RoomState] *)

Definition is_joined (self : RoomState) (d : DeviceId) : bool :=
  bool_decide (rs_members self !! d = Some Joined).

Definition joined_devices (self : RoomState) : list DeviceId :=
  omap (λ '(id, st), if decide (st = Joined) then Some id else None)
    (map_iter (rs_members self)).

Definition member_state (self : RoomState) (d : DeviceId) : option MemberState :=
  rs_members self !! d.

Definition RoomState_tips (self : RoomState) : list EventId := rs_tips self.

Definition dag_len (self : RoomState) : nat := RoomDag_len (rs_dag self).

(** Field updates. *)
Definition with_dag (room : RoomState) (dag : RoomDag) : RoomState :=
  mkRoomState (rs_room_id room) (rs_name room) (rs_creator room) (rs_members room) dag
    (rs_tips room).
Definition with_members (room : RoomState) (ms : gmap DeviceId MemberState) : RoomState :=
  mkRoomState (rs_room_id room) (rs_name room) (rs_creator room) ms (rs_dag room)
    (rs_tips room).
(** [room.tips = room.dag.tips()] *)
Definition refresh_tips (room : RoomState) : RoomState :=
  mkRoomState (rs_room_id room) (rs_name room) (rs_creator room) (rs_members room)
    (rs_dag room) (tips (rs_dag room)).

(** ** [RoomRegistry] *)

Definition RoomRegistry_new : RoomRegistry := ∅.

Definition RoomRegistry_get (self : RoomRegistry) (room_id : RoomId) : option RoomState :=
  self !! RoomId_0 room_id.

(** [room.dag.ingest(ev)?; if inserted { room.tips = room.dag.tips() }], the
    common part of a repeated create event and of the other kinds. *)
Definition attach (room : RoomState) (ev : SignedEvent) : result RoomError bool * RoomState :=
  let '(r, dag) := ingest (rs_dag room) ev in
  let room := with_dag room dag in
  match r with
  | Err e => (Err (RoomDagError e), room)
  | Ok inserted => (Ok inserted, if inserted then refresh_tips room else room)
  end.

(** The [match payload.action] of the membership branch. *)
Definition member_step (members : gmap DeviceId MemberState) (payload : MembershipPayload) :
    result RoomError (gmap DeviceId MemberState) :=
  let target := mp_target payload in
  match mp_action payload with
  | Invite =>
    if decide (members !! target = Some Banned) then Err InvalidTransition
    else Ok (<[target := Invited]> members)
  | Join =>
    if decide (members !! target = Some Banned) then Err InvalidTransition
    else Ok (<[target := Joined]> members)
  | Leave => Ok (<[target := Left]> members)
  | Ban => Ok (<[target := Banned]> members)
  end.

(** The membership branch of [apply_event], on the room. *)
Definition apply_membership (room : RoomState) (payload : MembershipPayload)
    (ev : SignedEvent) : result RoomError bool * RoomState :=
  let '(r, dag) := ingest (rs_dag room) ev in
  let room := with_dag room dag in
  match r with
  | Err e => (Err (RoomDagError e), room)
  | Ok false => (Ok false, room)
  | Ok true =>
    match member_step (rs_members room) payload with
    | Err e => (Err e, room)
    | Ok ms => (Ok true, refresh_tips (with_members room ms))
    end
  end.

(** The create branch of [apply_event] for a room not seen before. *)
Definition open_room (payload : CreateRoomPayload) (ev : SignedEvent) :
    result RoomError RoomState :=
  let '(r, dag) := ingest (RoomDag_new (se_room_id ev)) ev in
  let? _ := map_err RoomDagError r in
  Ok {| rs_room_id := se_room_id ev;
        rs_name := cp_name payload;
        rs_creator := cp_creator payload;
        rs_members := <[cp_creator payload := Joined]> ∅;
        rs_dag := dag;
        rs_tips := tips dag |}.

Definition apply_event (self : RoomRegistry) (ev : SignedEvent) :
    result RoomError bool * RoomRegistry :=
  let key := RoomId_0 (se_room_id ev) in
  match verify_event ev with
  | Err e => (Err (RoomEvent e), self)
  | Ok _ =>
    match se_kind ev with
    | CreateRoom =>
      match from_slice (A:=CreateRoomPayload) (se_payload ev) with
      | None => (Err RoomSerde, self)
      | Some payload =>
        match self !! key with
        | Some room => let '(r, room) := attach room ev in (r, <[key := room]> self)
        | None =>
          match open_room payload ev with
          | Err e => (Err e, self)
          | Ok room => (Ok true, <[key := room]> self)
          end
        end
      end
    | Membership =>
      match from_slice (A:=MembershipPayload) (se_payload ev) with
      | None => (Err RoomSerde, self)
      | Some payload =>
        match self !! key with
        | None => (Err UnknownRoom, self)
        | Some room =>
          let '(r, room) := apply_membership room payload ev in (r, <[key := room]> self)
        end
      end
    | _ =>
      match self !! key with
      | None => (Err UnknownRoom, self)
      | Some room =>
        if negb (is_joined room (se_author_device ev))
        then (Err (NotMember (se_author_device ev)), self)
        else let '(r, room) := attach room ev in (r, <[key := room]> self)
      end
    end
  end.

Definition room_id_from_parts (creator : DeviceId) (name : list byte) (ts_ms : N) : RoomId :=
  mkRoomId (blake3 (array_bytes (DeviceId_0 creator) ++ name ++ le_bytes 8 ts_ms)).

(** The root event of a room. *)
Definition create_unsigned (room_id : RoomId) (creator : DeviceId) (name : list byte)
    (ts_ms : N) : UnsignedEvent :=
  let payload := {| cp_creator := creator; cp_name := name |} in
  {| ue_room_id := room_id;
     ue_parents := [];
     ue_kind := CreateRoom;
     ue_payload := to_vec payload;
     ue_author_device := creator;
     ue_ts_ms := ts_ms |}.

Definition create_room (self : RoomRegistry) (sk : SigningKey) (creator : DeviceId)
    (name : list byte) (ts_ms : N) : result RoomError (RoomId * SignedEvent) * RoomRegistry :=
  let material := array_bytes (DeviceId_0 creator) ++ name ++ le_bytes 8 ts_ms in
  let room_id := mkRoomId (blake3 material) in
  let unsigned := create_unsigned room_id creator name ts_ms in
  match sign_event sk unsigned with
  | Err e => (Err (RoomEvent e), self)
  | Ok signed =>
    match apply_event self signed with
    | (Err e, self) => (Err e, self)
    | (Ok _, self) => (Ok (room_id, signed), self)
    end
  end.

(** The guard of [membership_event], before anything is authored. *)
Definition membership_guard (room : RoomState) (actor target : DeviceId)
    (action : MembershipAction) : result RoomError unit :=
  match action with
  | Invite | Ban =>
    if negb (is_joined room actor) then Err Unauthorized else Ok tt
  | Join =>
    let st := member_state room target in
    if decide (actor ≠ target) then Err Unauthorized else
    if negb (bool_decide (st = Some Invited) || bool_decide (st = Some Joined)) then
      if negb (bool_decide (st = Some Invited)) then Err InvalidTransition else Ok tt
    else Ok tt
  | Leave =>
    if bool_decide (actor ≠ target) ||
       negb (bool_decide (member_state room target = Some Joined)
             || bool_decide (member_state room target = Some Invited))
    then Err Unauthorized else Ok tt
  end.

(** The event a membership change authors, on top of the room's tips. *)
Definition membership_unsigned (room : RoomState) (room_id : RoomId)
    (actor target : DeviceId) (action : MembershipAction) (ts_ms : N) : UnsignedEvent :=
  let parents := RoomState_tips room in
  let payload := {| mp_target := target; mp_action := action; mp_actor := actor |} in
  {| ue_room_id := room_id;
     ue_parents := parents;
     ue_kind := Membership;
     ue_payload := to_vec payload;
     ue_author_device := actor;
     ue_ts_ms := ts_ms |}.

Definition membership_event (self : RoomRegistry) (sk : SigningKey) (room_id : RoomId)
    (actor target : DeviceId) (action : MembershipAction) (ts_ms : N) :
    result RoomError SignedEvent * RoomRegistry :=
  match self !! RoomId_0 room_id with
  | None => (Err UnknownRoom, self)
  | Some room =>
    match membership_guard room actor target action with
    | Err e => (Err e, self)
    | Ok _ =>
      let unsigned := membership_unsigned room room_id actor target action ts_ms in
      match sign_event sk unsigned with
      | Err e => (Err (RoomEvent e), self)
      | Ok signed =>
        match apply_event self signed with
        | (Err e, self) => (Err e, self)
        | (Ok _, self) => (Ok signed, self)
        end
      end
    end
  end.

Definition assert_can_message (self : RoomRegistry) (room_id : RoomId) (author : DeviceId) :
    result RoomError unit :=
  let? room := ok_or (RoomRegistry_get self room_id) UnknownRoom in
  if is_joined room author then Ok tt else Err (NotMember author).

(** ** Invariant *)

(** The state an action puts its target in. *)
Definition state_of (action : MembershipAction) : MemberState :=
  match action with
  | Join => Joined | Invite => Invited | Leave => Left | Ban => Banned
  end.

(** [ev] is a membership event with the given payload. *)
Definition membership_of (ev : SignedEvent) (p : MembershipPayload) : Prop :=
  se_kind ev = Membership ∧ from_slice (se_payload ev) = Some p.

(** A member state is accounted for: the creator's bootstrap, or a membership
    event of the log with that target and that resulting state. *)
Definition justified (E : gmap EventId SignedEvent) (creator d : DeviceId) (st : MemberState) : Prop :=
  (d = creator ∧ st = Joined) ∨
  ∃ id ev p, E !! id = Some ev ∧ membership_of ev p ∧
    mp_target p = d ∧ state_of (mp_action p) = st.

Record room_wf (key : bytes32) (r : RoomState) : Prop := {
  rw_key : RoomId_0 (rs_room_id r) = key;
  rw_dag : dag_wf (rs_dag r);
  rw_room : dag_room_id (rs_dag r) = Some (rs_room_id r);
  rw_tips : ∀ t, t ∈ rs_tips r → is_Some (dag_events (rs_dag r) !! t);
  rw_root : ∃ id ev, dag_events (rs_dag r) !! id = Some ev ∧ se_kind ev = CreateRoom ∧
    from_slice (se_payload ev) = Some (mkCreateRoomPayload (rs_creator r) (rs_name r));
  rw_members : ∀ d st, rs_members r !! d = Some st →
    justified (dag_events (rs_dag r)) (rs_creator r) d st;
}.

Definition registry_wf (reg : RoomRegistry) : Prop := map_Forall room_wf reg.

(** The cached tips are the tips of the DAG. *)
Definition tips_fresh (r : RoomState) : Prop := rs_tips r = tips (rs_dag r).

Lemma justified_mono E E' creator d st :
  E ⊆ E' → justified E creator d st → justified E' creator d st.
Proof.
  intros HE [?|(id & ev & p & Hid & ?)]; [by left|]. right.
  exists id, ev, p. split; [by eapply lookup_weaken|done].
Qed.

(** Any ingest into a room's DAG keeps the room well formed. *)
Lemma room_wf_ingest key room ev r dag :
  room_wf key room → ingest (rs_dag room) ev = (r, dag) → room_wf key (with_dag room dag).
Proof.
  intros [Hk Hd Hr Ht (id & e & Hid & ?) Hm] Hi.
  pose proof (ingest_preserves_wf _ ev Hd) as Hd'.
  pose proof (ingest_keeps_room _ ev _ Hr) as Hr'.
  pose proof (ingest_grows (rs_dag room) ev) as Hsub.
  rewrite Hi in Hd', Hr', Hsub; cbn in *.
  split; cbn; [done..| | |].
  - intros t Hin. destruct (Ht t Hin) as [x Hx]. exists x. by eapply lookup_weaken.
  - exists id, e. split; [by eapply lookup_weaken|done].
  - intros d st Hd0. eapply justified_mono; eauto.
Qed.

Lemma room_wf_refresh key room : room_wf key room → room_wf key (refresh_tips room).
Proof.
  intros [Hk Hd Hr Ht Hroot Hm]. split; cbn; [done..| |done|done].
  intros t. rewrite elem_of_tips by done. tauto.
Qed.

Lemma room_wf_attach key room ev : room_wf key room → room_wf key (attach room ev).2.
Proof.
  intros Hw. unfold attach. destruct (ingest _ _) as [r dag] eqn:Hi.
  pose proof (room_wf_ingest _ _ _ _ _ Hw Hi).
  destruct r as [[|]|]; cbn; auto using room_wf_refresh.
Qed.

Lemma member_step_Ok ms p ms' :
  member_step ms p = Ok ms' ↔
  ms' = <[mp_target p := state_of (mp_action p)]> ms ∧
  (ms !! mp_target p = Some Banned → mp_action p = Leave ∨ mp_action p = Ban).
Proof.
  unfold member_step. destruct (mp_action p); cbn; try case_decide; naive_solver.
Qed.

Lemma member_step_Err ms p e :
  member_step ms p = Err e ↔
  e = InvalidTransition ∧ ms !! mp_target p = Some Banned ∧
  (mp_action p = Join ∨ mp_action p = Invite).
Proof.
  unfold member_step. destruct (mp_action p); cbn; try case_decide; naive_solver.
Qed.

Lemma room_wf_apply_membership key room p ev :
  room_wf key room → membership_of ev p → room_wf key (apply_membership room p ev).2.
Proof.
  intros Hw Hp. unfold apply_membership. destruct (ingest _ _) as [r dag] eqn:Hi.
  pose proof (room_wf_ingest _ _ _ _ _ Hw Hi) as Hw'.
  destruct r as [[|]|]; cbn; [|done..].
  destruct (member_step _ _) as [ms|] eqn:Hms; cbn; [|done].
  apply room_wf_refresh. apply member_step_Ok in Hms as [-> _].
  apply ingest_events in Hi as He.
  destruct Hw' as [? ? ? ? ? Hm]; split; cbn in *; [done..|].
  intros d st [[<- <-]|[_ ?]]%lookup_insert_Some; [|auto].
  right. exists (se_id ev), ev, p. rewrite He, lookup_insert_eq. done.
Qed.

Lemma open_room_spec p ev room : verified ev → se_kind ev = CreateRoom →
  from_slice (se_payload ev) = Some p → open_room p ev = Ok room →
  room_wf (RoomId_0 (se_room_id ev)) room ∧ tips_fresh room ∧
  dag_events (rs_dag room) = {[ se_id ev := ev ]} ∧
  rs_members room = {[ cp_creator p := Joined ]} ∧
  rs_creator room = cp_creator p ∧ rs_name room = cp_name p.
Proof.
  intros Hv Hk Hp H. unfold open_room in H.
  destruct (ingest _ ev) as [r dag] eqn:Hi. inv_ok; cbn.
  assert (dag_wf (RoomDag_new (se_room_id ev))) as Hw by apply dag_wf_empty.
  pose proof (ingest_preserves_wf _ ev Hw) as Hd.
  pose proof (ingest_keeps_room _ ev _ (eq_refl : dag_room_id (RoomDag_new (se_room_id ev)) = Some (se_room_id ev))) as Hr.
  rewrite Hi in Hd, Hr; cbn in Hd, Hr.
  assert (dag_events dag = {[ se_id ev := ev ]}) as He.
  { pose proof (ingest_outcomes (RoomDag_new (se_room_id ev)) ev) as Ho.
    rewrite Hi in Ho. inversion Ho as [| |_ _ [? Hd0]| |]; subst; [|done].
    cbn in Hd0. by rewrite lookup_empty in Hd0. }
  split; [|done]. split; cbn; [done..| | |].
  - intros t. rewrite elem_of_tips by done. tauto.
  - exists (se_id ev), ev. rewrite He, lookup_singleton_eq, Hp. by destruct p.
  - intros d st [[<- <-]|[_ H0]]%lookup_insert_Some; [by left|].
    by rewrite lookup_empty in H0.
Qed.

(** The rooms whose cached tips are current. *)
Definition registry_fresh (reg : RoomRegistry) : Prop := map_Forall (λ _, tips_fresh) reg.

Lemma registry_fresh_lookup reg k room :
  registry_fresh reg → reg !! k = Some room → tips_fresh room.
Proof. intros Hf Hr. exact (Hf k room Hr). Qed.

(** What [apply_event] does to the registry: nothing, a new room, or one step
    of an existing room. *)
Inductive applied (reg : RoomRegistry) (ev : SignedEvent) :
    result RoomError bool * RoomRegistry → Prop :=
| applied_reject e : applied reg ev (Err e, reg)
| applied_open p room : verified ev → se_kind ev = CreateRoom →
    from_slice (se_payload ev) = Some p → reg !! RoomId_0 (se_room_id ev) = None →
    open_room p ev = Ok room →
    applied reg ev (Ok true, <[RoomId_0 (se_room_id ev) := room]> reg)
| applied_attach room : verified ev → se_kind ev ≠ Membership →
    reg !! RoomId_0 (se_room_id ev) = Some room →
    (se_kind ev = CreateRoom ∨ is_joined room (se_author_device ev) = true) →
    applied reg ev ((attach room ev).1, <[RoomId_0 (se_room_id ev) := (attach room ev).2]> reg)
| applied_member p room : verified ev → membership_of ev p →
    reg !! RoomId_0 (se_room_id ev) = Some room →
    applied reg ev ((apply_membership room p ev).1,
      <[RoomId_0 (se_room_id ev) := (apply_membership room p ev).2]> reg).

Lemma apply_event_applied reg ev : applied reg ev (apply_event reg ev).
Proof.
  unfold apply_event. destruct (verify_event ev) as [u|e] eqn:Hv; [|constructor].
  apply verify_event_Ok in Hv.
  destruct (se_kind ev) eqn:Hk.
  2: { destruct (from_slice _) as [p|] eqn:Hp; [|constructor].
       destruct (reg !! _) as [room|] eqn:Hr; [|constructor].
       pose proof (applied_member reg ev p room Hv (conj Hk Hp) Hr) as Ha.
       by destruct (apply_membership room p ev). }
  1: destruct (from_slice _) as [p|] eqn:Hp; [|constructor].
  all: destruct (reg !! _) as [room|] eqn:Hr; try by constructor.
  2: { destruct (open_room p ev) as [room|] eqn:Ho; [|constructor].
       by eapply applied_open. }
  2-4: destruct (is_joined room _) eqn:Hj; cbn; [|constructor].
  all: pose proof (applied_attach reg ev room Hv) as Ha; rewrite Hk in Ha;
    specialize (Ha ltac:(done) Hr ltac:(auto)); by destruct (attach room ev).
Qed.

Lemma apply_event_preserves_wf reg ev : registry_wf reg → registry_wf (apply_event reg ev).2.
Proof.
  intros Hw. destruct (apply_event_applied reg ev); cbn; [done|..];
    apply map_Forall_insert_2; try done.
  - by eapply open_room_spec.
  - by apply room_wf_attach, Hw.
  - by apply room_wf_apply_membership; [apply Hw|].
Qed.

Lemma attach_fresh room ev : tips_fresh room → tips_fresh (attach room ev).2.
Proof.
  unfold tips_fresh, attach. intros Ht. destruct (ingest _ _) as [r dag] eqn:Hi.
  destruct r as [[|]|e]; cbn; [done|..]; rewrite Ht; symmetry;
    by eapply ingest_old_tips.
Qed.

Lemma apply_membership_fresh room p ev : tips_fresh room →
  (apply_membership room p ev).1 ≠ Err InvalidTransition →
  tips_fresh (apply_membership room p ev).2.
Proof.
  unfold tips_fresh, apply_membership. intros Ht. destruct (ingest _ _) as [r dag] eqn:Hi.
  destruct r as [[|]|e]; cbn; intros Hne.
  2,3: rewrite Ht; symmetry; by eapply ingest_old_tips.
  destruct (member_step _ _) as [ms|e] eqn:Hm; [done|].
  by apply member_step_Err in Hm as [-> _].
Qed.

Lemma apply_event_preserves_fresh reg ev : registry_fresh reg →
  (apply_event reg ev).1 ≠ Err InvalidTransition → registry_fresh (apply_event reg ev).2.
Proof.
  intros Hf. destruct (apply_event_applied reg ev); cbn; intros Hne; [done|..];
    apply map_Forall_insert_2; try done.
  - by eapply open_room_spec.
  - eapply attach_fresh, registry_fresh_lookup; eauto.
  - apply apply_membership_fresh; [|done]. eapply registry_fresh_lookup; eauto.
Qed.

(** ** Authoring *)

(** A verified new event whose parents are the current tips cannot already be
    in the log, short of a hash collision: the event would be its own
    ancestor. *)
Lemma tips_event_new `{EI : !EncodeInj Canon} d ev : dag_wf d → verified ev →
  (∀ id, id ∈ tips d → id ∈ se_parents ev) →
  dag_events d !! se_id ev = None ∨
  ∃ ev', dag_events d !! se_id ev = Some ev' ∧
    canonical_bytes ev ≠ canonical_bytes ev' ∧
    blake3 (canonical_bytes ev) = blake3 (canonical_bytes ev').
Proof.
  intros Hd Hv Hp. destruct (dag_events d !! se_id ev) as [ev'|] eqn:He; [right|by left].
  exists ev'. split; [done|].
  pose proof (wf_keys d Hd _ _ He) as Hid. pose proof (wf_verified d Hd _ _ He) as Hv'.
  assert (ev ≠ ev') as Hne.
  { intros <-. destruct (tip_above d (se_id ev) Hd) as (t & Ht & Hpath); [by eexists|].
    apply Hp in Ht. by eapply (parent_path_acyclic d t (se_id ev)); [|exists ev|]. }
  destruct (content_address ev ev') as [|[??]]; done.
Qed.

(** Replaying a list of events into an empty registry, ignoring the outcomes. *)
Definition apply_all (l : list SignedEvent) : RoomRegistry :=
  foldl (λ reg ev, (apply_event reg ev).2) RoomRegistry_new l.

Lemma apply_all_snoc l ev : apply_all (l ++ [ev]) = (apply_event (apply_all l) ev).2.
Proof. unfold apply_all. by rewrite foldl_app. Qed.

Lemma apply_all_wf l : registry_wf (apply_all l).
Proof.
  induction l as [|ev l IH] using rev_ind; [apply map_Forall_empty|].
  rewrite apply_all_snoc. by apply apply_event_preserves_wf.
Qed.

(** Every logged event was an input. *)
Definition logged_in (reg : RoomRegistry) (l : list SignedEvent) : Prop :=
  map_Forall (λ _ room, map_Forall (λ _ e, e ∈ l) (dag_events (rs_dag room))) reg.

Lemma attach_events room ev id e :
  dag_events (rs_dag (attach room ev).2) !! id = Some e →
  dag_events (rs_dag room) !! id = Some e ∨ e = ev.
Proof.
  unfold attach. destruct (ingest _ _) as [r dag] eqn:Hi. apply ingest_events in Hi as He.
  destruct r as [[|]|]; cbn; rewrite He, ?lookup_insert_Some; naive_solver.
Qed.

Lemma apply_membership_events room p ev id e :
  dag_events (rs_dag (apply_membership room p ev).2) !! id = Some e →
  dag_events (rs_dag room) !! id = Some e ∨ e = ev.
Proof.
  unfold apply_membership. destruct (ingest _ _) as [r dag] eqn:Hi. apply ingest_events in Hi as He.
  destruct r as [[|]|]; [destruct (member_step _ _)|..]; cbn;
    rewrite He, ?lookup_insert_Some; naive_solver.
Qed.

Lemma apply_event_logged reg l ev : logged_in reg l → logged_in (apply_event reg ev).2 (l ++ [ev]).
Proof.
  intros Hl. assert (logged_in reg (l ++ [ev])) as Hl'.
  { intros k room Hr id e He. pose proof (Hl k room Hr id e He). set_solver. }
  destruct (apply_event_applied reg ev) as [|p room Hv Hk Hp _ Ho| |]; cbn; [done|..];
    apply map_Forall_insert_2; try done; intros id e; cbn.
  - apply open_room_spec in Ho as (_ & _ & -> & _); try done.
    intros [_ <-]%lookup_singleton_Some. set_solver.
  - intros [He| ->]%attach_events; [by eapply Hl'|set_solver].
  - intros [He| ->]%apply_membership_events; [by eapply Hl'|set_solver].
Qed.

Lemma apply_all_logged l : logged_in (apply_all l) l.
Proof.
  induction l as [|ev l IH] using rev_ind; [apply map_Forall_empty|].
  rewrite apply_all_snoc. by apply apply_event_logged.
Qed.

(** The step of a fresh, well-parented membership event. *)
Lemma apply_membership_new room p ev :
  verified ev → dag_room_id (rs_dag room) = Some (se_room_id ev) →
  dag_events (rs_dag room) !! se_id ev = None →
  (∀ q, q ∈ se_parents ev → is_Some (dag_events (rs_dag room) !! q)) →
  let dag := (ingest (rs_dag room) ev).2 in
  apply_membership room p ev =
    match member_step (rs_members room) p with
    | Ok ms => (Ok true, refresh_tips (with_members (with_dag room dag) ms))
    | Err e => (Err e, with_dag room dag)
    end.
Proof.
  intros Hv Hr Hn Hp. unfold apply_membership.
  rewrite ingest_new_Ok; try done. by right.
Qed.

Lemma apply_event_membership reg p ev room :
  verified ev → membership_of ev p → reg !! RoomId_0 (se_room_id ev) = Some room →
  apply_event reg ev = ((apply_membership room p ev).1,
    <[RoomId_0 (se_room_id ev) := (apply_membership room p ev).2]> reg).
Proof.
  intros Hv [Hk Hp] Hr. unfold apply_event. rewrite Hv, Hk, Hp, Hr.
  by destruct (apply_membership room p ev).
Qed.

(** ** Theorems *)

(** [apply_event] keeps every room well formed (its DAG invariant holds,
    its tips are stored, its create event is stored, and every member state is
    accounted for by a membership event of the log), and keeps the cached tips
    current unless it reports an invalid transition. *)
Lemma apply_event_invariant (reg : RoomRegistry) (ev : SignedEvent) :
  registry_wf reg →
  registry_wf (apply_event reg ev).2 ∧
  (registry_fresh reg → (apply_event reg ev).1 ≠ Err InvalidTransition →
   registry_fresh (apply_event reg ev).2).
Proof.
  intros Hw. split; [by apply apply_event_preserves_wf|].
  apply apply_event_preserves_fresh.
Qed.

(** C13: nobody becomes a member out of thin air: after replaying any events, a
    joined device is the creator named by a create event of the input, or the
    target of a [Join] event of the input; all of these are verified. *)
Theorem joined_accounted (l : list SignedEvent) (k : bytes32) (room : RoomState) (d : DeviceId) :
  apply_all l !! k = Some room → is_joined room d = true →
  ∃ ev, ev ∈ l ∧ verified ev ∧ RoomId_0 (se_room_id ev) = k ∧
    ((se_kind ev = CreateRoom ∧
      from_slice (se_payload ev) = Some (mkCreateRoomPayload d (rs_name room))) ∨
     (∃ p, membership_of ev p ∧ mp_target p = d ∧ mp_action p = Join)).
Proof.
  intros Hr Hj. unfold is_joined in Hj. apply bool_decide_eq_true in Hj.
  destruct (apply_all_wf l k room Hr) as [Hk Hd Hrid _ (id & e & He & Hkind & Hpl) Hm].
  assert (∀ id e, dag_events (rs_dag room) !! id = Some e →
    e ∈ l ∧ verified e ∧ RoomId_0 (se_room_id e) = k) as Hlog.
  { intros i x Hx. split_and!.
    - by eapply (apply_all_logged l).
    - by eapply wf_verified.
    - rewrite (wf_room _ Hd i x Hx) in Hrid. by injection Hrid as ->. }
  destruct (Hm d Joined Hj) as [[-> _]|(i & x & p & Hx & Hp & Ht & Ha)].
  - exists e. destruct (Hlog id e He) as (? & ? & ?). split_and!; auto.
  - exists x. destruct (Hlog i x Hx) as (? & ? & ?). split_and!; [done..|right].
    exists p. split_and!; [done..|]. by destruct (mp_action p).
Qed.

(** The membership state machine: a new, well-parented membership event
    moves its target to the state of its action and nobody else, unless it
    would take a banned device out by [Join] or [Invite], which is an
    [InvalidTransition]; the event is logged in both cases. *)
Lemma membership_transition (reg : RoomRegistry) (room : RoomState) (ev : SignedEvent)
    (p : MembershipPayload) :
  registry_wf reg → reg !! RoomId_0 (se_room_id ev) = Some room →
  verify_event ev = Ok tt → membership_of ev p →
  dag_events (rs_dag room) !! se_id ev = None →
  (∀ q, q ∈ se_parents ev → is_Some (dag_events (rs_dag room) !! q)) →
  let refused := rs_members room !! mp_target p = Some Banned ∧
    (mp_action p = Join ∨ mp_action p = Invite) in
  ∃ room', (apply_event reg ev).2 !! RoomId_0 (se_room_id ev) = Some room' ∧
    dag_events (rs_dag room') = <[se_id ev := ev]> (dag_events (rs_dag room)) ∧
    ((refused ∧ (apply_event reg ev).1 = Err InvalidTransition ∧
      rs_members room' = rs_members room ∧ rs_tips room' = rs_tips room) ∨
     (¬ refused ∧ (apply_event reg ev).1 = Ok true ∧
      rs_members room' = <[mp_target p := state_of (mp_action p)]> (rs_members room) ∧
      rs_tips room' = tips (rs_dag room'))).
Proof.
  intros Hw Hr Hv Hp Hn Hps refused.
  destruct (Hw _ _ Hr) as [Hk Hd Hrid _ _ _].
  assert (rs_room_id room = se_room_id ev) as Hid.
  { destruct (rs_room_id room), (se_room_id ev); cbn in *. congruence. }
  rewrite Hid in Hrid.
  rewrite (apply_event_membership reg p ev room) by done; cbn [fst snd].
  rewrite lookup_insert_eq. eexists; split; [done|].
  rewrite (apply_membership_new room p ev) by done.
  rewrite (ingest_new_Ok (rs_dag room) ev) by (done || by right); cbn [snd].
  assert (dag_events (insert_event (adopt (rs_dag room) ev) ev) =
    <[se_id ev := ev]> (dag_events (rs_dag room))) as He by (cbn; by rewrite adopt_events).
  destruct (member_step (rs_members room) p) as [ms|e] eqn:Hs; cbn [fst snd].
  - split; [done|]. right. apply member_step_Ok in Hs as [-> Hb]. split_and!; try done.
    intros [Hbn Ha]. apply Hb in Hbn. destruct Ha, Hbn; congruence.
  - split; [done|]. left. apply member_step_Err in Hs as (-> & ? & ?). done.
Qed.

(** The message gate: [apply_event] on a verified event of any other kind
    answers exactly as [assert_can_message] does about its author; a refused
    event leaves the registry as it was, an accepted one goes to the DAG and
    changes no member. *)
Lemma message_gate (reg : RoomRegistry) (ev : SignedEvent) :
  verify_event ev = Ok tt → se_kind ev ≠ CreateRoom → se_kind ev ≠ Membership →
  match assert_can_message reg (se_room_id ev) (se_author_device ev) with
  | Err e => apply_event reg ev = (Err e, reg)
  | Ok _ => ∃ room, reg !! RoomId_0 (se_room_id ev) = Some room ∧
      rs_members room !! se_author_device ev = Some Joined ∧
      let '(r, dag) := ingest (rs_dag room) ev in
      (apply_event reg ev).1 = map_err RoomDagError r ∧
      ∃ room', (apply_event reg ev).2 = <[RoomId_0 (se_room_id ev) := room']> reg ∧
        rs_dag room' = dag ∧ rs_members room' = rs_members room
  end.
Proof.
  intros Hv Hk Hk'. unfold assert_can_message, RoomRegistry_get, apply_event. rewrite Hv.
  destruct (reg !! _) as [room|] eqn:Hr; cbn.
  - destruct (is_joined room _) eqn:Hj; cbn.
    + exists room. split; [done|]. unfold is_joined in Hj. apply bool_decide_eq_true in Hj.
      split; [done|]. unfold attach. destruct (ingest _ ev) as [[b|e] dag].
      all: destruct (se_kind ev); try done; (split; [done|]); eexists; (split; [done|]).
      all: try done; by destruct b.
    + by destruct (se_kind ev).
  - by destruct (se_kind ev).
Qed.

Lemma sign_event_is_ok sk unsigned :
  ue_author_device unsigned = DeviceId_from_verifying_key (verifying_key sk) →
  ∃ signed, sign_event sk unsigned = Ok signed.
Proof.
  intros H%sign_event_author. destruct (sign_event sk unsigned); [eauto|done].
Qed.

(** The fields of a signed event are those of its unsigned event. *)
Lemma sign_event_fields sk unsigned signed : sign_event sk unsigned = Ok signed →
  se_room_id signed = ue_room_id unsigned ∧ se_parents signed = ue_parents unsigned ∧
  se_kind signed = ue_kind unsigned ∧ se_payload signed = ue_payload unsigned ∧
  se_author_device signed = ue_author_device unsigned ∧ se_ts_ms signed = ue_ts_ms unsigned.
Proof. intros (<- & _)%sign_event_Ok. done. Qed.

Lemma open_room_root p ev : verified ev → se_parents ev = [] → ∃ room, open_room p ev = Ok room.
Proof.
  intros Hv Hps. unfold open_room.
  rewrite ingest_new_Ok; [cbn; eauto|done|by right|by apply lookup_empty|].
  intros q. rewrite Hps. by intros []%not_elem_of_nil.
Qed.

Lemma create_room_new `{RL : !RoomEnvLaws} (reg : RoomRegistry) sk creator name ts :
  creator = DeviceId_from_verifying_key (verifying_key sk) →
  let room_id := room_id_from_parts creator name ts in
  reg !! RoomId_0 room_id = None →
  ∃ signed room, create_room reg sk creator name ts =
      (Ok (room_id, signed), <[RoomId_0 room_id := room]> reg) ∧
    sign_event sk (create_unsigned room_id creator name ts) = Ok signed ∧
    open_room (mkCreateRoomPayload creator name) signed = Ok room.
Proof.
  intros Hc; cbv zeta. unfold create_room. fold (room_id_from_parts creator name ts).
  generalize (room_id_from_parts creator name ts) as room_id. intros room_id Hn.
  destruct (sign_event_is_ok sk (create_unsigned room_id creator name ts) Hc) as [signed Hs].
  rewrite Hs. pose proof (sign_event_fields _ _ _ Hs) as (Hr & Hps & Hk & Hp & Ha & _).
  pose proof (sign_event_verified _ _ _ Hs) as Hv.
  cbn in Hr, Hps, Hk, Hp, Ha.
  unfold apply_event. rewrite Hv, Hk, Hp, from_slice_to_vec, Hr, Hn.
  destruct (open_room_root (mkCreateRoomPayload creator name) signed Hv Hps) as [room Ho].
  exists signed, room. by rewrite Ho.
Qed.

Lemma singleton_list {A} (l : list A) a : NoDup l → (∀ x, x ∈ l ↔ x = a) → l = [a].
Proof.
  intros Hl Ha. apply Permutation_length_1_inv, NoDup_Permutation; [apply NoDup_singleton|done|].
  intros x. by rewrite Ha, list_elem_of_singleton.
Qed.

(** [create_room] by the device of the signing key opens a room whose id is
    [room_id_from_parts], with the creator as its only member, joined, and the
    returned create event, verified, as the only event and the only tip; with
    another device's key it fails and changes nothing. *)
Lemma create_room_correct `{RL : !RoomEnvLaws} (reg : RoomRegistry) (sk : SigningKey)
    (creator : DeviceId) (name : list byte) (ts_ms : N) :
  let room_id := room_id_from_parts creator name ts_ms in
  reg !! RoomId_0 room_id = None →
  (creator ≠ DeviceId_from_verifying_key (verifying_key sk) ∧
   create_room reg sk creator name ts_ms = (Err (RoomEvent AuthorMismatch), reg)) ∨
  ∃ signed room,
    create_room reg sk creator name ts_ms =
      (Ok (room_id, signed), <[RoomId_0 room_id := room]> reg) ∧
    verify_event signed = Ok tt ∧ se_author_device signed = creator ∧
    room_wf (RoomId_0 room_id) room ∧ rs_name room = name ∧ rs_creator room = creator ∧
    joined_devices room = [creator] ∧
    dag_events (rs_dag room) = {[ se_id signed := signed ]} ∧ rs_tips room = [se_id signed].
Proof.
  cbv zeta. intros Hn.
  destruct (decide (creator = DeviceId_from_verifying_key (verifying_key sk))) as [Hc|Hc].
  2: { left. split; [done|]. unfold create_room, sign_event. by rewrite decide_True. }
  right. destruct (create_room_new reg sk creator name ts_ms Hc Hn) as (signed & room & Hcr & Hs & Ho).
  exists signed, room. rewrite Hcr.
  pose proof (sign_event_fields _ _ _ Hs) as (Hr & Hps & Hk & Hp & Ha & _).
  cbn in Hr, Hps, Hk, Hp, Ha. pose proof (sign_event_verified _ _ _ Hs) as Hv.
  assert (from_slice (se_payload signed) = Some (mkCreateRoomPayload creator name)) as Hp'
    by (rewrite Hp; apply from_slice_to_vec).
  destruct (open_room_spec _ _ _ Hv Hk Hp' Ho) as (Hw & Ht & He & Hm & Hcreator & Hname).
  rewrite Hr in Hw. split_and!; try done.
  - unfold joined_devices. rewrite Hm.
    rewrite map_iter_singleton; cbn. by rewrite decide_True.
  - unfold tips_fresh in Ht. rewrite Ht. apply singleton_list; [by apply list.NoDup_filter, NoDup_map_keys|].
    intros id. rewrite elem_of_tips by apply Hw. rewrite He.
    setoid_rewrite lookup_singleton_Some. rewrite lookup_singleton_is_Some.
    split; [by intros [-> _]|]. intros ->. split; [done|].
    intros c ev [_ <-]. rewrite Hps. apply not_elem_of_nil.
Qed.

(** The changes a device may author: members in good standing may invite and
    ban; a device may only join and leave for itself, when it is invited or
    joined. *)
Definition membership_allowed (room : RoomState) (actor target : DeviceId)
    (action : MembershipAction) : Prop :=
  match action with
  | Invite | Ban => rs_members room !! actor = Some Joined
  | Join | Leave => actor = target ∧
      (rs_members room !! target = Some Invited ∨ rs_members room !! target = Some Joined)
  end.

Lemma membership_guard_Ok room actor target action u :
  membership_guard room actor target action = Ok u ↔
  membership_allowed room actor target action.
Proof.
  destruct u. unfold membership_guard, membership_allowed, is_joined, member_state.
  destruct action; repeat case_bool_decide; cbn; try case_decide; naive_solver.
Qed.

(** No event of the room's log has the canonical encoding of another event
    with the hash of [signed]'s. *)
Definition no_clash (room : RoomState) (signed : SignedEvent) : Prop :=
  ∀ id ev, dag_events (rs_dag room) !! id = Some ev →
    blake3 (canonical_bytes signed) = blake3 (canonical_bytes ev) →
    canonical_bytes signed = canonical_bytes ev.

Lemma authored_new `{EI : !EncodeInj Canon} key room ev : room_wf key room → tips_fresh room →
  verified ev → no_clash room ev → se_parents ev = rs_tips room →
  dag_events (rs_dag room) !! se_id ev = None.
Proof.
  intros [_ Hd _ _ _ _] Ht Hv Hc Hp.
  destruct (tips_event_new (rs_dag room) ev Hd Hv) as [|(ev' & He & Hne & Hb)]; [|done|].
  - intros id. by rewrite Hp, Ht.
  - destruct Hne. by eapply Hc.
Qed.

(** An authored membership event becomes the only tip. *)
Lemma authored_tip d ev : dag_wf d → verified ev → dag_room_id d = Some (se_room_id ev) →
  dag_events d !! se_id ev = None → se_parents ev = tips d →
  tips (insert_event (adopt d ev) ev) = [se_id ev].
Proof.
  intros Hd Hv Hr Hn Hp.
  assert (∀ q, q ∈ se_parents ev → is_Some (dag_events d !! q)) as Hps.
  { intros q. rewrite Hp, elem_of_tips by done. tauto. }
  apply singleton_list; [by apply list.NoDup_filter, NoDup_map_keys|].
  intros id. rewrite (elem_of_tips_ingest d ev _ id Hd).
  - rewrite Hp. naive_solver.
  - by apply ingest_new_Ok; [|right|..].
Qed.

(** C5: [membership_event] by the device of the signing key, on a room whose
    tips are current: it refuses exactly what [membership_guard] refuses and the
    re-invitation of a banned device; otherwise it returns a verified event on
    top of all the tips, which becomes the only tip, moves the target to the
    state of the action and no other member. *)
Theorem membership_event_correct `{RL : !RoomEnvLaws} (reg : RoomRegistry) (sk : SigningKey)
    (room_id : RoomId) (room : RoomState) (actor target : DeviceId)
    (action : MembershipAction) (ts_ms : N) :
  registry_wf reg → registry_fresh reg → reg !! RoomId_0 room_id = Some room →
  actor = DeviceId_from_verifying_key (verifying_key sk) →
  (∀ signed, sign_event sk (membership_unsigned room room_id actor target action ts_ms) = Ok signed →
     no_clash room signed) →
  let '(r, reg') := membership_event reg sk room_id actor target action ts_ms in
  match r with
  | Ok signed =>
    membership_allowed room actor target action ∧ verify_event signed = Ok tt ∧
    membership_of signed (mkMembershipPayload target action actor) ∧
    se_author_device signed = actor ∧ se_parents signed = rs_tips room ∧
    ∃ room', reg' = <[RoomId_0 room_id := room']> reg ∧
      rs_members room' = <[target := state_of action]> (rs_members room) ∧
      dag_events (rs_dag room') = <[se_id signed := signed]> (dag_events (rs_dag room)) ∧
      rs_tips room' = [se_id signed]
  | Err e =>
    (¬ membership_allowed room actor target action ∧ reg' = reg ∧
     membership_guard room actor target action = Err e) ∨
    (e = InvalidTransition ∧ membership_allowed room actor target action ∧
     rs_members room !! target = Some Banned ∧ action = Invite)
  end.
Proof.
  intros Hw Hf Hr Hactor Hclash. unfold membership_event. rewrite Hr.
  destruct (membership_guard room actor target action) as [u|e] eqn:Hg.
  2: { left. split_and!; [|done..]. rewrite <-(membership_guard_Ok _ _ _ _ tt). congruence. }
  apply membership_guard_Ok in Hg.
  destruct (sign_event_is_ok sk _ (Hactor : ue_author_device
    (membership_unsigned room room_id actor target action ts_ms) = _)) as [signed Hs].
  rewrite Hs. specialize (Hclash _ Hs).
  pose proof (sign_event_fields _ _ _ Hs) as (Hrid & Hps & Hk & Hp & Ha & _).
  cbn in Hrid, Hps, Hk, Hp, Ha. pose proof (sign_event_verified _ _ _ Hs) as Hv.
  pose proof (Hw _ _ Hr) as Hwr. pose proof (registry_fresh_lookup _ _ _ Hf Hr) as Hfr.
  assert (membership_of signed (mkMembershipPayload target action actor)) as Hm.
  { split; [done|]. rewrite Hp. apply from_slice_to_vec. }
  pose proof (authored_new _ _ _ Hwr Hfr Hv Hclash Hps) as Hnew.
  destruct Hwr as [Hkey Hd Hroom Htips _ _].
  assert (dag_room_id (rs_dag room) = Some (se_room_id signed)) as Hroom'.
  { rewrite Hroom, Hrid. f_equal. destruct (rs_room_id room), room_id; cbn in *. congruence. }
  rewrite <-Hrid in Hr |- *. rewrite (apply_event_membership _ _ _ _ Hv Hm Hr).
  rewrite (apply_membership_new room _ signed) by (done || by rewrite Hps).
  rewrite ingest_new_Ok by (done || (by right) || by rewrite Hps); cbn [snd].
  destruct (member_step _ _) as [ms|e] eqn:Hms; cbn [fst snd].
  - split_and!; try done. eexists; split; [done|]. apply member_step_Ok in Hms as [-> _].
    split_and!; [done|cbn; by rewrite adopt_events|].
    cbn. apply authored_tip; try done. by rewrite Hps.
  - right. apply member_step_Err in Hms as (-> & Hb & Hact); cbn in *.
    split_and!; try done. destruct Hact as [->| ->]; [|done].
    cbn in Hg. destruct Hg as [_ [?|?]]; congruence.
Qed.

(** A ban does not last: any verified [Leave] event naming a banned device,
    followed by a verified [Join], whoever authored them, makes it a joined
    member again. *)
Lemma ban_is_cleared_by_leave (reg : RoomRegistry) (room : RoomState) (d : DeviceId)
    (leave join : SignedEvent) (p q : MembershipPayload) :
  registry_wf reg → reg !! RoomId_0 (se_room_id leave) = Some room →
  rs_members room !! d = Some Banned →
  verify_event leave = Ok tt → membership_of leave p → mp_target p = d → mp_action p = Leave →
  verify_event join = Ok tt → membership_of join q → mp_target q = d → mp_action q = Join →
  se_parents leave = rs_tips room → se_parents join = [se_id leave] →
  se_room_id join = se_room_id leave →
  dag_events (rs_dag room) !! se_id leave = None → dag_events (rs_dag room) !! se_id join = None →
  se_id join ≠ se_id leave →
  ∃ room', apply_event (apply_event reg leave).2 join = (Ok true,
      <[RoomId_0 (se_room_id leave) := room']> (apply_event reg leave).2) ∧
    is_joined room' d = true.
Proof.
  intros Hw Hr Hb Hv Hp Ht Ha Hv' Hq Ht' Ha' Hps Hps' Hrid Hn Hn' Hne.
  pose proof (Hw _ _ Hr) as [Hkey _ Hroom Htips _ _].
  assert (dag_room_id (rs_dag room) = Some (se_room_id leave)) as Hroom'.
  { rewrite Hroom. f_equal. destruct (rs_room_id room), (se_room_id leave); cbn in *. congruence. }
  rewrite (apply_event_membership _ _ _ _ Hv Hp Hr); cbn [snd].
  rewrite (apply_membership_new room _ leave) by (done || by rewrite Hps).
  rewrite ingest_new_Ok by (done || (by right) || by rewrite Hps); cbn [snd].
  unfold member_step. rewrite Ha, Ht. cbn [fst snd].
  rewrite (apply_event_membership _ _ join _ Hv' Hq) by (rewrite Hrid; apply lookup_insert_eq).
  set (room1 := refresh_tips _).
  assert (dag_events (rs_dag room1) = <[se_id leave := leave]> (dag_events (rs_dag room))) as He.
  { cbn. by rewrite adopt_events. }
  assert (dag_room_id (rs_dag room1) = Some (se_room_id join)) as Hroom1.
  { cbn. rewrite Hrid. apply adopt_room. by right. }
  rewrite (apply_membership_new room1 _ join);
    [|done|done|rewrite He; by rewrite lookup_insert_ne|].
  2: { intros x. rewrite Hps', He. intros ->%list_elem_of_singleton.
       rewrite lookup_insert_eq. eauto. }
  unfold member_step. rewrite Ha', Ht'. cbn [rs_members room1 refresh_tips with_members].
  rewrite decide_False by (rewrite lookup_insert_eq; congruence). cbn [fst snd].
  eexists. rewrite Hrid. split; [done|].
  unfold is_joined. cbn. rewrite lookup_insert_eq. by apply bool_decide_eq_true.
Qed.
End room.
