(* ===== verification/Sync.v ===== *)
(** * Device sync ([crates/td-node/src/sync.rs])

    A device's event log, room DAGs, outbox and inbox; the parking of events
    whose parents are missing and the loop that drains them; offers, responses
    and the two-sided exchange of [converge_with]; the reload of a durable log.
    The text carried by error values is dropped. *)

From S2P Require Import Prelude Crypto Event Dag Store.

Inductive SyncError `{StoreEnv} : Type :=
| SyncEvent (e : EventError)
| SyncDag (e : DagError)
| SyncStore (e : StoreError)
| SyncSerde
| SyncUnknownRoom (r : RoomId)
| SyncDecode
| SyncRelaySeal.

Record SyncOffer : Type := mkSyncOffer {
  so_from_device : DeviceId;
  so_room_id : RoomId;
  so_tips : list EventId;
  so_have : list EventId;
}.

Record SyncResponse : Type := mkSyncResponse {
  sr_room_id : RoomId;
  sr_missing : list SignedEvent;
}.

Record DeviceNode `{StoreEnv} : Type := mkDeviceNode {
  device_id : DeviceId;
  events : gmap EventId SignedEvent;
  dags : gmap bytes32 RoomDag;
  outbox : list SignedEvent;
  inbox : list SignedEvent;
  durable : option SqliteStore;
}.

Arguments mkDeviceNode {_}.

Section sync.
  Context {SE : StoreEnv} {HI : HashIter}.

Definition DeviceNode_new (device_id : DeviceId) : DeviceNode :=
  mkDeviceNode device_id ∅ ∅ [] [] None.

(** [CryptoDeviceId] is the same 32 bytes. *)
Definition from_crypto_device (id : bytes32) : DeviceNode := DeviceNode_new (mkDeviceId id).

(** Field updates. *)
Definition set_events (self : DeviceNode) (x : gmap EventId SignedEvent) : DeviceNode :=
  mkDeviceNode (device_id self) x (dags self) (outbox self) (inbox self) (durable self).
Definition set_dags (self : DeviceNode) (x : gmap bytes32 RoomDag) : DeviceNode :=
  mkDeviceNode (device_id self) (events self) x (outbox self) (inbox self) (durable self).
Definition set_outbox (self : DeviceNode) (x : list SignedEvent) : DeviceNode :=
  mkDeviceNode (device_id self) (events self) (dags self) x (inbox self) (durable self).
Definition set_inbox (self : DeviceNode) (x : list SignedEvent) : DeviceNode :=
  mkDeviceNode (device_id self) (events self) (dags self) (outbox self) x (durable self).
Definition set_durable (self : DeviceNode) (x : option SqliteStore) : DeviceNode :=
  mkDeviceNode (device_id self) (events self) (dags self) (outbox self) (inbox self) x.

Definition event_count (self : DeviceNode) : nat := size (events self).
Definition outbox_len (self : DeviceNode) : nat := length (outbox self).
Definition inbox_len (self : DeviceNode) : nat := length (inbox self).

Definition DeviceNode_tips (self : DeviceNode) (room_id : RoomId) : list EventId :=
  default [] (tips <$> dags self !! RoomId_0 room_id).

Definition has_event (self : DeviceNode) (id : EventId) : bool :=
  bool_decide (is_Some (events self !! id)).

Definition get_event (self : DeviceNode) (id : EventId) : option SignedEvent := events self !! id.

(** [self.events.values().filter(..)] *)
Definition room_values (self : DeviceNode) (room_id : RoomId) : list SignedEvent :=
  filter (λ e, se_room_id e = room_id) (map_values (events self)).

Definition room_event_ids (self : DeviceNode) (room_id : RoomId) : gset EventId :=
  list_to_set (se_id <$> room_values self room_id).

(** [self.dags.entry(ev.room_id.0).or_insert_with(|| RoomDag::new(ev.room_id))] *)
Definition dag_entry (self : DeviceNode) (room_id : RoomId) : RoomDag :=
  default (RoomDag_new room_id) (dags self !! RoomId_0 room_id).

(** [if let Some(store) = self.durable.as_mut() { store.put(ev)?; }] *)
Definition persist (self : DeviceNode) (ev : SignedEvent) : result SyncError unit * DeviceNode :=
  match durable self with
  | None => (Ok tt, self)
  | Some store =>
    let '(r, store) := put store ev in
    let self := set_durable self (Some store) in
    match r with
    | Ok _ => (Ok tt, self)
    | Err e => (Err (SyncStore e), self)
    end
  end.

(** The block shared by [ingest_event] and [drain_inbox]: the room's DAG, the
    event map, the durable log. *)
Definition accept (self : DeviceNode) (ev : SignedEvent) : result SyncError bool * DeviceNode :=
  let '(r, dag) := ingest (dag_entry self (se_room_id ev)) ev in
  let self := set_dags self (<[RoomId_0 (se_room_id ev) := dag]> (dags self)) in
  match r with
  | Err e => (Err (SyncDag e), self)
  | Ok false => (Ok false, self)
  | Ok true =>
    let self := set_events self (<[se_id ev := ev]> (events self)) in
    let '(r, self) := persist self ev in
    match r with
    | Err e => (Err e, self)
    | Ok _ => (Ok true, self)
    end
  end.

Definition parents_present (self : DeviceNode) (ev : SignedEvent) : bool :=
  forallb (has_event self) (se_parents ev).

(** One pass of the inner loop of [drain_inbox]: [pending] is what is left of
    [self.inbox], [rest] and [progress] are its locals.  An error returns with
    the unprocessed part of the inbox; [rest] is dropped. *)
Fixpoint drain_pass (self : DeviceNode) (pending rest : list SignedEvent) (progress : bool) :
    result SyncError bool * DeviceNode :=
  match pending with
  | [] => (Ok progress, set_inbox self rest)
  | ev :: pending =>
    if has_event self (se_id ev) then drain_pass self pending rest progress
    else if negb (parents_present self ev) then drain_pass self pending (rest ++ [ev]) progress
    else
      match accept self ev with
      | (Err e, self) => (Err e, set_inbox self pending)
      | (Ok inserted, self) => drain_pass self pending rest (progress || inserted)
      end
  end.

(** The outer loop.  Each pass that makes progress removes an event from the
    inbox, so its length bounds the number of passes. *)
Fixpoint drain_loop (fuel : nat) (self : DeviceNode) : result SyncError unit * DeviceNode :=
  match drain_pass self (inbox self) [] false with
  | (Err e, self) => (Err e, self)
  | (Ok progress, self) =>
    match progress, fuel with
    | true, S fuel => drain_loop fuel self
    | _, _ => (Ok tt, self)
    end
  end.

Definition drain_inbox (self : DeviceNode) : result SyncError unit * DeviceNode :=
  drain_loop (length (inbox self)) self.

Definition ingest_event (self : DeviceNode) (ev : SignedEvent) (to_outbox : bool) :
    result SyncError bool * DeviceNode :=
  if has_event self (se_id ev) then (Ok false, self) else
  if negb (parents_present self ev) then
    (Ok false,
     if existsb (λ e, bool_decide (se_id e = se_id ev)) (inbox self) then self
     else set_inbox self (inbox self ++ [ev]))
  else
    match accept self ev with
    | (Err e, self) => (Err e, self)
    | (Ok inserted, self) =>
      if inserted then
        let self := if to_outbox then set_outbox self (outbox self ++ [ev]) else self in
        match drain_inbox self with
        | (Err e, self) => (Err e, self)
        | (Ok _, self) => (Ok true, self)
        end
      else (Ok false, self)
    end.

Definition commit_local (self : DeviceNode) (ev : SignedEvent) : result SyncError bool * DeviceNode :=
  match verify_event ev with
  | Err e => (Err (SyncEvent e), self)
  | Ok _ => ingest_event self ev true
  end.

Definition commit_remote (self : DeviceNode) (ev : SignedEvent) : result SyncError bool * DeviceNode :=
  match verify_event ev with
  | Err e => (Err (SyncEvent e), self)
  | Ok _ => ingest_event self ev false
  end.

(** [for ev in events { let _ = node.ingest_event(ev, false)?; }] *)
Fixpoint replay (self : DeviceNode) (l : list SignedEvent) : result SyncError unit * DeviceNode :=
  match l with
  | [] => (Ok tt, self)
  | ev :: l =>
    match ingest_event self ev false with
    | (Err e, self) => (Err e, self)
    | (Ok _, self) => replay self l
    end
  end.

(** [with_sqlite] on the outcome of [SqliteStore::open]. *)
Definition with_store (device_id : DeviceId) (store : SqliteStore) : result SyncError DeviceNode :=
  let? l := map_err SyncStore (SqliteStore_list_all store) in
  match replay (set_durable (DeviceNode_new device_id) (Some store)) l with
  | (Err e, _) => Err e
  | (Ok _, node) => Ok node
  end.

Definition with_sqlite (device_id : DeviceId) (path : FsPath) : result SyncError DeviceNode :=
  let? store := map_err SyncStore (SqliteStore_open path) in
  with_store device_id store.

Definition pop_outbox (self : DeviceNode) : option SignedEvent * DeviceNode :=
  match outbox self with
  | [] => (None, self)
  | ev :: l => (Some ev, set_outbox self l)
  end.

Definition peek_outbox (self : DeviceNode) : list SignedEvent := outbox self.

Definition missing_for_peer (self : DeviceNode) (room_id : RoomId) (peer_have : gset EventId) :
    list SignedEvent :=
  sort_by event_order
    (filter (λ e, se_room_id e = room_id ∧ se_id e ∉ peer_have) (map_values (events self))).

Definition build_offer (self : DeviceNode) (room_id : RoomId) : SyncOffer :=
  let have := set_iter (room_event_ids self room_id) in
  {| so_from_device := device_id self;
     so_room_id := room_id;
     so_tips := DeviceNode_tips self room_id;
     so_have := have |}.

Definition respond_to_offer (self : DeviceNode) (offer : SyncOffer) : SyncResponse :=
  let peer_have : gset EventId := list_to_set (so_have offer) in
  {| sr_room_id := so_room_id offer;
     sr_missing := missing_for_peer self (so_room_id offer) peer_have |}.

Fixpoint commit_all (self : DeviceNode) (l : list SignedEvent) (n : N) :
    result SyncError N * DeviceNode :=
  match l with
  | [] => (Ok n, self)
  | ev :: l =>
    match commit_remote self ev with
    | (Err e, self) => (Err e, self)
    | (Ok b, self) => commit_all self l (if b then n + 1 else n)%N
    end
  end.

Definition apply_sync_response (self : DeviceNode) (resp : SyncResponse) :
    result SyncError N * DeviceNode :=
  commit_all self (sr_missing resp) 0.

Definition converge_with (a b : DeviceNode) (room_id : RoomId) :
    result SyncError unit * (DeviceNode * DeviceNode) :=
  let offer_a := build_offer a room_id in
  let offer_b := build_offer b room_id in
  let resp_for_a := respond_to_offer b offer_a in
  let resp_for_b := respond_to_offer a offer_b in
  match apply_sync_response a resp_for_a with
  | (Err e, a) => (Err e, (a, b))
  | (Ok _, a) =>
    match apply_sync_response b resp_for_b with
    | (Err e, b) => (Err e, (a, b))
    | (Ok _, b) => (Ok tt, (a, b))
    end
  end.

Definition tip_set (self : DeviceNode) (room_id : RoomId) : gset EventId :=
  list_to_set (DeviceNode_tips self room_id).

Definition room_ids (self : DeviceNode) : list RoomId := mkRoomId <$> map_keys (dags self).

(** [None] is the panic of the [assert_eq!]. *)
Definition seed_create (self : DeviceNode) (ev : SignedEvent) :
    option (result SyncError unit * DeviceNode) :=
  if decide (se_kind ev = CreateRoom) then
    Some (match commit_local self ev with
          | (Err e, self) => (Err e, self)
          | (Ok _, self) => (Ok tt, self)
          end)
  else None.

Definition list_messages (self : DeviceNode) (room_id : RoomId) : list SignedEvent :=
  sort_by event_order
    (filter (λ e, se_room_id e = room_id ∧ se_kind e = Message) (map_values (events self))).

Definition list_events (self : DeviceNode) (room_id : RoomId) : list SignedEvent :=
  sort_by event_order (room_values self room_id).

(** [b ^ pad] *)
Definition byte_xor (a b : byte) : byte := byte_of_N (N.lxor (Byte.to_N a) (Byte.to_N b)).

Definition seal_for_relay_xor (ev : SignedEvent) (pad : byte) : result SyncError (list byte) :=
  let raw := to_vec ev in Ok ((λ b, byte_xor b pad) <$> raw).

(** [serde_json::from_slice(&raw).map_err(..)?; verify_event(&ev)?; Ok(ev)], the
    tail of the [open_from_relay] family. *)
Definition decode_event (raw : list byte) : result SyncError SignedEvent :=
  let? ev := ok_or (from_slice raw) SyncDecode in
  let? _ := map_err SyncEvent (verify_event ev) in
  Ok ev.

Definition open_from_relay_xor (ciphertext : list byte) (pad : byte) : result SyncError SignedEvent :=
  let raw := (λ b, byte_xor b pad) <$> ciphertext in decode_event raw.

(** ** The drain loop *)

Lemma has_event_true n id : has_event n id = true ↔ is_Some (events n !! id).
Proof. apply bool_decide_eq_true. Qed.
Lemma has_event_false n id : has_event n id = false ↔ events n !! id = None.
Proof. unfold has_event. rewrite bool_decide_eq_false, eq_None_not_Some. done. Qed.

Lemma parents_present_true n ev :
  parents_present n ev = true ↔ ∀ p, p ∈ se_parents ev → is_Some (events n !! p).
Proof.
  unfold parents_present. rewrite forallb_forall. setoid_rewrite has_event_true.
  by setoid_rewrite list_elem_of_In.
Qed.

Lemma parents_present_false n ev :
  parents_present n ev = false ↔ ∃ p, p ∈ se_parents ev ∧ events n !! p = None.
Proof.
  unfold parents_present. induction (se_parents ev) as [|p ps IH]; cbn.
  - split; [done|]. by intros (p & []%not_elem_of_nil & _).
  - destruct (has_event n p) eqn:Hp; cbn.
    + apply has_event_true in Hp as [e He]. rewrite IH. split; [set_solver|].
      intros (q & [->|Hq]%elem_of_cons & ?); [congruence|eauto].
    + apply has_event_false in Hp. split; [intros _; exists p; set_solver|done].
Qed.

(** A node without a store and with an empty inbox takes an event that is new and whose
    parents it has in its room. *)
Lemma ingest_ready n ev o : durable n = None → inbox n = [] → verified ev →
  events n !! se_id ev = None → (∀ p, p ∈ se_parents ev → is_Some (events n !! p)) →
  room_ok (dag_entry n (se_room_id ev)) ev → dag_events (dag_entry n (se_room_id ev)) = events n →
  ∃ n', ingest_event n ev o = (Ok true, n') ∧ durable n' = None ∧ inbox n' = [] ∧
    events n' = <[se_id ev := ev]> (events n) ∧
    dags n' = <[RoomId_0 (se_room_id ev) := insert_event (adopt (dag_entry n (se_room_id ev)) ev) ev]> (dags n).
Proof.
  intros Hd Hi Hv Hn Hp Hr He.
  unfold ingest_event, has_event. rewrite bool_decide_eq_false_2 by (rewrite Hn; by intros [? ?]).
  assert (parents_present n ev = true) as -> by by apply parents_present_true. cbn [negb].
  unfold accept. rewrite ingest_new_Ok; [|done|done|by rewrite He|by intros p; rewrite He; auto].
  unfold persist. cbn [durable set_events set_dags]. rewrite Hd.
  destruct o; unfold drain_inbox; cbn [inbox set_outbox set_events set_dags]; rewrite Hi; cbn [length drain_loop];
    cbn [inbox set_outbox set_events set_dags]; rewrite Hi; cbn [drain_pass];
    (eexists; split; [done|by cbn]).
Qed.

(** A pass never grows the inbox, and shrinks it when it makes progress. *)
Lemma drain_pass_length pending : ∀ n rest pr pr' n',
  drain_pass n pending rest pr = (Ok pr', n') →
  length (inbox n') + (if pr' then if pr then 0 else 1 else 0) ≤ length rest + length pending.
Proof.
  induction pending as [|ev l IH]; intros n rest pr pr' n' H; cbn in H.
  - injection H as <- <-; cbn. destruct pr; lia.
  - destruct (has_event n (se_id ev)).
    { apply IH in H. cbn. destruct pr', pr; lia. }
    destruct (parents_present n ev); cbn in H.
    + destruct (accept n ev) as [[b|] n1]; [|done]. apply IH in H. cbn.
      destruct pr', pr, b; cbn in *; lia.
    + apply IH in H. rewrite length_app in H. cbn in *. destruct pr', pr; lia.
Qed.

Lemma drain_loop_fuel f : ∀ g n, length (inbox n) ≤ f → length (inbox n) ≤ g →
  drain_loop f n = drain_loop g n.
Proof.
  induction f as [|f IH]; intros g n Hf Hg; destruct g as [|g]; cbn; try done;
    destruct (drain_pass n (inbox n) [] false) as [[[]|] n'] eqn:H; try done;
    apply drain_pass_length in H; cbn in H; [lia..|]. apply IH; lia.
Qed.

(** The loop equation of [drain_inbox], free of fuel. *)
Lemma drain_inbox_eq n : drain_inbox n =
  match drain_pass n (inbox n) [] false with
  | (Err e, n') => (Err e, n')
  | (Ok true, n') => drain_inbox n'
  | (Ok false, n') => (Ok tt, n')
  end.
Proof.
  unfold drain_inbox at 1. destruct (inbox n) as [|e l] eqn:Hl; cbn [length drain_loop].
  - rewrite Hl; cbn. done.
  - rewrite Hl. destruct (drain_pass n (e :: l) [] false) as [[[]|] n'] eqn:H; try done.
    apply drain_pass_length in H; cbn in H. apply drain_loop_fuel; cbn; lia.
Qed.

(** ** Invariant *)

Record node_wf `{SL : !StoreEnvLaws} (n : DeviceNode) : Prop := {
  nw_log : log_wf (events n);
  nw_dags : map_Forall (λ k d, dag_wf d ∧ ∃ r, dag_room_id d = Some r ∧ RoomId_0 r = k) (dags n);
  nw_rooms : ∀ r id ev, dag_events (dag_entry n r) !! id = Some ev ↔
    events n !! id = Some ev ∧ se_room_id ev = r;
  nw_inbox : ∀ ev, ev ∈ inbox n → verified ev;
  nw_durable : ∀ s, durable n = Some s → ∃ M, sqlite_represents s M;
}.

(** The durable log holds the node's events and those of [M] (the log found on
    disk, while it is replayed; nothing otherwise). *)
Definition synced `{SL : !StoreEnvLaws} (M : gmap EventId SignedEvent) (n : DeviceNode) : Prop :=
  ∀ s, durable n = Some s → sqlite_represents s (events n ∪ M).

(** [M] has no other event under the id of [e]. *)
Definition compat (M : gmap EventId SignedEvent) (e : SignedEvent) : Prop :=
  ∀ e', M !! se_id e = Some e' → e' = e.

(** A step that may add the events of [l] keeps the durable log in sync. *)
Definition sync_step `{SL : !StoreEnvLaws} (l : list SignedEvent) (n n' : DeviceNode) : Prop :=
  ∀ M, (∀ e, e ∈ l → compat M e) → synced M n → synced M n'.

(** Every parked event is unknown and waits for a parent. *)
Definition inbox_blocked (n : DeviceNode) : Prop :=
  ∀ ev, ev ∈ inbox n → events n !! se_id ev = None ∧
    ∃ p, p ∈ se_parents ev ∧ events n !! p = None.

Context {SL : StoreEnvLaws}.

Lemma sync_step_refl l n : sync_step l n n.
Proof. by intros M _ H. Qed.
Lemma sync_step_weaken (l l' : list SignedEvent) n n' :
  (∀ e, e ∈ l → e ∈ l') → sync_step l n n' → sync_step l' n n'.
Proof. intros Hl H M Hc. apply H. auto. Qed.
Lemma sync_step_trans l n1 n2 n3 : sync_step l n1 n2 → sync_step l n2 n3 → sync_step l n1 n3.
Proof. intros H1 H2 M Hc Hs. auto. Qed.

(** What stays the same in every step but the parking of events. *)
Definition frame (n n' : DeviceNode) : Prop :=
  device_id n' = device_id n ∧ outbox n' = outbox n ∧ inbox n' = inbox n ∧
  (durable n = None → durable n' = None).

(** The outcomes of [accept] on a well-formed node, for an unknown event. *)
Inductive accepted (n : DeviceNode) (ev : SignedEvent) : result SyncError bool * DeviceNode → Prop :=
| accepted_ok n' : node_wf n' → frame n n' → events n' = <[se_id ev := ev]> (events n) →
    sync_step [ev] n n' → accepted n ev (Ok true, n')
| accepted_store e n' : node_wf n' → frame n n' → events n' = <[se_id ev := ev]> (events n) →
    (∃ s, durable n = Some s ∧ (put s ev).1 = Err e) → accepted n ev (Err (SyncStore e), n')
| accepted_foreign p n' : node_wf n' → frame n n' → events n' = events n → durable n' = durable n →
    p ∈ se_parents ev → (∀ e, events n !! p = Some e → se_room_id e ≠ se_room_id ev) →
    accepted n ev (Err (SyncDag (MissingParent p)), n').

Lemma dag_entry_wf n r : node_wf n →
  dag_wf (dag_entry n r) ∧ dag_room_id (dag_entry n r) = Some r.
Proof.
  intros [_ Hd _ _ _]. unfold dag_entry. destruct (dags n !! _) as [d|] eqn:H; cbn.
  - destruct (Hd _ _ H) as (? & r' & Hr' & Heq). split; [done|]. rewrite Hr'. f_equal.
    destruct r, r'; cbn in *. congruence.
  - split; [apply dag_wf_empty|done].
Qed.

Lemma dag_entry_set n r d r' :
  dag_entry (set_dags n (<[RoomId_0 r := d]> (dags n))) r' =
    if decide (r = r') then d else dag_entry n r'.
Proof.
  unfold dag_entry; cbn. case_decide as H.
  - subst. by rewrite lookup_insert_eq.
  - rewrite lookup_insert_ne; [done|]. destruct r, r'; cbn; congruence.
Qed.

(** The node with the DAG of one room replaced. *)
Lemma set_dag_wf n ev d : node_wf n → verified ev → dag_wf d →
  dag_room_id d = Some (se_room_id ev) → events n !! se_id ev = None →
  dag_events d = dag_events (dag_entry n (se_room_id ev)) ∨
  dag_events d = <[se_id ev := ev]> (dag_events (dag_entry n (se_room_id ev))) →
  node_wf (set_events (set_dags n (<[RoomId_0 (se_room_id ev) := d]> (dags n)))
    (if decide (dag_events d = dag_events (dag_entry n (se_room_id ev))) then events n
     else <[se_id ev := ev]> (events n))).
Proof.
  intros [Hl Hd Hr Hi Hs] Hv Hdw Hdr Hn Hde.
  assert (dag_events (dag_entry n (se_room_id ev)) !! se_id ev = None) as Hn'.
  { apply eq_None_not_Some. intros [e [He _]%Hr]. congruence. }
  assert (∀ k d', <[RoomId_0 (se_room_id ev) := d]> (dags n) !! k = Some d' →
    dag_wf d' ∧ ∃ r, dag_room_id d' = Some r ∧ RoomId_0 r = k) as Hdags.
  { intros k d' [[<- <-]|[_ ?]]%lookup_insert_Some; eauto. }
  assert (∀ x y, dag_entry (set_events x y) = dag_entry x) as Hext by done.
  case_decide as Hsame; split; cbn; try done.
  - intros r id e. rewrite Hext, dag_entry_set. case_decide as Heq; [|done].
    rewrite Hsame, Heq. apply Hr.
  - by apply log_wf_insert.
  - intros r id e. rewrite Hext, dag_entry_set.
    destruct Hde as [|Hde]; [done|]. rewrite lookup_insert_Some. case_decide as Heq.
    + rewrite Hde, <-Heq, lookup_insert_Some, Hr. naive_solver.
    + rewrite Hr. split; [|naive_solver]. intros [? ?]. split; [|done]. right.
      split; [congruence|done].
Qed.

(** Writing the event just accepted to the durable log. *)
Lemma persist_spec n0 n ev : node_wf n → verified ev →
  events n = <[se_id ev := ev]> (events n0) → events n0 !! se_id ev = None →
  durable n = durable n0 →
  let '(r, n') := persist n ev in
  node_wf n' ∧ frame n n' ∧ events n' = events n ∧
  match r with
  | Ok _ => sync_step [ev] n0 n'
  | Err (SyncStore e) => ∃ s, durable n0 = Some s ∧ (put s ev).1 = Err e
  | Err _ => False
  end.
Proof.
  intros Hw Hv He Hn Hdur. unfold persist. destruct (durable n) as [s|] eqn:Hs.
  2: { split_and!; [done..|]. intros M _ _ s. by rewrite Hs. }
  destruct (nw_durable n Hw s Hs) as (M & HM).
  assert (∀ r s', put s ev = (r, s') → node_wf (set_durable n (Some s'))) as Hwf'.
  { intros r s' Hp. pose proof (put_spec s M ev HM) as Hspec. rewrite Hp in Hspec.
    destruct Hw as [? ? ? ? _]; split; cbn; [done..|]. intros ? [= <-].
    destruct r as [[|]|]; [destruct Hspec as (_ & _ & Hspec)..|]; eexists; exact Hspec. }
  destruct (put s ev) as [r s'] eqn:Hp. specialize (Hwf' _ _ eq_refl).
  destruct r as [b|e]; (split; [done|]); (split; [by split_and!; cbn; congruence|]);
    (split; [done|]); [|exists s; by rewrite Hp].
  intros M' Hc Hsync s0 [= <-]; cbn. rewrite He, <-insert_union_l.
  pose proof (put_spec s _ ev (Hsync s (eq_sym Hdur))) as Hspec. rewrite Hp in Hspec.
  destruct b; destruct Hspec as (_ & Hin & Hspec); [done|].
  destruct Hin as [e Hin]. rewrite insert_id; [done|]. rewrite Hin. f_equal.
  apply lookup_union_Some_raw in Hin as [Hin|[_ Hin]]; [congruence|].
  apply (Hc ev); [by left|done].
Qed.

Lemma accept_spec n ev : node_wf n → verified ev → events n !! se_id ev = None →
  accepted n ev (accept n ev).
Proof.
  intros Hw Hv Hn. unfold accept. set (r := se_room_id ev).
  destruct (dag_entry_wf n r Hw) as [Hdw Hdr].
  assert (dag_events (dag_entry n r) !! se_id ev = None) as Hn'.
  { apply eq_None_not_Some. intros [e [He _]%(nw_rooms n Hw)]. congruence. }
  pose proof (ingest_preserves_wf _ ev Hdw) as Hdw'.
  pose proof (ingest_keeps_room _ ev _ Hdr) as Hdr'.
  pose proof (ingest_outcomes (dag_entry n r) ev) as Ho.
  destruct (ingest (dag_entry n r) ev) as [res d] eqn:Hi; cbn in Hdw', Hdr'.
  pose proof (set_dag_wf n ev d Hw Hv Hdw' Hdr' Hn) as Hset. fold r in Hset.
  inversion Ho as [e He|_ Hroom|_ _ Hdup|p _ _ _ Hin Hp|]; subst res d.
  - unfold verified in Hv. congruence.
  - destruct Hroom. right. by rewrite Hdr.
  - destruct Hdup; congruence.
  - specialize (Hset (or_introl (adopt_events _ _))). rewrite decide_True in Hset by apply adopt_events.
    eapply accepted_foreign; eauto; [done|]. intros e He Hre.
    rewrite (proj2 (nw_rooms n Hw r p e)) in Hp; done.
  - assert (dag_events (insert_event (adopt (dag_entry n r) ev) ev) =
      <[se_id ev := ev]> (dag_events (dag_entry n r))) as Hev by (cbn; by rewrite adopt_events).
    specialize (Hset (or_intror Hev)). rewrite decide_False in Hset.
    2: { rewrite Hev. intros Heq. rewrite <-Heq, lookup_insert_eq in Hn'. done. }
    match type of Hset with node_wf ?x => set (n1 := x) in * end.
    pose proof (persist_spec n n1 ev Hset Hv eq_refl Hn eq_refl) as Hp.
    match goal with |- accepted _ _ (let '(_, _) := persist ?x _ in _) => change x with n1 end.
    destruct (persist n1 ev) as [[u|e] n2] eqn:Hpe; destruct Hp as (? & (? & ? & ? & ?) & ? & Hr).
    + by apply accepted_ok.
    + destruct e; try done. by apply accepted_store.
Qed.

(** ** A pass and the loop *)

(** The effect of draining: the log grows by verified events, the outbox is
    untouched, and what remains parked was parked before. *)
Record drained (n n' : DeviceNode) : Prop := {
  dr_wf : node_wf n';
  dr_grow : events n ⊆ events n';
  dr_device : device_id n' = device_id n;
  dr_outbox : outbox n' = outbox n;
  dr_durable : durable n = None → durable n' = None;
}.

Lemma drained_trans n1 n2 n3 : drained n1 n2 → drained n2 n3 → drained n1 n3.
Proof. intros [] []; split; [done|by etrans|congruence..|auto]. Qed.

Lemma accepted_drained n ev r n' : events n !! se_id ev = None →
  accepted n ev (r, n') → drained n n'.
Proof.
  intros Hn H. inversion H as [n1 Hw (? & ? & ? & ?) He|e n1 Hw (? & ? & ? & ?) He|p n1 Hw (? & ? & ? & ?) He];
    subst; (split; [done| |done..]); rewrite He; [by apply insert_subseteq..|done].
Qed.

Lemma set_inbox_wf n l : node_wf n → (∀ ev, ev ∈ l → verified ev) → node_wf (set_inbox n l).
Proof. intros [? ? ? ? ?] Hl. by split. Qed.

Lemma set_inbox_drained n n' l :
  drained n n' → (∀ ev, ev ∈ l → verified ev) → drained n (set_inbox n' l).
Proof. intros [] Hl. split; [by apply set_inbox_wf|done..]. Qed.

Lemma drain_pass_drained pending : ∀ n rest pr r n', node_wf n →
  (∀ ev, ev ∈ rest ++ pending → verified ev) →
  drain_pass n pending rest pr = (r, n') → drained n n'.
Proof.
  induction pending as [|ev l IH]; intros n rest pr r n' Hw Hv H; cbn in H.
  - injection H as <- <-. rewrite app_nil_r in Hv. by apply set_inbox_drained.
  - assert (verified ev) as Hve by (apply Hv, elem_of_app; right; by left).
    assert (∀ x, x ∈ rest ++ l → verified x) as Hvl.
    { intros x Hx. apply Hv. rewrite elem_of_app, elem_of_cons in *. tauto. }
    destruct (has_event n (se_id ev)) eqn:Hh; [by eapply IH; [..|done]|].
    apply has_event_false in Hh.
    destruct (parents_present n ev); cbn in H.
    2: { eapply IH; [done| |done]. by rewrite <-app_assoc. }
    pose proof (accept_spec n ev Hw Hve Hh) as Ha.
    destruct (accept n ev) as [[b|e] n1]; apply accepted_drained in Ha; try done.
    + eapply drained_trans; [done|]. eapply IH; [apply Ha|done|done].
    + simplify_eq. apply set_inbox_drained; [done|].
      intros x Hx. apply Hvl, elem_of_app. by right.
Qed.

Lemma drain_loop_drained f : ∀ n r n', node_wf n → drain_loop f n = (r, n') → drained n n'.
Proof.
  assert (∀ n r n', node_wf n → drain_pass n (inbox n) [] false = (r, n') → drained n n') as Hpass.
  { intros n r n' Hw. apply drain_pass_drained; [done|]. intros ev. apply (nw_inbox n Hw). }
  induction f as [|f IH]; intros n r n' Hw H; cbn in H;
    destruct (drain_pass _ _ _ _) as [[b|e] n1] eqn:Hp; apply Hpass in Hp; try done;
    try (by destruct b; simplify_eq); try by simplify_eq.
  destruct b; [|by simplify_eq]. eapply drained_trans; [done|]. eapply IH; [apply Hp|done].
Qed.

(** The bookkeeping of a pass that ends well: nothing of [pending] is lost,
    nothing else is added, and without progress every survivor is blocked. *)
Record pass_ok (n : DeviceNode) (pending rest : list SignedEvent) (pr pr' : bool)
    (n' : DeviceNode) : Prop := {
  po_kept : ∀ ev, ev ∈ pending → is_Some (events n' !! se_id ev) ∨ ev ∈ inbox n';
  po_rest : ∀ ev, ev ∈ rest → ev ∈ inbox n';
  po_from : ∀ ev, ev ∈ inbox n' → ev ∈ rest ∨ ev ∈ pending;
  po_new : ∀ id ev, events n' !! id = Some ev → events n !! id = Some ev ∨ ev ∈ pending;
  po_mono : pr = true → pr' = true;
  po_idle : pr' = false → events n' = events n ∧ ∀ ev, ev ∈ inbox n' → ev ∈ rest ∨
    (events n !! se_id ev = None ∧ ∃ p, p ∈ se_parents ev ∧ events n !! p = None);
  po_synced : sync_step pending n n';
}.

(** Weakening of the bookkeeping from the rest of a pass to the whole. *)
Lemma pass_ok_skip n ev l rest pr pr' n' : is_Some (events n' !! se_id ev) →
  pass_ok n l rest pr pr' n' → pass_ok n (ev :: l) rest pr pr' n'.
Proof.
  intros Hin [K1 K2 K3 K4 K5 K6 K7]. split; try done.
  - intros x [->|Hx]%elem_of_cons; auto.
  - intros x Hx. destruct (K3 x Hx); [by left|right; by right].
  - intros id x Hx. destruct (K4 id x Hx); [by left|right; by right].
  - eapply sync_step_weaken; [|done]. by right.
Qed.

Lemma pass_ok_park n ev l rest pr pr' n' : events n !! se_id ev = None →
  (∃ p, p ∈ se_parents ev ∧ events n !! p = None) →
  pass_ok n l (rest ++ [ev]) pr pr' n' → pass_ok n (ev :: l) rest pr pr' n'.
Proof.
  intros Hn Hb [K1 K2 K3 K4 K5 K6 K7]. split; try done.
  - intros x [->|Hx]%elem_of_cons; [|by auto]. right. apply K2, elem_of_app. right. by left.
  - intros x Hx. apply K2, elem_of_app. by left.
  - intros x Hx. destruct (K3 x Hx) as [[?| ->%list_elem_of_singleton]%elem_of_app|?];
      [by left|right; by left|right; by right].
  - intros id x Hx. destruct (K4 id x Hx); [by left|right; by right].
  - intros Hpr. destruct (K6 Hpr) as [He Hi]. split; [done|]. intros x Hx.
    destruct (Hi x Hx) as [[?| ->%list_elem_of_singleton]%elem_of_app|?]; auto.
  - eapply sync_step_weaken; [|done]. by right.
Qed.

Lemma pass_ok_accept n n1 ev l rest pr pr' n' :
  events n1 = <[se_id ev := ev]> (events n) → sync_step [ev] n n1 →
  is_Some (events n' !! se_id ev) →
  pass_ok n1 l rest true pr' n' → pass_ok n (ev :: l) rest pr pr' n'.
Proof.
  intros He Hs Hin [K1 K2 K3 K4 K5 K6 K7]. split; try done.
  - intros x [->|Hx]%elem_of_cons; auto.
  - intros x Hx. destruct (K3 x Hx); [by left|right; by right].
  - intros id x Hx. apply K4 in Hx as [Hx|Hx]; [|right; by right].
    rewrite He in Hx. apply lookup_insert_Some in Hx as [[_ <-]|[_ ?]]; [right; by left|by left].
  - auto.
  - intros ->. by discriminate K5.
  - eapply sync_step_trans; (eapply sync_step_weaken; [|done]); [|by right].
    intros x ->%list_elem_of_singleton. by left.
Qed.

Lemma drain_pass_ok pending : ∀ n rest pr pr' n', node_wf n →
  (∀ ev, ev ∈ rest → verified ev) → (∀ ev, ev ∈ pending → verified ev) →
  drain_pass n pending rest pr = (Ok pr', n') → pass_ok n pending rest pr pr' n'.
Proof.
  induction pending as [|ev l IH]; intros n rest pr pr' n' Hw Hr Hv H.
  - cbn in H. injection H as <- <-. split; cbn; auto; try (by intros x []%not_elem_of_nil).
    by intros M _ Hs.
  - assert (verified ev) as Hve by (apply Hv; by left).
    assert (∀ x, x ∈ l → verified x) as Hvl by (intros x Hx; apply Hv; by right).
    cbn in H. destruct (has_event n (se_id ev)) eqn:Hh.
    { apply has_event_true in Hh as [e He]. apply pass_ok_skip; [|by apply IH].
      exists e. eapply lookup_weaken; [done|].
      eapply dr_grow, drain_pass_drained; [..|done]; [done|].
      intros x [?|?]%elem_of_app; auto. }
    apply has_event_false in Hh. destruct (parents_present n ev) eqn:Hp; cbn in H.
    + pose proof (accept_spec n ev Hw Hve Hh) as Ha.
      destruct (accept n ev) as [[b|e] n1]; [|done].
      inversion Ha as [n2 Hw1 _ He1 Hs1| |]; subst. rewrite orb_true_r in H.
      apply pass_ok_accept with n1; [done..| |by apply IH].
      exists ev. eapply (lookup_weaken (events n1)); [by rewrite He1, lookup_insert_eq|].
      eapply dr_grow, drain_pass_drained; [..|done]; [done|].
      intros x [?|?]%elem_of_app; auto.
    + apply parents_present_false in Hp. apply pass_ok_park; [done..|].
      apply IH; try done. intros x [?| ->%list_elem_of_singleton]%elem_of_app; auto.
Qed.

Record drain_ok (n n' : DeviceNode) : Prop := {
  do_drained : drained n n';
  do_blocked : inbox_blocked n';
  do_kept : ∀ ev, ev ∈ inbox n → is_Some (events n' !! se_id ev) ∨ ev ∈ inbox n';
  do_from : ∀ ev, ev ∈ inbox n' → ev ∈ inbox n;
  do_new : ∀ id ev, events n' !! id = Some ev → events n !! id = Some ev ∨ ev ∈ inbox n;
  do_synced : sync_step (inbox n) n n';
}.

Lemma drain_inbox_ok k : ∀ n u n', length (inbox n) < k → node_wf n →
  drain_inbox n = (Ok u, n') → drain_ok n n'.
Proof.
  induction k as [|k IH]; intros n u n' Hk Hw H; [lia|].
  rewrite drain_inbox_eq in H.
  destruct (drain_pass _ _ _ _) as [[b|e] n1] eqn:Hp; [|done].
  pose proof (drain_pass_length _ _ _ _ _ _ Hp) as Hlen.
  pose proof (drain_pass_drained _ _ [] _ _ _ Hw (nw_inbox n Hw) Hp) as Hd.
  apply drain_pass_ok in Hp as [K1 K2 K3 K4 K5 K6 K7];
    [|done|by intros x []%not_elem_of_nil|apply (nw_inbox n Hw)].
  assert (∀ ev, ev ∈ inbox n1 → ev ∈ inbox n) as Hfrom.
  { intros ev Hev. by destruct (K3 ev Hev) as [[]%not_elem_of_nil|]. }
  destruct b.
  - cbn in Hlen. apply IH in H as [L1 L2 L3 L4 L5 L6]; [|lia|apply Hd].
    split; [by eapply drained_trans|done| | | |
      eapply sync_step_trans; [done|]; by eapply sync_step_weaken].
    + intros ev Hev. destruct (K1 ev Hev) as [[e He]|?]; [left|by auto].
      exists e. eapply lookup_weaken; [done|apply L1].
    + intros ev Hev. by apply Hfrom, L4.
    + intros id ev Hev. destruct (L5 id ev Hev) as [?|?%Hfrom]; [by apply K4|by right].
  - injection H as _ <-. destruct (K6 eq_refl) as [He Hb].
    split; [done| |done..].
    intros ev Hev. rewrite He. by destruct (Hb ev Hev) as [[]%not_elem_of_nil|].
Qed.

(** ** Committing an event *)

(** What a successful [ingest_event] does. *)
Record commit_ok (n : DeviceNode) (ev : SignedEvent) (to_outbox b : bool) (n' : DeviceNode) : Prop := {
  co_wf : node_wf n';
  co_grow : events n ⊆ events n';
  co_blocked : inbox_blocked n';
  co_kept : ∀ e, e ∈ inbox n ∨ e = ev →
    is_Some (events n' !! se_id e) ∨ ∃ e', e' ∈ inbox n' ∧ se_id e' = se_id e;
  co_from : ∀ e, e ∈ inbox n' → e ∈ inbox n ∨ e = ev;
  co_new : ∀ id e, events n' !! id = Some e → events n !! id = Some e ∨ e ∈ inbox n ∨ e = ev;
  co_synced : sync_step (ev :: inbox n) n n';
  co_outbox : outbox n' = outbox n ++ (if b && to_outbox then [ev] else []);
  co_durable : durable n = None → durable n' = None;
  co_result : if b then events n !! se_id ev = None ∧ parents_present n ev = true ∧
      events n' !! se_id ev = Some ev
    else events n' = events n ∧ (is_Some (events n !! se_id ev) ∨ parents_present n ev = false);
}.

(** The outbox push between [accept] and [drain_inbox]. *)
Definition push_outbox (n : DeviceNode) (ev : SignedEvent) (to_outbox : bool) : DeviceNode :=
  if to_outbox then set_outbox n (outbox n ++ [ev]) else n.

Lemma push_outbox_wf n ev o : node_wf n → node_wf (push_outbox n ev o).
Proof. intros [? ? ? ? ?]. by destruct o; split. Qed.

Lemma push_outbox_fields n ev o :
  events (push_outbox n ev o) = events n ∧ inbox (push_outbox n ev o) = inbox n ∧
  durable (push_outbox n ev o) = durable n ∧
  outbox (push_outbox n ev o) = outbox n ++ (if o then [ev] else []).
Proof. destruct o; cbn; by rewrite ?app_nil_r. Qed.

Lemma inbox_has_id l id :
  existsb (λ e, bool_decide (se_id e = id)) l = true ↔ ∃ e, e ∈ l ∧ se_id e = id.
Proof.
  rewrite existsb_exists. setoid_rewrite bool_decide_eq_true. by setoid_rewrite list_elem_of_In.
Qed.

Lemma park_ok n ev o : node_wf n → inbox_blocked n → verified ev →
  events n !! se_id ev = None → parents_present n ev = false →
  commit_ok n ev o false
    (if existsb (λ e, bool_decide (se_id e = se_id ev)) (inbox n) then n
     else set_inbox n (inbox n ++ [ev])).
Proof.
  intros Hw Hb Hv Hn Hp. pose proof (proj1 (parents_present_false n ev) Hp) as Hmiss.
  destruct (existsb _ _) eqn:He.
  - apply inbox_has_id in He as (e' & ? & ?).
    split; cbn; rewrite ?app_nil_r; auto using sync_step_refl.
    intros e [?| ->]; right; eauto.
  - split; cbn; rewrite ?app_nil_r; auto using sync_step_refl.
    + apply set_inbox_wf; [done|]. intros x [?| ->%list_elem_of_singleton]%elem_of_app; [|done].
      by apply (nw_inbox n Hw).
    + intros x [?| ->%list_elem_of_singleton]%elem_of_app; cbn; auto.
    + intros x Hx. right. exists x. split; [|done]. apply elem_of_app.
      rewrite list_elem_of_singleton. tauto.
    + intros x [?| ->%list_elem_of_singleton]%elem_of_app; auto.
    + by intros M _ Hs.
Qed.

Lemma ingest_event_ok n ev o b n' : node_wf n → inbox_blocked n → verified ev →
  ingest_event n ev o = (Ok b, n') → commit_ok n ev o b n'.
Proof.
  intros Hw Hb Hv H. unfold ingest_event in H.
  destruct (has_event n (se_id ev)) eqn:Hh.
  { apply has_event_true in Hh as Hin. injection H as <- <-.
    split; cbn; rewrite ?app_nil_r; auto using sync_step_refl. intros e [?| ->]; eauto. }
  apply has_event_false in Hh. destruct (parents_present n ev) eqn:Hp; cbn in H.
  2: { injection H as <- <-. by apply park_ok. }
  pose proof (accept_spec n ev Hw Hv Hh) as Ha.
  destruct (accept n ev) as [[ins|e] n1]; [|done].
  inversion Ha as [n2 Hw1 (? & Hob & Hib & Hdur) He1 Hs1| |]; subst.
  fold (push_outbox n1 ev o) in H.
  destruct (push_outbox_fields n1 ev o) as (Pe & Pi & Pd & Po).
  pose proof (push_outbox_wf n1 ev o Hw1) as Hw2.
  destruct (drain_inbox (push_outbox n1 ev o)) as [[u|e] n2] eqn:Hd; [|done].
  injection H as <- <-.
  apply (drain_inbox_ok (S (length (inbox (push_outbox n1 ev o))))) in Hd
    as [[D1 D2 D3 D4 D5] L2 L3 L4 L5 L6]; [|lia|done].
  rewrite Pe, Pi, Hib in *.
  assert (events n2 !! se_id ev = Some ev) as Hin.
  { eapply lookup_weaken; [|exact D2]. by rewrite He1, lookup_insert_eq. }
  split; auto.
  - etrans; [|exact D2]. rewrite He1. by apply insert_subseteq.
  - intros x [Hx| ->]; [|left; by eexists]. destruct (L3 x Hx); eauto.
  - intros id x Hx. destruct (L5 id x Hx) as [Hx'|]; [|by auto].
    rewrite He1 in Hx'. apply lookup_insert_Some in Hx' as [[_ <-]|[_ ?]]; auto.
  - eapply sync_step_trans; [|eapply sync_step_weaken; [|exact L6]; by right].
    intros M Hc Hs. unfold synced. rewrite Pd, Pe. apply Hs1; [|done].
    intros x ->%list_elem_of_singleton. apply Hc. by left.
  - rewrite D4, Po, Hob. done.
  - rewrite Pd in D5. auto.
Qed.

Lemma ingest_event_wf n ev o : node_wf n → verified ev →
  node_wf (ingest_event n ev o).2 ∧ events n ⊆ events (ingest_event n ev o).2 ∧
  device_id (ingest_event n ev o).2 = device_id n.
Proof.
  intros Hw Hv. unfold ingest_event.
  destruct (has_event n (se_id ev)) eqn:Hh; [done|]. apply has_event_false in Hh.
  destruct (parents_present n ev) eqn:Hp; cbn [negb].
  2: { destruct (existsb _ _); cbn; split_and!; try done. apply set_inbox_wf; [done|].
       intros x [?| ->%list_elem_of_singleton]%elem_of_app; [|done]. by apply (nw_inbox n Hw). }
  pose proof (accept_spec n ev Hw Hv Hh) as Ha.
  destruct (accept n ev) as [r n1]. pose proof (accepted_drained n ev r n1 Hh Ha) as Hd.
  destruct r as [[|]|e]; cbn; try (split_and!; apply Hd).
  fold (push_outbox n1 ev o). pose proof (push_outbox_wf n1 ev o (dr_wf _ _ Hd)) as Hw2.
  destruct (push_outbox_fields n1 ev o) as (Pe & _).
  assert (device_id (push_outbox n1 ev o) = device_id n1) as Pd by by destruct o.
  destruct (drain_inbox (push_outbox n1 ev o)) as [[u|e] n2] eqn:Hl;
    apply drain_loop_drained in Hl; try done; cbn;
    (split_and!; [apply Hl|etrans; [apply Hd|]; rewrite <-Pe; apply Hl|
      rewrite (dr_device _ _ Hl), Pd; apply Hd]).
Qed.

(** ** Closed universes *)

(** A finite set of verified events, closed under parents within a room and
    acyclic. *)
Record universe (U : gmap EventId SignedEvent) : Prop := {
  un_log : log_wf U;
  un_closed : ∀ id ev p, U !! id = Some ev → p ∈ se_parents ev →
    ∃ e, U !! p = Some e ∧ se_room_id e = se_room_id ev;
  un_ranked : ∃ rank, ranked U rank;
}.

(** Everything the node knows or has parked belongs to [U]. *)
Definition within (U : gmap EventId SignedEvent) (n : DeviceNode) : Prop :=
  events n ⊆ U ∧ ∀ e, e ∈ inbox n → U !! se_id e = Some e.

(** Writes to the durable store, if there is one, do not fail. *)
Definition reliable (n : DeviceNode) : Prop :=
  durable n = None ∨ ∀ (s : SqliteStore) ev, verified ev → is_ok (put s ev).1 = true.

Lemma reliable_mono n n' : (durable n = None → durable n' = None) → reliable n → reliable n'.
Proof. intros H [?|?]; [left|right]; auto. Qed.

Lemma accept_within U n ev : universe U → within U n → reliable n → node_wf n →
  U !! se_id ev = Some ev → events n !! se_id ev = None → parents_present n ev = true →
  ∃ n', accept n ev = (Ok true, n').
Proof.
  intros [Hl Hc _] [Hsub _] Hrel Hw Hev Hn Hp.
  assert (verified ev) as Hv by apply (Hl _ _ Hev).
  pose proof (accept_spec n ev Hw Hv Hn) as Ha.
  destruct (accept n ev) as [r n1].
  inversion Ha as [|e n2 _ _ _ (s & Hs & Hput)|p n2 _ _ _ _ Hin Hroom]; subst; [eauto|..].
  - destruct Hrel as [|Hrel]; [congruence|]. specialize (Hrel s ev Hv).
    by rewrite Hput in Hrel.
  - apply parents_present_true with (p := p) in Hp as [e He]; [|done].
    destruct (Hc _ _ _ Hev Hin) as (e' & He' & Hr).
    pose proof (lookup_weaken _ _ _ _ He Hsub). destruct (Hroom e He). congruence.
Qed.

Lemma drain_pass_within U pending : ∀ n rest pr, universe U → within U n → reliable n →
  node_wf n → (∀ e, e ∈ pending → U !! se_id e = Some e) →
  ∃ b n', drain_pass n pending rest pr = (Ok b, n').
Proof.
  induction pending as [|ev l IH]; intros n rest pr HU Hin Hrel Hw Hp; cbn; [by eauto|].
  assert (∀ e, e ∈ l → U !! se_id e = Some e) as Hl by (intros; apply Hp; by right).
  assert (U !! se_id ev = Some ev) as Hev by (apply Hp; by left).
  destruct (has_event n (se_id ev)) eqn:Hh; [by auto|]. apply has_event_false in Hh.
  destruct (parents_present n ev) eqn:Hpp; cbn; [|by auto].
  destruct (accept_within U n ev) as [n1 Ha]; try done. rewrite Ha.
  assert (verified ev) as Hv by apply (un_log U HU _ _ Hev).
  pose proof (accept_spec n ev Hw Hv Hh) as Hs. rewrite Ha in Hs.
  inversion Hs as [n2 Hw1 (_ & _ & Hib & Hd) He1 _| |]; subst.
  apply IH; try done; [|by eapply reliable_mono].
  destruct Hin as [Hsub Hinb]. split; [|by rewrite Hib].
  rewrite He1. by apply insert_subseteq_l.
Qed.

Lemma new_within U n E' (l : list SignedEvent) : universe U → events n ⊆ U → (∀ e, e ∈ l → U !! se_id e = Some e) →
  log_wf E' → (∀ id e, E' !! id = Some e → events n !! id = Some e ∨ e ∈ l) → E' ⊆ U.
Proof.
  intros HU Hsub Hl Hlog Hnew. apply map_subseteq_spec. intros id e He.
  destruct (Hlog _ _ He) as [<- _]. destruct (Hnew _ _ He); [by eapply lookup_weaken|auto].
Qed.

Lemma drain_inbox_within U k : ∀ n, length (inbox n) < k → universe U → within U n →
  reliable n → node_wf n → ∃ n', drain_inbox n = (Ok tt, n').
Proof.
  induction k as [|k IH]; intros n Hk HU Hin Hrel Hw; [lia|].
  rewrite drain_inbox_eq.
  destruct (drain_pass_within U (inbox n) n [] false) as (b & n1 & Hp); try done; [apply Hin|].
  rewrite Hp. destruct b; [|by eauto].
  pose proof (drain_pass_length _ _ _ _ _ _ Hp) as Hlen; cbn in Hlen.
  pose proof (drain_pass_drained _ _ [] _ _ _ Hw (nw_inbox n Hw) Hp) as [D1 D2 D3 D4 D5].
  apply drain_pass_ok in Hp as [K1 K2 K3 K4 K5 K6 K7];
    [|done|by intros x []%not_elem_of_nil|apply (nw_inbox n Hw)].
  assert (∀ e, e ∈ inbox n1 → e ∈ inbox n) as Hfrom.
  { intros e He. by destruct (K3 e He) as [[]%not_elem_of_nil|]. }
  apply IH; try done; [lia| |by eapply reliable_mono].
  destruct Hin as [Hsub Hinb]. split; [|by auto].
  eapply (new_within U n (events n1) (inbox n)); auto. apply (nw_log n1 D1).
Qed.

Lemma ingest_event_within U n ev o : universe U → within U n → reliable n → node_wf n →
  U !! se_id ev = Some ev → ∃ b n', ingest_event n ev o = (Ok b, n').
Proof.
  intros HU Hin Hrel Hw Hev. unfold ingest_event.
  destruct (has_event n (se_id ev)) eqn:Hh; [by eauto|]. apply has_event_false in Hh.
  destruct (parents_present n ev) eqn:Hp; cbn; [|by eauto].
  destruct (accept_within U n ev) as [n1 Ha]; try done. rewrite Ha.
  assert (verified ev) as Hv by apply (un_log U HU _ _ Hev).
  pose proof (accept_spec n ev Hw Hv Hh) as Hs. rewrite Ha in Hs.
  inversion Hs as [n2 Hw1 (_ & _ & Hib & Hd) He1 _| |]; subst.
  fold (push_outbox n1 ev o). destruct (push_outbox_fields n1 ev o) as (Pe & Pi & Pd & Po).
  destruct (drain_inbox_within U (S (length (inbox (push_outbox n1 ev o))))
    (push_outbox n1 ev o)) as [n2 Hdr]; [lia|done| | |by apply push_outbox_wf|].
  - destruct Hin as [Hsub Hinb]. split; [|by rewrite Pi, Hib].
    rewrite Pe, He1. by apply insert_subseteq_l.
  - eapply reliable_mono; [|done]. rewrite Pd. done.
  - rewrite Hdr. by eauto.
Qed.

(** A healthy node inside a universe. *)
Record healthy (U : gmap EventId SignedEvent) (n : DeviceNode) : Prop := {
  h_wf : node_wf n;
  h_blocked : inbox_blocked n;
  h_within : within U n;
  h_reliable : reliable n;
}.

(** The ids a node knows or has parked. *)
Definition held (n : DeviceNode) (id : EventId) : Prop :=
  is_Some (events n !! id) ∨ ∃ e, e ∈ inbox n ∧ se_id e = id.

(** Ingesting an event of the universe succeeds, keeps the node healthy,
    loses nothing and holds the event. *)
Lemma ingest_event_healthy U n ev o : universe U → healthy U n → U !! se_id ev = Some ev →
  ∃ b n', ingest_event n ev o = (Ok b, n') ∧ healthy U n' ∧ events n ⊆ events n' ∧
    held n' (se_id ev) ∧ (∀ id, held n id → held n' id) ∧ (∀ M, M ⊆ U → synced M n → synced M n') ∧
    (b = true → events n' !! se_id ev = Some ev).
Proof.
  intros HU [Hw Hb Hin Hrel] Hev.
  destruct (ingest_event_within U n ev o) as (b & n' & Hi); try done.
  assert (verified ev) as Hv by apply (un_log U HU _ _ Hev).
  exists b, n'. split; [done|].
  destruct (ingest_event_ok n ev o b n' Hw Hb Hv Hi) as [C1 C2 C3 C4 C5 C6 C7 C8 C9 C10].
  destruct Hin as [Hsub Hinb].
  assert (∀ e, e ∈ ev :: inbox n → U !! se_id e = Some e) as HUe.
  { intros e [->|?]%elem_of_cons; auto. }
  split_and!; try done.
  - split; [done..| |by eapply reliable_mono]. split.
    + eapply (new_within U n (events n') (ev :: inbox n)); auto; [apply (nw_log n' C1)|].
      intros id e He. rewrite elem_of_cons. destruct (C6 id e He) as [?|[?| ->]]; auto.
    + intros e He. destruct (C5 e He) as [?| ->]; auto.
  - apply (C4 ev). by right.
  - intros id [[e He]|(e & He & <-)]; [left|by apply C4; left].
    exists e. by eapply lookup_weaken.
  - intros M HM. apply C7. intros e He e' He'.
    pose proof (lookup_weaken _ _ _ _ He' HM). specialize (HUe e He). congruence.
  - intros ->. apply C10.
Qed.

(** When everything of the universe is held, everything is known: a parked
    event of least rank would have all its parents. *)
Lemma saturated U n : universe U → healthy U n → (∀ id, is_Some (U !! id) → held n id) →
  events n = U ∧ inbox n = [].
Proof.
  intros [Hl Hc [rank Hr]] [Hw Hb [Hsub Hinb] _] Hall.
  assert (∀ k id, rank id < k → is_Some (U !! id) → is_Some (events n !! id)) as Hev.
  { induction k as [|k IH]; intros id Hk Hid; [lia|].
    destruct (Hall id Hid) as [?|(e & He & <-)]; [done|].
    destruct (Hb e He) as (_ & p & Hp & Hno). apply Hinb in He as HU.
    destruct (Hc _ _ _ HU Hp) as (ep & Hep & _). exfalso.
    destruct (IH p) as [x Hx]; [|by eexists|congruence].
    specialize (Hr _ _ _ HU Hp). lia. }
  assert (events n = U) as Heq.
  { apply (anti_symm (⊆)); [done|]. apply map_subseteq_spec. intros id e He.
    destruct (Hev (S (rank id)) id) as [x Hx]; [lia|by eexists|].
    pose proof (lookup_weaken _ _ _ _ Hx Hsub). congruence. }
  split; [done|]. destruct (inbox n) as [|e l] eqn:Hi; [done|exfalso].
  destruct (Hb e) as [Hn _]; [rewrite Hi; by left|].
  rewrite Heq, Hinb in Hn; [done|]. by left.
Qed.

Lemma commit_all_healthy U l : ∀ n k, universe U → healthy U n →
  (∀ e, e ∈ l → U !! se_id e = Some e) →
  ∃ m n', commit_all n l k = (Ok m, n') ∧ healthy U n' ∧
    (∀ e, e ∈ l → held n' (se_id e)) ∧ (∀ id, held n id → held n' id) ∧ (∀ M, M ⊆ U → synced M n → synced M n').
Proof.
  induction l as [|ev l IH]; intros n k HU Hh Hl; cbn.
  - eexists _, _. split; [done|]. split_and!; try done. by intros e []%not_elem_of_nil.
  - assert (U !! se_id ev = Some ev) as Hev by (apply Hl; by left).
    assert (verified ev) as Hv by apply (un_log U HU _ _ Hev).
    unfold commit_remote at 1. rewrite Hv.
    destruct (ingest_event_healthy U n ev false HU Hh Hev)
      as (b & n1 & -> & Hh1 & _ & Hheld & Hkeep & Hs & _).
    destruct (IH n1 (if b then k + 1 else k)%N HU Hh1) as (m & n2 & -> & Hh2 & Hl2 & Hk2 & Hs2).
    { intros e He. apply Hl. by right. }
    eexists _, _. split; [done|]. split_and!; auto.
    intros e [->|He]%elem_of_cons; auto.
Qed.

(** [replay] is [commit_all] without the count, on verified events. *)
Lemma replay_healthy U l : ∀ n, universe U → healthy U n →
  (∀ e, e ∈ l → U !! se_id e = Some e) →
  ∃ n', replay n l = (Ok tt, n') ∧ healthy U n' ∧
    (∀ e, e ∈ l → held n' (se_id e)) ∧ (∀ id, held n id → held n' id) ∧ (∀ M, M ⊆ U → synced M n → synced M n').
Proof.
  induction l as [|ev l IH]; intros n HU Hh Hl; cbn.
  - eexists. split; [done|]. split_and!; try done. by intros e []%not_elem_of_nil.
  - assert (U !! se_id ev = Some ev) as Hev by (apply Hl; by left).
    destruct (ingest_event_healthy U n ev false HU Hh Hev)
      as (b & n1 & -> & Hh1 & _ & Hheld & Hkeep & Hs & _).
    destruct (IH n1 HU Hh1) as (n2 & -> & Hh2 & Hl2 & Hk2 & Hs2).
    { intros e He. apply Hl. by right. }
    eexists. split; [done|]. split_and!; auto.
    intros e [->|He]%elem_of_cons; auto.
Qed.

Lemma replay_wf l : ∀ n, node_wf n → (∀ e, e ∈ l → verified e) →
  node_wf (replay n l).2 ∧ device_id (replay n l).2 = device_id n.
Proof.
  induction l as [|ev l IH]; intros n Hw Hl; [done|]. cbn.
  destruct (ingest_event_wf n ev false Hw) as (Hw1 & _ & Hd); [apply Hl; by left|].
  destruct (ingest_event n ev false) as [[b|e] n1]; cbn [snd] in *; [|done].
  rewrite <-Hd. apply IH; [done|]. intros e He. apply Hl. by right.
Qed.

(** ** Universes of nodes *)

#[local] Instance rank_inhabited : Inhabited (EventId → nat) := populate (λ _, 0).

Lemma node_universe n : node_wf n → universe (events n).
Proof.
  intros Hw. split; [apply (nw_log n Hw)|..].
  - intros id ev p Hid Hp.
    assert (dag_events (dag_entry n (se_room_id ev)) !! id = Some ev) as Hd
      by (by apply (nw_rooms n Hw)).
    destruct (dag_entry_wf n (se_room_id ev) Hw) as [Hdw _].
    destruct (wf_parents _ Hdw _ _ _ Hd Hp) as [e He].
    apply (nw_rooms n Hw) in He. eauto.
  - destruct (map_Forall_choice (λ (_ : bytes32) d rank, ranked (dag_events d) rank) (dags n))
      as [f Hf].
    { intros k d Hd. apply (nw_dags n Hw) in Hd as [Hd _]. apply (wf_acyclic d Hd). }
    exists (λ id, match events n !! id with
                  | Some ev => f (RoomId_0 (se_room_id ev)) id | None => 0 end).
    intros id ev p Hid Hp. rewrite Hid.
    assert (dag_events (dag_entry n (se_room_id ev)) !! id = Some ev) as Hd
      by (by apply (nw_rooms n Hw)).
    destruct (dag_entry_wf n (se_room_id ev) Hw) as [Hdw _].
    destruct (wf_parents _ Hdw _ _ _ Hd Hp) as [e He].
    apply (nw_rooms n Hw) in He as [-> Hr]. rewrite Hr.
    unfold dag_entry in Hd. destruct (dags n !! _) as [d|] eqn:Hdag; cbn in Hd.
    + apply (Hf _ _ Hdag _ _ _ Hd Hp).
    + by rewrite lookup_empty in Hd.
Qed.

(** The events of one room. *)
Definition room_part (n : DeviceNode) (r : RoomId) : gmap EventId SignedEvent :=
  filter (λ '(_, e), se_room_id e = r) (events n).

Lemma room_part_lookup n r id e :
  room_part n r !! id = Some e ↔ events n !! id = Some e ∧ se_room_id e = r.
Proof. unfold room_part. by rewrite map_lookup_filter_Some. Qed.

Lemma universe_room_part n r : node_wf n → universe (room_part n r).
Proof.
  intros Hw. destruct (node_universe n Hw) as [Hl Hc [rank Hr]]. split.
  - intros id e [He _]%room_part_lookup. by apply Hl.
  - intros id e p [He Hre]%room_part_lookup Hp. destruct (Hc _ _ _ He Hp) as (x & Hx & Hrx).
    exists x. split; [|done]. apply room_part_lookup. split; [done|congruence].
  - exists rank. intros id e p [He _]%room_part_lookup. by apply Hr.
Qed.

Definition agree (E E' : gmap EventId SignedEvent) : Prop :=
  ∀ id e e', E !! id = Some e → E' !! id = Some e' → e = e'.

Lemma agree_union_r (E E' : gmap EventId SignedEvent) id e :
  agree E E' → E' !! id = Some e → (E ∪ E') !! id = Some e.
Proof.
  intros Ha He. destruct (E !! id) as [e'|] eqn:H.
  - rewrite (Ha _ _ _ H He) in H. by apply lookup_union_Some_l.
  - by rewrite lookup_union_r.
Qed.

(** The union of agreeing universes: the second is ranked above the first. *)
Lemma universe_union E E' : universe E → universe E' → agree E E' → universe (E ∪ E').
Proof.
  intros [Hl Hc [rk Hr]] [Hl' Hc' [rk' Hr']] Ha. split.
  - intros id e [He|[_ He]]%lookup_union_Some_raw; [by apply Hl|by apply Hl'].
  - intros id e p [He|[_ He]]%lookup_union_Some_raw Hp.
    + destruct (Hc _ _ _ He Hp) as (x & ? & ?). exists x. split; [|done].
      by apply lookup_union_Some_l.
    + destruct (Hc' _ _ _ He Hp) as (x & ? & ?). exists x. split; [|done].
      by apply agree_union_r.
  - set (M := max_list (rk <$> (map_to_list E).*1)).
    exists (λ id, match E !! id with Some _ => rk id | None => S (M + rk' id) end).
    intros id e p [He|[Hn He]]%lookup_union_Some_raw Hp.
    + rewrite He. destruct (Hc _ _ _ He Hp) as (x & Hx & _). rewrite Hx. eauto.
    + rewrite Hn. destruct (Hc' _ _ _ He Hp) as (x & Hx & _).
      pose proof (Hr' _ _ _ He Hp). destruct (E !! p) eqn:Hep; [|lia].
      assert (rk p ≤ M) by (apply max_rank; eauto). lia.
Qed.

(** ** The exchange *)

Lemma elem_of_room_event_ids n r id : node_wf n →
  id ∈ room_event_ids n r ↔ ∃ e, events n !! id = Some e ∧ se_room_id e = r.
Proof.
  intros Hw. unfold room_event_ids, room_values.
  rewrite elem_of_list_to_set, list_elem_of_fmap.
  setoid_rewrite list_elem_of_filter. setoid_rewrite elem_of_map_values. split.
  - intros (e & -> & Hr & k & He). destruct (nw_log n Hw _ _ He) as [-> _]. eauto.
  - intros (e & He & Hr). exists e. destruct (nw_log n Hw _ _ He) as [-> _]. eauto.
Qed.

Lemma elem_of_missing n r have e : node_wf n →
  e ∈ missing_for_peer n r have ↔
  events n !! se_id e = Some e ∧ se_room_id e = r ∧ se_id e ∉ have.
Proof.
  intros Hw. unfold missing_for_peer. rewrite elem_of_sort_by, list_elem_of_filter.
  rewrite elem_of_map_values. split.
  - intros ([Hr Hn] & k & He). destruct (nw_log n Hw _ _ He) as [Hid _]. by rewrite Hid in *.
  - intros (He & Hr & Hn). eauto.
Qed.

Lemma elem_of_list_events n r e : node_wf n →
  e ∈ list_events n r ↔ events n !! se_id e = Some e ∧ se_room_id e = r.
Proof.
  intros Hw. unfold list_events, room_values.
  rewrite elem_of_sort_by, list_elem_of_filter, elem_of_map_values. split.
  - intros (Hr & k & He). destruct (nw_log n Hw _ _ He) as [Hid _]. by rewrite Hid.
  - intros (He & Hr). eauto.
Qed.

(** What [b] answers to [a]'s offer: exactly the events of the room that [a]
    does not have. *)
Lemma elem_of_response a b r e : node_wf a → node_wf b →
  e ∈ sr_missing (respond_to_offer b (build_offer a r)) ↔
  events b !! se_id e = Some e ∧ se_room_id e = r ∧
  ¬ (∃ x, events a !! se_id e = Some x ∧ se_room_id x = r).
Proof.
  intros Ha Hb. cbn. rewrite elem_of_missing by done.
  rewrite elem_of_list_to_set, elem_of_set_iter, elem_of_room_event_ids; done.
Qed.

(** Parked events are among the other side's events of the room. *)
Definition parked_from (a b : DeviceNode) (r : RoomId) : Prop :=
  ∀ e, e ∈ inbox a → events b !! se_id e = Some e ∧ se_room_id e = r.

(** Committing events of [b]'s room, all that [a] lacks among them. *)
Lemma commit_pulled a b r l : node_wf a → node_wf b → inbox_blocked a → reliable a →
  agree (events a) (events b) → parked_from a b r →
  (∀ e, e ∈ l → events b !! se_id e = Some e ∧ se_room_id e = r) →
  (∀ e, events b !! se_id e = Some e → se_room_id e = r → events a !! se_id e = None → e ∈ l) →
  ∃ k a', commit_all a l 0 = (Ok k, a') ∧
    node_wf a' ∧ events a' = events a ∪ room_part b r ∧ inbox a' = [] ∧
    (synced ∅ a → synced ∅ a').
Proof.
  intros Ha Hb Hblk Hrel Hag Hpark Hl Hall.
  assert (agree (events a) (room_part b r)) as Hag'.
  { intros id e e' He [He' _]%room_part_lookup. eauto. }
  set (U := events a ∪ room_part b r).
  assert (universe U) as HU.
  { apply universe_union; [by apply node_universe|by apply universe_room_part|done]. }
  assert (∀ e, events b !! se_id e = Some e → se_room_id e = r → U !! se_id e = Some e) as HbU.
  { intros e He Hr. apply agree_union_r; [done|]. by apply room_part_lookup. }
  assert (healthy U a) as Hh.
  { split; try done. split; [apply map_union_subseteq_l|].
    intros e He. destruct (Hpark e He). auto. }
  destruct (commit_all_healthy U l a 0 HU Hh) as (k & a' & Hc & Hh' & Hheld & Hkeep & Hsync).
  { intros e He. destruct (Hl e He). auto. }
  destruct (saturated U a' HU Hh') as [He Hi].
  { intros id [e He]. destruct (events a !! id) as [x|] eqn:Hx.
    { apply Hkeep. left. by eexists. }
    unfold U in He. rewrite lookup_union_r in He by done.
    apply room_part_lookup in He as [He Hr].
    destruct (nw_log b Hb _ _ He) as [Hid _].
    rewrite <-Hid. apply Hheld, Hall; rewrite ?Hid; done. }
  exists k, a'. split_and!; try done; [apply Hh'|].
  apply Hsync. apply map_empty_subseteq.
Qed.

(** One direction of the exchange. *)
Lemma sync_one_way a b r : node_wf a → node_wf b → inbox_blocked a → reliable a →
  agree (events a) (events b) → parked_from a b r →
  ∃ k a', apply_sync_response a (respond_to_offer b (build_offer a r)) = (Ok k, a') ∧
    node_wf a' ∧ events a' = events a ∪ room_part b r ∧ inbox a' = [] ∧
    (synced ∅ a → synced ∅ a').
Proof.
  intros Ha Hb Hblk Hrel Hag Hpark. apply (commit_pulled a b r); try done.
  - intros e He. apply elem_of_response in He as (? & ? & _); auto.
  - intros e He Hr Hn. apply elem_of_response; [done..|]. split_and!; [done..|].
    rewrite Hn. by intros (? & ? & _).
Qed.

(** What both sides have after exchanging a room. *)
Lemma room_part_merged a a' b r : agree (events a) (events b) →
  events a' = events a ∪ room_part b r → ∀ id e,
  room_part a' r !! id = Some e ↔ room_part a r !! id = Some e ∨ room_part b r !! id = Some e.
Proof.
  intros Hag Hea id e. rewrite !room_part_lookup, Hea, lookup_union_Some_raw, room_part_lookup.
  split; [tauto|]. intros [?|[He ?]]; [tauto|].
  destruct (events a !! id) eqn:Hx; [|tauto]. pose proof (Hag _ _ _ Hx He). naive_solver.
Qed.

Lemma room_part_exchanged a a' b b' r : agree (events a) (events b) →
  events a' = events a ∪ room_part b r → events b' = events b ∪ room_part a r →
  room_part a' r = room_part b' r.
Proof.
  intros Hag Hea Heb. apply map_eq. intros id. apply option_eq. intros e.
  rewrite (room_part_merged a a' b r), (room_part_merged b b' a r); try done; [tauto|].
  intros i x y Hx Hy. symmetry. eauto.
Qed.

Lemma tips_dag_entry n r : DeviceNode_tips n r ≡ₚ tips (dag_entry n r).
Proof.
  unfold DeviceNode_tips, dag_entry. destruct (dags n !! _); cbn; [done|].
  unfold tips, map_keys; cbn. by rewrite map_iter_perm, map_to_list_empty.
Qed.

(** Nodes with the same events of a room have the same tips. *)
Lemma same_room_tips a b r : node_wf a → node_wf b → room_part a r = room_part b r →
  DeviceNode_tips a r ≡ₚ DeviceNode_tips b r.
Proof.
  intros Ha Hb He. rewrite !tips_dag_entry. apply tips_determined.
  1,2: by apply dag_entry_wf.
  apply map_eq. intros id. apply option_eq. intros e.
  rewrite (nw_rooms a Ha), (nw_rooms b Hb), <-!room_part_lookup. by rewrite He.
Qed.

(** A node that has just opened its store. *)
Lemma fresh_node_wf d s M : sqlite_represents s M →
  node_wf (set_durable (DeviceNode_new d) (Some s)).
Proof.
  intros Hs. split; cbn; try done.
  - intros r id e. unfold dag_entry; cbn. rewrite lookup_empty; cbn. rewrite lookup_empty.
    naive_solver.
  - by intros e []%not_elem_of_nil.
  - intros ? [= <-]. eauto.
Qed.

(** ** Relay text *)

(** Whatever its rows, a node that opens is well formed. *)
Lemma with_store_wf d s M n : sqlite_represents s M → with_store d s = Ok n →
  node_wf n ∧ device_id n = d.
Proof.
  intros Hs H. unfold with_store in H. apply bind_ok_inv in H as (l & Hl%map_err_ok_inv & H).
  apply (list_all_spec _ M) in Hl; [|done].
  destruct (replay_wf l (set_durable (DeviceNode_new d) (Some s))) as [Hw Hd].
  - by eapply fresh_node_wf.
  - intros e. rewrite Hl, list_elem_of_fmap. intros ([k x] & -> & Hx%elem_of_map_to_list).
    cbn. by destruct (proj1 Hs _ _ Hx).
  - destruct (replay _ l) as [[u|e] n1]; cbn [snd] in *; [|done]. by injection H as <-.
Qed.

Lemma byte_xor_involutive b p : byte_xor (byte_xor b p) p = b.
Proof.
  unfold byte_xor. rewrite byte_to_N_of_N, N.mod_small.
  - rewrite N.lxor_assoc, N.lxor_nilpotent, N.lxor_0_r. apply byte_of_N_to_N.
  - pose proof (byte_to_N_lt b) as Hb. pose proof (byte_to_N_lt p) as Hp.
    change 256%N with (2 ^ 8)%N in *. destruct (N.eq_dec (N.lxor (Byte.to_N b) (Byte.to_N p)) 0%N) as [->|Hx]; [lia|].
    apply N.log2_lt_pow2; [lia|]. eapply N.le_lt_trans; [apply N.log2_lxor|].
    apply N.max_lub_lt.
    + destruct (N.eq_dec (Byte.to_N b) 0%N) as [->|]; [done|]. apply N.log2_lt_pow2; lia.
    + destruct (N.eq_dec (Byte.to_N p) 0%N) as [->|]; [done|]. apply N.log2_lt_pow2; lia.
Qed.

Lemma decode_event_to_vec ev : decode_event (to_vec ev) =
  (let? _ := map_err SyncEvent (verify_event ev) in Ok ev).
Proof. unfold decode_event. by rewrite from_slice_to_vec. Qed.

Lemma decode_event_Ok raw ev : decode_event raw = Ok ev → verified ev.
Proof. unfold decode_event. intros H. inv_ok. eauto with td. Qed.

(** Errors of the DAG and of the durable store, the only ones of the log. *)
Definition log_error (e : SyncError) : Prop :=
  match e with SyncDag _ | SyncStore _ => True | _ => False end.

Lemma persist_error n ev e n' : persist n ev = (Err e, n') → log_error e.
Proof.
  unfold persist. destruct (durable n) as [s|]; [|done].
  destruct (put s ev) as [[b|e'] s']; intros [= <- _]. done.
Qed.

Lemma accept_error n ev e n' : accept n ev = (Err e, n') → log_error e.
Proof.
  unfold accept. destruct (ingest _ _) as [[[|]|e'] d]; [|done|by intros [= <- _]].
  destruct (persist _ _) as [[u|e'] n1] eqn:Hp; [done|].
  intros [= <- _]. by eapply persist_error.
Qed.

Lemma drain_pass_error pending : ∀ n rest pr e n',
  drain_pass n pending rest pr = (Err e, n') → log_error e.
Proof.
  induction pending as [|ev l IH]; intros n rest pr e n' H; cbn in H; [done|].
  destruct (has_event n (se_id ev)); [by eapply IH|].
  destruct (parents_present n ev); cbn in H; [|by eapply IH].
  destruct (accept n ev) as [[b|e1] n1] eqn:Ha; [by eapply IH|].
  simplify_eq. by eapply accept_error.
Qed.

Lemma drain_loop_error f : ∀ n e n', drain_loop f n = (Err e, n') → log_error e.
Proof.
  induction f as [|f IH]; intros n e n' H; cbn in H;
    destruct (drain_pass n (inbox n) [] false) as [[[|]|e1] n1] eqn:Hp; simplify_eq;
    eauto using drain_pass_error.
Qed.

Lemma ingest_event_error n ev o e n' : ingest_event n ev o = (Err e, n') →
  log_error e ∧ events n !! se_id ev = None ∧ parents_present n ev = true.
Proof.
  unfold ingest_event. destruct (has_event n (se_id ev)) eqn:Hh; [done|].
  apply has_event_false in Hh. destruct (parents_present n ev) eqn:Hp; cbn [negb]; [|done].
  intros H. split; [|done].
  destruct (accept n ev) as [[b|e1] n1] eqn:Ha; [|by simplify_eq; eapply accept_error].
  destruct b; [|done]. fold (push_outbox n1 ev o) in H.
  destruct (drain_inbox (push_outbox n1 ev o)) as [[u|e2] n2] eqn:Hd; [done|].
  injection H as <- <-. by eapply drain_loop_error.
Qed.

(** ** Theorems *)

(** C1: the exchange converges: two well-formed nodes that agree on the events
    they share, whose parked events (if any) are blocked and known to the other
    side, both finish [converge_with] without error, with empty inboxes, with
    the union of their events of the room, and with the same tips; durable logs
    that were in sync still are. *)
Theorem converge_with_converges (a b : DeviceNode) (r : RoomId) :
  node_wf a → node_wf b → inbox_blocked a → inbox_blocked b → reliable a → reliable b →
  agree (events a) (events b) → parked_from a b r → parked_from b a r →
  ∃ a' b', converge_with a b r = (Ok tt, (a', b')) ∧ node_wf a' ∧ node_wf b' ∧
    (∀ id e, room_part a' r !! id = Some e ↔
       room_part a r !! id = Some e ∨ room_part b r !! id = Some e) ∧
    room_part a' r = room_part b' r ∧
    DeviceNode_tips a' r ≡ₚ DeviceNode_tips b' r ∧
    inbox a' = [] ∧ inbox b' = [] ∧ (synced ∅ a → synced ∅ a') ∧ (synced ∅ b → synced ∅ b').
Proof.
  intros Ha Hb Hba Hbb Hra Hrb Hag Hpa Hpb.
  assert (agree (events b) (events a)) as Hag' by (intros id e e' ? ?; symmetry; eauto).
  destruct (sync_one_way a b r) as (k & a' & Hca & Hwa & Hea & Hia & Hsa); try done.
  destruct (sync_one_way b a r) as (k' & b' & Hcb & Hwb & Heb & Hib & Hsb); try done.
  exists a', b'. unfold converge_with. rewrite Hca, Hcb. split; [done|].
  pose proof (room_part_merged a a' b r Hag Hea) as Hpart.
  pose proof (room_part_exchanged a a' b b' r Hag Hea Heb) as Heq.
  split_and!; try done. by apply same_room_tips.
Qed.

(** C7: a restart loses nothing: reopening the durable log of a node whose log
    is in sync rebuilds, whatever order the rows come back in, exactly its
    events and the tips of every room, with nothing left parked or to be
    sent. *)
Theorem restart_recovers (n : DeviceNode) (s : SqliteStore) (l : list SignedEvent) (d : DeviceId) :
  node_wf n → synced ∅ n → durable n = Some s →
  SqliteStore_list_all s = Ok l →
  (∀ (s' : SqliteStore) ev, verified ev → is_ok (put s' ev).1 = true) →
  ∃ n', with_store d s = Ok n' ∧ node_wf n' ∧ events n' = events n ∧
    (∀ r, DeviceNode_tips n' r ≡ₚ DeviceNode_tips n r) ∧
    inbox n' = [] ∧ synced ∅ n'.
Proof.
  intros Hw Hs Hdur Hl Hrel. pose proof (Hs s Hdur) as Hrep. rewrite (right_id_L ∅ (∪)) in Hrep.
  pose proof (list_all_spec _ _ _ Hrep Hl) as Hperm.
  set (U := events n). assert (universe U) as HU by by apply node_universe.
  assert (∀ e, e ∈ l ↔ U !! se_id e = Some e) as HlU.
  { intros e. rewrite Hperm, list_elem_of_fmap. split.
    - intros ([k x] & -> & Hx%elem_of_map_to_list); cbn. by destruct (nw_log n Hw _ _ Hx) as [-> _].
    - intros He. exists (se_id e, e). by rewrite elem_of_map_to_list. }
  set (n0 := set_durable (DeviceNode_new d) (Some s)).
  assert (node_wf n0) as Hw0 by (eapply fresh_node_wf; eauto).
  assert (healthy U n0) as Hh.
  { split; [done|by intros e []%not_elem_of_nil| |by right].
    split; [apply map_empty_subseteq|by intros e []%not_elem_of_nil]. }
  destruct (replay_healthy U l n0 HU Hh) as (n' & Hr & Hh' & Hheld & _ & Hsync).
  { intros e. apply HlU. }
  destruct (saturated U n' HU Hh') as [He Hi].
  { intros id [e Hx]. destruct (nw_log n Hw _ _ Hx) as [<- _]. by apply Hheld, HlU. }
  exists n'. unfold with_store. rewrite Hl; cbn. fold n0. rewrite Hr.
  split_and!; try done; [apply Hh'| |].
  - intros r. apply same_room_tips; [apply Hh'|done|]. unfold room_part. by rewrite He.
  - intros s' Hs'. rewrite He, (right_id_L ∅ (∪)).
    rewrite <-(idemp_L (∪) U). rewrite <-He at 1. apply (Hsync U); [done| |done].
    intros ? [= <-]; cbn. by rewrite (left_id_L ∅ (∪)).
Qed.

(** Whatever event is offered, locally or remotely, and whatever the
    outcome (database failures included), the node stays well formed and its
    log only grows. *)
Lemma commit_invariant (n : DeviceNode) (ev : SignedEvent) :
  node_wf n →
  node_wf (commit_local n ev).2 ∧ events n ⊆ events (commit_local n ev).2 ∧
  node_wf (commit_remote n ev).2 ∧ events n ⊆ events (commit_remote n ev).2.
Proof.
  intros Hw. unfold commit_local, commit_remote.
  destruct (verify_event ev) as [u|e] eqn:Hv; [|done]. apply verify_event_Ok in Hv.
  destruct (ingest_event_wf n ev true Hw Hv) as (?&?&_).
  destruct (ingest_event_wf n ev false Hw Hv) as (?&?&_). done.
Qed.

(** The outcomes of [commit_local] on a well-formed node: an unverified
    event is refused and changes nothing; [Ok(true)] means a new event with all
    its parents was logged, queued last in the outbox, and the inbox drained of
    everything that had become ready; [Ok(false)] means the log is as it was and
    the event is held, known or parked; any other error can only come from an
    event that was new and well parented. *)
Lemma commit_local_outcome (n : DeviceNode) (ev : SignedEvent) :
  node_wf n → inbox_blocked n →
  let '(r, n') := commit_local n ev in
  match r with
  | Ok true => verified ev ∧ events n !! se_id ev = None ∧
      (∀ p, p ∈ se_parents ev → is_Some (events n !! p)) ∧
      events n' !! se_id ev = Some ev ∧ outbox n' = outbox n ++ [ev] ∧ inbox_blocked n' ∧
      (∀ e, e ∈ inbox n → held n' (se_id e))
  | Ok false => verified ev ∧ events n' = events n ∧ held n' (se_id ev) ∧
      outbox n' = outbox n ∧ inbox_blocked n'
  | Err (SyncEvent e) => verify_event ev = Err e ∧ n' = n
  | Err _ => verified ev ∧ events n !! se_id ev = None ∧
      ∀ p, p ∈ se_parents ev → is_Some (events n !! p)
  end.
Proof.
  intros Hw Hb. unfold commit_local. destruct (verify_event ev) as [u|e] eqn:Hv; [|done].
  apply verify_event_Ok in Hv.
  destruct (ingest_event n ev true) as [[b|e] n'] eqn:Hi.
  - destruct (ingest_event_ok n ev true b n' Hw Hb Hv Hi) as [C1 C2 C3 C4 C5 C6 C7 C8 C9 C10].
    destruct b; cbn in C8; destruct C10 as [Hc1 Hc2].
    + destruct Hc2 as [Hp Hin]. split_and!; try done.
      * by apply parents_present_true.
      * intros x Hx. apply C4. by left.
    + rewrite app_nil_r in C8. split_and!; try done. apply C4. by right.
  - apply ingest_event_error in Hi as (He & Hn & Hp). rewrite parents_present_true in Hp.
    by destruct e.
Qed.

(** C38: [drain_inbox] terminates: it satisfies the equation of the source's
    [while progress] loop, with no bound on the number of passes, and when it
    succeeds on a well-formed node, every event still parked waits for a parent
    the node does not have, and none was lost. *)
Theorem drain_inbox_complete (n : DeviceNode) :
  drain_inbox n =
    match drain_pass n (inbox n) [] false with
    | (Err e, n') => (Err e, n')
    | (Ok true, n') => drain_inbox n'
    | (Ok false, n') => (Ok tt, n')
    end ∧
  (node_wf n → ∀ n', drain_inbox n = (Ok tt, n') →
    inbox_blocked n' ∧ (∀ ev, ev ∈ inbox n → is_Some (events n' !! se_id ev) ∨ ev ∈ inbox n') ∧
    (∀ ev, ev ∈ inbox n' → ev ∈ inbox n)).
Proof.
  split; [apply drain_inbox_eq|]. intros Hw n' H.
  apply (drain_inbox_ok (S (length (inbox n)))) in H as [_ ? ? ? _ _]; [done|lia|done].
Qed.

(** The answer to an offer is exactly what the asking side lacks: the
    response contains an event if and only if it is an event of the room the
    answering node has and the asking node does not, sorted by number of
    parents, then timestamp. *)
Lemma response_exact (a b : DeviceNode) (r : RoomId) (e : SignedEvent) :
  node_wf a → node_wf b →
  let resp := respond_to_offer b (build_offer a r) in
  (e ∈ sr_missing resp ↔ room_part b r !! se_id e = Some e ∧ room_part a r !! se_id e = None) ∧
  StronglySorted (λ x y, cmp_le event_order x y = true) (sr_missing resp).
Proof.
  intros Ha Hb; cbv zeta. split; [|apply event_order_sorted].
  rewrite elem_of_response, room_part_lookup, eq_None_not_Some by done. unfold is_Some.
  setoid_rewrite room_part_lookup. tauto.
Qed.

(** The legacy pad is its own inverse: sealing then opening with the same
    pad gives back a verified event and refuses an unverified one; what opens is
    always verified. *)
Lemma relay_xor_roundtrip (ev : SignedEvent) (pad : byte) (ct : list byte) :
  seal_for_relay_xor ev pad = Ok ct →
  open_from_relay_xor ct pad =
    (let? _ := map_err SyncEvent (verify_event ev) in Ok ev) ∧
  ∀ ct' ev', open_from_relay_xor ct' pad = Ok ev' → verify_event ev' = Ok tt.
Proof.
  intros [= <-]. split.
  - unfold open_from_relay_xor. rewrite <-list_fmap_compose.
    rewrite (list_fmap_ext _ id); [rewrite list_fmap_id; apply decode_event_to_vec|].
    intros i b _. apply byte_xor_involutive.
  - intros ct' ev'. apply decode_event_Ok.
Qed.

(** The response is not in causal order, although a comment of
    [missing_for_peer] says it is: a child with fewer parents than its own
    parent always comes first. *)
Lemma missing_not_causal (b : DeviceNode) (r : RoomId) (have : gset EventId)
    (child parent : SignedEvent) (l1 l2 : list SignedEvent) :
  node_wf b → se_id parent ∈ se_parents child →
  length (se_parents child) < length (se_parents parent) →
  child ∈ missing_for_peer b r have →
  missing_for_peer b r have = l1 ++ parent :: l2 → child ∈ l1.
Proof.
  intros Hw Hp Hlen Hin Heq.
  pose proof (event_order_sorted (filter (λ e, se_room_id e = r ∧ se_id e ∉ have)
    (map_values (events b)))) as Hs.
  fold (missing_for_peer b r have) in Hs. rewrite Heq in Hs, Hin.
  apply elem_of_app in Hin as [?|[->|Hin]%elem_of_cons]; [done|lia|exfalso].
  apply StronglySorted_app_1_r in Hs. apply StronglySorted_inv in Hs as [_ Hall].
  rewrite list.Forall_forall in Hall. specialize (Hall _ Hin).
  apply event_order_le in Hall. lia.
Qed.

End sync.
