(* ===== verification/Net.v ===== *)
(** * Wire protocols ([crates/td-net/src/frame.rs], [relay_proto.rs], [peer.rs],
    [relay_client.rs])

    Length-prefixed JSON frames, the relay protocol's messages, peer URIs and
    the relay client.  A reader is the bytes it will deliver and how it ends; a
    writer is the bytes it has taken and how many more it takes before it
    fails. *)

From S2P Require Import Prelude Text Crypto Event.

(** ** Streams *)

Inductive io_error : Type := UnexpectedEof | OtherIo.

Record Reader : Type := mkReader {
  rd_bytes : list byte;
  (** [None]: end of file after the bytes *)
  rd_error : option io_error;
}.

Record Writer : Type := mkWriter {
  wr_bytes : list byte;
  (** [None]: never fails *)
  wr_room : option nat;
}.

(** The error of a read that needs more than is left. *)
Definition rd_end (r : Reader) : io_error := default UnexpectedEof (rd_error r).

(** [AsyncReadExt::read_exact] *)
Definition read_exact (r : Reader) (n : nat) : result io_error (list byte) * Reader :=
  if n <=? length (rd_bytes r)
  then (Ok (take n (rd_bytes r)), mkReader (drop n (rd_bytes r)) (rd_error r))
  else (Err (rd_end r), mkReader [] (rd_error r)).

(** [AsyncReadExt::read_u32], big endian *)
Definition read_u32 (r : Reader) : result io_error N * Reader :=
  let '(x, r) := read_exact r 4 in (from_be_bytes <$> x, r).

(** [AsyncWriteExt::write_all]; the bytes that fit are gone even if it fails. *)
Definition write_all (w : Writer) (l : list byte) : result io_error unit * Writer :=
  match wr_room w with
  | None => (Ok tt, mkWriter (wr_bytes w ++ l) None)
  | Some k =>
    if length l <=? k then (Ok tt, mkWriter (wr_bytes w ++ l) (Some (k - length l)))
    else (Err OtherIo, mkWriter (wr_bytes w ++ take k l) (Some 0))
  end.

Definition write_u32 (w : Writer) (n : N) : result io_error unit * Writer :=
  write_all w (be_bytes 4 n).

(** [AsyncWriteExt::flush] *)
Definition flush (w : Writer) : result io_error unit * Writer :=
  match wr_room w with Some 0 => (Err OtherIo, w) | _ => (Ok tt, w) end.

(** [TcpStream]: its two halves. *)
Record TcpStream : Type := mkTcpStream { ts_read : Reader; ts_write : Writer }.

(** ** [frame.rs] *)

Inductive FrameError : Type :=
| FrameIo (e : io_error)
| FrameSerde
| FrameTooLarge (n : N)
| FrameClosed.

Definition MAX_FRAME : N := 16 * 1024 * 1024.

(** [w.write_u32(len).await?; w.write_all(&body).await?; w.flush().await?] *)
Definition write_body (w : Writer) (len : N) (body : list byte) : result io_error unit * Writer :=
  match write_u32 w len with
  | (Err e, w) => (Err e, w)
  | (Ok _, w) =>
    match write_all w body with
    | (Err e, w) => (Err e, w)
    | (Ok _, w) => flush w
    end
  end.

Definition write_event `{Encode SignedEvent} (w : Writer) (ev : SignedEvent) :
    result FrameError unit * Writer :=
  let body := to_vec ev in
  let len := wrap 32 (N.of_nat (length body)) in
  if (MAX_FRAME <? len)%N then (Err (FrameTooLarge len), w)
  else let '(r, w) := write_body w len body in (map_err FrameIo r, w).

Definition read_event `{Decode SignedEvent} (r : Reader) : result FrameError SignedEvent * Reader :=
  match read_u32 r with
  | (Err UnexpectedEof, r) => (Err FrameClosed, r)
  | (Err e, r) => (Err (FrameIo e), r)
  | (Ok len, r) =>
    if (MAX_FRAME <? len)%N then (Err (FrameTooLarge len), r)
    else
      match read_exact r (N.to_nat len) with
      | (Err e, r) => (Err (FrameIo e), r)
      | (Ok buf, r) => (ok_or (from_slice buf) FrameSerde, r)
      end
  end.

(** ** [relay_proto.rs] *)

Record RelayEnvelope : Type := mkRelayEnvelope {
  re_envelope_id : bytes32;
  re_recipient_device : DeviceId;
  re_sender_device : DeviceId;
  re_room_id : option RoomId;
  re_ciphertext : list byte;
  re_ts_ms : N;
}.

Definition RelayEnvelope_new `{Crypto} (recipient_device sender_device : DeviceId)
    (room_id : option RoomId) (ciphertext : list byte) (ts_ms : N) : RelayEnvelope :=
  let material := ciphertext ++ array_bytes (DeviceId_0 recipient_device) ++
    array_bytes (DeviceId_0 sender_device) ++ le_bytes 8 ts_ms in
  let envelope_id := blake3 material in
  mkRelayEnvelope envelope_id recipient_device sender_device room_id ciphertext ts_ms.

Inductive RelayRequest : Type :=
| Put (envelope : RelayEnvelope)
| Fetch (recipient : DeviceId) (since_ts limit : N)
| Ack (recipient : DeviceId) (envelope_ids : list bytes32).

Inductive RelayResponse : Type :=
| RespOk
| Envelopes (items : list RelayEnvelope)
| RespErr (message : list byte).

Inductive RelayProtoError : Type :=
| ProtoIo (e : io_error)
| ProtoSerde
| ProtoTooLarge (n : N)
| ProtoClosed.

Definition write_json `{Encode T} (w : Writer) (value : T) : result RelayProtoError unit * Writer :=
  let body := to_vec value in
  let len := wrap 32 (N.of_nat (length body)) in
  if (MAX_FRAME <? len)%N then (Err (ProtoTooLarge len), w)
  else let '(r, w) := write_body w len body in (map_err ProtoIo r, w).

Definition read_json `{Decode T} (r : Reader) : result RelayProtoError T * Reader :=
  match read_u32 r with
  | (Err UnexpectedEof, r) => (Err ProtoClosed, r)
  | (Err e, r) => (Err (ProtoIo e), r)
  | (Ok len, r) =>
    if (MAX_FRAME <? len)%N then (Err (ProtoTooLarge len), r)
    else
      match read_exact r (N.to_nat len) with
      | (Err e, r) => (Err (ProtoIo e), r)
      | (Ok buf, r) => (ok_or (from_slice buf) ProtoSerde, r)
      end
  end.

(** ** [peer.rs] *)

Record PeerUri : Type := mkPeerUri {
  pu_host : list byte;
  pu_port : N;
  pu_noise : bool;
  pu_quic : bool;
}.

Inductive PeerError : Type :=
| PeerIo (e : io_error)
| PeerFrame (e : FrameError)
| InvalidUri (s : list byte).

(** [SocketAddr]: the text of its address, and its port. *)
Record SocketAddr : Type := mkSocketAddr { sa_ip : list byte; sa_port : N }.

Definition PeerUri_parse (s : list byte) : result PeerError PeerUri :=
  let '(rest, noise, quic) :=
    match strip_prefix (text "td-quic://") s with
    | Some r => (r, false, true)
    | None =>
      match strip_prefix (text "td-noise://") s with
      | Some r => (r, true, false)
      | None =>
        match strip_prefix (text "td://") s with
        | Some r => (r, false, false)
        | None => (s, false, false)
        end
      end
    end in
  let? '(host, port_s) := ok_or (rsplit_once x3a rest) (InvalidUri s) in
  let? port := ok_or (parse_uint (2 ^ 16) port_s) (InvalidUri s) in
  Ok (mkPeerUri host port noise quic).

Definition from_tcp_addr (addr : SocketAddr) : PeerUri :=
  mkPeerUri (sa_ip addr) (sa_port addr) false false.
Definition from_tcp_addr_noise (addr : SocketAddr) : PeerUri :=
  mkPeerUri (sa_ip addr) (sa_port addr) true false.
Definition from_tcp_addr_quic (addr : SocketAddr) : PeerUri :=
  mkPeerUri (sa_ip addr) (sa_port addr) false true.

Definition socket_addr (self : PeerUri) : list byte := pu_host self ++ x3a :: dec (pu_port self).

Definition to_string_uri (self : PeerUri) : list byte :=
  if pu_quic self then text "td-quic://" ++ pu_host self ++ x3a :: dec (pu_port self)
  else if pu_noise self then text "td-noise://" ++ pu_host self ++ x3a :: dec (pu_port self)
  else text "td://" ++ pu_host self ++ x3a :: dec (pu_port self).

(** [serve_exchange] on the accepted socket. *)
Definition serve_exchange `{Encode SignedEvent, Decode SignedEvent} (local : SocketAddr)
    (sock : TcpStream) : result PeerError (PeerUri * SignedEvent) * TcpStream :=
  match read_event (ts_read sock) with
  | (Err e, r) => (Err (PeerFrame e), mkTcpStream r (ts_write sock))
  | (Ok ev, r) =>
    match write_event (ts_write sock) ev with
    | (Err e, w) => (Err (PeerFrame e), mkTcpStream r w)
    | (Ok _, w) => (Ok (from_tcp_addr local, ev), mkTcpStream r w)
    end
  end.

(** ** [relay_client.rs] *)

Inductive RelayClientError : Type :=
| ClientPeer (e : PeerError)
| ClientProto (e : RelayProtoError)
| Remote (message : list byte)
| Unexpected.

(** One request and its response. *)
Definition exchange `{Encode RelayRequest, Decode RelayResponse} (s : TcpStream)
    (req : RelayRequest) : result RelayClientError RelayResponse * TcpStream :=
  match write_json (ts_write s) req with
  | (Err e, w) => (Err (ClientProto e), mkTcpStream (ts_read s) w)
  | (Ok _, w) =>
    let '(r, rd) := read_json (T:=RelayResponse) (ts_read s) in
    (map_err ClientProto r, mkTcpStream rd w)
  end.

Definition client_put `{Encode RelayRequest, Decode RelayResponse} (s : TcpStream)
    (envelope : RelayEnvelope) : result RelayClientError unit * TcpStream :=
  let '(r, s) := exchange s (Put envelope) in
  (let? resp := r in
   match resp with
   | RespOk => Ok tt
   | RespErr message => Err (Remote message)
   | _ => Err Unexpected
   end, s).

Definition client_fetch `{Encode RelayRequest, Decode RelayResponse} (s : TcpStream)
    (recipient : DeviceId) (since_ts limit : N) :
    result RelayClientError (list RelayEnvelope) * TcpStream :=
  let '(r, s) := exchange s (Fetch recipient since_ts limit) in
  (let? resp := r in
   match resp with
   | Envelopes items => Ok items
   | RespErr message => Err (Remote message)
   | _ => Err Unexpected
   end, s).

Definition client_ack `{Encode RelayRequest, Decode RelayResponse} (s : TcpStream)
    (recipient : DeviceId) (envelope_ids : list bytes32) :
    result RelayClientError unit * TcpStream :=
  let '(r, s) := exchange s (Ack recipient envelope_ids) in
  (let? resp := r in
   match resp with
   | RespOk => Ok tt
   | RespErr message => Err (Remote message)
   | _ => Err Unexpected
   end, s).

(** ** Frames on the wire *)

(** The bytes of one frame. *)
Definition frame (body : list byte) : list byte := be_bytes 4 (N.of_nat (length body)) ++ body.

Definition fits (body : list byte) : Prop := (N.of_nat (length body) ≤ MAX_FRAME)%N.

Lemma frame_len body : fits body → wrap 32 (N.of_nat (length body)) = N.of_nat (length body).
Proof. unfold fits, MAX_FRAME. intros H. apply wrap_small. lia. Qed.

Lemma read_exact_app l k e : read_exact (mkReader (l ++ k) e) (length l) = (Ok l, mkReader k e).
Proof.
  unfold read_exact; cbn. rewrite length_app. rewrite (proj2 (Nat.leb_le _ _)) by lia.
  by rewrite take_app_length, drop_app_length.
Qed.

Lemma read_u32_app n k e : (n < 2 ^ 32)%N →
  read_u32 (mkReader (be_bytes 4 n ++ k) e) = (Ok n, mkReader k e).
Proof.
  intros Hn. unfold read_u32.
  pose proof (read_exact_app (be_bytes 4 n) k e) as H. rewrite length_be_bytes in H. rewrite H.
  cbn [fmap result_fmap]. rewrite from_be_bytes_be_bytes, wrap_small; [done|exact Hn].
Qed.

(** A frame read back, by either protocol. *)
Lemma read_json_frame `{Decode T} body k e : fits body →
  read_json (T:=T) (mkReader (frame body ++ k) e) = (ok_or (from_slice body) ProtoSerde, mkReader k e).
Proof.
  intros Hf. unfold read_json, frame. rewrite <-app_assoc, read_u32_app.
  2: { unfold fits, MAX_FRAME in Hf. lia. }
  rewrite (proj2 (N.ltb_ge _ _)) by exact Hf. rewrite Nat2N.id. by rewrite read_exact_app.
Qed.

Lemma read_event_frame `{Decode SignedEvent} body k e : fits body →
  read_event (mkReader (frame body ++ k) e) = (ok_or (from_slice body) FrameSerde, mkReader k e).
Proof.
  intros Hf. unfold read_event, frame. rewrite <-app_assoc, read_u32_app.
  2: { unfold fits, MAX_FRAME in Hf. lia. }
  rewrite (proj2 (N.ltb_ge _ _)) by exact Hf. rewrite Nat2N.id. by rewrite read_exact_app.
Qed.

Lemma write_body_frame l len body :
  write_body (mkWriter l None) len body = (Ok tt, mkWriter (l ++ be_bytes 4 len ++ body) None).
Proof. unfold write_body, write_u32, write_all, flush; cbn [wr_room wr_bytes]. by rewrite app_assoc. Qed.

Lemma write_json_frame `{Encode T} l (v : T) : fits (to_vec v) →
  write_json (mkWriter l None) v = (Ok tt, mkWriter (l ++ frame (to_vec v)) None).
Proof.
  intros Hf. unfold write_json. rewrite frame_len, (proj2 (N.ltb_ge _ _)) by exact Hf.
  by rewrite write_body_frame.
Qed.

Lemma write_event_frame `{Encode SignedEvent} l ev : fits (to_vec ev) →
  write_event (mkWriter l None) ev = (Ok tt, mkWriter (l ++ frame (to_vec ev)) None).
Proof.
  intros Hf. unfold write_event. rewrite frame_len, (proj2 (N.ltb_ge _ _)) by exact Hf.
  by rewrite write_body_frame.
Qed.

(** Reads events until the stream ends; a frame takes at least four bytes. *)
Fixpoint read_events `{Decode SignedEvent} (fuel : nat) (r : Reader) :
    list SignedEvent * FrameError :=
  match fuel with
  | O => ([], FrameClosed)
  | S fuel =>
    match read_event r with
    | (Err e, _) => ([], e)
    | (Ok ev, r) => let '(l, e) := read_events fuel r in (ev :: l, e)
    end
  end.

(** Writes events one after the other. *)
Fixpoint write_events `{Encode SignedEvent} (w : Writer) (l : list SignedEvent) :
    result FrameError unit * Writer :=
  match l with
  | [] => (Ok tt, w)
  | ev :: l =>
    match write_event w ev with
    | (Err e, w) => (Err e, w)
    | (Ok _, w) => write_events w l
    end
  end.

Lemma write_events_frames `{Encode SignedEvent} l : ∀ k, Forall (λ ev, fits (to_vec ev)) l →
  write_events (mkWriter k None) l = (Ok tt, mkWriter (k ++ concat (frame ∘ to_vec <$> l)) None).
Proof.
  induction l as [|ev l IH]; intros k Hl; cbn [write_events]; [by rewrite app_nil_r|].
  inversion Hl; subst. rewrite write_event_frame by done. rewrite IH by done.
  by rewrite <-app_assoc.
Qed.

Lemma read_events_S `{Decode SignedEvent} fuel r : read_events (S fuel) r =
  match read_event r with
  | (Err e, _) => ([], e)
  | (Ok ev, r) => let '(l, e) := read_events fuel r in (ev :: l, e)
  end.
Proof. done. Qed.

Lemma read_events_frames `{CodecLaws SignedEvent} l : Forall (λ ev, fits (to_vec ev)) l →
  read_events (S (length l)) (mkReader (concat (frame ∘ to_vec <$> l)) None) = (l, FrameClosed).
Proof.
  induction 1 as [|ev l Hev _ IH]; [done|]. rewrite read_events_S.
  change (concat (frame ∘ to_vec <$> ev :: l)) with
    (frame (to_vec ev) ++ concat (frame ∘ to_vec <$> l)).
  rewrite read_event_frame, from_slice_to_vec by done. cbn [ok_or].
  change (length (ev :: l)) with (S (length l)). by rewrite IH.
Qed.

(** ** Theorems *)

(** Framing is transparent: what [write_event] sends, [read_event] receives,
    event by event in the same order, and the end of the stream is reported as
    closed; every event of at most [MAX_FRAME] bytes is sent. *)
Lemma frame_stream_roundtrip `{HE : Encode SignedEvent, HD : Decode SignedEvent}
    `{HC : !CodecLaws SignedEvent} (l : list SignedEvent) :
  Forall (λ ev, fits (to_vec ev)) l →
  let '(r, w) := write_events (mkWriter [] None) l in
  r = Ok tt ∧ read_events (S (length l)) (mkReader (wr_bytes w) None) = (l, FrameClosed).
Proof.
  intros Hl. rewrite write_events_frames by done. cbn. split; [done|]. by apply read_events_frames.
Qed.

(** A reader never takes more than the announced frame: [read_event] either
    fails at the length (end of stream, read error, length above [MAX_FRAME]),
    in which case no byte of the body is taken, or takes exactly the length it
    announces, at most [MAX_FRAME]. *)
Lemma read_event_bounded `{HD : Decode SignedEvent} (r : Reader) :
  let '(res, r') := read_event r in
  (length (rd_bytes r) < 4 ∧ rd_bytes r' = [] ∧
    res = Err (match rd_end r with UnexpectedEof => FrameClosed | e => FrameIo e end)) ∨
  (∃ len, len = from_be_bytes (take 4 (rd_bytes r)) ∧ 4 ≤ length (rd_bytes r) ∧
    ((MAX_FRAME < len)%N ∧ res = Err (FrameTooLarge len) ∧ rd_bytes r' = drop 4 (rd_bytes r) ∨
     (len ≤ MAX_FRAME)%N ∧ length (rd_bytes r) < 4 + N.to_nat len ∧ res = Err (FrameIo (rd_end r)) ∨
     (len ≤ MAX_FRAME)%N ∧ rd_bytes r' = drop (4 + N.to_nat len) (rd_bytes r) ∧
       res = ok_or (from_slice (take (N.to_nat len) (drop 4 (rd_bytes r)))) FrameSerde)).
Proof.
  unfold read_event, read_u32, read_exact at 1.
  destruct (Nat.leb_spec 4 (length (rd_bytes r))) as [H4|H4]; cbn [fmap result_fmap].
  - set (len := from_be_bytes (take 4 (rd_bytes r))).
    destruct (N.ltb_spec MAX_FRAME len) as [Hm|Hm].
    + right. exists len. split_and!; [done|done|]. by left.
    + unfold read_exact; cbn [rd_bytes rd_error]. rewrite length_drop.
      destruct (Nat.leb_spec (N.to_nat len) (length (rd_bytes r) - 4)) as [Hl|Hl].
      * right. exists len. split_and!; [done|done|]. right; right. by rewrite drop_drop.
      * right. exists len. split_and!; [done|done|]. right; left. split_and!; [done|lia|done].
  - destruct (rd_end r); left; done.
Qed.

(** Peer URIs round trip: printing a URI that names at most one transport
    and parsing it gives it back, whatever the host text. *)
Lemma peer_uri_roundtrip (u : PeerUri) :
  (pu_port u < 2 ^ 16)%N → pu_noise u && pu_quic u = false →
  PeerUri_parse (to_string_uri u) = Ok u.
Proof.
  intros Hp Hn. unfold PeerUri_parse, to_string_uri.
  assert (parse_uint (2 ^ 16) (dec (pu_port u)) = Some (pu_port u)) as Hport.
  { apply parse_dec; [done|]. unfold U64. lia. }
  pose proof (dec_no_colon (pu_port u)) as Hc. revert Hport Hc.
  generalize (dec (pu_port u)) as d. intros d Hport Hc.
  destruct u as [host port noise quic]; cbn [pu_host pu_port pu_noise pu_quic] in *.
  assert (∀ x, strip_prefix (text "td-quic://") (text "td-noise://" ++ x) = None) as H1 by done.
  assert (∀ x, strip_prefix (text "td-quic://") (text "td://" ++ x) = None) as H2 by done.
  assert (∀ x, strip_prefix (text "td-noise://") (text "td://" ++ x) = None) as H3 by done.
  destruct quic, noise; try done; rewrite ?H1, ?H2, ?H3, strip_prefix_app, rsplit_once_app by done;
    cbn [ok_or mbind result_bind]; by rewrite Hport.
Qed.
