(* ===== verification/Noise.v ===== *)
(** * Noise streams ([crates/td-net/src/noise.rs])

    A TCP connection after a Noise XX handshake: transport messages of at most
    65535 bytes behind a 16-bit length, a byte stream chunked into them, and
    length-prefixed JSON above it.  The state machines of [snow] are parameters. *)

From S2P Require Import Prelude Text Crypto Event Net.

(** ** [snow] *)

(** A write or a read takes the size of the caller's buffer and returns the bytes put
    into it; the state of a handshake holds the keys it draws. *)
Class Snow : Type := {
  snow_error : Type;
  HandshakeState : Type;
  TransportState : Type;
  (** [Builder::local_private_key(..).build_initiator()] or [build_responder()] *)
  snow_build : bool → list byte → result snow_error HandshakeState;
  hs_write_message : HandshakeState → list byte → N → result snow_error (list byte) * HandshakeState;
  hs_read_message : HandshakeState → list byte → N → result snow_error (list byte) * HandshakeState;
  into_transport_mode : HandshakeState → result snow_error TransportState;
  write_message : TransportState → list byte → N → result snow_error (list byte) * TransportState;
  read_message : TransportState → list byte → N → result snow_error (list byte) * TransportState;
}.

Definition MAX_NOISE_MSG : N := 65535.
Definition TAG_LEN : N := 16.

Abbreviation len l := (N.of_nat (length l)).

(** What [snow] documents of two parties that follow the pattern.  [paired k i r]: an
    initiator and a responder after [k] messages of XX; [in_step n a b]: [b] decrypts
    the next [n] messages of [a]; a nonce has 64 bits, its last value is reserved. *)
Class SnowLaws `{!Snow} : Type := {
  paired : nat → HandshakeState → HandshakeState → Prop;
  in_step : N → TransportState → TransportState → Prop;
  paired_build ki kr i r : snow_build true ki = Ok i → snow_build false kr = Ok r → paired 0 i r;
  paired_first i r : paired 0 i r → ∃ m i' r', hs_write_message i [] MAX_NOISE_MSG = (Ok m, i') ∧
    (len m ≤ MAX_NOISE_MSG)%N ∧ hs_read_message r m MAX_NOISE_MSG = (Ok [], r') ∧ paired 1 i' r';
  paired_second i r : paired 1 i r → ∃ m i' r', hs_write_message r [] MAX_NOISE_MSG = (Ok m, r') ∧
    (len m ≤ MAX_NOISE_MSG)%N ∧ hs_read_message i m MAX_NOISE_MSG = (Ok [], i') ∧ paired 2 i' r';
  paired_third i r : paired 2 i r → ∃ m i' r', hs_write_message i [] MAX_NOISE_MSG = (Ok m, i') ∧
    (len m ≤ MAX_NOISE_MSG)%N ∧ hs_read_message r m MAX_NOISE_MSG = (Ok [], r') ∧ paired 3 i' r';
  paired_done i r : paired 3 i r → ∃ a b, into_transport_mode i = Ok a ∧ into_transport_mode r = Ok b ∧
    in_step (2 ^ 64 - 1) a b ∧ in_step (2 ^ 64 - 1) b a;
  in_step_write n a b p cap : in_step (N.succ n) a b →
    (len p + TAG_LEN ≤ MAX_NOISE_MSG)%N → (len p + TAG_LEN ≤ cap)%N →
    ∃ c a' b', write_message a p cap = (Ok c, a') ∧ len c = (len p + TAG_LEN)%N ∧
      (∀ cap', (len c ≤ cap')%N → read_message b c cap' = (Ok p, b')) ∧ in_step n a' b';
  in_step_pred n a b : in_step (N.succ n) a b → in_step n a b;
  (** the two directions have keys and nonces of their own *)
  write_keeps_reading n a p cap b : in_step n b a → in_step n b (write_message a p cap).2;
}.

Section noise.
Context {SW : Snow}.

(** An error before it becomes text. *)
Inductive SnowFault : Type := FromSnow (e : snow_error) | FromSerde.
Inductive NoiseError : Type :=
| NoiseSnow (e : SnowFault)
| NoiseIo (e : io_error)
| Incomplete
| NoiseTooLarge
| NoiseClosed.

Definition map_snow {A} (r : result snow_error A) : result NoiseError A :=
  map_err (λ e, NoiseSnow (FromSnow e)) r.

(** ** Records of the handshake and of the transport *)

(** [tcp.write_u16(len).await?; tcp.write_all(data).await?; tcp.flush().await?] *)
Definition write_u16_body (w : Writer) (n : N) (data : list byte) : result io_error unit * Writer :=
  match Net.write_all w (be_bytes 2 n) with
  | (Err e, w) => (Err e, w)
  | (Ok _, w) =>
    match Net.write_all w data with
    | (Err e, w) => (Err e, w)
    | (Ok _, w) => flush w
    end
  end.

(** [AsyncReadExt::read_u16], big endian *)
Definition read_u16 (r : Reader) : result io_error N * Reader :=
  let '(x, r) := Net.read_exact r 2 in (from_be_bytes <$> x, r).

Definition write_raw (tcp : TcpStream) (data : list byte) : result NoiseError unit * TcpStream :=
  let n := wrap 16 (len data) in
  let '(r, w) := write_u16_body (ts_write tcp) n data in
  (map_err NoiseIo r, mkTcpStream (ts_read tcp) w).

Definition read_raw (tcp : TcpStream) : result NoiseError (list byte) * TcpStream :=
  match read_u16 (ts_read tcp) with
  | (Err e, r) => (Err (NoiseIo e), mkTcpStream r (ts_write tcp))
  | (Ok n, r) =>
    if (MAX_NOISE_MSG <? n)%N then (Err NoiseTooLarge, mkTcpStream r (ts_write tcp))
    else
      let '(x, r) := Net.read_exact r (N.to_nat n) in
      (map_err NoiseIo x, mkTcpStream r (ts_write tcp))
  end.

(** One message out, one message in. *)
Definition hs_send (state : HandshakeState) (tcp : TcpStream) : result NoiseError HandshakeState * TcpStream :=
  match hs_write_message state [] MAX_NOISE_MSG with
  | (Err e, _) => (map_snow (Err e), tcp)
  | (Ok m, state) =>
    let '(r, tcp) := write_raw tcp m in ((λ _, state) <$> r, tcp)
  end.

Definition hs_receive (state : HandshakeState) (tcp : TcpStream) :
    result NoiseError HandshakeState * TcpStream :=
  match read_raw tcp with
  | (Err e, tcp) => (Err e, tcp)
  | (Ok msg, tcp) =>
    match hs_read_message state msg MAX_NOISE_MSG with
    | (Err e, _) => (map_snow (Err e), tcp)
    | (Ok _, state) => (Ok state, tcp)
    end
  end.

Definition run_xx_handshake (tcp : TcpStream) (state : HandshakeState) (initiator : bool) :
    result NoiseError TransportState * TcpStream :=
  let '(s1, s2, s3) :=
    if initiator then (hs_send, hs_receive, hs_send) else (hs_receive, hs_send, hs_receive) in
  match s1 state tcp with
  | (Err e, tcp) => (Err e, tcp)
  | (Ok state, tcp) =>
    match s2 state tcp with
    | (Err e, tcp) => (Err e, tcp)
    | (Ok state, tcp) =>
      match s3 state tcp with
      | (Err e, tcp) => (Err e, tcp)
      | (Ok state, tcp) => (map_snow (into_transport_mode state), tcp)
      end
    end
  end.

(** ** [NoiseTcpStream] *)

Record NoiseTcpStream : Type := mkNoiseTcpStream {
  nt_tcp : TcpStream;
  nt_transport : TransportState;
  nt_read_buf : list byte;
  nt_read_pos : nat;
}.

(** [key] is the outcome of [generate_keypair]. *)
Definition handshake (initiator : bool) (tcp : TcpStream) (key : result snow_error (list byte)) :
    result NoiseError NoiseTcpStream * TcpStream :=
  match (let? private := map_snow key in map_snow (snow_build initiator private)) with
  | Err e => (Err e, tcp)
  | Ok state =>
    let '(r, tcp) := run_xx_handshake tcp state initiator in
    ((λ transport, mkNoiseTcpStream tcp transport [] 0) <$> r, tcp)
  end.
Definition handshake_initiator := handshake true.
Definition handshake_responder := handshake false.

Definition write_msg (s : NoiseTcpStream) (payload : list byte) :
    result NoiseError unit * NoiseTcpStream :=
  if (MAX_NOISE_MSG <? len payload + TAG_LEN)%N then (Err NoiseTooLarge, s) else
  match write_message (nt_transport s) payload (len payload + TAG_LEN) with
  | (Err e, t) =>
    (map_snow (Err e), mkNoiseTcpStream (nt_tcp s) t (nt_read_buf s) (nt_read_pos s))
  | (Ok buf, t) =>
    let '(r, tcp) := write_raw (nt_tcp s) buf in
    (r, mkNoiseTcpStream tcp t (nt_read_buf s) (nt_read_pos s))
  end.

Definition read_msg (s : NoiseTcpStream) : result NoiseError (list byte) * NoiseTcpStream :=
  let with_read r := mkNoiseTcpStream (mkTcpStream r (ts_write (nt_tcp s))) (nt_transport s)
    (nt_read_buf s) (nt_read_pos s) in
  match read_u16 (ts_read (nt_tcp s)) with
  | (Err UnexpectedEof, r) => (Err NoiseClosed, with_read r)
  | (Err e, r) => (Err (NoiseIo e), with_read r)
  | (Ok n, r) =>
    if (MAX_NOISE_MSG <? n)%N then (Err NoiseTooLarge, with_read r) else
    match Net.read_exact r (N.to_nat n) with
    | (Err e, r) => (Err (NoiseIo e), with_read r)
    | (Ok enc, r) =>
      let '(x, t) := read_message (nt_transport s) enc n in
      (map_snow x, mkNoiseTcpStream (mkTcpStream r (ts_write (nt_tcp s))) t
        (nt_read_buf s) (nt_read_pos s))
    end
  end.

Definition max_plain : N := MAX_NOISE_MSG - TAG_LEN - 4.

(** [while off < data.len() { .. }] *)
Fixpoint write_chunks (fuel : nat) (s : NoiseTcpStream) (data : list byte) (off : N) :
    result NoiseError unit * NoiseTcpStream :=
  match fuel with
  | O => (Ok tt, s)
  | S fuel =>
    if (off <? len data)%N then
      let end_ := N.min (off + max_plain) (len data) in
      match write_msg s (take (N.to_nat (end_ - off)) (drop (N.to_nat off) data)) with
      | (Err e, s) => (Err e, s)
      | (Ok _, s) => write_chunks fuel s data end_
      end
    else (Ok tt, s)
  end.

Definition write_all (s : NoiseTcpStream) (data : list byte) : result NoiseError unit * NoiseTcpStream :=
  write_chunks (length data) s data 0.

(** [while filled < buf.len() { .. }]; [out] is [buf[..filled]], [n] is [buf.len()]. *)
Fixpoint fill (fuel : nat) (s : NoiseTcpStream) (n : nat) (out : list byte) :
    result NoiseError (list byte) * NoiseTcpStream :=
  match fuel with
  | O => (Ok out, s)
  | S fuel =>
    if length out <? n then
      if nt_read_pos s <? length (nt_read_buf s) then
        let k := Nat.min (length (nt_read_buf s) - nt_read_pos s) (n - length out) in
        fill fuel (mkNoiseTcpStream (nt_tcp s) (nt_transport s) (nt_read_buf s) (nt_read_pos s + k)) n
          (out ++ take k (drop (nt_read_pos s) (nt_read_buf s)))
      else
        match read_msg s with
        | (Err e, s) => (Err e, s)
        | (Ok msg, s) =>
          let s := mkNoiseTcpStream (nt_tcp s) (nt_transport s) msg 0 in
          match msg with
          | [] => (Err NoiseClosed, s)
          | _ :: _ => fill fuel s n out
          end
        end
    else (Ok out, s)
  end.

(** A pass that reads a message is followed by one that takes a byte of it. *)
Definition read_exact (s : NoiseTcpStream) (n : nat) : result NoiseError (list byte) * NoiseTcpStream :=
  fill (2 * n) s n [].

(** ** JSON frames *)

Definition NOISE_FRAME : N := 16 * 1024 * 1024.

(** No bound on the body here. *)
Definition noise_write_json `{Encode T} (s : NoiseTcpStream) (v : T) :
    result NoiseError unit * NoiseTcpStream :=
  let body := to_vec v in
  let frame := be_bytes 4 (wrap 32 (len body)) ++ body in
  write_all s frame.

Definition noise_read_json `{Decode T} (s : NoiseTcpStream) : result NoiseError T * NoiseTcpStream :=
  match read_exact s 4 with
  | (Err e, s) => (Err e, s)
  | (Ok len_buf, s) =>
    let n := from_be_bytes len_buf in
    if (NOISE_FRAME <? n)%N then (Err NoiseTooLarge, s) else
    match read_exact s (N.to_nat n) with
    | (Err e, s) => (Err e, s)
    | (Ok body, s) => (ok_or (from_slice body) (NoiseSnow FromSerde), s)
    end
  end.

Definition noise_write_event `{Encode SignedEvent} (s : NoiseTcpStream) (ev : SignedEvent) :=
  noise_write_json s ev.
Definition noise_read_event `{Decode SignedEvent} (s : NoiseTcpStream) :
    result NoiseError SignedEvent * NoiseTcpStream := noise_read_json s.

(** ** Loops and their fuel *)

(** The passes [fill] has left at most. *)
Definition fill_measure (s : NoiseTcpStream) (n : nat) (out : list byte) : nat :=
  2 * (n - length out) - (if nt_read_pos s <? length (nt_read_buf s) then 1 else 0).

Lemma fill_S fuel s n out : fill (S fuel) s n out =
  if length out <? n then
    if nt_read_pos s <? length (nt_read_buf s) then
      let k := Nat.min (length (nt_read_buf s) - nt_read_pos s) (n - length out) in
      fill fuel (mkNoiseTcpStream (nt_tcp s) (nt_transport s) (nt_read_buf s) (nt_read_pos s + k)) n
        (out ++ take k (drop (nt_read_pos s) (nt_read_buf s)))
    else
      match read_msg s with
      | (Err e, s) => (Err e, s)
      | (Ok msg, s) =>
        let s := mkNoiseTcpStream (nt_tcp s) (nt_transport s) msg 0 in
        match msg with [] => (Err NoiseClosed, s) | _ :: _ => fill fuel s n out end
      end
  else (Ok out, s).
Proof. done. Qed.

Lemma ltb_cons (b : byte) l : (0 <? length (b :: l)) = true.
Proof. done. Qed.

(** The slice a pass copies. *)
Lemma fill_slice (s : NoiseTcpStream) n (out : list byte) :
  length out < n → nt_read_pos s < length (nt_read_buf s) →
  let k := Nat.min (length (nt_read_buf s) - nt_read_pos s) (n - length out) in
  0 < k ∧ length (out ++ take k (drop (nt_read_pos s) (nt_read_buf s))) = length out + k.
Proof.
  intros Ho Hp k. subst k. split; [lia|]. rewrite length_app, length_take, length_drop. lia.
Qed.

(** More fuel than the passes left changes nothing: [read_exact] is the loop. *)
Lemma fill_fuel fuel : ∀ s n out, fill_measure s n out ≤ fuel →
  fill (S fuel) s n out = fill fuel s n out.
Proof.
  induction fuel as [|fuel IH]; intros s n out Hm; rewrite fill_S; unfold fill_measure in Hm.
  - destruct (Nat.ltb_spec (length out) n); [|done].
    destruct (nt_read_pos s <? _); lia.
  - rewrite (fill_S fuel s n out).
    destruct (Nat.ltb_spec (length out) n) as [Ho|]; cbv iota; [|done].
    destruct (Nat.ltb_spec (nt_read_pos s) (length (nt_read_buf s))) as [Hp|Hp]; cbv iota zeta.
    + destruct (fill_slice s n out Ho Hp) as [Hk Hl]. apply IH. unfold fill_measure. rewrite Hl.
      destruct (_ <? _); lia.
    + destruct (read_msg s) as [[[|b msg]|e] s']; try done. apply IH. unfold fill_measure.
      cbn [nt_read_pos nt_read_buf]. rewrite ltb_cons. lia.
Qed.

Lemma fill_length fuel : ∀ s n out, fill_measure s n out ≤ fuel → length out ≤ n →
  ∀ x s', fill fuel s n out = (Ok x, s') → length x = n.
Proof.
  induction fuel as [|fuel IH]; intros s n out Hm Hn x s'; unfold fill_measure in Hm.
  - intros [= <- <-]. destruct (nt_read_pos s <? _); lia.
  - rewrite fill_S. destruct (Nat.ltb_spec (length out) n) as [Ho|]; [|intros [= <- <-]; lia].
    destruct (Nat.ltb_spec (nt_read_pos s) (length (nt_read_buf s))) as [Hp|Hp]; cbv zeta.
    + destruct (fill_slice s n out Ho Hp) as [Hk Hl]. apply IH; [|lia].
      unfold fill_measure. rewrite Hl. destruct (_ <? _); lia.
    + destruct (read_msg s) as [[[|b msg]|e] s1]; try done. apply IH; [|done].
      unfold fill_measure. cbn [nt_read_pos nt_read_buf]. rewrite ltb_cons. lia.
Qed.

Lemma write_chunks_fuel fuel : ∀ s data off, length data - N.to_nat off ≤ fuel →
  write_chunks (S fuel) s data off = write_chunks fuel s data off.
Proof.
  induction fuel as [|fuel IH]; intros s data off Hf.
  - cbn [write_chunks]. destruct (N.ltb_spec off (len data)); [lia|done].
  - change (write_chunks (S (S fuel)) s data off) with
      (if (off <? len data)%N then
         let end_ := N.min (off + max_plain) (len data) in
         match write_msg s (take (N.to_nat (end_ - off)) (drop (N.to_nat off) data)) with
         | (Err e, s) => (Err e, s)
         | (Ok _, s) => write_chunks (S fuel) s data end_
         end
       else (Ok tt, s)).
    cbn [write_chunks]. destruct (N.ltb_spec off (len data)); [|done].
    cbv zeta. destruct (write_msg s _) as [[[]|e] s1]; [|done]. apply IH.
    unfold max_plain, MAX_NOISE_MSG, TAG_LEN. lia.
Qed.

(** Every read that succeeds fills the buffer, and every outcome is one the code's
    loop has: more fuel gives the same. *)
Lemma read_exact_total s n :
  (∀ extra, fill (2 * n + extra) s n [] = read_exact s n) ∧
  (∀ x s', read_exact s n = (Ok x, s') → length x = n).
Proof.
  assert (fill_measure s n [] ≤ 2 * n) as Hm
    by (unfold fill_measure; cbn [length]; destruct (_ <? _); lia).
  split.
  - induction extra as [|extra IH]; [by rewrite Nat.add_0_r|].
    rewrite Nat.add_succ_r, fill_fuel by lia. done.
  - intros x s'. apply fill_length; [done|cbn; lia].
Qed.

(** ** What a connection carries *)

(** [sealed b ps bs b']: the bytes [bs] are transport messages a reader in state [b]
    opens to the nonempty [ps]. *)
Inductive sealed : TransportState → list (list byte) → list byte → TransportState → Prop :=
| sealed_nil b : sealed b [] [] b
| sealed_cons b c p b' ps bs b'' :
    (len c ≤ MAX_NOISE_MSG)%N → p ≠ [] → read_message b c (len c) = (Ok p, b') →
    sealed b' ps bs b'' → sealed b (p :: ps) (be_bytes 2 (len c) ++ c ++ bs) b''.

Lemma sealed_app b ps bs b' ps' bs' b'' :
  sealed b ps bs b' → sealed b' ps' bs' b'' → sealed b (ps ++ ps') (bs ++ bs') b''.
Proof.
  induction 1 as [|b c p b1 ps bs b2 Hc Hp Hr _ IH]; intros H; [done|].
  rewrite <-app_assoc, <-app_assoc. cbn. apply sealed_cons with b1; auto.
Qed.

(** The plain bytes a stream still delivers, then the end of the connection. *)
Definition carries (s : NoiseTcpStream) (data : list byte) : Prop :=
  ∃ ps bs b', ts_read (nt_tcp s) = mkReader bs None ∧ sealed (nt_transport s) ps bs b' ∧
    drop (nt_read_pos s) (nt_read_buf s) ++ concat ps = data.

Lemma read_u16_app n k e : (n < 2 ^ 16)%N →
  read_u16 (mkReader (be_bytes 2 n ++ k) e) = (Ok n, mkReader k e).
Proof.
  intros Hn. unfold read_u16.
  pose proof (read_exact_app (be_bytes 2 n) k e) as H. rewrite length_be_bytes in H. rewrite H.
  cbn [fmap result_fmap]. rewrite from_be_bytes_be_bytes, wrap_small; [done|exact Hn].
Qed.

Lemma read_msg_sealed s c p bs b' e : (len c ≤ MAX_NOISE_MSG)%N →
  ts_read (nt_tcp s) = mkReader (be_bytes 2 (len c) ++ c ++ bs) e →
  read_message (nt_transport s) c (len c) = (Ok p, b') →
  read_msg s = (Ok p, mkNoiseTcpStream (mkTcpStream (mkReader bs e) (ts_write (nt_tcp s))) b'
    (nt_read_buf s) (nt_read_pos s)).
Proof.
  intros Hc Hr Hm. unfold read_msg. rewrite Hr, read_u16_app
    by (unfold MAX_NOISE_MSG in Hc; lia).
  rewrite (proj2 (N.ltb_ge _ _)) by done. rewrite Nat2N.id, read_exact_app. by rewrite Hm.
Qed.

Lemma read_msg_end s : ts_read (nt_tcp s) = mkReader [] None → ∃ s', read_msg s = (Err NoiseClosed, s').
Proof. intros H. unfold read_msg. rewrite H. cbn. eauto. Qed.

(** One pass of the loop on a carried stream. *)
Lemma fill_carries fuel : ∀ s n out data, carries s data → fill_measure s n out ≤ fuel →
  length out ≤ n →
  ∃ s', if n - length out <=? length data
    then fill fuel s n out = (Ok (out ++ take (n - length out) data), s') ∧
         carries s' (drop (n - length out) data)
    else fill fuel s n out = (Err NoiseClosed, s').
Proof.
  induction fuel as [|fuel IH]; intros s n out data Hc Hm Hn.
  { unfold fill_measure in Hm. assert (n - length out = 0) as -> by (destruct (_ <? _); lia).
    exists s. cbn. by rewrite app_nil_r. }
  rewrite fill_S. destruct (Nat.ltb_spec (length out) n) as [Ho|Ho].
  2: { assert (n - length out = 0) as -> by lia. exists s. cbn. by rewrite app_nil_r. }
  unfold fill_measure in Hm. destruct Hc as (ps & bs & b' & Hr & Hs & Hd).
  destruct (Nat.ltb_spec (nt_read_pos s) (length (nt_read_buf s))) as [Hp|Hp]; cbv zeta.
  - destruct (fill_slice s n out Ho Hp) as [Hk Hl].
    set (k := Nat.min _ _) in *. set (buf := drop (nt_read_pos s) (nt_read_buf s)) in *.
    assert (length buf = length (nt_read_buf s) - nt_read_pos s) as Hb
      by (unfold buf; by rewrite length_drop).
    assert (carries (mkNoiseTcpStream (nt_tcp s) (nt_transport s) (nt_read_buf s)
      (nt_read_pos s + k)) (drop k data)) as Hc'.
    { exists ps, bs, b'. split_and!; [done|done|]. cbn. rewrite <-Hd, drop_app_le by lia.
      unfold buf. by rewrite drop_drop. }
    destruct (IH _ n (out ++ take k buf) _ Hc') as (s' & H'); [|lia|].
    { unfold fill_measure. rewrite Hl. destruct (_ <? _); lia. }
    exists s'. rewrite Hl, length_drop in H'.
    assert (k ≤ length data) by (rewrite <-Hd, length_app; lia).
    replace (n - (length out + k) <=? length data - k) with (n - length out <=? length data) in H'
      by (destruct (Nat.leb_spec (n - length out) (length data));
          destruct (Nat.leb_spec (n - (length out + k)) (length data - k)); lia).
    destruct (n - length out <=? length data); [|done].
    destruct H' as [-> Hc'']. rewrite drop_drop in Hc''.
    replace (k + (n - (length out + k))) with (n - length out) in Hc'' by lia. split; [|done].
    do 2 f_equal. rewrite <-app_assoc. f_equal.
    replace (take k buf) with (take k data) by (rewrite <-Hd, take_app_le; [done|lia]).
    rewrite take_take_drop. f_equal. lia.
  - assert (drop (nt_read_pos s) (nt_read_buf s) = []) as Hb by (apply drop_ge; lia).
    rewrite Hb in Hd. cbn in Hd.
    inversion Hs as [b|b c p b1 ps1 bs1 b2 Hc Hpn Hrd Hs1]; subst; clear Hs.
    + destruct (read_msg_end s Hr) as [s' ->]. exists s'.
      rewrite (proj2 (Nat.leb_gt _ _)); [done|cbn; lia].
    + rewrite (read_msg_sealed s c p bs1 b1 None Hc Hr) by done. destruct p as [|x p]; [done|].
      apply IH; [|unfold fill_measure; cbn [nt_read_pos nt_read_buf]; rewrite ltb_cons; lia|done].
      by exists ps1, bs1, b'.
Qed.

Lemma read_exact_carries s data n : carries s data → n ≤ length data →
  ∃ s', read_exact s n = (Ok (take n data), s') ∧ carries s' (drop n data).
Proof.
  intros Hc Hn. destruct (fill_carries (2 * n) s n [] data Hc) as (s' & H);
    [unfold fill_measure; cbn [length]; destruct (_ <? _); lia|cbn; lia|].
  cbn [length] in H. rewrite Nat.sub_0_r in H. rewrite (proj2 (Nat.leb_le _ _)) in H by done.
  exists s'. exact H.
Qed.

(** A connection that ends before the bytes asked for is closed. *)
Lemma read_exact_short s data n : carries s data → length data < n →
  ∃ s', read_exact s n = (Err NoiseClosed, s').
Proof.
  intros Hc Hn. destruct (fill_carries (2 * n) s n [] data Hc) as (s' & H);
    [unfold fill_measure; cbn [length]; destruct (_ <? _); lia|cbn; lia|].
  cbn [length] in H. rewrite Nat.sub_0_r in H. rewrite (proj2 (Nat.leb_gt _ _)) in H by done.
  exists s'. exact H.
Qed.

(** ** What a writer sends *)

(** The stream after [bs] went out and the transport moved to [t]. *)
Definition sent (s : NoiseTcpStream) (bs : list byte) (t : TransportState) : NoiseTcpStream :=
  mkNoiseTcpStream
    (mkTcpStream (ts_read (nt_tcp s)) (mkWriter (wr_bytes (ts_write (nt_tcp s)) ++ bs) None)) t
    (nt_read_buf s) (nt_read_pos s).
Definition unbounded (s : NoiseTcpStream) : Prop := wr_room (ts_write (nt_tcp s)) = None.

Section writing.
Context {SL : SnowLaws}.

(** [t'] reads what [t] does. *)
Definition same_reading (t t' : TransportState) : Prop := ∀ n b, in_step n b t → in_step n b t'.

#[local] Instance same_reading_preorder : PreOrder same_reading.
Proof. split; [by intros t n b|intros t1 t2 t3 H1 H2 n b H; auto]. Qed.

Lemma in_step_le n m a b : (m ≤ n)%N → in_step n a b → in_step m a b.
Proof.
  intros Hm. replace n with (m + (n - m))%N by lia. generalize (n - m)%N. clear n Hm.
  induction n as [|n IH] using N.peano_ind; [by rewrite N.add_0_r|].
  intros H. apply IH. apply in_step_pred. by rewrite <-N.add_succ_r.
Qed.

Lemma sent_sent s bs t bs' t' : sent (sent s bs t) bs' t' = sent s (bs ++ bs') t'.
Proof. unfold sent; cbn. by rewrite app_assoc. Qed.

Lemma write_raw_bytes tcp data : wr_room (ts_write tcp) = None → (len data ≤ MAX_NOISE_MSG)%N →
  write_raw tcp data = (Ok tt, mkTcpStream (ts_read tcp)
    (mkWriter (wr_bytes (ts_write tcp) ++ be_bytes 2 (len data) ++ data) None)).
Proof.
  intros Hw Hd. unfold write_raw. rewrite wrap_small by (unfold MAX_NOISE_MSG in Hd; lia).
  unfold write_u16_body, Net.write_all, flush. destruct tcp as [rd [l room]]; cbn in *. subst room.
  cbn. by rewrite <-app_assoc.
Qed.

(** The outcome of a write: the plain bytes [data] leave as messages the peer opens. *)
Definition delivers (s : NoiseTcpStream) (b : TransportState) (n : N) (data : list byte)
    (r : result NoiseError unit * NoiseTcpStream) : Prop :=
  ∃ bs t' ps b', r = (Ok tt, sent s bs t') ∧ sealed b ps bs b' ∧ concat ps = data ∧
    in_step n t' b' ∧ same_reading (nt_transport s) t'.

Lemma write_msg_delivers s p n b : unbounded s → p ≠ [] → (len p + TAG_LEN ≤ MAX_NOISE_MSG)%N →
  in_step (N.succ n) (nt_transport s) b → delivers s b n p (write_msg s p).
Proof.
  intros Hu Hp Hl Hs. unfold write_msg. rewrite (proj2 (N.ltb_ge _ _)) by done.
  pose proof (write_keeps_reading (SnowLaws:=SL)) as Hk.
  destruct (in_step_write n (nt_transport s) b p _ Hs Hl ltac:(reflexivity))
    as (c & t' & b' & Hw & Hc & Hr & Hs').
  assert (same_reading (nt_transport s) t') as Hsame.
  { intros m x Hx. specialize (Hk m (nt_transport s) p (len p + TAG_LEN)%N x Hx). by rewrite Hw in Hk. }
  rewrite Hw. rewrite write_raw_bytes by (try done; lia).
  exists (be_bytes 2 (len c) ++ c), t', [p], b'. split_and!; try done.
  - rewrite <-(app_nil_r c) at 2. apply sealed_cons with b'; [lia|done| |constructor].
    apply Hr. reflexivity.
  - cbn. by rewrite app_nil_r.
Qed.

Lemma delivers_app s b n data data' r' : unbounded s →
  ∀ k r, delivers s b k data r →
  (∀ s1 b1, r = (Ok tt, s1) → unbounded s1 → in_step k (nt_transport s1) b1 →
    delivers s1 b1 n data' (r' s1)) →
  delivers s b n (data ++ data')
    match r with (Err e, s1) => (Err e, s1) | (Ok _, s1) => r' s1 end.
Proof.
  intros Hu k r (bs & t' & ps & b' & -> & Hs & Hd & Hin & Hsame) H2.
  destruct (H2 (sent s bs t') b' eq_refl eq_refl Hin) as (bs2 & t2 & ps2 & b2 & -> & Hs2 & Hd2 & Hin2 & Hsame2).
  exists (bs ++ bs2), t2, (ps ++ ps2), b2. rewrite sent_sent. split_and!; [done| |..|done|].
  - by apply sealed_app with b'.
  - by rewrite concat_app, Hd, Hd2.
  - etrans; [exact Hsame|exact Hsame2].
Qed.

Lemma delivers_nil s b n : unbounded s → in_step n (nt_transport s) b → delivers s b n [] (Ok tt, s).
Proof.
  intros Hu Hs. exists [], (nt_transport s), [], b. split_and!; [|constructor|done..].
  unfold sent. rewrite app_nil_r. unfold unbounded in Hu. by destruct s as [[rd [l room]] t buf pos]; cbn in *; subst.
Qed.

Lemma write_chunks_delivers n data fuel : ∀ s b off, unbounded s → (off ≤ len data)%N →
  length data - N.to_nat off ≤ fuel →
  in_step (n + (len data - off)) (nt_transport s) b →
  delivers s b n (drop (N.to_nat off) data) (write_chunks fuel s data off).
Proof.
  induction fuel as [|fuel IH]; intros s b off Hu Ho Hf Hin.
  { rewrite drop_ge by lia. apply delivers_nil; [done|]. by apply in_step_le with (n + (len data - off))%N; [lia|]. }
  cbn [write_chunks]. destruct (N.ltb_spec off (len data)) as [Hlt|Hlt].
  2: { rewrite drop_ge by lia. apply delivers_nil; [done|].
       by apply in_step_le with (n + (len data - off))%N; [lia|]. }
  cbv zeta. set (end_ := N.min (off + max_plain) (len data)).
  assert (off < end_ ≤ len data ∧ end_ ≤ off + max_plain)%N as He
    by (unfold end_, max_plain, MAX_NOISE_MSG, TAG_LEN; lia).
  set (p := take (N.to_nat (end_ - off)) (drop (N.to_nat off) data)).
  assert (length p = N.to_nat (end_ - off)) as Hp
    by (unfold p; rewrite length_take, length_drop; lia).
  replace (drop (N.to_nat off) data) with (p ++ drop (N.to_nat end_) data).
  2: { unfold p. replace (N.to_nat end_) with (N.to_nat off + N.to_nat (end_ - off)) by lia.
       by rewrite <-drop_drop, take_drop. }
  apply (delivers_app s b n p _ (λ s1, write_chunks fuel s1 data end_) Hu
    (n + (len data - off) - 1)%N).
  - apply write_msg_delivers; [done| | |].
    + intros ->. cbn in Hp. lia.
    + unfold max_plain, MAX_NOISE_MSG, TAG_LEN in *. lia.
    + by replace (N.succ _) with (n + (len data - off))%N by lia.
  - intros s1 b1 _ Hu1 Hin1. apply IH; [done|lia|lia|].
    by apply in_step_le with (n + (len data - off) - 1)%N; [lia|].
Qed.

(** [write_all] delivers its bytes, with a nonce to spare for each. *)
Lemma write_all_delivers s data n b : unbounded s →
  in_step (n + len data) (nt_transport s) b → delivers s b n data (write_all s data).
Proof.
  intros Hu Hin. apply (write_chunks_delivers n data (length data) s b 0); [done|lia|cbn; lia|].
  by rewrite N.sub_0_r.
Qed.

(** ** Frames *)

Lemma frame_of_fits body : fits body → be_bytes 4 (wrap 32 (len body)) ++ body = frame body.
Proof. intros Hf. unfold frame. by rewrite frame_len. Qed.

Lemma noise_write_json_delivers `{Encode T} s (v : T) n b : unbounded s → fits (to_vec v) →
  in_step (n + len (frame (to_vec v))) (nt_transport s) b →
  delivers s b n (frame (to_vec v)) (noise_write_json s v).
Proof.
  intros Hu Hf Hin. unfold noise_write_json. rewrite frame_of_fits by done. by apply write_all_delivers.
Qed.

Lemma noise_read_json_carries `{Decode T} s body k : carries s (frame body ++ k) → fits body →
  ∃ s', noise_read_json (T:=T) s = (ok_or (from_slice body) (NoiseSnow FromSerde), s') ∧ carries s' k.
Proof.
  intros Hc Hf. unfold noise_read_json, frame in *. unfold fits in Hf.
  assert (MAX_FRAME = NOISE_FRAME) as Hm by done. rewrite Hm in Hf. clear Hm.
  rewrite <-app_assoc in Hc. set (h := be_bytes 4 _) in Hc.
  assert (length h = 4) as Hh by apply length_be_bytes.
  destruct (read_exact_carries s _ 4 Hc) as (s1 & -> & Hc1); [rewrite length_app; lia|].
  rewrite take_app_length' by done. rewrite drop_app_length' in Hc1 by done.
  unfold h. rewrite from_be_bytes_be_bytes, wrap_small by (unfold NOISE_FRAME in Hf; lia).
  rewrite (proj2 (N.ltb_ge _ _)) by exact Hf. rewrite Nat2N.id.
  destruct (read_exact_carries s1 _ (length body) Hc1) as (s2 & -> & Hc2); [rewrite length_app; lia|].
  rewrite take_app_length. rewrite drop_app_length in Hc2. by exists s2.
Qed.

Lemma noise_read_json_end `{Decode T} s : carries s [] →
  ∃ s', noise_read_json (T:=T) s = (Err NoiseClosed, s').
Proof.
  intros Hc. destruct (read_exact_short s [] 4 Hc) as [s' H']; [cbn; lia|].
  unfold noise_read_json. rewrite H'. eauto.
Qed.

(** Events as frames, one after the other. *)
Definition frames `{Encode SignedEvent} (l : list SignedEvent) : list byte :=
  concat (frame ∘ to_vec <$> l).
Lemma frames_cons `{Encode SignedEvent} ev l : frames (ev :: l) = frame (to_vec ev) ++ frames l.
Proof. done. Qed.

(** [for ev in l { noise_write_event(&mut s, &ev).await? }] *)
Fixpoint noise_write_events `{Encode SignedEvent} (s : NoiseTcpStream) (l : list SignedEvent) :
    result NoiseError unit * NoiseTcpStream :=
  match l with
  | [] => (Ok tt, s)
  | ev :: l =>
    match noise_write_event s ev with
    | (Err e, s) => (Err e, s)
    | (Ok _, s) => noise_write_events s l
    end
  end.

(** [while let Ok(ev) = noise_read_event(&mut s).await { .. }] *)
Fixpoint noise_read_events `{Decode SignedEvent} (fuel : nat) (s : NoiseTcpStream) :
    list SignedEvent * option NoiseError * NoiseTcpStream :=
  match fuel with
  | O => ([], None, s)
  | S fuel =>
    match noise_read_event s with
    | (Err e, s) => ([], Some e, s)
    | (Ok ev, s) => let '(l, e, s) := noise_read_events fuel s in (ev :: l, e, s)
    end
  end.

Lemma noise_write_events_delivers `{Encode SignedEvent} n l : ∀ s b, unbounded s →
  Forall (λ ev, fits (to_vec ev)) l →
  in_step (n + len (frames l)) (nt_transport s) b →
  delivers s b n (frames l) (noise_write_events s l).
Proof.
  induction l as [|ev l IH]; intros s b Hu Hl Hin.
  { apply delivers_nil; [done|]. apply in_step_le with (n + 0)%N; [lia|done]. }
  inversion Hl; subst. cbn [noise_write_events]. rewrite frames_cons in *. unfold noise_write_event.
  rewrite length_app in Hin.
  apply (delivers_app s b n _ _ (λ s1, noise_write_events s1 l) Hu (n + len (frames l))%N).
  - apply noise_write_json_delivers; [done..|].
    by apply in_step_le with (n + N.of_nat (length (frame (to_vec ev)) + length (frames l)))%N; [lia|].
  - intros s1 b1 _ Hu1 Hin1. by apply IH.
Qed.

Lemma noise_read_events_carries `{CodecLaws SignedEvent} l : ∀ s,
  Forall (λ ev, fits (to_vec ev)) l → carries s (frames l) →
  ∃ s', noise_read_events (S (length l)) s = (l, Some NoiseClosed, s').
Proof.
  induction l as [|ev l IH]; intros s Hl Hc.
  { cbn [noise_read_events length]. unfold noise_read_event.
    destruct (noise_read_json_end (T:=SignedEvent) s Hc) as [s' ->]. eauto. }
  inversion Hl; subst. rewrite frames_cons in Hc.
  destruct (noise_read_json_carries (T:=SignedEvent) s _ _ Hc) as (s1 & Hr & Hc1); [done|].
  rewrite from_slice_to_vec in Hr.
  change (noise_read_events (S (length (ev :: l))) s) with
    (match noise_read_event s with
     | (Err e, s) => ([], Some e, s)
     | (Ok ev, s) => let '(l, e, s) := noise_read_events (S (length l)) s in (ev :: l, e, s)
     end).
  unfold noise_read_event. rewrite Hr. cbn [ok_or]. destruct (IH s1) as [s' ->]; [done..|]. eauto.
Qed.

(** ** The handshake *)

(** A record on the wire. *)
Definition record (m : list byte) : list byte := be_bytes 2 (len m) ++ m.

Lemma read_raw_record m k e w : (len m ≤ MAX_NOISE_MSG)%N →
  read_raw (mkTcpStream (mkReader (record m ++ k) e) w) = (Ok m, mkTcpStream (mkReader k e) w).
Proof.
  intros Hm. unfold read_raw, record; cbn [ts_read ts_write]. rewrite <-app_assoc, read_u16_app
    by (unfold MAX_NOISE_MSG in Hm; lia).
  rewrite (proj2 (N.ltb_ge _ _)) by done. by rewrite Nat2N.id, read_exact_app.
Qed.

Lemma hs_send_ok st m st' rd l : hs_write_message st [] MAX_NOISE_MSG = (Ok m, st') →
  (len m ≤ MAX_NOISE_MSG)%N →
  hs_send st (mkTcpStream rd (mkWriter l None)) = (Ok st', mkTcpStream rd (mkWriter (l ++ record m) None)).
Proof. intros Hw Hm. unfold hs_send. rewrite Hw. by rewrite write_raw_bytes. Qed.

Lemma hs_receive_ok st m p st' k e w : (len m ≤ MAX_NOISE_MSG)%N →
  hs_read_message st m MAX_NOISE_MSG = (Ok p, st') →
  hs_receive st (mkTcpStream (mkReader (record m ++ k) e) w) = (Ok st', mkTcpStream (mkReader k e) w).
Proof. intros Hm Hr. unfold hs_receive. rewrite read_raw_record by done. by rewrite Hr. Qed.

(** The three messages of a handshake, and where it leaves both sides whatever
    follows. *)
Lemma handshake_pairs ki kr i r : snow_build true ki = Ok i → snow_build false kr = Ok r →
  ∃ m1 m2 m3 a b, in_step (2 ^ 64 - 1) a b ∧ in_step (2 ^ 64 - 1) b a ∧ ∀ k e l,
    (handshake_initiator (mkTcpStream (mkReader (record m2 ++ k) e) (mkWriter l None)) (Ok ki)).1 =
      Ok (mkNoiseTcpStream (mkTcpStream (mkReader k e) (mkWriter (l ++ record m1 ++ record m3) None)) a [] 0) ∧
    (handshake_responder (mkTcpStream (mkReader (record m1 ++ record m3 ++ k) e) (mkWriter l None)) (Ok kr)).1 =
      Ok (mkNoiseTcpStream (mkTcpStream (mkReader k e) (mkWriter (l ++ record m2) None)) b [] 0).
Proof.
  intros Hi Hr. destruct (paired_first i r) as (m1 & i1 & r1 & Hw1 & Hl1 & Hr1 & Hp1);
    [by apply paired_build with ki kr|].
  destruct (paired_second _ _ Hp1) as (m2 & i2 & r2 & Hw2 & Hl2 & Hr2 & Hp2).
  destruct (paired_third _ _ Hp2) as (m3 & i3 & r3 & Hw3 & Hl3 & Hr3 & Hp3).
  destruct (paired_done _ _ Hp3) as (a & b & Ha & Hb & Hab & Hba).
  exists m1, m2, m3, a, b. split_and!; [done..|]. intros k e l.
  unfold handshake_initiator, handshake_responder, handshake, run_xx_handshake, map_snow.
  cbn [map_err mbind result_bind]. rewrite Hi, Hr. cbn [map_err].
  rewrite (hs_send_ok _ _ _ _ _ Hw1 Hl1), (hs_receive_ok _ _ _ _ _ _ _ Hl1 Hr1).
  rewrite (hs_receive_ok _ _ _ _ _ _ _ Hl2 Hr2), (hs_send_ok _ _ _ _ _ Hw2 Hl2).
  rewrite (hs_send_ok _ _ _ _ _ Hw3 Hl3), (hs_receive_ok _ _ _ _ _ _ _ Hl3 Hr3).
  rewrite Ha, Hb. cbn. by rewrite <-app_assoc.
Qed.

(** One end of a connection: the handshake, then events out and events in until the
    connection ends. *)
Definition talk `{Encode SignedEvent, Decode SignedEvent} (initiator : bool)
    (key : result snow_error (list byte)) (out : list SignedEvent) (fuel : nat) (tcp : TcpStream) :
    result NoiseError (list SignedEvent * option NoiseError) * list byte :=
  match handshake initiator tcp key with
  | (Err e, tcp) => (Err e, wr_bytes (ts_write tcp))
  | (Ok s, _) =>
    match noise_write_events s out with
    | (Err e, s) => (Err e, wr_bytes (ts_write (nt_tcp s)))
    | (Ok _, s) =>
      let '(l, e, s) := noise_read_events fuel s in (Ok (l, e), wr_bytes (ts_write (nt_tcp s)))
    end
  end.

(** ** Reading writes nothing *)

Lemma read_msg_write s : ts_write (nt_tcp (read_msg s).2) = ts_write (nt_tcp s).
Proof.
  unfold read_msg. destruct (read_u16 _) as [[n|[]] rd]; try done. destruct (_ <? _)%N; [done|].
  destruct (Net.read_exact _ _) as [[enc|e] rd2]; [|done]. by destruct (read_message _ _ _).
Qed.

Lemma fill_write fuel : ∀ s n out, ts_write (nt_tcp (fill fuel s n out).2) = ts_write (nt_tcp s).
Proof.
  induction fuel as [|fuel IH]; intros s n out; [done|]. rewrite fill_S.
  destruct (_ <? n); [|done]. destruct (_ <? _); cbv zeta; [by rewrite IH|].
  pose proof (read_msg_write s) as Hw.
  destruct (read_msg s) as [[[|b msg]|e] s1]; try exact Hw. by rewrite IH.
Qed.

Lemma noise_read_json_write `{Decode T} s :
  ts_write (nt_tcp (noise_read_json (T:=T) s).2) = ts_write (nt_tcp s).
Proof.
  unfold noise_read_json, read_exact. pose proof (fill_write (2 * 4) s 4 []) as H1.
  destruct (fill _ s 4 []) as [[h|e] s1]; [|exact H1]. cbn [snd] in H1. destruct (_ <? _)%N; [done|].
  set (n := N.to_nat _). pose proof (fill_write (2 * n) s1 n []) as H2.
  destruct (fill _ s1 n []) as [[body|e] s2]; cbn [snd] in *; congruence.
Qed.

Lemma noise_read_events_write `{Decode SignedEvent} fuel : ∀ s,
  ts_write (nt_tcp (noise_read_events fuel s).2) = ts_write (nt_tcp s).
Proof.
  induction fuel as [|fuel IH]; intros s; [done|]. cbn [noise_read_events]. unfold noise_read_event.
  pose proof (noise_read_json_write (T:=SignedEvent) s) as Hw.
  destruct (noise_read_json s) as [[ev|e] s1]; [|exact Hw]. specialize (IH s1).
  destruct (noise_read_events fuel s1) as [[l e] s2]. cbn [snd] in *. congruence.
Qed.

(** ** Writing does not look at what arrives *)

Definition with_rd (s : NoiseTcpStream) (rd : Reader) : NoiseTcpStream :=
  mkNoiseTcpStream (mkTcpStream rd (ts_write (nt_tcp s))) (nt_transport s) (nt_read_buf s) (nt_read_pos s).
Definition on_rd {A} (rd : Reader) (x : A * NoiseTcpStream) : A * NoiseTcpStream :=
  (x.1, with_rd x.2 rd).

Lemma write_msg_rd s rd p : write_msg (with_rd s rd) p = on_rd rd (write_msg s p).
Proof.
  unfold write_msg. destruct (_ <? _)%N; [done|]. cbn [with_rd nt_transport].
  destruct (write_message _ _ _) as [[c|e] t]; [|done].
  unfold write_raw. cbn [with_rd nt_tcp ts_write]. by destruct (write_u16_body _ _ _).
Qed.

Lemma write_chunks_rd fuel rd data : ∀ s off,
  write_chunks fuel (with_rd s rd) data off = on_rd rd (write_chunks fuel s data off).
Proof.
  induction fuel as [|fuel IH]; intros s off; [done|]. cbn [write_chunks].
  destruct (_ <? _)%N; [|done]. cbv zeta. rewrite write_msg_rd.
  destruct (write_msg s _) as [[[]|e] s1]; [apply IH|done].
Qed.

Lemma noise_write_events_rd `{Encode SignedEvent} rd l : ∀ s,
  noise_write_events (with_rd s rd) l = on_rd rd (noise_write_events s l).
Proof.
  induction l as [|ev l IH]; intros s; [done|]. cbn [noise_write_events].
  unfold noise_write_event, noise_write_json, write_all. rewrite write_chunks_rd.
  destruct (write_chunks _ s _ _) as [[[]|e] s1]; [apply IH|done].
Qed.

(** One side of [noise_session]: what it sent before is [pre]. *)
Lemma talk_reads `{CodecLaws SignedEvent} s out inb rd pre bs t' :
  noise_write_events s out = (Ok tt, sent s bs t') → ts_read (nt_tcp s) = rd →
  wr_bytes (ts_write (nt_tcp s)) = pre → carries (sent s bs t') (frames inb) →
  Forall (λ ev, fits (to_vec ev)) inb →
  match noise_write_events s out with
  | (Err e, s) => (Err e, wr_bytes (ts_write (nt_tcp s)))
  | (Ok _, s) =>
    let '(l, e, s) := noise_read_events (S (length inb)) s in (Ok (l, e), wr_bytes (ts_write (nt_tcp s)))
  end = (Ok (inb, Some NoiseClosed), pre ++ bs).
Proof.
  intros Hw <- <- Hc Hf. rewrite Hw. pose proof (noise_read_events_write (S (length inb)) (sent s bs t')) as Hk.
  destruct (noise_read_events_carries inb _ Hf Hc) as [s' Hr]. rewrite Hr in *. cbn [snd] in Hk.
  by rewrite Hk.
Qed.

(** ** Theorems *)

(** C16: Noise streams deliver: after the three handshake messages, what either side
    writes ([noise_write_event], chunked into transport messages of bounded size) the
    other reads ([noise_read_event], refilling its buffer) event by event in order,
    in both directions at once, and the end of the connection is reported as closed.
    Events of at most 16 MiB and a total below the nonce space suffice. *)
Theorem noise_session `{HE : Encode SignedEvent, HD : Decode SignedEvent}
    `{HC : !CodecLaws SignedEvent} (ki kr : list byte) (i r : HandshakeState)
    (li lr : list SignedEvent) :
  snow_build true ki = Ok i → snow_build false kr = Ok r →
  Forall (λ ev, fits (to_vec ev)) (li ++ lr) →
  (len (frames li) < 2 ^ 64)%N → (len (frames lr) < 2 ^ 64)%N →
  ∃ bi br,
    talk true (Ok ki) li (S (length lr)) (mkTcpStream (mkReader br None) (mkWriter [] None)) =
      (Ok (lr, Some NoiseClosed), bi) ∧
    talk false (Ok kr) lr (S (length li)) (mkTcpStream (mkReader bi None) (mkWriter [] None)) =
      (Ok (li, Some NoiseClosed), br).
Proof.
  intros Hi Hr [Hli Hlr]%Forall_app Hbi Hbr.
  destruct (handshake_pairs ki kr i r Hi Hr) as (m1 & m2 & m3 & a & b & Hab & Hba & Hh).
  set (s0 m t := mkNoiseTcpStream (mkTcpStream (mkReader [] None) (mkWriter m None)) t [] 0).
  set (pi := record m1 ++ record m3) in *. set (pr := record m2) in *.
  assert (∀ l m t y, Forall (λ ev, fits (to_vec ev)) l → (len (frames l) < 2 ^ 64)%N →
    in_step (2 ^ 64 - 1) t y → delivers (s0 m t) y 0 (frames l) (noise_write_events (s0 m t) l)) as Hd.
  { intros l m t y Hl Hb Ht. apply noise_write_events_delivers; [done|done|].
    by apply in_step_le with (2 ^ 64 - 1)%N; [lia|]. }
  destruct (Hd li pi a b Hli Hbi Hab) as (bsi & a' & ? & ? & Hwi & _ & _ & _ & Hsi).
  destruct (Hd lr pr b a' Hlr Hbr (Hsi _ _ Hba)) as (bsr & b' & psr & x1 & Hwr & Hser & Hcr & _ & Hsr).
  destruct (Hd li pi a b' Hli Hbi (Hsr _ _ Hab)) as (bsi2 & a2 & psi & x2 & Hwi2 & Hsei & Hci & _ & _).
  rewrite Hwi in Hwi2. injection Hwi2 as Hb2 Ha2. apply app_inv_head in Hb2. subst bsi2 a2.
  destruct (Hh bsr None []) as [Hhi _]. destruct (Hh bsi None []) as [_ Hhr].
  exists (pi ++ bsi), (pr ++ bsr). split; unfold talk.
  - unfold handshake_initiator in Hhi. destruct (handshake true _ _) as [hs hst]. cbn [fst] in Hhi. subst hs.
    pose proof (noise_write_events_rd (mkReader bsr None) li (s0 pi a)) as Hrd. rewrite Hwi in Hrd.
    refine (talk_reads _ li lr _ pi bsi a' Hrd eq_refl eq_refl _ Hlr).
    by exists psr, bsr, x1.
  - unfold handshake_responder in Hhr. unfold pi. rewrite <-app_assoc.
    destruct (handshake false _ _) as [hs hst]. cbn [fst] in Hhr. subst hs.
    pose proof (noise_write_events_rd (mkReader bsi None) lr (s0 pr b)) as Hrd. rewrite Hwr in Hrd.
    refine (talk_reads _ lr li _ pr bsr b' Hrd eq_refl eq_refl _ Hli).
    by exists psi, bsi, x2.
Qed.

(** A dialler that writes events and a listener that only reads: what the listener's
    stream carries. *)
Lemma noise_delivery `{HE : Encode SignedEvent} (ki kr : list byte) (i r : HandshakeState)
    (l : list SignedEvent) :
  snow_build true ki = Ok i → snow_build false kr = Ok r →
  Forall (λ ev, fits (to_vec ev)) l → (len (frames l) < 2 ^ 64)%N →
  ∃ bi br s s', (handshake_initiator (mkTcpStream (mkReader br None) (mkWriter [] None)) (Ok ki)).1 = Ok s ∧
    noise_write_events s l = (Ok tt, s') ∧ wr_bytes (ts_write (nt_tcp s')) = bi ∧
    ∀ w, ∃ t, (handshake_responder (mkTcpStream (mkReader bi None) (mkWriter w None)) (Ok kr)).1 = Ok t ∧
      carries t (frames l).
Proof.
  intros Hi Hr Hl Hb. destruct (handshake_pairs ki kr i r Hi Hr) as (m1 & m2 & m3 & a & b & Hab & _ & Hh).
  set (s := mkNoiseTcpStream (mkTcpStream (mkReader [] None) (mkWriter (record m1 ++ record m3) None)) a [] 0).
  destruct (noise_write_events_delivers 0 l s b) as (bs & t' & ps & b' & Hw & Hs & Hc & _ & _);
    [done|done|by apply in_step_le with (2 ^ 64 - 1)%N; [lia|]|].
  exists ((record m1 ++ record m3) ++ bs), (record m2), s, (sent s bs t').
  pose proof (proj1 (Hh [] None [])) as H1. rewrite app_nil_r in H1.
  split_and!; [exact H1|exact Hw|done|].
  intros w. eexists. rewrite <-app_assoc. split; [exact (proj2 (Hh bs None w))|]. by exists ps, bs, b'.
Qed.

(** A frame above the reader's bound is written without an error and refused by
    the reader, with every later frame of the connection unread. *)
Lemma noise_oversized `{HE : Encode T, HD : Decode T} (s t : NoiseTcpStream) (v : T) :
  unbounded s → (NOISE_FRAME < len (to_vec v) < 2 ^ 32)%N →
  in_step (4 + len (to_vec v)) (nt_transport s) (nt_transport t) →
  nt_read_pos t = length (nt_read_buf t) →
  ∃ bs s', noise_write_json s v = (Ok tt, s') ∧ wr_bytes (ts_write (nt_tcp s')) =
      wr_bytes (ts_write (nt_tcp s)) ++ bs ∧
    (ts_read (nt_tcp t) = mkReader bs None → (noise_read_json (T:=T) t).1 = Err NoiseTooLarge).
Proof.
  intros Hu [Hlo Hhi] Hin Hpos. unfold noise_write_json. rewrite wrap_small by done.
  set (f := be_bytes 4 (len (to_vec v)) ++ to_vec v).
  assert (len f = 4 + len (to_vec v))%N as Hf by (unfold f; rewrite length_app, length_be_bytes; lia).
  destruct (write_all_delivers s f 0 (nt_transport t) Hu) as (bs & t' & ps & b' & -> & Hs & Hc & _ & _).
  { by rewrite Hf, N.add_0_l. }
  exists bs, (sent s bs t'). split_and!; [done..|]. intros Hrd.
  assert (carries t f) as Hcar by (exists ps, bs, b'; rewrite Hpos, drop_all; done).
  unfold noise_read_json. destruct (read_exact_carries t f 4 Hcar) as (t1 & -> & _);
    [unfold f; rewrite length_app, length_be_bytes; lia|].
  unfold f. rewrite take_app_length' by (symmetry; apply length_be_bytes).
  rewrite from_be_bytes_be_bytes, wrap_small by exact Hhi. by rewrite (proj2 (N.ltb_lt _ _)) by done.
Qed.

End writing.

End noise.
