(* ===== verification/Relay.v ===== *)
(** * The assist relay ([relays/td-relay/src/main.rs])

    The per-sender rate limiter, the envelope store on its SQL statements, the
    request handler and the connection loop.  An [Instant] is a number of
    nanoseconds on a clock that does not go back; every reading the code makes
    is an argument.  The two mutexes make each call below atomic. *)

From S2P Require Import Prelude Text Crypto Event Net.

(** ** The database *)

Record EnvRow : Type := mkEnvRow {
  er_recipient : list byte;
  er_sender : list byte;
  er_room : option (list byte);
  er_ciphertext : list byte;
  er_ts : Z;
}.

Class EnvelopesDb : Type := {
  EConnection : Type;
  EDbError : Type;
  (** the text of a database error *)
  edb_text : EDbError → list byte;
  env_open : list byte → result EDbError EConnection;
  env_schema : EConnection → result EDbError EConnection;
  (** [INSERT OR IGNORE INTO envelopes ...]: rows changed *)
  env_insert : EConnection → list byte → EnvRow → result EDbError N * EConnection;
  (** [SELECT ... WHERE recipient = ?1 AND ts_ms >= ?2 ORDER BY ts_ms ASC LIMIT ?3] *)
  env_select : EConnection → list byte → Z → Z →
    result EDbError (list (result EDbError (list byte * EnvRow)));
  (** [DELETE ... WHERE envelope_id = ?1 AND recipient = ?2]: rows changed *)
  env_delete : EConnection → list byte → list byte → result EDbError N * EConnection;
}.

Class EnvelopesDbLaws `{!EnvelopesDb} : Type := {
  env_rows : EConnection → gmap (list byte) EnvRow;
  env_insert_spec c id row :
    match env_insert c id row with
    | (Err _, c') => env_rows c' = env_rows c
    | (Ok n, c') =>
      match env_rows c !! id with
      | Some _ => n = 0%N ∧ env_rows c' = env_rows c
      | None => n = 1%N ∧ env_rows c' = <[id := row]> (env_rows c)
      end
    end;
  env_select_spec c recipient since limit rs l :
    env_select c recipient since limit = Ok rs → rs = Ok <$> l →
    ∃ all, all ≡ₚ filter (λ p, er_recipient p.2 = recipient ∧ (since ≤ er_ts p.2)%Z)
        (map_to_list (env_rows c)) ∧
      StronglySorted (λ p q, er_ts p.2 ≤ er_ts q.2)%Z all ∧ l = take (Z.to_nat limit) all;
  env_delete_spec c id recipient :
    match env_delete c id recipient with
    | (Err _, c') => env_rows c' = env_rows c
    | (Ok n, c') =>
      if decide (er_recipient <$> env_rows c !! id = Some recipient)
      then n = 1%N ∧ env_rows c' = delete id (env_rows c)
      else n = 0%N ∧ env_rows c' = env_rows c
    end;
}.

(** What the relay uses of its environment. *)
Class RelayEnv : Type := {
  relay_crypto :: Crypto;
  relay_db :: EnvelopesDb;
  (** the texts of the transparent error variants *)
  io_text : io_error → list byte;
  serde_text : list byte;
  relay_req_encode :: Encode RelayRequest;
  relay_req_decode :: Decode RelayRequest;
  relay_resp_encode :: Encode RelayResponse;
  relay_resp_decode :: Decode RelayResponse;
}.
Class RelayEnvLaws `{!RelayEnv} : Type := {
  relay_db_laws :: EnvelopesDbLaws;
  relay_req_codec :: CodecLaws RelayRequest;
  relay_resp_codec :: CodecLaws RelayResponse;
}.

Section relay.
Context {LE : RelayEnv}.

Inductive RelayError : Type :=
| RelayIo (e : io_error)
| RelayDb (e : EDbError)
| RelaySerde
| RateLimited
| TooLarge
| BadRequest (m : list byte).

Definition MAX_CIPHERTEXT : N := 256 * 1024.
Definition DEFAULT_RATE : N := 32.
(** One second, in nanoseconds. *)
Definition RATE_WINDOW : N := 1000000000.
Definition DEFAULT_FETCH_LIMIT : N := 64.

(** ** [RateLimiter] *)

Record RateLimiter : Type := mkRateLimiter {
  window_start : N;
  counts : gmap bytes32 N;
  max_per_window : N;
}.

Definition RateLimiter_new (now max_per_window : N) : RateLimiter :=
  mkRateLimiter now ∅ max_per_window.

(** [now] is the reading of [elapsed()], [now'] that of [Instant::now()]. *)
Definition allow (self : RateLimiter) (sender : DeviceId) (now now' : N) : bool * RateLimiter :=
  let self :=
    if (RATE_WINDOW <=? now - window_start self)%N
    then mkRateLimiter now' ∅ (max_per_window self) else self in
  let c := default 0%N (counts self !! DeviceId_0 sender) in
  if (max_per_window self <=? c)%N
  then (false, mkRateLimiter (window_start self) (<[DeviceId_0 sender := c]> (counts self))
                 (max_per_window self))
  else (true, mkRateLimiter (window_start self) (<[DeviceId_0 sender := c + 1]> (counts self))%N
                (max_per_window self)).

(** ** [EnvelopeStore] *)

Record EnvelopeStore : Type := mkEnvelopeStore { es_conn : EConnection }.

Definition EnvelopeStore_open (path : list byte) : result RelayError EnvelopeStore :=
  let? conn := map_err RelayDb (env_open path) in
  let? conn := map_err RelayDb (env_schema conn) in
  Ok (mkEnvelopeStore conn).

Definition EnvelopeStore_put (self : EnvelopeStore) (env : RelayEnvelope) :
    result RelayError bool * EnvelopeStore :=
  if (MAX_CIPHERTEXT <? N.of_nat (length (re_ciphertext env)))%N then (Err TooLarge, self) else
  let expected := RelayEnvelope_new (re_recipient_device env) (re_sender_device env)
    (re_room_id env) (re_ciphertext env) (re_ts_ms env) in
  if decide (re_envelope_id expected ≠ re_envelope_id env)
  then (Err (BadRequest (text "envelope_id mismatch")), self) else
  let room := (λ r, array_bytes (RoomId_0 r)) <$> re_room_id env in
  let '(r, conn) := env_insert (es_conn self) (array_bytes (re_envelope_id env))
    {| er_recipient := array_bytes (DeviceId_0 (re_recipient_device env));
       er_sender := array_bytes (DeviceId_0 (re_sender_device env));
       er_room := room;
       er_ciphertext := re_ciphertext env;
       er_ts := u64_as_i64 (re_ts_ms env) |} in
  (let? changed := map_err RelayDb r in Ok (changed =? 1)%N, mkEnvelopeStore conn).

(** [limit.clamp(1, DEFAULT_FETCH_LIMIT)] *)
Definition clamp_limit (limit : N) : N := N.min (N.max limit 1) DEFAULT_FETCH_LIMIT.

(** The body of the row loop of [fetch]; [None] is its [continue]. *)
Definition row_envelope (row : list byte * EnvRow) : option RelayEnvelope :=
  let '(eid, row) := row in
  envelope_id ← try_into_array 32 eid;
  recipient_b ← try_into_array 32 (er_recipient row);
  sender_b ← try_into_array 32 (er_sender row);
  let room_id := b ← er_room row; a ← try_into_array 32 b; Some (mkRoomId a) in
  Some {| re_envelope_id := envelope_id;
          re_recipient_device := mkDeviceId recipient_b;
          re_sender_device := mkDeviceId sender_b;
          re_room_id := room_id;
          re_ciphertext := er_ciphertext row;
          re_ts_ms := i64_as_u64 (er_ts row) |}.

Fixpoint fetch_rows (rows : list (result EDbError (list byte * EnvRow)))
    (out : list RelayEnvelope) : result RelayError (list RelayEnvelope) :=
  match rows with
  | [] => Ok out
  | r :: rows =>
    let? row := map_err RelayDb r in
    match row_envelope row with
    | None => fetch_rows rows out
    | Some env => fetch_rows rows (out ++ [env])
    end
  end.

Definition EnvelopeStore_fetch (self : EnvelopeStore) (recipient : DeviceId) (since_ts limit : N) :
    result RelayError (list RelayEnvelope) :=
  let limit := Z.of_N (clamp_limit limit) in
  let? rows := map_err RelayDb (env_select (es_conn self) (array_bytes (DeviceId_0 recipient))
    (u64_as_i64 since_ts) limit) in
  fetch_rows rows [].

Fixpoint ack_loop (conn : EConnection) (recipient : DeviceId) (ids : list bytes32) (n : N) :
    result RelayError N * EConnection :=
  match ids with
  | [] => (Ok n, conn)
  | id :: ids =>
    match env_delete conn (array_bytes id) (array_bytes (DeviceId_0 recipient)) with
    | (Err e, conn) => (Err (RelayDb e), conn)
    | (Ok changed, conn) => ack_loop conn recipient ids (n + changed)
    end
  end.

Definition EnvelopeStore_ack (self : EnvelopeStore) (recipient : DeviceId) (ids : list bytes32) :
    result RelayError N * EnvelopeStore :=
  let '(r, conn) := ack_loop (es_conn self) recipient ids 0 in (r, mkEnvelopeStore conn).

(** ** [RelayState] *)

Record RelayState : Type := mkRelayState {
  rl_store : EnvelopeStore;
  rl_limiter : RateLimiter;
}.

Definition handle (self : RelayState) (clock : N * N) (req : RelayRequest) :
    result RelayError RelayResponse * RelayState :=
  match req with
  | Put envelope =>
    let '(ok, limiter) := allow (rl_limiter self) (re_sender_device envelope) clock.1 clock.2 in
    if negb ok then (Err RateLimited, mkRelayState (rl_store self) limiter)
    else let '(r, store) := EnvelopeStore_put (rl_store self) envelope in
      (let? _ := r in Ok RespOk, mkRelayState store limiter)
  | Fetch recipient since_ts limit =>
    (let? items := EnvelopeStore_fetch (rl_store self) recipient since_ts limit in
     Ok (Envelopes items), self)
  | Ack recipient envelope_ids =>
    let '(r, store) := EnvelopeStore_ack (rl_store self) recipient envelope_ids in
    (let? _ := r in Ok RespOk, mkRelayState store (rl_limiter self))
  end.

(** [RelayError]'s [Display]. *)
Definition RelayError_to_string (e : RelayError) : list byte :=
  match e with
  | RelayIo e => io_text e
  | RelayDb e => edb_text e
  | RelaySerde => serde_text
  | RateLimited => text "rate limited"
  | TooLarge => text "envelope too large"
  | BadRequest m => text "bad request: " ++ m
  end.

(** The response [handle_conn] writes for a request. *)
Definition respond (state : RelayState) (clock : N * N) (req : RelayRequest) :
    RelayResponse * RelayState :=
  match handle state clock req with
  | (Ok r, state) => (r, state)
  | (Err RateLimited, state) => (RespErr (text "rate limited"), state)
  | (Err e, state) => (RespErr (RelayError_to_string e), state)
  end.

(** The loop of [handle_conn]; [clock k] are the readings made for the [k]-th
    request.  A request takes at least four bytes of the stream, so the length
    of what is left bounds the iterations. *)
Fixpoint handle_conn (fuel : nat) (clock : nat → N * N) (k : nat) (state : RelayState)
    (sock : TcpStream) : RelayState * TcpStream :=
  match fuel with
  | O => (state, sock)
  | S fuel =>
    match read_json (T:=RelayRequest) (ts_read sock) with
    | (Err _, rd) => (state, mkTcpStream rd (ts_write sock))
    | (Ok req, rd) =>
      let '(resp, state) := respond state (clock k) req in
      match write_json (ts_write sock) resp with
      | (Err _, w) => (state, mkTcpStream rd w)
      | (Ok _, w) => handle_conn fuel clock (S k) state (mkTcpStream rd w)
      end
    end
  end.

(** [parse_args], on the arguments after the program name. *)
Fixpoint parse_args_loop (args : list (list byte)) (bind db : list byte) :
    list byte * list byte :=
  match args with
  | [] => (bind, db)
  | a :: rest =>
    match rest with
    | v :: rest' =>
      if decide (a = text "--bind") then parse_args_loop rest' v db
      else if decide (a = text "--db") then parse_args_loop rest' bind v
      else parse_args_loop rest bind db
    | [] => parse_args_loop rest bind db
    end
  end.

Definition parse_args (args : list (list byte)) : list byte * list byte :=
  parse_args_loop (tail args) (text "127.0.0.1:7700") (text "td-relay.sqlite").

(** [main] up to the accept loop: the state, where it listens, what it prints.
    [version] is the package's, [bind_to] the outcome of binding, [now] the reading of
    [Instant::now()]. *)
Definition relay_main (args : list (list byte)) (version : list byte) (now : N)
    (bind_to : list byte → result io_error SocketAddr) :
    result RelayError (RelayState * SocketAddr * list byte) :=
  let '(bind, db_path) := parse_args args in
  let? store := EnvelopeStore_open db_path in
  let state := mkRelayState store (RateLimiter_new now DEFAULT_RATE) in
  let? local := map_err RelayIo (bind_to bind) in
  Ok (state, local,
    text "td-relay " ++ version ++ text " listening on " ++ to_string_uri (from_tcp_addr local) ++
    text " db=" ++ db_path).

(** ** Rate limiting *)

(** A sequence of calls: sender, the two clock readings, and the answer. *)
Fixpoint allow_all (self : RateLimiter) (calls : list (DeviceId * (N * N))) :
    list bool * RateLimiter :=
  match calls with
  | [] => ([], self)
  | (d, (t, t')) :: calls =>
    let '(b, self) := allow self d t t' in
    let '(bs, self) := allow_all self calls in (b :: bs, self)
  end.

(** How many calls of [d] were accepted. *)
Fixpoint accepted_of (d : DeviceId) (calls : list (DeviceId * (N * N))) (bs : list bool) : N :=
  match calls, bs with
  | (x, _) :: calls, b :: bs =>
    (if b && bool_decide (x = d) then 1 else 0) + accepted_of d calls bs
  | _, _ => 0
  end%N.

(** Readings that lie in [lo, hi) and do not go back. *)
Fixpoint clock_in (lo hi : N) (calls : list (DeviceId * (N * N))) : Prop :=
  match calls with
  | [] => True
  | (_, (t, t')) :: calls => (lo ≤ t ∧ t ≤ t' ∧ t' < hi)%N ∧ clock_in t' hi calls
  end.

Definition count_of (self : RateLimiter) (d : DeviceId) : N :=
  default 0%N (counts self !! DeviceId_0 d).

Definition window_over (self : RateLimiter) (now : N) : bool :=
  (RATE_WINDOW <=? now - window_start self)%N.

(** The limiter after a possible reset. *)
Definition rolled (self : RateLimiter) (now now' : N) : RateLimiter :=
  if window_over self now then mkRateLimiter now' ∅ (max_per_window self) else self.

Lemma allow_spec self d now now' :
  let l := rolled self now now' in
  (allow self d now now').1 = (count_of l d <? max_per_window self)%N ∧
  window_start (allow self d now now').2 = window_start l ∧
  max_per_window (allow self d now now').2 = max_per_window self ∧
  ∀ x, count_of (allow self d now now').2 x =
    (count_of l x + if bool_decide (d = x) && (allow self d now now').1 then 1 else 0)%N.
Proof.
  cbv zeta. unfold allow. fold (window_over self now). fold (rolled self now now').
  assert (max_per_window (rolled self now now') = max_per_window self) as Hm
    by (unfold rolled; by destruct (window_over self now)).
  generalize dependent (rolled self now now'). intros l Hm. rewrite Hm.
  unfold count_of. destruct (N.leb_spec (max_per_window self)
    (default 0%N (counts l !! DeviceId_0 d))) as [Hle|Hlt]; cbn.
  - split_and!; [symmetry; by apply N.ltb_ge|done|done|]. intros x. rewrite andb_false_r, N.add_0_r.
    destruct (decide (DeviceId_0 d = DeviceId_0 x)) as [He|Hne].
    + by rewrite He, lookup_insert_eq.
    + by rewrite lookup_insert_ne.
  - split_and!; [symmetry; by apply N.ltb_lt|done|done|]. intros x. rewrite andb_true_r.
    case_bool_decide as He.
    + subst x. by rewrite lookup_insert_eq.
    + rewrite lookup_insert_ne, N.add_0_r; [done|]. intros H. apply He. destruct d, x; cbn in *; congruence.
Qed.

(** Between resets, what is accepted is counted and stays below the maximum. *)
Lemma allow_all_no_reset d calls : ∀ self lo hi,
  (count_of self d ≤ max_per_window self)%N → clock_in lo hi calls →
  (hi ≤ window_start self + RATE_WINDOW)%N →
  (accepted_of d calls (allow_all self calls).1 ≤ max_per_window self - count_of self d)%N.
Proof.
  induction calls as [|[x [t t']] calls IH]; intros self lo hi Hc Hcl Hhi; cbn [allow_all]; [cbn; lia|].
  destruct Hcl as [(? & ? & ?) Hcl].
  pose proof (allow_spec self x t t') as (Hb & Hw & Hm & Hn); cbv zeta in *.
  unfold rolled in *. replace (window_over self t) with false in *
    by (symmetry; apply N.leb_gt; unfold RATE_WINDOW in *; lia).
  destruct (allow self x t t') as [b l]; cbn [fst snd] in *.
  specialize (IH l t' hi). rewrite Hw, Hm, (Hn d) in IH.
  destruct (allow_all l calls) as [bs l']; cbn [fst accepted_of] in *.
  assert (b = true → x = d → (count_of self d < max_per_window self)%N) as Hlt.
  { intros -> ->. symmetry in Hb. by apply N.ltb_lt in Hb. }
  destruct b; cbn [andb] in *; [|rewrite andb_false_r in IH; specialize (IH ltac:(lia) Hcl Hhi); lia].
  rewrite andb_true_r in IH. case_bool_decide as He.
  - specialize (Hlt eq_refl He). specialize (IH ltac:(lia) Hcl Hhi). lia.
  - specialize (IH ltac:(lia) Hcl Hhi). lia.
Qed.

(** In less than a window there is at most one reset. *)
Lemma allow_all_bound d calls : ∀ self lo hi,
  (count_of self d ≤ max_per_window self)%N → clock_in lo hi calls →
  (hi ≤ lo + RATE_WINDOW)%N →
  (accepted_of d calls (allow_all self calls).1 ≤
     (max_per_window self - count_of self d) + max_per_window self)%N.
Proof.
  induction calls as [|[x [t t']] calls IH]; intros self lo hi Hc Hcl Hhi; cbn [allow_all]; [cbn; lia|].
  pose proof Hcl as [(? & ? & ?) Hcl'].
  destruct (window_over self t) eqn:Hov.
  - set (l := mkRateLimiter t' ∅ (max_per_window self)).
    assert (allow self x t t' = allow l x t' t') as Heq.
    { unfold allow. fold (window_over self t). rewrite Hov. unfold l; cbn.
      replace (RATE_WINDOW <=? t' - t')%N with false; [done|].
      symmetry. apply N.leb_gt. unfold RATE_WINDOW. lia. }
    rewrite Heq. change (let '(b, s) := allow l x t' t' in let '(bs, s0) := allow_all s calls in
      (b :: bs, s0)) with (allow_all l ((x, (t', t')) :: calls)).
    assert (accepted_of d ((x, (t, t')) :: calls) (allow_all l ((x, (t', t')) :: calls)).1 =
      accepted_of d ((x, (t', t')) :: calls) (allow_all l ((x, (t', t')) :: calls)).1) as ->.
    { by destruct (allow_all l _) as [[|b bs] ?]. }
    pose proof (allow_all_no_reset d ((x, (t', t')) :: calls) l t' hi) as Hb.
    change (max_per_window l) with (max_per_window self) in Hb.
    change (count_of l d) with 0%N in Hb. cbn [window_start l] in Hb.
    assert ((0 ≤ max_per_window self)%N) by lia.
    specialize (Hb ltac:(lia)). cbn [clock_in] in Hb.
    specialize (Hb ltac:(split_and!; [lia|lia|lia|done]) ltac:(lia)). lia.
  - pose proof (allow_spec self x t t') as (Hb & Hw & Hm & Hn); cbv zeta in *.
    unfold rolled in *. rewrite Hov in *.
    destruct (allow self x t t') as [b l]; cbn [fst snd] in *.
    specialize (IH l t' hi). rewrite Hm, (Hn d) in IH.
    destruct (allow_all l calls) as [bs l']; cbn [fst accepted_of] in *.
    assert (b = true → x = d → (count_of self d < max_per_window self)%N) as Hlt.
    { intros -> ->. symmetry in Hb. by apply N.ltb_lt in Hb. }
    destruct b; cbn [andb] in *; [|rewrite andb_false_r in IH; specialize (IH ltac:(lia) Hcl' ltac:(lia)); lia].
    rewrite andb_true_r in IH. case_bool_decide as He.
    + specialize (Hlt eq_refl He). specialize (IH ltac:(lia) Hcl' ltac:(lia)). lia.
    + specialize (IH ltac:(lia) Hcl' ltac:(lia)). lia.
Qed.

(** The counts never exceed the maximum. *)
Definition limiter_wf (self : RateLimiter) : Prop :=
  ∀ d, (count_of self d ≤ max_per_window self)%N.

Lemma allow_wf self d now now' : limiter_wf self → limiter_wf (allow self d now now').2.
Proof.
  intros Hw x. pose proof (allow_spec self d now now') as (Hb & _ & -> & ->); cbv zeta in *.
  assert ((count_of (rolled self now now') x ≤ max_per_window self)%N) as Hr.
  { unfold rolled. destruct (window_over self now); [|apply Hw]. unfold count_of; cbn.
    rewrite lookup_empty. cbn. lia. }
  case_bool_decide as He; cbn [andb]; [subst x|lia].
  destruct (allow self d now now').1; [|lia]. symmetry in Hb. apply N.ltb_lt in Hb. lia.
Qed.

(** ** The stored envelopes *)

Context {LL : RelayEnvLaws}.

(** The envelope carries its own content id. *)
Definition authentic (env : RelayEnvelope) : Prop :=
  re_envelope_id (RelayEnvelope_new (re_recipient_device env) (re_sender_device env)
    (re_room_id env) (re_ciphertext env) (re_ts_ms env)) = re_envelope_id env.

Definition small (env : RelayEnvelope) : Prop :=
  (N.of_nat (length (re_ciphertext env)) ≤ MAX_CIPHERTEXT)%N.

Definition env_row (env : RelayEnvelope) : EnvRow :=
  {| er_recipient := array_bytes (DeviceId_0 (re_recipient_device env));
     er_sender := array_bytes (DeviceId_0 (re_sender_device env));
     er_room := (λ r, array_bytes (RoomId_0 r)) <$> re_room_id env;
     er_ciphertext := re_ciphertext env;
     er_ts := u64_as_i64 (re_ts_ms env) |}.

(** The abstract state of the store: authentic envelopes under their ids. *)
Definition mailbox_wf (E : gmap bytes32 RelayEnvelope) : Prop :=
  map_Forall (λ id env, re_envelope_id env = id ∧ authentic env ∧ small env ∧
    U64 (re_ts_ms env)) E.

Definition mailbox (s : EnvelopeStore) (E : gmap bytes32 RelayEnvelope) : Prop :=
  mailbox_wf E ∧ env_rows (es_conn s) = kmap array_bytes (env_row <$> E).

#[local] Instance bytes_inj : Inj (=) (=) (@array_bytes 32) := array_bytes_inj 32.

Lemma env_table_lookup (E : gmap bytes32 RelayEnvelope) id :
  (kmap array_bytes (env_row <$> E) : gmap (list byte) EnvRow) !! array_bytes id =
    env_row <$> E !! id.
Proof. by rewrite (lookup_kmap array_bytes), lookup_fmap. Qed.

Lemma row_envelope_row env : U64 (re_ts_ms env) →
  row_envelope (array_bytes (re_envelope_id env), env_row env) = Some env.
Proof.
  intros HU. unfold row_envelope, env_row; cbn. rewrite !try_into_array_bytes; cbn.
  rewrite u64_i64_roundtrip by done. destruct env as [? [?] [?] room ? ?]; cbn.
  destruct room as [[r]|]; cbn; [|done]. by rewrite try_into_array_bytes.
Qed.

(** The outcomes of [put]. *)
Lemma EnvelopeStore_put_spec s E env : mailbox s E → U64 (re_ts_ms env) →
  let '(r, s') := EnvelopeStore_put s env in
  match r with
  | Ok true => small env ∧ authentic env ∧ E !! re_envelope_id env = None ∧
      mailbox s' (<[re_envelope_id env := env]> E)
  | Ok false => small env ∧ authentic env ∧ is_Some (E !! re_envelope_id env) ∧ mailbox s' E
  | Err TooLarge => ¬ small env ∧ s' = s
  | Err (BadRequest _) => small env ∧ ¬ authentic env ∧ s' = s
  | Err (RelayDb _) => small env ∧ authentic env ∧ mailbox s' E
  | Err _ => False
  end.
Proof.
  intros [Hwf Hc] HU. unfold EnvelopeStore_put.
  destruct (N.ltb_spec MAX_CIPHERTEXT (N.of_nat (length (re_ciphertext env)))) as [Hl|Hl].
  { unfold small. split; [lia|done]. }
  case_decide as Hd; [done|].
  pose proof (env_insert_spec (es_conn s) (array_bytes (re_envelope_id env)) (env_row env)) as Hi.
  fold (env_row env). destruct (env_insert _ _ _) as [[n|e] c]; cbn [map_err mbind result_bind].
  - rewrite Hc, env_table_lookup in Hi.
    destruct (E !! re_envelope_id env) as [e|] eqn:He; cbn in Hi; destruct Hi as [-> Hi]; cbn.
    + by split_and!.
    + split_and!; try done. split.
      * apply map_Forall_insert_2; [|done]. done.
      * cbn. by rewrite Hi, fmap_insert, (kmap_insert array_bytes).
  - split_and!; try done. split; [done|]. by rewrite <-Hc.
Qed.

(** What the rows of a successful fetch become. *)
Lemma fetch_rows_ok rs out l : fetch_rows rs out = Ok l →
  ∃ rows, rs = Ok <$> rows ∧ l = out ++ omap row_envelope rows.
Proof.
  revert out. induction rs as [|r rs IH]; intros out H; cbn in H.
  - inv_ok. exists []. by rewrite app_nil_r.
  - destruct r as [row|e]; [|done]. cbn in H.
    destruct (row_envelope row) as [env|] eqn:Hr; apply IH in H as (rows & -> & ->);
      exists (row :: rows); cbn; rewrite Hr; [|done]. by rewrite <-app_assoc.
Qed.

(** A row of the table of [E] is the row of an envelope of [E]. *)
Definition as_row (env : RelayEnvelope) : list byte * EnvRow :=
  (array_bytes (re_envelope_id env), env_row env).

Lemma table_rows (E : gmap bytes32 RelayEnvelope) p : mailbox_wf E →
  p ∈ map_to_list (kmap array_bytes (env_row <$> E) : gmap (list byte) EnvRow) ↔
  ∃ env, p = as_row env ∧ E !! re_envelope_id env = Some env.
Proof.
  intros Hwf. destruct p as [k row]. rewrite elem_of_map_to_list, (lookup_kmap_Some array_bytes).
  setoid_rewrite lookup_fmap_Some. split.
  - intros (id & -> & env & <- & He). exists env.
    destruct (Hwf _ _ He) as [<- _]. done.
  - intros (env & [= -> ->] & He). eauto.
Qed.

Lemma rows_of_envelopes (E : gmap bytes32 RelayEnvelope) (rows : list (list byte * EnvRow)) :
  (∀ p, p ∈ rows → ∃ env, p = as_row env ∧ E !! re_envelope_id env = Some env) →
  ∃ envs, rows = as_row <$> envs ∧ Forall (λ env, E !! re_envelope_id env = Some env) envs.
Proof.
  induction rows as [|p rows IH]; intros H; [by exists []|].
  destruct (H p ltac:(by left)) as (env & -> & He).
  destruct IH as (envs & -> & Hf); [intros q Hq; apply H; by right|].
  exists (env :: envs). split; [done|by constructor].
Qed.

Lemma omap_as_row (E : gmap bytes32 RelayEnvelope) envs : mailbox_wf E →
  Forall (λ env, E !! re_envelope_id env = Some env) envs →
  omap row_envelope (as_row <$> envs) = envs.
Proof.
  intros Hwf. induction 1 as [|env envs He _ IH]; [done|].
  destruct (Hwf _ _ He) as (_ & _ & _ & HU).
  cbn [omap list_omap fmap list_fmap]. unfold as_row at 1.
  rewrite row_envelope_row by done. f_equal. exact IH.
Qed.

Lemma StronglySorted_fmap {A B} (f : A → B) (R : B → B → Prop) l :
  StronglySorted R (f <$> l) → StronglySorted (λ x y, R (f x) (f y)) l.
Proof.
  induction l as [|x l IH]; cbn; intros H; constructor; apply StronglySorted_inv in H as [H1 H2];
    [by apply IH|]. by rewrite list.Forall_fmap in H2.
Qed.

Lemma StronglySorted_take {A} (R : A → A → Prop) k l :
  StronglySorted R l → StronglySorted R (take k l).
Proof.
  intros H. revert k. induction H as [|x l Hl IH Hx]; intros [|k]; cbn; constructor; auto.
  by apply Forall_take.
Qed.

Lemma StronglySorted_weaken_elem {A} (R R' : A → A → Prop) l :
  StronglySorted R l → (∀ x y, x ∈ l → y ∈ l → R x y → R' x y) → StronglySorted R' l.
Proof.
  induction 1 as [|x l Hl IH Hx]; intros HR; constructor; [apply IH; set_solver|].
  rewrite list.Forall_forall in *. set_solver.
Qed.

(** An envelope that a fetch from [since_ts] promises: stored for the recipient and not
    older. *)
Definition due (E : gmap bytes32 RelayEnvelope) (recipient : DeviceId) (since_ts : N)
    (env : RelayEnvelope) : Prop :=
  E !! re_envelope_id env = Some env ∧ re_recipient_device env = recipient ∧
  (since_ts ≤ re_ts_ms env)%N.

(** What the rows are selected by: the times as the signed column has them. *)
Definition selected (E : gmap bytes32 RelayEnvelope) (recipient : DeviceId) (since_ts : N)
    (env : RelayEnvelope) : Prop :=
  E !! re_envelope_id env = Some env ∧ re_recipient_device env = recipient ∧
  (u64_as_i64 since_ts ≤ u64_as_i64 (re_ts_ms env))%Z.

(** The two agree on the times before [2 ^ 63]; no later one is selected. *)
Lemma selected_due s E recipient since_ts env : mailbox s E → (since_ts < 2 ^ 63)%N →
  selected E recipient since_ts env ↔ due E recipient since_ts env ∧ (re_ts_ms env < 2 ^ 63)%N.
Proof.
  intros [Hwf _] Hs. unfold selected, due. rewrite (u64_as_i64_small since_ts) by done. split.
  - intros (He & Hr & Ht). destruct (Hwf _ _ He) as (_ & _ & _ & HU).
    destruct (decide (re_ts_ms env < 2 ^ 63)%N) as [Hlt|Hge].
    + rewrite u64_as_i64_small in Ht by done. split_and!; [done|done|lia|done].
    + pose proof (u64_as_i64_neg (re_ts_ms env) HU). lia.
  - intros [(He & Hr & Ht) Hlt]. rewrite u64_as_i64_small by done. split_and!; [done|done|lia].
Qed.

Lemma as_row_inj env env' : U64 (re_ts_ms env) → U64 (re_ts_ms env') →
  as_row env = as_row env' → env = env'.
Proof.
  intros H H' He. apply row_envelope_row in H, H'. unfold as_row in He. congruence.
Qed.

Lemma EnvelopeStore_fetch_spec s E recipient since_ts limit l : mailbox s E →
  EnvelopeStore_fetch s recipient since_ts limit = Ok l →
  (∀ env, env ∈ l → selected E recipient since_ts env) ∧ NoDup l ∧
  StronglySorted (λ x y, u64_as_i64 (re_ts_ms x) ≤ u64_as_i64 (re_ts_ms y))%Z l ∧
  (N.of_nat (length l) ≤ clamp_limit limit)%N ∧
  ((N.of_nat (length l) < clamp_limit limit)%N → ∀ env, selected E recipient since_ts env → env ∈ l) ∧
  ∀ env x, selected E recipient since_ts env → env ∉ l → x ∈ l →
    (u64_as_i64 (re_ts_ms x) ≤ u64_as_i64 (re_ts_ms env))%Z.
Proof.
  intros [Hwf Hc] H. unfold EnvelopeStore_fetch in H.
  destruct (env_select _ _ _ _) as [rs|e] eqn:Hs; [|done]. cbn in H.
  apply fetch_rows_ok in H as (rows & Hrs & ->). cbn [app].
  destruct (env_select_spec _ _ _ _ _ _ Hs Hrs) as (all & Hall & Hsort & ->).
  rewrite Hc in Hall. clear Hs Hrs. set (k := Z.to_nat (Z.of_N (clamp_limit limit))).
  assert (N.of_nat k = clamp_limit limit) as Hk by lia. clearbody k.
  destruct (rows_of_envelopes E all) as (envs & -> & HE).
  { intros p Hp. rewrite Hall, list_elem_of_filter in Hp. by apply (table_rows E), Hp. }
  rewrite <-fmap_take in *. rewrite (omap_as_row E) by (done || by apply Forall_take).
  assert (∀ env, env ∈ envs ↔ selected E recipient since_ts env) as Hdue.
  { intros env. assert (as_row env ∈ as_row <$> envs ↔ (er_recipient (env_row env) =
      array_bytes (DeviceId_0 recipient) ∧ (u64_as_i64 since_ts ≤ er_ts (env_row env))%Z) ∧
      as_row env ∈ map_to_list (kmap array_bytes (env_row <$> E) : gmap (list byte) EnvRow)) as Hin
      by (by rewrite Hall, list_elem_of_filter).
    rewrite (table_rows E) in Hin by done. unfold selected. split.
    - intros He. pose proof (list_elem_of_fmap_2 as_row _ _ He) as He'.
      apply Hin in He' as [[Hr Ht] _]. rewrite list.Forall_forall in HE. split_and!; auto.
      destruct env as [? [r] ? ? ? ?], recipient; cbn in *. by apply array_ext in Hr as ->.
    - intros (He & <- & Ht). assert (as_row env ∈ as_row <$> envs) as Hx by (apply Hin; eauto).
      apply list_elem_of_fmap in Hx as (env' & Heq & He').
      rewrite list.Forall_forall in HE. specialize (HE _ He').
      apply as_row_inj in Heq as <-; [done|apply (Hwf _ _ He)|apply (Hwf _ _ HE)]. }
  split_and!.
  - intros env He. apply Hdue. rewrite <-(take_drop k envs). apply elem_of_app. by left.
  - assert (NoDup envs) as Hn.
    { apply (NoDup_fmap_1 as_row). rewrite Hall. apply list.NoDup_filter, NoDup_map_to_list. }
    rewrite <-(take_drop k envs) in Hn. by apply list.NoDup_app in Hn as [? _].
  - apply StronglySorted_take. by apply StronglySorted_fmap in Hsort.
  - rewrite length_take. lia.
  - intros Hlt env He. apply Hdue in He. rewrite take_ge; [done|].
    rewrite length_take in Hlt. lia.
  - intros env x He Hout Hx. apply Hdue in He. apply StronglySorted_fmap in Hsort.
    rewrite <-(take_drop k envs) in He, Hsort. apply elem_of_app in He as [?|He]; [done|].
    exact (StronglySorted_app_1_elem_of _ _ _ x env Hsort Hx He).
Qed.

(** Deletion of one id by its recipient. *)
Definition drop_one (E : gmap bytes32 RelayEnvelope) (recipient : DeviceId) (id : bytes32) :
    gmap bytes32 RelayEnvelope :=
  if decide (re_recipient_device <$> E !! id = Some recipient) then delete id E else E.

Lemma env_delete_mailbox c E recipient id : mailbox (mkEnvelopeStore c) E →
  let '(r, c') := env_delete c (array_bytes id) (array_bytes (DeviceId_0 recipient)) in
  match r with
  | Ok n => n = N.of_nat (size E - size (drop_one E recipient id)) ∧
      mailbox (mkEnvelopeStore c') (drop_one E recipient id)
  | Err _ => mailbox (mkEnvelopeStore c') E
  end.
Proof.
  intros [Hwf Hc]; cbn in Hc.
  pose proof (env_delete_spec c (array_bytes id) (array_bytes (DeviceId_0 recipient))) as Hd.
  destruct (env_delete c _ _) as [[n|e] c'].
  2: { split; [done|]. cbn. by rewrite Hd. }
  rewrite Hc, env_table_lookup in Hd. unfold drop_one.
  destruct (E !! id) as [env|] eqn:He; cbn in *.
  - assert (Some (array_bytes (DeviceId_0 (re_recipient_device env))) =
      Some (array_bytes (DeviceId_0 recipient)) ↔ Some (re_recipient_device env) = Some recipient) as Hiff.
    { split; intros [= H]; [|by rewrite H]. apply array_ext in H.
      destruct (re_recipient_device env), recipient; cbn in *; congruence. }
    rewrite (decide_ext _ _ _ _ Hiff) in Hd.
    case_decide; destruct Hd as [-> Hd].
    + split.
      * rewrite map_size_delete, He. assert (size E ≠ 0); [|cbn; lia].
        apply map_size_ne_0_lookup. eauto.
      * split; [by apply map_Forall_delete|]. cbn.
        by rewrite Hd, fmap_delete, (kmap_delete array_bytes).
    + split; [by rewrite Nat.sub_diag|]. split; [done|]. cbn. by rewrite Hd.
  - rewrite decide_False in Hd by done. destruct Hd as [-> Hd]. rewrite decide_False by done.
    split; [by rewrite Nat.sub_diag|]. split; [done|]. cbn. by rewrite Hd.
Qed.

Lemma drop_one_lookup E recipient id k e :
  drop_one E recipient id !! k = Some e ↔
  E !! k = Some e ∧ (k = id → re_recipient_device e ≠ recipient).
Proof.
  unfold drop_one. case_decide as H.
  - rewrite lookup_delete_Some. split.
    + intros [Hne He]. split; [done|]. by intros ->.
    + intros [He Hr]. split; [|done]. intros ->. rewrite He in H. cbn in H. injection H. naive_solver.
  - split; [|by intros [? _]]. intros He. split; [done|]. intros -> Hr. apply H. rewrite He; cbn. congruence.
Qed.

(** What [ack] leaves: everything but the acknowledged ids of the recipient. *)
Lemma ack_loop_spec recipient ids : ∀ c E n, mailbox (mkEnvelopeStore c) E →
  let '(r, c') := ack_loop c recipient ids n in
  ∃ E', mailbox (mkEnvelopeStore c') E' ∧ E' ⊆ E ∧
    (∀ id e, E !! id = Some e → id ∉ ids ∨ re_recipient_device e ≠ recipient →
       E' !! id = Some e) ∧
    match r with
    | Ok m => (∀ id e, E' !! id = Some e → id ∈ ids → re_recipient_device e ≠ recipient) ∧
        m = (n + N.of_nat (size E - size E'))%N
    | Err _ => True
    end.
Proof.
  induction ids as [|id ids IH]; intros c E n HE; cbn.
  - exists E. split_and!; try done.
    + by intros id e _ ?%not_elem_of_nil.
    + rewrite Nat.sub_diag. lia.
  - pose proof (env_delete_mailbox c E recipient id HE) as Hd.
    destruct (env_delete c _ _) as [[m|e] c1].
    2: { exists E. by split_and!. }
    destruct Hd as [-> HE1].
    assert (drop_one E recipient id ⊆ E) as Hsub.
    { apply map_subseteq_spec. intros k e He. by apply drop_one_lookup in He as [? _]. }
    pose proof (map_subseteq_size _ _ Hsub) as Hsize.
    specialize (IH c1 _ (n + N.of_nat (size E - size (drop_one E recipient id)))%N HE1).
    destruct (ack_loop c1 recipient ids _) as [r c2].
    destruct IH as (E' & HE' & Hsub' & Hkeep & Hr). exists E'.
    split_and!; [done|by etrans| |].
    + intros k e He Hk. rewrite not_elem_of_cons in Hk. apply Hkeep; [|tauto].
      apply drop_one_lookup. split; [done|]. naive_solver.
    + destruct r as [m|]; [|done]. destruct Hr as [Hgone ->]. split.
      * intros k e He [->|Hk]%elem_of_cons; [|by eapply Hgone].
        assert (drop_one E recipient id !! id = Some e) as Hx by (by eapply lookup_weaken).
        apply drop_one_lookup in Hx as [_ Hx]. by apply Hx.
      * pose proof (map_subseteq_size _ _ Hsub'). lia.
Qed.

(** ** Requests *)

(** [Put]'s timestamp is a [u64]. *)
Definition req_ok (req : RelayRequest) : Prop :=
  match req with Put env => U64 (re_ts_ms env) | _ => True end.

(** [req] acknowledges the envelope [env]. *)
Definition acks (req : RelayRequest) (env : RelayEnvelope) : Prop :=
  match req with
  | Ack recipient ids => recipient = re_recipient_device env ∧ re_envelope_id env ∈ ids
  | _ => False
  end.

(** The requests of a session, one after the other. *)
Fixpoint handle_all (state : RelayState) (reqs : list ((N * N) * RelayRequest)) : RelayState :=
  match reqs with
  | [] => state
  | (clock, req) :: reqs => handle_all (handle state clock req).2 reqs
  end.

Lemma handle_mailbox state clock req E : mailbox (rl_store state) E → req_ok req →
  ∃ E', mailbox (rl_store (handle state clock req).2) E' ∧
    ∀ id env, E !! id = Some env → E' !! id = Some env ∨ acks req env.
Proof.
  intros HE Hreq. destruct req as [env|recipient since_ts limit|recipient ids]; cbn.
  - destruct (allow _ _ _ _) as [[|] limiter]; cbn; [|by exists E; auto].
    pose proof (EnvelopeStore_put_spec _ E env HE Hreq) as Hp.
    destruct (EnvelopeStore_put _ _) as [[[|]|[e|e| | | |m]] s]; cbn.
    + destruct Hp as (_ & _ & Hn & Hm). exists (<[re_envelope_id env := env]> E).
      split; [done|]. intros id e He. left. rewrite lookup_insert_ne; [done|]. intros <-. congruence.
    + exists E. destruct Hp as (_ & _ & _ & ?). auto.
    + done.
    + exists E. destruct Hp as (_ & _ & ?). auto.
    + done.
    + done.
    + exists E. destruct Hp as [_ ->]. auto.
    + exists E. destruct Hp as (_ & _ & ->). auto.
  - exists E. auto.
  - unfold EnvelopeStore_ack. destruct (rl_store state) as [c] eqn:Hc; cbn in *.
    pose proof (ack_loop_spec recipient ids c E 0 HE) as Ha.
    destruct (ack_loop _ _ _ _) as [r c']. destruct Ha as (E' & HE' & _ & Hkeep & _).
    exists E'. cbn. split; [done|]. intros id e He.
    destruct HE as [Hwf _]. destruct (Hwf _ _ He) as [<- _].
    destruct (decide (re_envelope_id e ∈ ids)); [|by left; apply Hkeep; auto].
    destruct (decide (re_recipient_device e = recipient)) as [<-|]; [by right|].
    left. apply Hkeep; auto.
Qed.

Lemma handle_limiter state clock req : limiter_wf (rl_limiter state) →
  limiter_wf (rl_limiter (handle state clock req).2).
Proof.
  intros Hw. destruct req as [env|r s l|r ids]; cbn; [|done|].
  - pose proof (allow_wf _ (re_sender_device env) clock.1 clock.2 Hw).
    destruct (allow _ _ _ _) as [[|] limiter]; cbn; [|done].
    by destruct (EnvelopeStore_put _ _).
  - by destruct (EnvelopeStore_ack _ _ _).
Qed.

(** The responses to a list of requests. *)
Fixpoint respond_all (state : RelayState) (clock : nat → N * N) (k : nat)
    (reqs : list RelayRequest) : list RelayResponse * RelayState :=
  match reqs with
  | [] => ([], state)
  | req :: reqs =>
    let '(resp, state) := respond state (clock k) req in
    let '(resps, state) := respond_all state clock (S k) reqs in (resp :: resps, state)
  end.

(** ** Theorems *)

(** C37: the rate limiter: in any stretch of time no longer than the window, on a
    clock that does not go back, at most twice the maximum of one sender's puts
    are accepted (a fixed window may reset once); each answer is exactly whether
    the sender's count is below the maximum, and a sender's calls do not change
    the count of another. *)
Theorem rate_limit_bound (self : RateLimiter) (d : DeviceId)
    (calls : list (DeviceId * (N * N))) (lo hi : N) :
  limiter_wf self → clock_in lo hi calls → (hi ≤ lo + RATE_WINDOW)%N →
  (accepted_of d calls (allow_all self calls).1 ≤ 2 * max_per_window self)%N ∧
  (∀ x now now', (allow self x now now').1 =
     (count_of (rolled self now now') x <? max_per_window self)%N) ∧
  (∀ x now now', x ≠ d → window_over self now = false →
     count_of (allow self x now now').2 d = count_of self d).
Proof.
  intros Hw Hc Hhi. split_and!.
  - pose proof (allow_all_bound d calls self lo hi (Hw d) Hc Hhi). lia.
  - intros x now now'. apply allow_spec.
  - intros x now now' Hne Hov. destruct (allow_spec self x now now') as (_ & _ & _ & ->).
    rewrite bool_decide_eq_false_2 by done. unfold rolled. rewrite Hov. cbn. lia.
Qed.

(** C34: [put] refines insertion into the mailbox map: it stores exactly the
    authentic envelopes of at most [MAX_CIPHERTEXT] bytes whose id is new, never
    overwrites, and every refusal leaves the mailbox as it was. *)
Theorem relay_put_refines (s : EnvelopeStore) (E : gmap bytes32 RelayEnvelope)
    (env : RelayEnvelope) :
  mailbox s E → U64 (re_ts_ms env) →
  let '(r, s') := EnvelopeStore_put s env in
  match r with
  | Ok true => small env ∧ authentic env ∧ E !! re_envelope_id env = None ∧
      mailbox s' (<[re_envelope_id env := env]> E)
  | Ok false => small env ∧ authentic env ∧ is_Some (E !! re_envelope_id env) ∧ mailbox s' E
  | Err TooLarge => ¬ small env ∧ s' = s
  | Err (BadRequest _) => small env ∧ ¬ authentic env ∧ s' = s
  | Err (RelayDb _) => small env ∧ authentic env ∧ mailbox s' E
  | Err _ => False
  end.
Proof. apply EnvelopeStore_put_spec. Qed.

(** C35: [fetch] is sound, ordered, bounded and complete.  Asked from a time before
    [2 ^ 63], it returns only stored envelopes addressed to the recipient and not older
    than [since_ts], each once, in time order, at most 64; of the envelopes dated before
    [2 ^ 63] that are due it leaves out only newer ones, and none when it returns fewer
    than the clamped limit; those dated later, which the signed column takes for negative
    times, it never returns. *)
Theorem relay_fetch_exact (s : EnvelopeStore) (E : gmap bytes32 RelayEnvelope)
    (recipient : DeviceId) (since_ts limit : N) (l : list RelayEnvelope) :
  mailbox s E → (since_ts < 2 ^ 63)%N → EnvelopeStore_fetch s recipient since_ts limit = Ok l →
  (∀ env, env ∈ l → due E recipient since_ts env ∧ (re_ts_ms env < 2 ^ 63)%N) ∧ NoDup l ∧
  StronglySorted (λ x y, re_ts_ms x ≤ re_ts_ms y)%N l ∧
  (N.of_nat (length l) ≤ clamp_limit limit ≤ 64)%N ∧
  ∀ env, due E recipient since_ts env → (re_ts_ms env < 2 ^ 63)%N → env ∉ l →
    N.of_nat (length l) = clamp_limit limit ∧ ∀ x, x ∈ l → (re_ts_ms x ≤ re_ts_ms env)%N.
Proof.
  intros HE Hs Hl. destruct (EnvelopeStore_fetch_spec _ _ _ _ _ _ HE Hl) as (Hin & Hnd & Hsort & Hlen & Hall & Hold).
  assert (∀ env, env ∈ l → due E recipient since_ts env ∧ (re_ts_ms env < 2 ^ 63)%N) as Hdue
    by (intros env Henv; by eapply (selected_due s), Hin).
  split_and!; [done|done| |done|unfold clamp_limit, DEFAULT_FETCH_LIMIT; lia|].
  - eapply StronglySorted_weaken_elem; [exact Hsort|]. intros x y Hx%Hdue Hy%Hdue Hle. cbn beta in *.
    rewrite !u64_as_i64_small in Hle by tauto. lia.
  - intros env Hd Hlt Hout. assert (selected E recipient since_ts env) as Hsel by (by apply (selected_due s)).
    split.
    + destruct (decide (N.of_nat (length l) < clamp_limit limit)%N); [|lia]. by destruct Hout; apply Hall.
    + intros x Hx. pose proof (Hold env x Hsel Hout Hx) as Hle. apply Hdue in Hx as [_ Hx].
      rewrite !u64_as_i64_small in Hle by done. lia.
Qed.

(** [ack] by a recipient removes exactly its own envelopes among the listed
    ids and counts them; nobody else's envelope can be removed, and a failure
    part way has removed only some of them. *)
Lemma relay_ack_exact (s : EnvelopeStore) (E : gmap bytes32 RelayEnvelope)
    (recipient : DeviceId) (ids : list bytes32) :
  mailbox s E →
  let '(r, s') := EnvelopeStore_ack s recipient ids in
  ∃ E', mailbox s' E' ∧ E' ⊆ E ∧
    (∀ id e, E !! id = Some e → id ∉ ids ∨ re_recipient_device e ≠ recipient →
       E' !! id = Some e) ∧
    match r with
    | Ok n => (∀ id e, E' !! id = Some e → id ∈ ids → re_recipient_device e ≠ recipient) ∧
        n = N.of_nat (size E - size E')
    | Err _ => True
    end.
Proof.
  intros HE. destruct s as [c]. unfold EnvelopeStore_ack; cbn.
  pose proof (ack_loop_spec recipient ids c E 0 HE) as Ha.
  by destruct (ack_loop c recipient ids 0) as [r c'].
Qed.

(** C36: store and forward: an envelope in the mailbox survives any requests from
    anybody (puts, fetches, foreign acknowledgements, failing ones) until its
    own recipient acknowledges it, and the limiter's counts stay in bounds. *)
Theorem relay_keeps_envelopes (state : RelayState) (reqs : list ((N * N) * RelayRequest))
    (E : gmap bytes32 RelayEnvelope) (env : RelayEnvelope) :
  mailbox (rl_store state) E → limiter_wf (rl_limiter state) →
  Forall (λ p, req_ok p.2) reqs →
  E !! re_envelope_id env = Some env → Forall (λ p, ¬ acks p.2 env) reqs →
  ∃ E', mailbox (rl_store (handle_all state reqs)) E' ∧
    E' !! re_envelope_id env = Some env ∧ limiter_wf (rl_limiter (handle_all state reqs)).
Proof.
  intros HE Hl Hok He Hno. revert state E HE Hl He.
  induction reqs as [|[clock req] reqs IH]; intros state E HE Hl He; cbn; [by exists E|].
  inversion Hok; inversion Hno; subst.
  destruct (handle_mailbox state clock req E) as (E' & HE' & Hkeep); [done..|].
  destruct (Hkeep _ _ He) as [He'|]; [|done].
  apply (IH ltac:(done) ltac:(done) _ E'); [done|by apply handle_limiter|done].
Qed.

(** A connection serves its requests in order: on a stream of request
    frames, [handle_conn] writes the frames of the responses one for one and
    leaves the state the requests produce, when every response fits a frame. *)
Lemma relay_session (state : RelayState) (clock : nat → N * N) (reqs : list RelayRequest) :
  Forall (λ q, fits (to_vec q)) reqs →
  Forall (λ r, fits (to_vec r)) (respond_all state clock 0 reqs).1 →
  handle_conn (S (length (concat (frame ∘ to_vec <$> reqs)))) clock 0 state
    (mkTcpStream (mkReader (concat (frame ∘ to_vec <$> reqs)) None) (mkWriter [] None)) =
  ((respond_all state clock 0 reqs).2,
   mkTcpStream (mkReader [] None)
     (mkWriter (concat (frame ∘ to_vec <$> (respond_all state clock 0 reqs).1)) None)).
Proof.
  intros Hq Hr.
  assert (∀ fuel k st w, length reqs < fuel →
    Forall (λ r, fits (to_vec r)) (respond_all st clock k reqs).1 →
    handle_conn fuel clock k st (mkTcpStream (mkReader (concat (frame ∘ to_vec <$> reqs)) None)
      (mkWriter w None)) =
    ((respond_all st clock k reqs).2, mkTcpStream (mkReader [] None)
      (mkWriter (w ++ concat (frame ∘ to_vec <$> (respond_all st clock k reqs).1)) None))) as Hgen.
  { clear Hr. induction Hq as [|req reqs Hreq _ IH]; intros fuel k st w Hf Hr.
    - destruct fuel as [|fuel]; [cbn in Hf; lia|]. cbn. by rewrite app_nil_r.
    - destruct fuel as [|fuel]; [cbn in Hf; lia|].
      change (concat (frame ∘ to_vec <$> req :: reqs)) with
        (frame (to_vec req) ++ concat (frame ∘ to_vec <$> reqs)).
      cbn [handle_conn respond_all ts_read ts_write] in *.
      rewrite read_json_frame, from_slice_to_vec by done. cbn [ok_or].
      destruct (respond st (clock k) req) as [resp st'].
      destruct (respond_all st' clock (S k) reqs) as [resps st''] eqn:Hall; cbn [fst snd] in *.
      inversion Hr; subst. rewrite write_json_frame by done.
      rewrite IH; rewrite ?Hall; [|cbn in Hf; lia|done]. cbn [fst snd].
      by rewrite <-app_assoc. }
  rewrite Hgen; [done| |done].
  assert (∀ l : list RelayRequest, length l ≤ length (concat (frame ∘ to_vec <$> l))) as Hlen.
  { induction l as [|q l IH]; [done|].
    change (concat (frame ∘ to_vec <$> q :: l)) with (frame (to_vec q) ++ concat (frame ∘ to_vec <$> l)).
    rewrite length_app. unfold frame at 1. rewrite length_app, length_be_bytes. cbn [length]. lia. }
  pose proof (Hlen reqs). lia.
Qed.

(** A response above the frame limit ends the connection: nothing of it is
    written, and the requests that follow are not served. *)
Lemma oversized_response_closes (state : RelayState) (clock : nat → N * N) (fuel : nat)
    (req : RelayRequest) (rest : list byte) :
  fits (to_vec req) →
  (MAX_FRAME < N.of_nat (length (to_vec (respond state (clock 0%nat) req).1)) < 2 ^ 32)%N →
  handle_conn (S fuel) clock 0 state
    (mkTcpStream (mkReader (frame (to_vec req) ++ rest) None) (mkWriter [] None)) =
  ((respond state (clock 0) req).2, mkTcpStream (mkReader rest None) (mkWriter [] None)).
Proof.
  intros Hq [Hlo Hhi]. cbn [handle_conn ts_read ts_write].
  rewrite read_json_frame, from_slice_to_vec by done. cbn [ok_or].
  destruct (respond state (clock 0) req) as [resp st]; cbn [fst snd] in *.
  unfold write_json. rewrite wrap_small by done. by apply N.ltb_lt in Hlo as ->.
Qed.

(** An envelope dated [2 ^ 63] or later is stored but no fetch from a time
    before [2 ^ 63] ever returns it: the timestamp column is signed. *)
Lemma late_timestamp_unreachable (s : EnvelopeStore) (E : gmap bytes32 RelayEnvelope)
    (recipient : DeviceId) (since_ts limit : N) (l : list RelayEnvelope) (env : RelayEnvelope) :
  mailbox s E → E !! re_envelope_id env = Some env →
  (2 ^ 63 ≤ re_ts_ms env)%N → (since_ts < 2 ^ 63)%N →
  EnvelopeStore_fetch s recipient since_ts limit = Ok l → env ∉ l.
Proof.
  intros HE He Hts Hsince Hl Hin.
  destruct (EnvelopeStore_fetch_spec _ _ _ _ _ _ HE Hl) as (Hsel & _).
  apply Hsel, (selected_due s) in Hin as [_ Hin]; [lia|done|done].
Qed.

(** A fetch from a time of [2 ^ 63] or later returns older envelopes: when it returns
    fewer than the limit, every one for the recipient dated before [2 ^ 63]. *)
Lemma late_since_returns_older (s : EnvelopeStore) (E : gmap bytes32 RelayEnvelope)
    (recipient : DeviceId) (since_ts limit : N) (l : list RelayEnvelope) (env : RelayEnvelope) :
  mailbox s E → U64 since_ts → (2 ^ 63 ≤ since_ts)%N →
  EnvelopeStore_fetch s recipient since_ts limit = Ok l → (N.of_nat (length l) < clamp_limit limit)%N →
  E !! re_envelope_id env = Some env → re_recipient_device env = recipient →
  (re_ts_ms env < 2 ^ 63)%N → env ∈ l.
Proof.
  intros HE HU Hs Hl Hlen He Hr Ht.
  destruct (EnvelopeStore_fetch_spec _ _ _ _ _ _ HE Hl) as (_ & _ & _ & _ & Hall & _).
  apply Hall; [done|]. split_and!; [done|done|].
  pose proof (u64_as_i64_neg _ HU Hs). rewrite (u64_as_i64_small (re_ts_ms env)) by done. lia.
Qed.

End relay.
