(* ===== verification/Link.v ===== *)
(** * Device keys and device linking ([crates/td-crypto/src/device.rs], [link.rs])

    A keypair and its public bundle, and the registry of trusted devices: a
    device asks to be linked, a trusted device approves, and every registry that
    trusts the approver takes the new device in.  The two [DeviceId] types of the
    program wrap the same 32 bytes and convert into each other without change;
    one type stands for both. *)

From S2P Require Import Prelude Crypto Event.

(** ** Data *)

Record DeviceBundle : Type := mkDeviceBundle {
  db_device_id : DeviceId;
  db_verifying_key : bytes32;
}.

Record DeviceLinkPayload : Type := mkDeviceLinkPayload {
  lp_new_device : DeviceBundle;
  lp_requested_at_ms : N;
}.

Record LinkRequest : Type := mkLinkRequest {
  lr_payload : DeviceLinkPayload;
  lr_request_sig : list byte;
}.

Record LinkApproval : Type := mkLinkApproval {
  la_payload : DeviceLinkPayload;
  la_approved_by : DeviceId;
  la_approver_vk : bytes32;
  la_approval_sig : list byte;
}.

Inductive LinkError : Type :=
| LinkInvalidSignature
| InvalidKey
| DeviceMismatch
| NotAuthorized
| LinkSerde.

#[global] Instance DeviceBundle_eq_dec : EqDecision DeviceBundle.
Proof. solve_decision. Defined.
#[global] Instance DeviceLinkPayload_eq_dec : EqDecision DeviceLinkPayload.
Proof. solve_decision. Defined.
#[global] Instance LinkRequest_eq_dec : EqDecision LinkRequest.
Proof. solve_decision. Defined.
#[global] Instance LinkApproval_eq_dec : EqDecision LinkApproval.
Proof. solve_decision. Defined.
#[global] Instance LinkError_eq_dec : EqDecision LinkError.
Proof. solve_decision. Defined.

(** What linking uses of its environment. *)
Class LinkEnv : Type := {
  link_event :: EventEnv;
  link_keys :: KeyBytes;
  link_payload :: Encode DeviceLinkPayload;
}.
Class LinkEnvLaws `{!LinkEnv} : Prop := {
  link_crypto_laws :: CryptoLaws;
  link_keys_laws :: KeyBytesLaws;
  link_payload_laws :: EncodeInj DeviceLinkPayload;
}.

Section link.
Context {KE : LinkEnv}.

(** ** [DeviceKeypair] *)

Record DeviceKeypair : Type := mkDeviceKeypair {
  kp_signing : SigningKey;
  kp_device_id : DeviceId;
}.

(** [signing] is the key [SigningKey::generate] draws. *)
Definition DeviceKeypair_generate (signing : SigningKey) : DeviceKeypair :=
  let device_id := DeviceId_from_verifying_key (verifying_key signing) in
  mkDeviceKeypair signing device_id.

Definition from_seed_bytes (seed : bytes32) : DeviceKeypair :=
  let signing := sk_from_bytes seed in
  let device_id := DeviceId_from_verifying_key (verifying_key signing) in
  mkDeviceKeypair signing device_id.

Definition to_seed_bytes (self : DeviceKeypair) : bytes32 := sk_to_bytes (kp_signing self).

Definition kp_verifying_key (self : DeviceKeypair) : VerifyingKey := verifying_key (kp_signing self).

Definition public_bundle (self : DeviceKeypair) : DeviceBundle :=
  mkDeviceBundle (kp_device_id self) (vk_as_bytes (verifying_key (kp_signing self))).

Definition bundle_verifying_key (self : DeviceBundle) : option VerifyingKey :=
  vk_from_bytes (db_verifying_key self).

(** ** [LinkRegistry] *)

Record LinkRegistry : Type := mkLinkRegistry { trusted : gmap DeviceId DeviceBundle }.

Definition LinkRegistry_new (root : DeviceId) : LinkRegistry := mkLinkRegistry ∅.

Definition trust_local (self : LinkRegistry) (kp : DeviceKeypair) :
    result LinkError unit * LinkRegistry :=
  let b := public_bundle kp in
  (Ok tt, mkLinkRegistry (<[db_device_id b := b]> (trusted self))).

Definition is_linked (self : LinkRegistry) (id : DeviceId) : bool :=
  match trusted self !! id with Some _ => true | None => false end.

Definition linked_devices `{HashIter} (self : LinkRegistry) : list DeviceId :=
  map_keys (trusted self).

Definition create_link_request (self : LinkRegistry) (new_device : DeviceKeypair) :
    result LinkError LinkRequest :=
  let payload := mkDeviceLinkPayload (public_bundle new_device) 0 in
  let bytes := to_vec payload in
  let sig := ed_sign (kp_signing new_device) bytes in
  Ok (mkLinkRequest payload (array_bytes sig)).

Definition approve_link (self : LinkRegistry) (approver : DeviceKeypair) (request : LinkRequest) :
    result LinkError LinkApproval :=
  if negb (is_linked self (kp_device_id approver)) then Err NotAuthorized else
  let payload := lr_payload request in
  let? new_vk := ok_or (bundle_verifying_key (lp_new_device payload)) InvalidKey in
  let expected_id := DeviceId_from_verifying_key new_vk in
  if decide (expected_id ≠ db_device_id (lp_new_device payload)) then Err DeviceMismatch else
  let bytes := to_vec payload in
  let? sig := ok_or (try_into_array 64 (lr_request_sig request)) LinkInvalidSignature in
  if negb (ed_verify new_vk bytes sig) then Err LinkInvalidSignature else
  let approval_body := to_vec payload in
  let approval_sig := ed_sign (kp_signing approver) approval_body in
  Ok {| la_payload := payload;
        la_approved_by := kp_device_id approver;
        la_approver_vk := vk_as_bytes (kp_verifying_key approver);
        la_approval_sig := array_bytes approval_sig |}.

(** The checks of [apply_approval] before it changes the registry: the id and
    bundle it will insert. *)
Definition check_approval (self : LinkRegistry) (approval : LinkApproval) :
    result LinkError (DeviceId * DeviceBundle) :=
  if negb (is_linked self (la_approved_by approval)) then Err NotAuthorized else
  let? approver_vk := ok_or (vk_from_bytes (la_approver_vk approval)) InvalidKey in
  let approver_id := DeviceId_from_verifying_key approver_vk in
  if decide (approver_id ≠ la_approved_by approval) then Err DeviceMismatch else
  let body := to_vec (la_payload approval) in
  let? sig := ok_or (try_into_array 64 (la_approval_sig approval)) LinkInvalidSignature in
  if negb (ed_verify approver_vk body sig) then Err LinkInvalidSignature else
  let new_device := lp_new_device (la_payload approval) in
  let? new_vk := ok_or (bundle_verifying_key new_device) InvalidKey in
  let new_id := DeviceId_from_verifying_key new_vk in
  if decide (new_id ≠ db_device_id new_device) then Err DeviceMismatch else
  Ok (new_id, new_device).

Definition apply_approval (self : LinkRegistry) (approval : LinkApproval) :
    result LinkError unit * LinkRegistry :=
  match check_approval self approval with
  | Err e => (Err e, self)
  | Ok (new_id, new_device) =>
    (Ok tt, mkLinkRegistry (<[new_id := new_device]> (trusted self)))
  end.

(** ** Specification *)

(** A keypair as its constructors make it. *)
Definition keypair_wf (kp : DeviceKeypair) : Prop :=
  kp_device_id kp = DeviceId_from_verifying_key (verifying_key (kp_signing kp)).

(** The bundle is the one of a key that hashes to its id. *)
Definition bundle_ok (b : DeviceBundle) : Prop :=
  ∃ vk, bundle_verifying_key b = Some vk ∧ DeviceId_from_verifying_key vk = db_device_id b.

Definition registry_ok (reg : LinkRegistry) : Prop :=
  map_Forall (λ id b, db_device_id b = id ∧ bundle_ok b) (trusted reg).

(** A valid signature of [by_] under a key that hashes to its id. *)
Definition signed_by (by_ : DeviceId) (vk : bytes32) (m sig : list byte) : Prop :=
  ∃ k s, vk_from_bytes vk = Some k ∧ DeviceId_from_verifying_key k = by_ ∧
    array_bytes s = sig ∧ ed_verify k m s = true.

(** An approval that names [by_] and vouches for [b]. *)
Definition vouches (approval : LinkApproval) (by_ : DeviceId) (b : DeviceBundle) : Prop :=
  la_approved_by approval = by_ ∧ lp_new_device (la_payload approval) = b ∧ bundle_ok b ∧
  signed_by by_ (la_approver_vk approval) (to_vec (la_payload approval))
    (la_approval_sig approval).

(** Trust that the approvals [l] carry from the initial registry. *)
Inductive vouched (reg : LinkRegistry) (l : list LinkApproval) : DeviceId → Prop :=
| vouched_root id : is_linked reg id = true → vouched reg l id
| vouched_step by_ b approval :
    approval ∈ l → vouched reg l by_ → vouches approval by_ b →
    vouched reg l (db_device_id b).

Fixpoint apply_approvals (reg : LinkRegistry) (l : list LinkApproval) : LinkRegistry :=
  match l with
  | [] => reg
  | a :: l => apply_approvals (apply_approval reg a).2 l
  end.

Lemma is_linked_true reg id : is_linked reg id = true ↔ is_Some (trusted reg !! id).
Proof. unfold is_linked. destruct (trusted reg !! id); split; try done; eauto; by intros []. Qed.

Lemma public_bundle_ok `{!LinkEnvLaws} kp : keypair_wf kp → bundle_ok (public_bundle kp).
Proof.
  intros Hk. exists (verifying_key (kp_signing kp)). split; [apply vk_from_as_bytes|done].
Qed.

Lemma generate_wf sk : keypair_wf (DeviceKeypair_generate sk).
Proof. done. Qed.

(** [check_approval] accepts exactly the approvals of linked devices that vouch. *)
Lemma check_approval_spec reg a id b : check_approval reg a = Ok (id, b) ↔
  is_linked reg (la_approved_by a) = true ∧ vouches a (la_approved_by a) b ∧ id = db_device_id b.
Proof.
  unfold check_approval, vouches, signed_by. split.
  - destruct (is_linked reg _); [|done]. cbn [negb]. intros H.
    apply bind_ok_inv in H as (vk & Hvk%ok_or_ok_inv & H). case_decide as Hid; [done|].
    apply bind_ok_inv in H as (sig & Hs%ok_or_ok_inv & H).
    apply try_into_array_Some in Hs. destruct (ed_verify vk _ sig) eqn:Hv; [|done]. cbn [negb] in H.
    apply bind_ok_inv in H as (nvk & Hn%ok_or_ok_inv & H). case_decide as Hnid; [done|].
    inv_ok. split_and!; eauto 10. by exists nvk.
  - intros (Hl & (_ & <- & (nvk & Hn & Hnid) & vk & sig & Hvk & Hid & Hs & Hv) & ->).
    rewrite Hl; cbn [negb]. rewrite Hvk; cbn. rewrite decide_False by tauto.
    rewrite (proj2 (try_into_array_Some _ _ sig)) by done; cbn. rewrite Hv; cbn [negb].
    rewrite Hn; cbn. rewrite decide_False by tauto. by rewrite Hnid.
Qed.

Lemma apply_approval_cases reg a :
  (∃ e, apply_approval reg a = (Err e, reg) ∧ ∀ b, ¬ (is_linked reg (la_approved_by a) = true ∧
      vouches a (la_approved_by a) b)) ∨
  (∃ b, apply_approval reg a = (Ok tt, mkLinkRegistry (<[db_device_id b := b]> (trusted reg))) ∧
    is_linked reg (la_approved_by a) = true ∧ vouches a (la_approved_by a) b).
Proof.
  unfold apply_approval. destruct (check_approval reg a) as [[id b]|e] eqn:Hc.
  - right. exists b. apply check_approval_spec in Hc as (? & ? & ->). done.
  - left. exists e. split; [done|]. intros b Hb.
    assert (check_approval reg a = Ok (db_device_id b, b)) as H by (apply check_approval_spec; tauto).
    congruence.
Qed.

Lemma apply_approval_grows reg a id :
  is_linked reg id = true → is_linked (apply_approval reg a).2 id = true.
Proof.
  intros Hl. destruct (apply_approval_cases reg a) as [(e & -> & _)|(b & -> & _)]; [done|].
  apply is_linked_true in Hl. apply is_linked_true; cbn. rewrite lookup_insert_is_Some'. auto.
Qed.

Lemma vouched_weaken reg reg' l l' id : (∀ x, is_linked reg x = true → vouched reg' l' x) →
  l ⊆ l' → vouched reg l id → vouched reg' l' id.
Proof. intros Hr Hl. induction 1; [by apply Hr|]. eapply vouched_step; eauto. Qed.

(** ** Theorems *)

(** [apply_approval] decides correctly and is all or nothing: it inserts the
    new device exactly when the approver is trusted, the approval is signed by
    the key that hashes to the approver's id, and the new bundle is the one of a
    key that hashes to the new id; otherwise the registry is unchanged.  The
    registry stays well formed and keeps every device it had. *)
Lemma apply_approval_exact (reg : LinkRegistry) (a : LinkApproval) :
  let b := lp_new_device (la_payload a) in
  ((apply_approval reg a).1 = Ok tt ↔
     is_linked reg (la_approved_by a) = true ∧ vouches a (la_approved_by a) b) ∧
  (apply_approval reg a).2 =
    match (apply_approval reg a).1 with
    | Ok _ => mkLinkRegistry (<[db_device_id b := b]> (trusted reg))
    | Err _ => reg
    end ∧
  (registry_ok reg → registry_ok (apply_approval reg a).2).
Proof.
  cbv zeta. destruct (apply_approval_cases reg a) as [(e & -> & Hn)|(b & -> & Hl & Hv)]; cbn.
  - split_and!; [|done|done]. split; [done|]. intros H. by apply Hn in H.
  - assert (lp_new_device (la_payload a) = b) as -> by apply Hv.
    split_and!; [done|done|]. intros Hw. apply map_Forall_insert_2; [|done].
    split; [done|]. apply Hv.
Qed.

(** C20: trust has a chain: after any approvals in any order, from anybody, every
    linked device was linked at the start or is reached by signed approvals, each
    by a device that is itself reached. *)
Theorem linked_devices_vouched (reg : LinkRegistry) (l : list LinkApproval) (id : DeviceId) :
  is_linked (apply_approvals reg l) id = true → vouched reg l id.
Proof.
  revert reg. induction l as [|a l IH]; intros reg H; cbn in H; [by constructor|].
  apply IH in H. eapply vouched_weaken; [|by apply list_subseteq_cons, reflexivity|exact H].
  intros x Hx. destruct (apply_approval_cases reg a) as [(e & He & _)|(b & He & Hl & Hv)];
    rewrite He in Hx; [by constructor|].
  apply is_linked_true in Hx; cbn in Hx. apply lookup_insert_is_Some' in Hx as [<-|Hx].
  - eapply vouched_step; [by left|by constructor|exact Hv].
  - constructor. by apply is_linked_true.
Qed.

(** A request of a generated device, approved by a device the approver's registry
    trusts, adds exactly that device to a registry that trusts the approver. *)
Lemma link_approved `{!LinkEnvLaws} (r0 reg other : LinkRegistry) (new_device approver : DeviceKeypair) :
  keypair_wf new_device → keypair_wf approver →
  is_linked reg (kp_device_id approver) = true →
  is_linked other (kp_device_id approver) = true →
  ∃ request approval, create_link_request r0 new_device = Ok request ∧
    approve_link reg approver request = Ok approval ∧
    apply_approval other approval = (Ok tt,
      mkLinkRegistry (<[kp_device_id new_device := public_bundle new_device]> (trusted other))).
Proof.
  intros Hn Ha Hr Ho. eexists _, _. split; [done|].
  destruct (public_bundle_ok new_device Hn) as (vk & Hvk & Hid).
  assert (vk = verifying_key (kp_signing new_device)) as Hvk'.
  { unfold bundle_verifying_key in Hvk. cbn in Hvk. rewrite vk_from_as_bytes in Hvk. congruence. }
  assert (approve_link reg approver (mkLinkRequest
    (mkDeviceLinkPayload (public_bundle new_device) 0)
    (array_bytes (ed_sign (kp_signing new_device)
      (to_vec (mkDeviceLinkPayload (public_bundle new_device) 0))))) = Ok {|
    la_payload := mkDeviceLinkPayload (public_bundle new_device) 0;
    la_approved_by := kp_device_id approver;
    la_approver_vk := vk_as_bytes (kp_verifying_key approver);
    la_approval_sig := array_bytes (ed_sign (kp_signing approver)
      (to_vec (mkDeviceLinkPayload (public_bundle new_device) 0))) |}) as Happ.
  { unfold approve_link. rewrite Hr; cbn [negb lr_payload lp_new_device]. rewrite Hvk; cbn [ok_or mbind result_bind].
    rewrite decide_False by tauto. cbn [lr_request_sig]. rewrite try_into_array_bytes; cbn [ok_or mbind result_bind].
    by rewrite Hvk', ed_verify_sign. }
  split; [exact Happ|]. clear Happ.
  destruct (apply_approval_cases other {|
    la_payload := mkDeviceLinkPayload (public_bundle new_device) 0;
    la_approved_by := kp_device_id approver;
    la_approver_vk := vk_as_bytes (kp_verifying_key approver);
    la_approval_sig := array_bytes (ed_sign (kp_signing approver)
      (to_vec (mkDeviceLinkPayload (public_bundle new_device) 0))) |})
    as [(e & _ & Hno)|(b & -> & _ & Hv)]; cbn in *.
  - destruct (Hno (public_bundle new_device)). split; [done|]. split_and!; [done|done| |].
    + by apply public_bundle_ok.
    + exists (verifying_key (kp_signing approver)), (ed_sign (kp_signing approver)
        (to_vec (mkDeviceLinkPayload (public_bundle new_device) 0))).
      split_and!; [apply vk_from_as_bytes|done|done|apply ed_verify_sign].
  - destruct Hv as (_ & <- & _). done.
Qed.

(** Linking completes: a request of a generated device, approved by a device
    the approver's registry trusts, is applied by every registry that trusts the
    approver, which then lists the new device under its key. *)
Lemma linking_completes `{!LinkEnvLaws} (r0 reg other : LinkRegistry)
    (new_device approver : DeviceKeypair) :
  keypair_wf new_device → keypair_wf approver →
  is_linked reg (kp_device_id approver) = true →
  is_linked other (kp_device_id approver) = true →
  ∃ request approval, create_link_request r0 new_device = Ok request ∧
    approve_link reg approver request = Ok approval ∧
    (apply_approval other approval).1 = Ok tt ∧
    trusted (apply_approval other approval).2 !! kp_device_id new_device =
      Some (public_bundle new_device).
Proof.
  intros Hn Ha Hr Ho. destruct (link_approved r0 reg other new_device approver) as (rq & ap & H1 & H2 & H3);
    try done. exists rq, ap. rewrite H3. split_and!; try done. cbn. by rewrite lookup_insert_eq.
Qed.

End link.
