(* ===== verification/Base64.v ===== *)
(** * Base64 ([b64url], [base64_encode_config] and [base64_decode_config] of
    [crates/td-crypto/src/passkey.rs])

    The program's own codec, standard and URL alphabet, and its round trip. *)

From S2P Require Import Prelude Text.

Definition b64_table (url : bool) : list byte :=
  if url then text "ABCDEFGHIJKLMNOPQRSTUVWXYZabcdefghijklmnopqrstuvwxyz0123456789-_"
  else text "ABCDEFGHIJKLMNOPQRSTUVWXYZabcdefghijklmnopqrstuvwxyz0123456789+/".

(** [table[((triple >> k) & 63) as usize]] *)
Definition b64_char (url : bool) (triple k : N) : byte :=
  nth (N.to_nat (N.land (N.shiftr triple k) 63)) (b64_table url) x00.

(** [(b0 << 16) | (b1 << 8) | b2], in 32 bits *)
Definition b64_triple (b0 b1 b2 : N) : N :=
  wrap 32 (N.lor (N.lor (N.shiftl b0 16) (N.shiftl b1 8)) b2).

Definition pad (url : bool) : list byte := if url then [] else [x3d].

(** The [while] loop of [base64_encode_config], three bytes a round. *)
Fixpoint base64_encode_config (data : list byte) (url : bool) : list byte :=
  match data with
  | [] => []
  | b0 :: [] =>
    let t := b64_triple (Byte.to_N b0) 0 0 in
    [b64_char url t 18; b64_char url t 12] ++ pad url ++ pad url
  | b0 :: b1 :: [] =>
    let t := b64_triple (Byte.to_N b0) (Byte.to_N b1) 0 in
    [b64_char url t 18; b64_char url t 12; b64_char url t 6] ++ pad url
  | b0 :: b1 :: b2 :: data =>
    let t := b64_triple (Byte.to_N b0) (Byte.to_N b1) (Byte.to_N b2) in
    [b64_char url t 18; b64_char url t 12; b64_char url t 6; b64_char url t 0] ++
    base64_encode_config data url
  end.

Definition between (lo hi c : byte) : bool :=
  (Byte.to_N lo <=? Byte.to_N c)%N && (Byte.to_N c <=? Byte.to_N hi)%N.

(** [val] *)
Definition b64_val (c : byte) : result (list byte) N :=
  let n := Byte.to_N c in
  if between x41 x5a c then Ok (n - 65)%N
  else if between x61 x7a c then Ok (n - 97 + 26)%N
  else if between x30 x39 c then Ok (n - 48 + 52)%N
  else if decide (c = x2b) then Ok 62%N
  else if decide (c = x2f) then Ok 63%N
  else Err (text "bad b64 char " ++ dec n).

(** An expression of type [u8]. *)
Definition u8 (n : N) : byte := byte_of_N n.

(** The [while] loop of [base64_decode_config], four characters a round. *)
Fixpoint b64_decode_loop (s : list byte) : result (list byte) (list byte) :=
  match s with
  | c0 :: c1 :: c2 :: c3 :: s =>
    if decide (c0 = x3d) then Ok [] else
    let? a := b64_val c0 in
    let? b := b64_val c1 in
    let? c := if decide (c2 = x3d) then Ok 0%N else b64_val c2 in
    let? d := if decide (c3 = x3d) then Ok 0%N else b64_val c3 in
    let? out := b64_decode_loop s in
    Ok ([u8 (N.lor (N.shiftl a 2) (N.shiftr b 4))] ++
        (if decide (c2 = x3d) then [] else [u8 (N.lor (N.shiftl b 4) (N.shiftr c 2))]) ++
        (if decide (c3 = x3d) then [] else [u8 (N.lor (N.shiftl c 6) d)]) ++ out)
  | _ => Ok []
  end.

(** [replace] on one-byte patterns *)
Definition url_to_std (c : byte) : byte :=
  if decide (c = x2d) then x2b else if decide (c = x5f) then x2f else c.

Definition base64_decode_config (s : list byte) (url : bool) : result (list byte) (list byte) :=
  let s := List.filter (λ c, negb (bool_decide (c = x0a))) s in
  let s := if url then url_to_std <$> s else s in
  let s := s ++ repeat x3d ((4 - length s mod 4) mod 4) in
  b64_decode_loop s.

Definition b64url (data : list byte) : list byte := base64_encode_config data true.

(** ** Bits *)

Lemma byte_bits_high b n : (8 <= n)%N → N.testbit (Byte.to_N b) n = false.
Proof.
  intros Hn. destruct (decide (Byte.to_N b = 0%N)) as [->|H0]; [apply N.bits_0|].
  apply N.bits_above_log2. pose proof (byte_to_N_lt b) as Hb.
  assert (N.log2 (Byte.to_N b) < 8)%N by (apply N.log2_lt_pow2; lia). lia.
Qed.

(** The bits of [wrap]. *)
Lemma wrap_bits w n k : N.testbit (wrap w n) k = if (k <? w)%N then N.testbit n k else false.
Proof.
  unfold wrap. destruct (N.ltb_spec k w).
  - by apply N.mod_pow2_bits_low.
  - by apply N.mod_pow2_bits_high.
Qed.

Lemma u8_ext n b : (∀ k, (k < 8)%N → N.testbit n k = N.testbit (Byte.to_N b) k) → u8 n = b.
Proof.
  intros H. unfold u8. rewrite <-(byte_of_N_to_N b). unfold byte_of_N. do 2 f_equal.
  rewrite (N.mod_small (Byte.to_N b)) by apply byte_to_N_lt.
  apply N.bits_inj. intros k. change 256%N with (2 ^ 8)%N. destruct (N.ltb_spec k 8) as [Hk|Hk].
  - rewrite N.mod_pow2_bits_low by done. auto.
  - rewrite N.mod_pow2_bits_high by done. by rewrite byte_bits_high.
Qed.

Lemma bit_cases (P : N → Prop) :
  P 0%N → P 1%N → P 2%N → P 3%N → P 4%N → P 5%N → P 6%N → P 7%N → ∀ k, (k < 8)%N → P k.
Proof.
  intros ???????? k Hk.
  assert (k = 0 ∨ k = 1 ∨ k = 2 ∨ k = 3 ∨ k = 4 ∨ k = 5 ∨ k = 6 ∨ k = 7)%N as Hc by lia.
  naive_solver.
Qed.

Definition sextet (t k : N) : N := N.land (N.shiftr t k) 63.

(** One bit at a literal index: pushes [N.testbit] to the bytes, evaluating the
    indices on the way. *)
Ltac bit_step :=
  match goal with
  | |- context [N.testbit (N.lor ?a ?b) ?k] => rewrite (N.lor_spec a b k)
  | |- context [N.testbit (N.land ?a ?b) ?k] => rewrite (N.land_spec a b k)
  | |- context [N.testbit (wrap ?w ?n) ?k] => rewrite (wrap_bits w n k)
  | |- context [N.testbit (N.shiftr ?a ?n) ?k] =>
    rewrite (N.shiftr_spec' a n k);
    let v := eval vm_compute in (k + n)%N in change (k + n)%N with v
  | |- context [N.testbit (N.shiftl ?a ?n) ?k] =>
    first [ rewrite (N.shiftl_spec_low a n k) by lia
          | rewrite (N.shiftl_spec_high' a n k) by lia;
            let v := eval vm_compute in (k - n)%N in change (k - n)%N with v ]
  | |- context [(?a <? ?b)%N] =>
    let v := eval vm_compute in (a <? b)%N in change (a <? b)%N with v
  | |- context [N.testbit (N.pos ?p) ?k] =>
    let v := eval vm_compute in (N.testbit (N.pos p) k) in change (N.testbit (N.pos p) k) with v
  | |- context [N.testbit 0 ?k] => rewrite (N.bits_0 k)
  | |- context [N.testbit (Byte.to_N ?b) ?k] => rewrite (byte_bits_high b k) by lia
  end.

Ltac bits :=
  apply u8_ext, bit_cases; unfold sextet, b64_triple; cbv iota beta;
  repeat (bit_step; cbv iota);
  repeat (rewrite orb_false_r || rewrite andb_true_r || rewrite andb_false_r || rewrite orb_false_l);
  reflexivity.

Section join.
Context (a b c : byte).
Let t : N := b64_triple (Byte.to_N a) (Byte.to_N b) (Byte.to_N c).

Lemma join_0 : u8 (N.lor (N.shiftl (sextet t 18) 2) (N.shiftr (sextet t 12) 4)) = a.
Proof. unfold t. bits. Qed.
Lemma join_1 : u8 (N.lor (N.shiftl (sextet t 12) 4) (N.shiftr (sextet t 6) 2)) = b.
Proof. unfold t. bits. Qed.
Lemma join_2 : u8 (N.lor (N.shiftl (sextet t 6) 6) (sextet t 0)) = c.
Proof. unfold t. bits. Qed.
End join.

(** ** Characters *)

Definition std (url : bool) (c : byte) : byte := if url then url_to_std c else c.

Definition char_ok (url : bool) (i : N) : bool :=
  let c := nth (N.to_nat i) (b64_table url) x00 in
  match b64_val (std url c) with
  | Ok n => (n =? i)%N
  | Err _ => false
  end && negb (bool_decide (std url c = x3d)) && negb (bool_decide (c = x0a)).

Lemma chars_ok url : forallb (char_ok url) (N.of_nat <$> seq 0 64) = true.
Proof. by destruct url; vm_compute. Qed.

Lemma sextet_lt t k : (sextet t k < 64)%N.
Proof. unfold sextet. change 63%N with (N.ones 6). rewrite N.land_ones. by apply N.mod_lt. Qed.

Lemma b64_char_ok url t k :
  b64_val (std url (b64_char url t k)) = Ok (sextet t k) ∧
  std url (b64_char url t k) ≠ x3d ∧ b64_char url t k ≠ x0a.
Proof.
  assert (char_ok url (sextet t k) = true) as H.
  { apply (proj1 (forallb_forall _ _) (chars_ok url)), in_map_iff.
    exists (N.to_nat (sextet t k)). split; [by rewrite N2Nat.id|]. apply in_seq.
    pose proof (sextet_lt t k). lia. }
  unfold char_ok in H. fold (b64_char url t k) in H. unfold b64_char.
  fold (sextet t k). apply andb_true_iff in H as [[H H1]%andb_true_iff H2].
  apply negb_true_iff, bool_decide_eq_false in H1, H2.
  destruct (b64_val _) as [n|]; [|done]. apply N.eqb_eq in H as ->. done.
Qed.

Lemma std_pad url : std url x3d = x3d.
Proof. by destruct url. Qed.

(** ** Round trip *)

(** What the loop makes of an encoded group. *)
Lemma decode_step c0 c1 c2 c3 s : b64_decode_loop (c0 :: c1 :: c2 :: c3 :: s) =
  if decide (c0 = x3d) then Ok [] else
  let? a := b64_val c0 in
  let? b := b64_val c1 in
  let? c := if decide (c2 = x3d) then Ok 0%N else b64_val c2 in
  let? d := if decide (c3 = x3d) then Ok 0%N else b64_val c3 in
  let? out := b64_decode_loop s in
  Ok ([u8 (N.lor (N.shiftl a 2) (N.shiftr b 4))] ++
      (if decide (c2 = x3d) then [] else [u8 (N.lor (N.shiftl b 4) (N.shiftr c 2))]) ++
      (if decide (c3 = x3d) then [] else [u8 (N.lor (N.shiftl c 6) d)]) ++ out).
Proof. done. Qed.

(** Induction three elements at a time. *)
Lemma list_ind_3 {A} (P : list A → Prop) :
  P [] → (∀ a, P [a]) → (∀ a b, P [a; b]) → (∀ a b c l, P l → P (a :: b :: c :: l)) → ∀ l, P l.
Proof.
  intros H0 H1 H2 H3. assert (∀ n l, length l < n → P l) as H; [|intros l; apply (H (S (length l))); lia].
  induction n as [|n IH]; intros l Hl; [lia|].
  destruct l as [|a [|b [|c l]]]; auto. apply H3, IH. cbn in Hl. lia.
Qed.

Definition padded (url : bool) (s : list byte) : list byte :=
  (std url <$> s) ++ repeat x3d ((4 - length s mod 4) mod 4).

Lemma padded_cons url c0 c1 c2 c3 s : padded url (c0 :: c1 :: c2 :: c3 :: s) =
  std url c0 :: std url c1 :: std url c2 :: std url c3 :: padded url s.
Proof.
  unfold padded. cbn [fmap list_fmap app]. do 5 f_equal. f_equal. f_equal. f_equal.
  change (length (c0 :: c1 :: c2 :: c3 :: s)) with (4 + length s).
  rewrite <-Nat.Div0.add_mod_idemp_l. done.
Qed.

Lemma no_newline url data : Forall (λ c, c ≠ x0a) (base64_encode_config data url).
Proof.
  induction data as [| | |a b c l IH] using list_ind_3; cbn [base64_encode_config app].
  - constructor.
  - repeat (constructor; [apply b64_char_ok|]). by destruct url; repeat constructor.
  - repeat (constructor; [apply b64_char_ok|]). by destruct url; repeat constructor.
  - repeat (constructor; [apply b64_char_ok|]). done.
Qed.

Lemma decode_config_padded url s : Forall (λ c, c ≠ x0a) s →
  base64_decode_config s url = b64_decode_loop (padded url s).
Proof.
  intros Hs. unfold base64_decode_config, padded.
  assert (List.filter (λ c, negb (bool_decide (c = x0a))) s = s) as ->.
  { induction Hs as [|c s Hc _ IH]; cbn; [done|]. by rewrite bool_decide_eq_false_2, IH by done. }
  destruct url; [by rewrite length_fmap|]. by rewrite list_fmap_id.
Qed.

(** The base64 codec round trips: decoding what was encoded gives the bytes
    back, in both alphabets, padded or not. *)
Lemma base64_roundtrip (url : bool) (data : list byte) :
  base64_decode_config (base64_encode_config data url) url = Ok data.
Proof.
  rewrite decode_config_padded by apply no_newline.
  induction data as [|a|a b|a b c l IH] using list_ind_3; cbn [base64_encode_config app].
  - done.
  - set (t := b64_triple _ _ _).
    assert (padded url (b64_char url t 18 :: b64_char url t 12 :: pad url ++ pad url) =
      [std url (b64_char url t 18); std url (b64_char url t 12); x3d; x3d]) as ->.
    { by destruct url. }
    destruct (b64_char_ok url t 18) as (H0 & N0 & _), (b64_char_ok url t 12) as (H1 & N1 & _).
    pose proof (join_0 a x00 x00) as J0. change (b64_triple _ _ _) with t in J0.
    rewrite decode_step, decide_False, !decide_True by done. rewrite H0, H1.
    cbn [mbind result_bind b64_decode_loop app]. by rewrite J0.
  - set (t := b64_triple _ _ _).
    assert (padded url (b64_char url t 18 :: b64_char url t 12 :: b64_char url t 6 :: pad url) =
      [std url (b64_char url t 18); std url (b64_char url t 12); std url (b64_char url t 6); x3d]) as ->.
    { by destruct url. }
    destruct (b64_char_ok url t 18) as (H0 & N0 & _), (b64_char_ok url t 12) as (H1 & N1 & _),
      (b64_char_ok url t 6) as (H2 & N2 & _).
    pose proof (join_0 a b x00) as J0. pose proof (join_1 a b x00) as J1. change (b64_triple _ _ _) with t in J0, J1.
    rewrite decode_step. rewrite (decide_False (P:=std url (b64_char url t 18) = x3d)) by done.
    rewrite !(decide_False (P:=std url (b64_char url t 6) = x3d)), !(decide_True (P:=x3d = x3d)) by done.
    rewrite H0, H1, H2. cbn [mbind result_bind b64_decode_loop app]. by rewrite J0, J1, decide_False.
  - set (t := b64_triple _ _ _). rewrite padded_cons.
    destruct (b64_char_ok url t 18) as (H0 & N0 & _), (b64_char_ok url t 12) as (H1 & N1 & _),
      (b64_char_ok url t 6) as (H2 & N2 & _), (b64_char_ok url t 0) as (H3 & N3 & _).
    pose proof (join_0 a b c) as J0. pose proof (join_1 a b c) as J1.
    pose proof (join_2 a b c) as J2. fold t in J0, J1, J2.
    rewrite decode_step. rewrite (decide_False (P:=std url (b64_char url t 18) = x3d)) by done.
    rewrite !(decide_False (P:=std url (b64_char url t 6) = x3d)) by done.
    rewrite !(decide_False (P:=std url (b64_char url t 0) = x3d)) by done.
    rewrite H0, H1, H2, H3, IH. cbn [mbind result_bind app]. 
    rewrite J0, J1, J2. by rewrite !decide_False.
Qed.
