(* ===== verification/Passkey.v ===== *)
(** * Passkeys ([crates/td-crypto/src/passkey.rs])

    The registry of WebAuthn challenges and credentials.  SHA-256, P-256 and the
    JSON of the client data are parameters; a random draw is an argument. *)

From S2P Require Import Prelude Text Crypto Base64.

(** ** Data *)

Inductive PasskeyError : Type :=
| UnknownChallenge
| ChallengeMismatch
| ErrClientData (s : list byte)
| ErrAuthData (s : list byte)
| UnknownCredential
| ErrSignature (s : list byte)
| ErrCodec (s : list byte)
| UnsupportedKey.

Record RelyingParty : Type := mkRelyingParty { rp_id_ : list byte; rp_name_ : list byte }.
Record UserEntity : Type := mkUserEntity {
  user_id : list byte; user_name : list byte; user_display_name : list byte }.
Record PubKeyCredParam : Type := mkPubKeyCredParam { pk_type : list byte; pk_alg : Z }.
Record PublicKeyCredentialCreationOptions : Type := mkCreationOptions {
  co_challenge : list byte;
  co_rp : RelyingParty;
  co_user : UserEntity;
  co_pub_key_cred_params : list PubKeyCredParam;
  co_timeout_ms : N;
  co_attestation : list byte;
}.
Record AllowCredential : Type := mkAllowCredential { ac_type : list byte; ac_id : list byte }.
Record PublicKeyCredentialRequestOptions : Type := mkRequestOptions {
  qo_challenge : list byte;
  qo_rp_id : list byte;
  qo_timeout_ms : N;
  qo_allow_credentials : list AllowCredential;
}.

Record StoredCredential : Type := mkStoredCredential {
  sc_credential_id : list byte;
  sc_public_key_spki : list byte;
  sc_user_handle : list byte;
  sc_sign_count : N;
  sc_label : list byte;
}.

Inductive ChallengePurpose : Type := Register | Authenticate.

Record ChallengeRecord : Type := mkChallengeRecord {
  cr_purpose : ChallengePurpose;
  cr_user_handle : list byte;
}.

Record PasskeyRegistry : Type := mkPasskeyRegistry {
  challenges : gmap (list byte) ChallengeRecord;
  creds : gmap (list byte) StoredCredential;
  rp_id : list byte;
  rp_name : list byte;
  origin : list byte;
}.

Record ClientData : Type := mkClientData {
  cd_type : list byte;
  cd_challenge : list byte;
  cd_origin : list byte;
}.

#[global] Instance ChallengePurpose_eq_dec : EqDecision ChallengePurpose.
Proof. solve_decision. Defined.
#[global] Instance ChallengeRecord_eq_dec : EqDecision ChallengeRecord.
Proof. solve_decision. Defined.
#[global] Instance StoredCredential_eq_dec : EqDecision StoredCredential.
Proof. solve_decision. Defined.
#[global] Instance PasskeyError_eq_dec : EqDecision PasskeyError.
Proof. solve_decision. Defined.

(** [sha2], [p256] and [serde_json]; errors are their texts. *)
Class PasskeyEnv : Type := {
  sha256 : list byte → list byte;
  P256Key : Type;
  P256Signature : Type;
  p256_from_der : list byte → result (list byte) P256Key;
  sig_from_der : list byte → result (list byte) P256Signature;
  sig_from_slice : list byte → result (list byte) P256Signature;
  p256_verify : P256Key → list byte → P256Signature → result (list byte) unit;
  client_data_from_slice : list byte → result (list byte) ClientData;
}.

Section passkey.
Context {PE : PasskeyEnv}.

(** ** Registry *)

Definition PasskeyRegistry_new (rp_id rp_name origin : list byte) : PasskeyRegistry :=
  mkPasskeyRegistry ∅ ∅ rp_id rp_name origin.

Definition localhost_default : PasskeyRegistry :=
  PasskeyRegistry_new (text "localhost") (text "Thunderducks") (text "http://localhost:8788").

Definition credential_count (self : PasskeyRegistry) : nat := size (creds self).

Definition list_credentials `{HashIter} (self : PasskeyRegistry) : list StoredCredential :=
  map_values (creds self).

Definition set_challenges (self : PasskeyRegistry) (m : gmap (list byte) ChallengeRecord) :
    PasskeyRegistry :=
  mkPasskeyRegistry m (creds self) (rp_id self) (rp_name self) (origin self).
Definition set_creds (self : PasskeyRegistry) (m : gmap (list byte) StoredCredential) :
    PasskeyRegistry :=
  mkPasskeyRegistry (challenges self) m (rp_id self) (rp_name self) (origin self).

(** [raw] is the draw of [fill_bytes]. *)
Definition mint_challenge (self : PasskeyRegistry) (raw : bytes32) (purpose : ChallengePurpose)
    (user_handle : list byte) : list byte * PasskeyRegistry :=
  let ch := b64url (array_bytes raw) in
  (ch, set_challenges self (<[ch := mkChallengeRecord purpose user_handle]> (challenges self))).

Definition begin_registration (self : PasskeyRegistry) (handle : array 16) (raw : bytes32)
    (user_name display_name : list byte) : PublicKeyCredentialCreationOptions * PasskeyRegistry :=
  let '(challenge, self) := mint_challenge self raw Register (array_bytes handle) in
  ({| co_challenge := challenge;
      co_rp := mkRelyingParty (rp_id self) (rp_name self);
      co_user := mkUserEntity (b64url (array_bytes handle)) user_name display_name;
      co_pub_key_cred_params := [mkPubKeyCredParam (text "public-key") (-7)];
      co_timeout_ms := 60000;
      co_attestation := text "none" |}, self).

Definition b64url_decode (s : list byte) : result PasskeyError (list byte) :=
  map_err ErrCodec (base64_decode_config s true).

Definition parse_client_data (raw : list byte) : result PasskeyError ClientData :=
  map_err ErrClientData (client_data_from_slice raw).

(** [norm] and [host_of] of [origin_ok] *)
Definition norm (s : list byte) : list byte :=
  replace (text "https://127.0.0.1") (text "https://localhost")
    (replace (text "http://127.0.0.1") (text "http://localhost") s).
Definition host_of (s : list byte) : list byte :=
  before x3a (trim_start_matches (text "https://") (trim_start_matches (text "http://") s)).

Definition origin_ok (got expected : list byte) : bool :=
  if decide (got = expected) then true else
  let g := norm got in
  let e := norm expected in
  if decide (g = e) then true else
  bool_decide (host_of g = text "localhost") && bool_decide (host_of e = text "localhost").

(** The registration after its challenge was taken: what is stored. *)
Definition check_registration (self : PasskeyRegistry) (rec : ChallengeRecord)
    (challenge credential_id_b64 client_data_json_b64 authenticator_data_b64
     public_key_spki_b64 label : list byte) : result PasskeyError StoredCredential :=
  if decide (cr_purpose rec ≠ Register) then Err ChallengeMismatch else
  let? client_raw := b64url_decode client_data_json_b64 in
  let? client := parse_client_data client_raw in
  if decide (cd_challenge client ≠ challenge) then Err ChallengeMismatch else
  if decide (cd_type client ≠ text "webauthn.create")
  then Err (ErrClientData (text "expected webauthn.create, got " ++ cd_type client)) else
  if negb (origin_ok (cd_origin client) (origin self))
  then Err (ErrClientData (text "origin " ++ cd_origin client ++ text " not allowed for " ++
    origin self)) else
  let? auth_data := b64url_decode authenticator_data_b64 in
  if length auth_data <? 37 then Err (ErrAuthData (text "too short")) else
  let rp_hash := take 32 auth_data in
  if bool_decide (rp_hash ≠ sha256 (rp_id self)) &&
     bool_decide (rp_hash ≠ sha256 (text "127.0.0.1"))
  then Err (ErrAuthData (text "rpIdHash mismatch")) else
  let flags := nth 32 auth_data x00 in
  if (N.land (Byte.to_N flags) 1 =? 0)%N then Err (ErrAuthData (text "UP flag not set")) else
  let? cred_id := b64url_decode credential_id_b64 in
  let? spki := b64url_decode public_key_spki_b64 in
  let? _ := map_err ErrCodec (p256_from_der spki) in
  Ok {| sc_credential_id := cred_id;
        sc_public_key_spki := spki;
        sc_user_handle := cr_user_handle rec;
        sc_sign_count := 0;
        sc_label := label |}.

Definition finish_registration (self : PasskeyRegistry)
    (challenge credential_id_b64 client_data_json_b64 authenticator_data_b64
     public_key_spki_b64 label : list byte) :
    result PasskeyError StoredCredential * PasskeyRegistry :=
  match challenges self !! challenge with
  | None => (Err UnknownChallenge, self)
  | Some rec =>
    let self := set_challenges self (delete challenge (challenges self)) in
    match check_registration self rec challenge credential_id_b64 client_data_json_b64
      authenticator_data_b64 public_key_spki_b64 label with
    | Err e => (Err e, self)
    | Ok stored => (Ok stored, set_creds self (<[sc_credential_id stored := stored]> (creds self)))
    end
  end.

Definition begin_authentication `{HashIter} (self : PasskeyRegistry) (raw : bytes32) :
    PublicKeyCredentialRequestOptions * PasskeyRegistry :=
  let '(challenge, self) := mint_challenge self raw Authenticate [] in
  let allow := (λ id, mkAllowCredential (text "public-key") (b64url id)) <$> map_keys (creds self) in
  ({| qo_challenge := challenge;
      qo_rp_id := rp_id self;
      qo_timeout_ms := 60000;
      qo_allow_credentials := allow |}, self).

(** The message an assertion signs. *)
Definition assertion_message (auth_data client_raw : list byte) : list byte :=
  auth_data ++ sha256 client_raw.

(** The count an assertion leaves. *)
Definition next_sign_count (auth_data : list byte) (old : N) : N :=
  if 37 <=? length auth_data then
    let sc := from_be_bytes (take 4 (drop 33 auth_data)) in
    if (0 <? sc)%N then sc else old
  else old.

(** The assertion after its challenge was taken: the credential, updated. *)
Definition check_assertion (self : PasskeyRegistry) (rec : ChallengeRecord)
    (challenge credential_id_b64 client_data_json_b64 authenticator_data_b64
     signature_b64 : list byte) : result PasskeyError (list byte * StoredCredential) :=
  if decide (cr_purpose rec ≠ Authenticate) then Err ChallengeMismatch else
  let? client_raw := b64url_decode client_data_json_b64 in
  let? client := parse_client_data client_raw in
  if decide (cd_challenge client ≠ challenge) then Err ChallengeMismatch else
  if decide (cd_type client ≠ text "webauthn.get")
  then Err (ErrClientData (text "expected webauthn.get, got " ++ cd_type client)) else
  if negb (origin_ok (cd_origin client) (origin self))
  then Err (ErrClientData (text "origin " ++ cd_origin client ++ text " not allowed")) else
  let? cred_id := b64url_decode credential_id_b64 in
  let? cred := ok_or (creds self !! cred_id) UnknownCredential in
  let? auth_data := b64url_decode authenticator_data_b64 in
  let? sig := b64url_decode signature_b64 in
  let msg := assertion_message auth_data client_raw in
  let? vk := map_err ErrCodec (p256_from_der (sc_public_key_spki cred)) in
  let? signature := map_err ErrSignature
    (match sig_from_der sig with Ok s => Ok s | Err _ => sig_from_slice sig end) in
  let? _ := map_err ErrSignature (p256_verify vk msg signature) in
  Ok (cred_id, {| sc_credential_id := sc_credential_id cred;
                  sc_public_key_spki := sc_public_key_spki cred;
                  sc_user_handle := sc_user_handle cred;
                  sc_sign_count := next_sign_count auth_data (sc_sign_count cred);
                  sc_label := sc_label cred |}).

Definition finish_authentication (self : PasskeyRegistry)
    (challenge credential_id_b64 client_data_json_b64 authenticator_data_b64
     signature_b64 : list byte) : result PasskeyError (list byte) * PasskeyRegistry :=
  match challenges self !! challenge with
  | None => (Err UnknownChallenge, self)
  | Some rec =>
    let self := set_challenges self (delete challenge (challenges self)) in
    match check_assertion self rec challenge credential_id_b64 client_data_json_b64
      authenticator_data_b64 signature_b64 with
    | Err e => (Err e, self)
    | Ok (cred_id, cred) =>
      (Ok (b64url (sc_credential_id cred)), set_creds self (<[cred_id := cred]> (creds self)))
    end
  end.

(** ** Runs *)

(** The calls that create or consume challenges. *)
Inductive call : Type :=
| BeginReg (handle : array 16) (raw : bytes32) (user_name display_name : list byte)
| FinishReg (challenge cred_id client auth spki label : list byte)
| BeginAuth (raw : bytes32)
| FinishAuth (challenge cred_id client auth sig : list byte).

Context `{HI : HashIter}.

(** The registry after a call, and whether a finishing call succeeded. *)
Definition step (self : PasskeyRegistry) (c : call) : bool * PasskeyRegistry :=
  match c with
  | BeginReg handle raw u d => (false, (begin_registration self handle raw u d).2)
  | FinishReg ch i c a s l =>
    let '(r, self) := finish_registration self ch i c a s l in (is_ok r, self)
  | BeginAuth raw => (false, (begin_authentication self raw).2)
  | FinishAuth ch i c a s =>
    let '(r, self) := finish_authentication self ch i c a s in (is_ok r, self)
  end.

(** Whether the call mints, or finishes, the challenge [ch] for the purpose. *)
Definition mints (p : ChallengePurpose) (ch : list byte) (c : call) : bool :=
  match c, p with
  | BeginReg _ raw _ _, Register | BeginAuth raw, Authenticate =>
    bool_decide (b64url (array_bytes raw) = ch)
  | _, _ => false
  end.
Definition finishes (p : ChallengePurpose) (ch : list byte) (c : call) : bool :=
  match c, p with
  | FinishReg x _ _ _ _ _, Register | FinishAuth x _ _ _ _, Authenticate => bool_decide (x = ch)
  | _, _ => false
  end.

(** Successful uses of a challenge in a run. *)
Fixpoint uses (p : ChallengePurpose) (ch : list byte) (self : PasskeyRegistry) (l : list call) : nat :=
  match l with
  | [] => 0
  | c :: l =>
    let '(ok, self') := step self c in
    (if ok && finishes p ch c then 1 else 0) + uses p ch self' l
  end.

(** One when the challenge is outstanding for the purpose. *)
Definition outstanding (p : ChallengePurpose) (ch : list byte) (self : PasskeyRegistry) : nat :=
  match challenges self !! ch with
  | Some rec => if decide (cr_purpose rec = p) then 1 else 0
  | None => 0
  end.

(** ** Lemmas *)

Lemma check_registration_ok self rec ch i c a s l stored :
  check_registration self rec ch i c a s l = Ok stored →
  cr_purpose rec = Register ∧ ∃ client_raw client auth_data,
    b64url_decode c = Ok client_raw ∧ parse_client_data client_raw = Ok client ∧
    cd_challenge client = ch ∧ cd_type client = text "webauthn.create" ∧
    origin_ok (cd_origin client) (origin self) = true ∧
    b64url_decode a = Ok auth_data ∧ 37 ≤ length auth_data ∧
    (take 32 auth_data = sha256 (rp_id self) ∨ take 32 auth_data = sha256 (text "127.0.0.1")) ∧
    N.testbit (Byte.to_N (nth 32 auth_data x00)) 0 = true ∧
    b64url_decode i = Ok (sc_credential_id stored) ∧
    b64url_decode s = Ok (sc_public_key_spki stored) ∧
    is_ok (p256_from_der (sc_public_key_spki stored)) = true ∧
    sc_user_handle stored = cr_user_handle rec ∧ sc_sign_count stored = 0%N ∧ sc_label stored = l.
Proof.
  unfold check_registration. case_decide as Hp; [done|]. intros H.
  split; [done|].
  apply bind_ok_inv in H as (raw & Hraw & H). apply bind_ok_inv in H as (client & Hcl & H).
  case_decide; [done|]. case_decide; [done|].
  destruct (origin_ok _ _) eqn:Ho; [|done]. cbn [negb] in H.
  apply bind_ok_inv in H as (auth & Ha & H).
  destruct (Nat.ltb_spec (length auth) 37) as [|Hl]; [done|].
  destruct (bool_decide _ && bool_decide _) eqn:Hrp; [done|].
  destruct (N.eqb_spec (N.land (Byte.to_N (nth 32 auth x00)) 1) 0) as [|Hf]; [done|].
  apply bind_ok_inv in H as (cid & Hcid & H). apply bind_ok_inv in H as (spki & Hs & H).
  apply bind_ok_inv in H as (k & Hk%map_err_ok_inv & H). injection H as <-.
  exists raw, client, auth. cbn. rewrite Hk.
  assert (N.testbit (Byte.to_N (nth 32 auth x00)) 0 = true) as Hbit.
  { destruct (N.testbit _ 0) eqn:Hb; [done|]. destruct Hf. apply N.bits_inj. intros j.
    rewrite N.land_spec, N.bits_0. destruct j as [|j]; [by rewrite Hb|].
    by rewrite andb_comm; destruct j. }
  split_and!; try done.
  apply andb_false_iff in Hrp as [Hr|Hr]; apply bool_decide_eq_false, dec_stable in Hr; auto.
Qed.

Lemma check_assertion_ok self rec ch i c a s cred_id cred' :
  check_assertion self rec ch i c a s = Ok (cred_id, cred') →
  cr_purpose rec = Authenticate ∧ ∃ client_raw client auth_data sig cred vk signature,
    b64url_decode c = Ok client_raw ∧ parse_client_data client_raw = Ok client ∧
    cd_challenge client = ch ∧ cd_type client = text "webauthn.get" ∧
    origin_ok (cd_origin client) (origin self) = true ∧
    b64url_decode i = Ok cred_id ∧ creds self !! cred_id = Some cred ∧
    b64url_decode a = Ok auth_data ∧ b64url_decode s = Ok sig ∧
    p256_from_der (sc_public_key_spki cred) = Ok vk ∧
    (sig_from_der sig = Ok signature ∨ sig_from_slice sig = Ok signature) ∧
    p256_verify vk (assertion_message auth_data client_raw) signature = Ok tt ∧
    cred' = mkStoredCredential (sc_credential_id cred) (sc_public_key_spki cred)
      (sc_user_handle cred) (next_sign_count auth_data (sc_sign_count cred)) (sc_label cred).
Proof.
  unfold check_assertion. case_decide as Hp; [done|]. intros H.
  split; [done|].
  apply bind_ok_inv in H as (raw & Hraw & H). apply bind_ok_inv in H as (client & Hcl & H).
  case_decide; [done|]. case_decide; [done|].
  destruct (origin_ok _ _) eqn:Ho; [|done]. cbn [negb] in H.
  apply bind_ok_inv in H as (cid & Hcid & H).
  apply bind_ok_inv in H as (cred & Hcred%ok_or_ok_inv & H).
  apply bind_ok_inv in H as (auth & Ha & H). apply bind_ok_inv in H as (sg & Hs & H).
  apply bind_ok_inv in H as (vk & Hvk%map_err_ok_inv & H).
  apply bind_ok_inv in H as (sgn & Hsgn%map_err_ok_inv & H).
  apply bind_ok_inv in H as ([] & Hv%map_err_ok_inv & H). injection H as <- <-.
  exists raw, client, auth, sg, cred, vk, sgn. split_and!; try done.
  destruct (sig_from_der sg); [left|right]; congruence.
Qed.

Lemma finish_challenges self c :
  challenges (step self c).2 =
    match c with
    | BeginReg handle raw _ _ =>
      <[b64url (array_bytes raw) := mkChallengeRecord Register (array_bytes handle)]> (challenges self)
    | BeginAuth raw =>
      <[b64url (array_bytes raw) := mkChallengeRecord Authenticate []]> (challenges self)
    | FinishReg ch _ _ _ _ _ | FinishAuth ch _ _ _ _ => delete ch (challenges self)
    end.
Proof.
  destruct c; cbn; [done| |done|].
  - unfold finish_registration. destruct (challenges self !! challenge) eqn:Hc; cbn.
    + by destruct (check_registration _ _ _ _ _ _ _ _).
    + by rewrite delete_id.
  - unfold finish_authentication. destruct (challenges self !! challenge) eqn:Hc; cbn.
    + by destruct (check_assertion _ _ _ _ _ _ _) as [[]|].
    + by rewrite delete_id.
Qed.

(** Every credential is stored under its identifier. *)
Definition creds_keyed (self : PasskeyRegistry) : Prop :=
  map_Forall (λ id cred, sc_credential_id cred = id) (creds self).

Lemma step_keyed self c : creds_keyed self → creds_keyed (step self c).2.
Proof.
  intros Hk. destruct c; cbn; [done| |done|].
  - unfold finish_registration. destruct (challenges self !! challenge) as [rec|]; [|done].
    destruct (check_registration _ _ _ _ _ _ _ _); [|done]. by apply map_Forall_insert_2.
  - unfold finish_authentication. destruct (challenges self !! challenge) as [rec|]; [|done].
    destruct (check_assertion _ _ _ _ _ _ _) as [[id cred]|] eqn:Hc; [|done].
    apply check_assertion_ok in Hc as (_ & ? & ? & ? & ? & old & ? & ? & Hc).
    destruct Hc as (_ & _ & _ & _ & _ & _ & Hl & _ & _ & _ & _ & _ & ->).
    apply map_Forall_insert_2; [|done]. exact (Hk id old Hl).
Qed.

Lemma step_use p ch self c :
  (step self c).1 && finishes p ch c = true → outstanding p ch self = 1.
Proof.
  intros [Hok Hf]%andb_true_iff. destruct c, p; try done; cbn in *;
    apply bool_decide_eq_true in Hf as ->; unfold outstanding.
  - unfold finish_registration in Hok. destruct (challenges self !! ch) as [rec|]; [|done].
    destruct (check_registration _ _ _ _ _ _ _ _) eqn:Hc; [|done].
    apply check_registration_ok in Hc as [-> _]. done.
  - unfold finish_authentication in Hok. destruct (challenges self !! ch) as [rec|]; [|done].
    destruct (check_assertion _ _ _ _ _ _ _) as [[]|] eqn:Hc; [|done].
    apply check_assertion_ok in Hc as [-> _]. done.
Qed.

(** What a call does to the outstanding challenge. *)
Lemma step_outstanding p ch self c :
  (if (step self c).1 && finishes p ch c then 1 else 0) + outstanding p ch (step self c).2 ≤
  outstanding p ch self + (if mints p ch c then 1 else 0).
Proof.
  pose proof (step_use p ch self c) as Huse. destruct ((step self c).1 && finishes p ch c) eqn:Hu.
  - specialize (Huse eq_refl). apply andb_true_iff in Hu as [_ Hf].
    unfold outstanding at 1. rewrite finish_challenges.
    destruct c, p; try done; cbn in Hf; apply bool_decide_eq_true in Hf as ->;
      rewrite lookup_delete_eq; lia.
  - clear Huse Hu. unfold outstanding at 1. rewrite finish_challenges. unfold mints, outstanding.
    destruct c as [h raw u d|x i c a s l|raw|x i c a s]; cbn.
    + destruct (decide (b64url (array_bytes raw) = ch)) as [He|He].
      * rewrite He, lookup_insert_eq. destruct p; [|rewrite decide_False by done; lia].
        rewrite bool_decide_eq_true_2, decide_True by done. lia.
      * rewrite lookup_insert_ne by done. lia.
    + destruct (decide (x = ch)) as [->|]; [rewrite lookup_delete_eq|rewrite lookup_delete_ne by done]; lia.
    + destruct (decide (b64url (array_bytes raw) = ch)) as [He|He].
      * rewrite He, lookup_insert_eq. destruct p; [rewrite decide_False by done; lia|].
        rewrite bool_decide_eq_true_2, decide_True by done. lia.
      * rewrite lookup_insert_ne by done. lia.
    + destruct (decide (x = ch)) as [->|]; [rewrite lookup_delete_eq|rewrite lookup_delete_ne by done]; lia.
Qed.

(** The stored counter does not decide whether an assertion is accepted. *)
Lemma sign_count_unchecked self self' rec ch i c a s :
  origin self' = origin self →
  (∀ id, (λ k, (sc_credential_id k, sc_public_key_spki k)) <$> creds self' !! id =
         (λ k, (sc_credential_id k, sc_public_key_spki k)) <$> creds self !! id) →
  is_ok (check_assertion self' rec ch i c a s) = is_ok (check_assertion self rec ch i c a s).
Proof.
  intros Ho Hc. unfold check_assertion. rewrite Ho.
  case_decide; [done|]. destruct (b64url_decode c) as [raw|]; cbn; [|done].
  destruct (parse_client_data raw) as [client|]; cbn; [|done].
  case_decide; [done|]. case_decide; [done|]. destruct (negb _); [done|].
  destruct (b64url_decode i) as [cid|]; cbn; [|done]. specialize (Hc cid).
  destruct (creds self' !! cid), (creds self !! cid); cbn in *; try done.
  injection Hc as Hid Hk. rewrite Hk.
  destruct (b64url_decode a); cbn; [|done]. destruct (b64url_decode s); cbn; [|done].
  destruct (p256_from_der _); cbn; [|done]. destruct (map_err _ _); cbn; [|done].
  by destruct (map_err _ _).
Qed.

(** ** Theorems *)

(** Challenges are single use: in any run, from a registry with no open
    challenge, the successful registrations (authentications) under a challenge
    are at most the times it was minted for registration (authentication),
    whatever calls come in between, failed ones included. *)
Lemma challenge_single_use (self : PasskeyRegistry) (l : list call) (p : ChallengePurpose)
    (ch : list byte) :
  challenges self = ∅ → uses p ch self l ≤ length (List.filter (mints p ch) l).
Proof.
  intros H0. assert (uses p ch self l ≤ outstanding p ch self + length (List.filter (mints p ch) l)) as H.
  { clear H0. revert self. induction l as [|c l IH]; intros self; cbn [uses]; [lia|].
    pose proof (step_outstanding p ch self c) as Hs.
    destruct (step self c) as [ok self']; cbn [fst snd] in Hs. specialize (IH self').
    cbn [List.filter]. destruct (mints p ch c); cbn [length] in *; lia. }
  assert (outstanding p ch self = 0) as Ho by (unfold outstanding; by rewrite H0, lookup_empty).
  lia.
Qed.

(** C29: authentication is sound and takes the challenge in every case: success
    means the challenge was open for authentication, the client data repeats it
    with the right type and an allowed origin, and the stored key of the named
    credential signed the authenticator data and the hash of the client data; only
    that credential's counter changes.  A failure changes nothing but the
    challenge. *)
Theorem authentication_sound (self : PasskeyRegistry) (ch i c a s : list byte) :
  let '(r, self') := finish_authentication self ch i c a s in
  challenges self' = delete ch (challenges self) ∧
  match r with
  | Err _ => creds self' = creds self
  | Ok id => ∃ rec client_raw client auth_data sig cred_id cred vk signature,
      challenges self !! ch = Some rec ∧ cr_purpose rec = Authenticate ∧
      b64url_decode c = Ok client_raw ∧ parse_client_data client_raw = Ok client ∧
      cd_challenge client = ch ∧ cd_type client = text "webauthn.get" ∧
      origin_ok (cd_origin client) (origin self) = true ∧
      b64url_decode i = Ok cred_id ∧ creds self !! cred_id = Some cred ∧
      id = b64url (sc_credential_id cred) ∧
      b64url_decode a = Ok auth_data ∧ b64url_decode s = Ok sig ∧
      p256_from_der (sc_public_key_spki cred) = Ok vk ∧
      (sig_from_der sig = Ok signature ∨ sig_from_slice sig = Ok signature) ∧
      p256_verify vk (auth_data ++ sha256 client_raw) signature = Ok tt ∧
      creds self' = <[cred_id := mkStoredCredential (sc_credential_id cred)
        (sc_public_key_spki cred) (sc_user_handle cred)
        (next_sign_count auth_data (sc_sign_count cred)) (sc_label cred)]> (creds self)
  end.
Proof.
  pose proof (finish_challenges self (FinishAuth ch i c a s)) as Hch. cbn in Hch.
  unfold finish_authentication in *.
  destruct (challenges self !! ch) as [rec|] eqn:Hrec; [|by rewrite delete_id].
  destruct (check_assertion _ _ _ _ _ _ _) as [[cred_id cred']|e] eqn:Hca; cbn; [|done].
  split; [done|]. apply check_assertion_ok in Hca
    as (Hp & raw & client & auth & sg & cred & vk & sgn & Hall).
  destruct Hall as (? & ? & ? & ? & ? & ? & ? & ? & ? & ? & ? & ? & ->).
  exists rec, raw, client, auth, sg, cred_id, cred, vk, sgn. by split_and!.
Qed.

(** Registration is sound and takes the challenge in every case: success
    means an open registration challenge, matching client data from an allowed
    origin, authenticator data for the relying party with user presence, and a
    parseable key; the credential is stored with the user handle of the challenge
    and counter zero.  A failure changes nothing but the challenge. *)
Lemma registration_sound (self : PasskeyRegistry) (ch i c a s l : list byte) :
  let '(r, self') := finish_registration self ch i c a s l in
  challenges self' = delete ch (challenges self) ∧
  match r with
  | Err _ => creds self' = creds self
  | Ok stored => ∃ rec client_raw client auth_data,
      challenges self !! ch = Some rec ∧ cr_purpose rec = Register ∧
      b64url_decode c = Ok client_raw ∧ parse_client_data client_raw = Ok client ∧
      cd_challenge client = ch ∧ cd_type client = text "webauthn.create" ∧
      origin_ok (cd_origin client) (origin self) = true ∧
      b64url_decode a = Ok auth_data ∧ 37 ≤ length auth_data ∧
      (take 32 auth_data = sha256 (rp_id self) ∨ take 32 auth_data = sha256 (text "127.0.0.1")) ∧
      N.testbit (Byte.to_N (nth 32 auth_data x00)) 0 = true ∧
      b64url_decode i = Ok (sc_credential_id stored) ∧
      b64url_decode s = Ok (sc_public_key_spki stored) ∧
      is_ok (p256_from_der (sc_public_key_spki stored)) = true ∧
      sc_user_handle stored = cr_user_handle rec ∧ sc_sign_count stored = 0%N ∧
      sc_label stored = l ∧
      creds self' = <[sc_credential_id stored := stored]> (creds self)
  end.
Proof.
  pose proof (finish_challenges self (FinishReg ch i c a s l)) as Hch. cbn in Hch.
  unfold finish_registration in *.
  destruct (challenges self !! ch) as [rec|] eqn:Hrec; [|by rewrite delete_id].
  destruct (check_registration _ _ _ _ _ _ _ _) as [stored|e] eqn:Hca; cbn; [|done].
  split; [done|]. apply check_registration_ok in Hca as (Hp & raw & client & auth & Hall).
  exists rec, raw, client, auth. cbn [rp_id origin set_challenges] in Hall.
  decompose [and] Hall. split_and!; done.
Qed.

End passkey.
