(* ===== verification/E2ee.v ===== *)
(** * End-to-end encryption state ([crates/td-crypto/src/e2ee.rs])

    A device's Olm account, its Olm sessions with other devices and its Megolm
    sessions.  The [vodozemac] crate is a parameter: its types and operations are
    the fields of [Vodozemac], what its documentation promises of Megolm sessions
    and pickles is [VodozemacLaws].  A random draw is an argument of type
    [Seed]. *)

From S2P Require Import Prelude Text Crypto Event.

(** ** The [vodozemac] crate *)

Class VodozemacTypes : Type := {
  Seed : Type;
  Account : Type;
  Curve25519PublicKey : Type;
  OlmSession : Type;
  PreKeyMessage : Type;
  NormalMessage : Type;
  GroupSession : Type;
  InboundGroupSession : Type;
  SessionKey : Type;
  MegolmMessage : Type;
}.

Inductive OlmMessage `{VodozemacTypes} : Type :=
| PreKey (m : PreKeyMessage)
| Normal (m : NormalMessage).

(** Errors are the texts of their [Display]; [pickle] is [pickle().encrypt(key)]
    and [unpickle] is [from_encrypted] followed by [from_pickle]. *)
Class Vodozemac : Type := {
  voz_types :: VodozemacTypes;
  account_new : Seed → Account;
  generate_one_time_keys : Account → nat → Seed → Account;
  (** the unpublished keys, in the order of the map *)
  one_time_keys : Account → list Curve25519PublicKey;
  mark_keys_as_published : Account → Account;
  curve25519_key : Account → Curve25519PublicKey;
  curve_to_base64 : Curve25519PublicKey → list byte;
  curve_from_base64 : list byte → option Curve25519PublicKey;
  create_outbound_session : Account → Curve25519PublicKey → Curve25519PublicKey → Seed →
    result (list byte) OlmSession;
  create_inbound_session : Account → Curve25519PublicKey → PreKeyMessage →
    result (list byte) (OlmSession * list byte) * Account;
  session_encrypt : OlmSession → list byte → Seed → result (list byte) OlmMessage * OlmSession;
  session_decrypt : OlmSession → OlmMessage → result (list byte) (list byte) * OlmSession;
  olm_message_to_json : OlmMessage → result (list byte) (list byte);
  olm_message_from_json : list byte → result (list byte) OlmMessage;
  group_new : Seed → GroupSession;
  group_id : GroupSession → list byte;
  group_index : GroupSession → N;
  group_key : GroupSession → SessionKey;
  group_encrypt : GroupSession → list byte → MegolmMessage * GroupSession;
  session_key_to_base64 : SessionKey → list byte;
  session_key_from_base64 : list byte → result (list byte) SessionKey;
  inbound_new : SessionKey → InboundGroupSession;
  inbound_id : InboundGroupSession → list byte;
  inbound_decrypt : InboundGroupSession → MegolmMessage →
    result (list byte) (list byte) * InboundGroupSession;
  megolm_to_base64 : MegolmMessage → list byte;
  megolm_from_base64 : list byte → result (list byte) MegolmMessage;
  account_pickle : Account → bytes32 → list byte;
  account_unpickle : list byte → bytes32 → result (list byte) Account;
  session_pickle : OlmSession → bytes32 → list byte;
  session_unpickle : list byte → bytes32 → result (list byte) OlmSession;
  group_pickle : GroupSession → bytes32 → list byte;
  group_unpickle : list byte → bytes32 → result (list byte) GroupSession;
  inbound_pickle : InboundGroupSession → bytes32 → list byte;
  inbound_unpickle : list byte → bytes32 → result (list byte) InboundGroupSession;
}.

Class VodozemacLaws `{!Vodozemac} : Type := {
  account_pickled a k : account_unpickle (account_pickle a k) k = Ok a;
  session_pickled s k : session_unpickle (session_pickle s k) k = Ok s;
  group_pickled g k : group_unpickle (group_pickle g k) k = Ok g;
  inbound_pickled i k : inbound_unpickle (inbound_pickle i k) k = Ok i;
  session_key_text k : session_key_from_base64 (session_key_to_base64 k) = Ok k;
  megolm_text m : megolm_from_base64 (megolm_to_base64 m) = Ok m;
  (** The ratchet a Megolm session and its readers share, and the index from
      which a reader can decrypt. *)
  Ratchet : Type;
  group_ratchet : GroupSession → Ratchet;
  inbound_ratchet : InboundGroupSession → Ratchet;
  inbound_first : InboundGroupSession → N;
  inbound_new_spec g :
    inbound_ratchet (inbound_new (group_key g)) = group_ratchet g ∧
    inbound_first (inbound_new (group_key g)) = group_index g ∧
    inbound_id (inbound_new (group_key g)) = group_id g;
  group_encrypt_spec g p :
    let g' := (group_encrypt g p).2 in
    group_ratchet g' = group_ratchet g ∧ group_id g' = group_id g ∧
    ((group_index g + 1 < 2 ^ 32)%N → group_index g' = (group_index g + 1)%N);
  inbound_decrypt_spec i m :
    let i' := (inbound_decrypt i m).2 in
    inbound_ratchet i' = inbound_ratchet i ∧ inbound_first i' = inbound_first i;
  (** A reader that holds the ratchet from the message's index on decrypts it. *)
  megolm_correct i g p :
    inbound_ratchet i = group_ratchet g → (inbound_first i ≤ group_index g)%N →
    (group_index g + 1 < 2 ^ 32)%N →
    (inbound_decrypt i (group_encrypt g p).1).1 = Ok p;
}.

(** Olm: two ends of one session; each message is decrypted by the other end and
    leaves the ends in step. *)
Class OlmLaws `{!Vodozemac} : Type := {
  paired : OlmSession → OlmSession → Prop;
  olm_correct s s' p seed m : paired s s' → (session_encrypt s p seed).1 = Ok m →
    (session_decrypt s' m).1 = Ok p ∧
    paired (session_encrypt s p seed).2 (session_decrypt s' m).2;
  olm_message_text m j : olm_message_to_json m = Ok j → olm_message_from_json j = Ok m;
}.

(** Olm: the start of a session.  An account that published its keys opens the first
    message of a session made for them, a pre-key message, and has the other end. *)
Class OlmStartLaws `{!Vodozemac, !OlmLaws} : Prop := {
  curve_text k : curve_from_base64 (curve_to_base64 k) = Some k;
  published_identity a : curve25519_key (mark_keys_as_published a) = curve25519_key a;
  olm_start a b otk s seed p seed' m :
    otk ∈ one_time_keys b →
    create_outbound_session a (curve25519_key b) otk seed = Ok s →
    (session_encrypt s p seed').1 = Ok m →
    ∃ pre s', m = PreKey pre ∧
      (create_inbound_session (mark_keys_as_published b) (curve25519_key a) pre).1 = Ok (s', p) ∧
      paired (session_encrypt s p seed').2 s';
}.

(** ** Data *)

Inductive E2eeError : Type :=
| SessionCreation (s : list byte)
| E2eeEncrypt (s : list byte)
| E2eeDecrypt (s : list byte)
| MissingOlm (d : DeviceId)
| MissingMegolm (s : list byte)
| E2eeInvalidKey
| E2eeCodec (s : list byte)
| E2eeSerde
| Pickle (s : list byte).

Record RoomOutboundPackage : Type := mkRoomOutboundPackage {
  ro_v : N;
  ro_room_id : list byte;
  ro_session_id : list byte;
  ro_message_index : N;
  ro_pickle_b64 : list byte;
  ro_session_key_b64 : list byte;
  ro_owner_device : DeviceId;
}.

Definition ROOM_PICKLE_KEY : bytes32 :=
  Array (n:=32) (text "td-room-outbound-pickle-v1!!!!!!") eq_refl.

Record OlmDeviceKeys : Type := mkOlmDeviceKeys {
  ok_device_id : DeviceId;
  ok_curve25519_b64 : list byte;
  ok_one_time_key_b64 : list byte;
}.

Record OlmCiphertext : Type := mkOlmCiphertext {
  oc_sender_device : DeviceId;
  oc_recipient_device : DeviceId;
  oc_message_json : list byte;
}.

Record MegolmCiphertext : Type := mkMegolmCiphertext {
  mc_sender_device : DeviceId;
  mc_session_id : list byte;
  mc_ciphertext_b64 : list byte;
}.

Record OlmSessionDurable : Type := mkOlmSessionDurable {
  od_peer_device : list byte;
  od_pickle_b64 : list byte;
}.
Record MegolmOutboundDurable : Type := mkMegolmOutboundDurable {
  mo_room_id : list byte;
  mo_session_id : list byte;
  mo_pickle_b64 : list byte;
}.
Record MegolmInboundDurable : Type := mkMegolmInboundDurable {
  mi_session_id : list byte;
  mi_pickle_b64 : list byte;
}.
Record E2eeDurablePackage : Type := mkE2eeDurablePackage {
  dp_v : N;
  dp_device_id : list byte;
  dp_account_b64 : list byte;
  dp_olm : list OlmSessionDurable;
  dp_outbound : list MegolmOutboundDurable;
  dp_inbound : list MegolmInboundDurable;
}.

Section e2ee.
Context `{VZ : Vodozemac, HX : Hex}.

Record E2eeDevice : Type := mkE2eeDevice {
  ed_device_id : DeviceId;
  ed_account : Account;
  olm_sessions : gmap DeviceId OlmSession;
  outbound_megolm : gmap (list byte) GroupSession;
  inbound_megolm : gmap (list byte) InboundGroupSession;
}.

Definition set_account (d : E2eeDevice) (a : Account) : E2eeDevice :=
  mkE2eeDevice (ed_device_id d) a (olm_sessions d) (outbound_megolm d) (inbound_megolm d).
Definition set_olm (d : E2eeDevice) (m : gmap DeviceId OlmSession) : E2eeDevice :=
  mkE2eeDevice (ed_device_id d) (ed_account d) m (outbound_megolm d) (inbound_megolm d).
Definition set_outbound (d : E2eeDevice) (m : gmap (list byte) GroupSession) : E2eeDevice :=
  mkE2eeDevice (ed_device_id d) (ed_account d) (olm_sessions d) m (inbound_megolm d).
Definition set_inbound (d : E2eeDevice) (m : gmap (list byte) InboundGroupSession) : E2eeDevice :=
  mkE2eeDevice (ed_device_id d) (ed_account d) (olm_sessions d) (outbound_megolm d) m.

(** ** Olm *)

Definition E2eeDevice_new (s s' : Seed) (device_id : DeviceId) : E2eeDevice :=
  mkE2eeDevice device_id (generate_one_time_keys (account_new s) 10 s') ∅ ∅ ∅.

Definition publish_keys (self : E2eeDevice) (s : Seed) :
    result E2eeError OlmDeviceKeys * E2eeDevice :=
  let self :=
    match one_time_keys (ed_account self) with
    | [] => set_account self (generate_one_time_keys (ed_account self) 10 s)
    | _ :: _ => self
    end in
  match one_time_keys (ed_account self) with
  | [] => (Err (SessionCreation (text "no one-time keys")), self)
  | otk :: _ =>
    let self := set_account self (mark_keys_as_published (ed_account self)) in
    (Ok {| ok_device_id := ed_device_id self;
           ok_curve25519_b64 := curve_to_base64 (curve25519_key (ed_account self));
           ok_one_time_key_b64 := curve_to_base64 otk |}, self)
  end.

Definition parse_curve (b64 : list byte) : result E2eeError Curve25519PublicKey :=
  ok_or (curve_from_base64 b64) E2eeInvalidKey.

Definition has_olm_session (self : E2eeDevice) (peer : DeviceId) : bool :=
  match olm_sessions self !! peer with Some _ => true | None => false end.

Definition establish_olm_outbound (self : E2eeDevice) (their : OlmDeviceKeys) (s : Seed) :
    result E2eeError unit * E2eeDevice :=
  if has_olm_session self (ok_device_id their) then (Ok tt, self) else
  match
    (let? id_key := parse_curve (ok_curve25519_b64 their) in
     let? otk := parse_curve (ok_one_time_key_b64 their) in
     map_err SessionCreation (create_outbound_session (ed_account self) id_key otk s))
  with
  | Err e => (Err e, self)
  | Ok session =>
    (Ok tt, set_olm self (<[ok_device_id their := session]> (olm_sessions self)))
  end.

Definition olm_encrypt (self : E2eeDevice) (to : DeviceId) (plaintext : list byte) (s : Seed) :
    result E2eeError OlmCiphertext * E2eeDevice :=
  match olm_sessions self !! to with
  | None => (Err (MissingOlm to), self)
  | Some session =>
    let '(r, session) := session_encrypt session plaintext s in
    let self := set_olm self (<[to := session]> (olm_sessions self)) in
    (let? msg := map_err E2eeEncrypt r in
     let? message_json := map_err E2eeCodec (olm_message_to_json msg) in
     Ok {| oc_sender_device := ed_device_id self;
           oc_recipient_device := to;
           oc_message_json := message_json |}, self)
  end.

Definition olm_decrypt (self : E2eeDevice) (their_identity_b64 : list byte) (ct : OlmCiphertext) :
    result E2eeError (list byte) * E2eeDevice :=
  if decide (oc_recipient_device ct ≠ ed_device_id self)
  then (Err (E2eeDecrypt (text "not addressed to this device")), self) else
  match map_err E2eeCodec (olm_message_from_json (oc_message_json ct)) with
  | Err e => (Err e, self)
  | Ok msg =>
    match olm_sessions self !! oc_sender_device ct with
    | Some session =>
      let '(r, session) := session_decrypt session msg in
      (map_err E2eeDecrypt r,
       set_olm self (<[oc_sender_device ct := session]> (olm_sessions self)))
    | None =>
      match msg with
      | PreKey prekey =>
        match parse_curve their_identity_b64 with
        | Err e => (Err e, self)
        | Ok their_id =>
          let '(r, account) := create_inbound_session (ed_account self) their_id prekey in
          let self := set_account self account in
          match map_err SessionCreation r with
          | Err e => (Err e, self)
          | Ok (session, plaintext) =>
            (Ok plaintext,
             set_olm self (<[oc_sender_device ct := session]> (olm_sessions self)))
          end
        end
      | Normal _ => (Err (MissingOlm (oc_sender_device ct)), self)
      end
    end
  end.

(** ** Megolm *)

Definition group_session_id (self : E2eeDevice) (room_key : list byte) : option (list byte) :=
  group_id <$> outbound_megolm self !! room_key.

Definition has_outbound (self : E2eeDevice) (room_key : list byte) : bool :=
  match outbound_megolm self !! room_key with Some _ => true | None => false end.

Definition group_message_index (self : E2eeDevice) (room_key : list byte) : option N :=
  group_index <$> outbound_megolm self !! room_key.

Definition create_group_session (self : E2eeDevice) (room_key : list byte) (s : Seed) :
    list byte * E2eeDevice :=
  match group_session_id self room_key with
  | Some sid => (sid, self)
  | None =>
    let session := group_new s in
    let sid := group_id session in
    let self := set_outbound self (<[room_key := session]> (outbound_megolm self)) in
    match outbound_megolm self !! room_key with
    | Some out =>
      let key := group_key out in
      let inbound := inbound_new key in
      (sid, set_inbound self (<[sid := inbound]> (inbound_megolm self)))
    | None => (sid, self)
    end
  end.

Definition export_group_session_key (self : E2eeDevice) (room_key : list byte) :
    result E2eeError (list byte) :=
  let? out := ok_or (outbound_megolm self !! room_key) (MissingMegolm room_key) in
  Ok (session_key_to_base64 (group_key out)).

Definition export_room_outbound (self : E2eeDevice) (room_key : list byte) :
    result E2eeError RoomOutboundPackage :=
  let? out := ok_or (outbound_megolm self !! room_key) (MissingMegolm room_key) in
  let pickle_b64 := group_pickle out ROOM_PICKLE_KEY in
  Ok {| ro_v := 1;
        ro_room_id := room_key;
        ro_session_id := group_id out;
        ro_message_index := group_index out;
        ro_pickle_b64 := pickle_b64;
        ro_session_key_b64 := session_key_to_base64 (group_key out);
        ro_owner_device := ed_device_id self |}.

Definition import_group_session_key (self : E2eeDevice) (session_key_b64 : list byte) :
    result E2eeError (list byte) * E2eeDevice :=
  match map_err E2eeCodec (session_key_from_base64 session_key_b64) with
  | Err e => (Err e, self)
  | Ok key =>
    let inbound := inbound_new key in
    let sid := inbound_id inbound in
    (Ok sid,
     match inbound_megolm self !! sid with
     | Some _ => self
     | None => set_inbound self (<[sid := inbound]> (inbound_megolm self))
     end)
  end.

Definition import_room_outbound (self : E2eeDevice) (pkg : RoomOutboundPackage) :
    result E2eeError (list byte) * E2eeDevice :=
  if decide (ro_v pkg ≠ 1%N)
  then (Err (E2eeCodec (text "unsupported room outbound v=" ++ dec (ro_v pkg))), self) else
  match import_group_session_key self (ro_session_key_b64 pkg) with
  | (Err e, self) => (Err e, self)
  | (Ok _, self) =>
    match map_err Pickle (group_unpickle (ro_pickle_b64 pkg) ROOM_PICKLE_KEY) with
    | Err e => (Err e, self)
    | Ok session =>
      if decide (group_id session ≠ ro_session_id pkg)
      then (Err (E2eeCodec (text "pickle session_id mismatch")), self) else
      match outbound_megolm self !! ro_room_id pkg with
      | Some local =>
        if decide (group_id local ≠ ro_session_id pkg) then (Ok (group_id local), self)
        else if (ro_message_index pkg <? group_index local)%N then (Ok (group_id local), self)
        else (Ok (ro_session_id pkg),
              set_outbound self (<[ro_room_id pkg := session]> (outbound_megolm self)))
      | None =>
        (Ok (ro_session_id pkg),
         set_outbound self (<[ro_room_id pkg := session]> (outbound_megolm self)))
      end
    end
  end.

Definition megolm_encrypt (self : E2eeDevice) (room_key plaintext : list byte) :
    result E2eeError MegolmCiphertext * E2eeDevice :=
  match outbound_megolm self !! room_key with
  | None => (Err (MissingMegolm room_key), self)
  | Some out =>
    let '(msg, out) := group_encrypt out plaintext in
    (Ok {| mc_sender_device := ed_device_id self;
           mc_session_id := group_id out;
           mc_ciphertext_b64 := megolm_to_base64 msg |},
     set_outbound self (<[room_key := out]> (outbound_megolm self)))
  end.

Definition megolm_decrypt (self : E2eeDevice) (ct : MegolmCiphertext) :
    result E2eeError (list byte) * E2eeDevice :=
  match inbound_megolm self !! mc_session_id ct with
  | None => (Err (MissingMegolm (mc_session_id ct)), self)
  | Some inbound =>
    match map_err E2eeCodec (megolm_from_base64 (mc_ciphertext_b64 ct)) with
    | Err e => (Err e, self)
    | Ok msg =>
      let '(r, inbound) := inbound_decrypt inbound msg in
      (map_err E2eeDecrypt r,
       set_inbound self (<[mc_session_id ct := inbound]> (inbound_megolm self)))
    end
  end.

Definition curve25519_b64 (self : E2eeDevice) : list byte :=
  curve_to_base64 (curve25519_key (ed_account self)).

(** The loop of [fanout_megolm_key]; the [k]-th encryption draws [seeds k]. *)
Fixpoint fanout_loop (sender : E2eeDevice) (session_key : list byte) (seeds : nat → Seed)
    (k : nat) (recipients : list DeviceId) (out : list OlmCiphertext) :
    result E2eeError (list OlmCiphertext) * E2eeDevice :=
  match recipients with
  | [] => (Ok out, sender)
  | rid :: recipients =>
    if decide (rid = ed_device_id sender)
    then fanout_loop sender session_key seeds k recipients out
    else
      match olm_encrypt sender rid session_key (seeds k) with
      | (Err e, sender) => (Err e, sender)
      | (Ok ct, sender) => fanout_loop sender session_key seeds (S k) recipients (out ++ [ct])
      end
  end.

Definition fanout_megolm_key (sender : E2eeDevice) (room_key : list byte) (seeds : nat → Seed)
    (recipients : list DeviceId) : result E2eeError (list OlmCiphertext) * E2eeDevice :=
  match export_group_session_key sender room_key with
  | Err e => (Err e, sender)
  | Ok session_key => fanout_loop sender session_key seeds 0 recipients []
  end.

(** ** The durable package *)

Definition export_durable `{HashIter} (self : E2eeDevice) : result E2eeError E2eeDurablePackage :=
  let key := ROOM_PICKLE_KEY in
  Ok {| dp_v := 1;
        dp_device_id := hex_encode (array_bytes (DeviceId_0 (ed_device_id self)));
        dp_account_b64 := account_pickle (ed_account self) key;
        dp_olm := (λ '(peer, sess), mkOlmSessionDurable
          (hex_encode (array_bytes (DeviceId_0 peer))) (session_pickle sess key)) <$>
          map_iter (olm_sessions self);
        dp_outbound := (λ '(room, sess), mkMegolmOutboundDurable room (group_id sess)
          (group_pickle sess key)) <$> map_iter (outbound_megolm self);
        dp_inbound := (λ '(sid, sess), mkMegolmInboundDurable sid
          (inbound_pickle sess key)) <$> map_iter (inbound_megolm self) |}.

Definition parse_device_hex (s : list byte) : result E2eeError DeviceId :=
  let? bytes := map_err E2eeCodec (hex_decode s) in
  match try_into_array 32 bytes with
  | None => Err (E2eeCodec (text "device id want 32 bytes, got " ++ dec (N.of_nat (length bytes))))
  | Some a => Ok (mkDeviceId a)
  end.

(** A loop that inserts what each element gives. *)
Fixpoint collect {A K V} `{Countable K} (f : A → result E2eeError (K * V)) (l : list A)
    (m : gmap K V) : result E2eeError (gmap K V) :=
  match l with
  | [] => Ok m
  | a :: l => let? '(k, v) := f a in collect f l (<[k := v]> m)
  end.

Definition import_durable (device_id : DeviceId) (pkg : E2eeDurablePackage) :
    result E2eeError E2eeDevice :=
  if decide (dp_v pkg ≠ 1%N)
  then Err (E2eeCodec (text "unsupported e2ee durable v=" ++ dec (dp_v pkg))) else
  let want := hex_encode (array_bytes (DeviceId_0 device_id)) in
  if decide (dp_device_id pkg ≠ want)
  then Err (E2eeCodec (text "e2ee durable device_id mismatch")) else
  let key := ROOM_PICKLE_KEY in
  let? account := map_err Pickle (account_unpickle (dp_account_b64 pkg) key) in
  let? olm := collect (λ o,
    let? peer := parse_device_hex (od_peer_device o) in
    let? sess := map_err Pickle (session_unpickle (od_pickle_b64 o) key) in
    Ok (peer, sess)) (dp_olm pkg) ∅ in
  let? outbound := collect (λ o,
    let? sess := map_err Pickle (group_unpickle (mo_pickle_b64 o) key) in
    Ok (mo_room_id o, sess)) (dp_outbound pkg) ∅ in
  let? inbound := collect (λ i,
    let? sess := map_err Pickle (inbound_unpickle (mi_pickle_b64 i) key) in
    Ok (mi_session_id i, sess)) (dp_inbound pkg) ∅ in
  Ok (mkE2eeDevice device_id account olm outbound inbound).

(** ** Steps of a device *)

(** One operation, with any arguments.  A new Megolm session has an id of its
    own: it is the public half of a fresh signing key. *)
Inductive e2ee_step (d : E2eeDevice) : E2eeDevice → Prop :=
| step_publish s : e2ee_step d (publish_keys d s).2
| step_establish their s : e2ee_step d (establish_olm_outbound d their s).2
| step_olm_encrypt to p s : e2ee_step d (olm_encrypt d to p s).2
| step_olm_decrypt k ct : e2ee_step d (olm_decrypt d k ct).2
| step_create room s : inbound_megolm d !! group_id (group_new s) = None →
    e2ee_step d (create_group_session d room s).2
| step_import_key k : e2ee_step d (import_group_session_key d k).2
| step_import_room pkg : e2ee_step d (import_room_outbound d pkg).2
| step_encrypt room p : e2ee_step d (megolm_encrypt d room p).2
| step_decrypt ct : e2ee_step d (megolm_decrypt d ct).2.

Context {VL : VodozemacLaws}.

(** The device decrypts the session [sid], whose ratchet is [r], from [n] on. *)
Definition reads (d : E2eeDevice) (sid : list byte) (r : Ratchet) (n : N) : Prop :=
  ∃ i, inbound_megolm d !! sid = Some i ∧ inbound_ratchet i = r ∧ inbound_first i = n.

(** What no operation takes away: identity, readable sessions, Olm sessions and
    the session id of each room. *)
Record keeps (d d' : E2eeDevice) : Prop := {
  keeps_id : ed_device_id d' = ed_device_id d;
  keeps_reads sid r n : reads d sid r n → reads d' sid r n;
  keeps_olm peer : has_olm_session d peer = true → has_olm_session d' peer = true;
  keeps_room room sid : group_session_id d room = Some sid → group_session_id d' room = Some sid;
}.

#[global] Instance keeps_preorder : PreOrder keeps.
Proof.
  split; [by split|]. intros d1 d2 d3 [] []. split; [congruence|auto..].
Qed.

Lemma keeps_account d a : keeps d (set_account d a).
Proof. by split. Qed.

Lemma has_olm_insert d peer s p : has_olm_session d p = true →
  has_olm_session (set_olm d (<[peer := s]> (olm_sessions d))) p = true.
Proof.
  unfold has_olm_session; cbn. destruct (decide (peer = p)) as [->|];
    [by rewrite lookup_insert_eq|by rewrite lookup_insert_ne].
Qed.

Lemma keeps_set_olm d peer s : keeps d (set_olm d (<[peer := s]> (olm_sessions d))).
Proof. split; [done|done| |done]. intros p. apply has_olm_insert. Qed.

Lemma keeps_set_outbound d room g :
  (∀ g', outbound_megolm d !! room = Some g' → group_id g = group_id g') →
  keeps d (set_outbound d (<[room := g]> (outbound_megolm d))).
Proof.
  intros Hg. split; [done..|]. unfold group_session_id; cbn. intros r sid.
  destruct (decide (room = r)) as [->|]; [|by rewrite lookup_insert_ne].
  rewrite lookup_insert_eq; cbn. destruct (outbound_megolm d !! r) as [g'|]; [|done]. cbn.
  intros [= <-]. by rewrite (Hg g').
Qed.

Lemma keeps_set_inbound d sid i :
  (∀ i', inbound_megolm d !! sid = Some i' →
     inbound_ratchet i = inbound_ratchet i' ∧ inbound_first i = inbound_first i') →
  keeps d (set_inbound d (<[sid := i]> (inbound_megolm d))).
Proof.
  intros Hi. split; [done| |done..]. intros x r n (i' & Hl & <- & <-). unfold reads; cbn.
  destruct (decide (sid = x)) as [->|].
  - rewrite lookup_insert_eq. destruct (Hi _ Hl). eauto.
  - rewrite lookup_insert_ne by done. eauto.
Qed.

Lemma import_key_cases d k :
  (∃ e, import_group_session_key d k = (Err e, d)) ∨
  (∃ key, session_key_from_base64 k = Ok key ∧
    import_group_session_key d k = (Ok (inbound_id (inbound_new key)),
      match inbound_megolm d !! inbound_id (inbound_new key) with
      | Some _ => d
      | None => set_inbound d (<[inbound_id (inbound_new key) := inbound_new key]> (inbound_megolm d))
      end)).
Proof.
  unfold import_group_session_key.
  destruct (session_key_from_base64 k) as [key|e]; cbn; [right|left]; eauto.
Qed.

Lemma keeps_import_key d k : keeps d (import_group_session_key d k).2.
Proof.
  destruct (import_key_cases d k) as [(e & ->)|(key & _ & ->)]; cbn; [done|].
  destruct (inbound_megolm d !! _) eqn:Hl; [done|]. apply keeps_set_inbound. congruence.
Qed.

Lemma import_key_outbound d k :
  outbound_megolm (import_group_session_key d k).2 = outbound_megolm d ∧
  olm_sessions (import_group_session_key d k).2 = olm_sessions d ∧
  ed_account (import_group_session_key d k).2 = ed_account d ∧
  inbound_megolm d ⊆ inbound_megolm (import_group_session_key d k).2.
Proof.
  destruct (import_key_cases d k) as [(e & ->)|(key & _ & ->)]; cbn; [done|].
  destruct (inbound_megolm d !! _) eqn:Hl; [done|]. cbn. split_and!; [done..|].
  by apply insert_subseteq.
Qed.

(** The outcomes of [import_room_outbound]. *)
Lemma import_room_cases d pkg :
  let '(r, d') := import_room_outbound d pkg in
  let d1 := (import_group_session_key d (ro_session_key_b64 pkg)).2 in
  match r with
  | Err _ => d' = d ∨ d' = d1
  | Ok sid => ∃ session g, group_unpickle (ro_pickle_b64 pkg) ROOM_PICKLE_KEY = Ok session ∧
      group_id session = ro_session_id pkg ∧ group_id g = sid ∧ d' = d1 ∧
        outbound_megolm d !! ro_room_id pkg = Some g ∧
        (group_id g ≠ ro_session_id pkg ∨ (ro_message_index pkg < group_index g)%N) ∨
      group_unpickle (ro_pickle_b64 pkg) ROOM_PICKLE_KEY = Ok session ∧ g = session ∧
        group_id session = ro_session_id pkg ∧ sid = ro_session_id pkg ∧
        d' = set_outbound d1 (<[ro_room_id pkg := session]> (outbound_megolm d1)) ∧
        ∀ local, outbound_megolm d !! ro_room_id pkg = Some local →
          group_id local = sid ∧ (group_index local ≤ ro_message_index pkg)%N
  end.
Proof.
  unfold import_room_outbound. case_decide; [by left|].
  destruct (import_key_outbound d (ro_session_key_b64 pkg)) as (Hout & _).
  destruct (import_key_cases d (ro_session_key_b64 pkg)) as [(e & He)|(key & _ & He)];
    rewrite He in *; [by left|]. cbn [snd] in *.
  set (d1 := match inbound_megolm d !! _ with Some _ => d | None => _ end) in *. clearbody d1.
  destruct (group_unpickle _ _) as [session|e]; cbn; [|by right].
  case_decide as Hid; [by right|]. rewrite Hout.
  destruct (outbound_megolm d !! ro_room_id pkg) as [local|] eqn:Hl.
  - case_decide as Hlid; [exists session, local; left; auto 10|].
    destruct (N.ltb_spec (ro_message_index pkg) (group_index local)).
    + exists session, local; left; auto 10.
    + exists session, session; right. split_and!; try done. intros ? [= <-]. done.
  - exists session, session; right. by split_and!.
Qed.

Lemma keeps_import_room d pkg : keeps d (import_room_outbound d pkg).2.
Proof.
  pose proof (import_room_cases d pkg) as Hc.
  pose proof (keeps_import_key d (ro_session_key_b64 pkg)) as Hk.
  destruct (import_room_outbound d pkg) as [[sid|e] d']; cbn in *.
  - destruct Hc as (session & g & [(_ & _ & _ & -> & _)|(_ & _ & Hid & -> & -> & Hl)]); [done|].
    etrans; [exact Hk|]. apply keeps_set_outbound. intros g'.
    destruct (import_key_outbound d (ro_session_key_b64 pkg)) as (-> & _).
    intros Hg'. destruct (Hl _ Hg') as [-> _]. done.
  - by destruct Hc as [->| ->].
Qed.

Lemma step_keeps d d' : e2ee_step d d' → keeps d d'.
Proof.
  destruct 1.
  - unfold publish_keys. destruct (one_time_keys (ed_account d)); case_match; cbn;
      try done; apply keeps_account.
  - unfold establish_olm_outbound. destruct (has_olm_session d _); [done|].
    case_match; cbn; [apply keeps_set_olm|done].
  - unfold olm_encrypt. destruct (olm_sessions d !! to); [|done].
    destruct (session_encrypt _ _ _); cbn. apply keeps_set_olm.
  - unfold olm_decrypt. case_decide; [done|].
    destruct (map_err _ _) as [msg|]; [|done].
    destruct (olm_sessions d !! _).
    + destruct (session_decrypt _ _); cbn. apply keeps_set_olm.
    + destruct msg; [|done]. destruct (parse_curve _); [|done].
      destruct (create_inbound_session _ _ _) as [[[session ?]|] acc]; cbn; [|apply keeps_account].
      etrans; [apply (keeps_account d acc)|]. apply (keeps_set_olm (set_account d acc)).
  - unfold create_group_session. destruct (group_session_id d room) eqn:Hr; [done|]. cbn.
    rewrite lookup_insert_eq; cbn. etrans; [apply (keeps_set_outbound d room (group_new s))|].
    + intros g' Hg'. unfold group_session_id in Hr. by rewrite Hg' in Hr.
    + apply (keeps_set_inbound (set_outbound d _)). cbn. congruence.
  - apply keeps_import_key.
  - apply keeps_import_room.
  - unfold megolm_encrypt. destruct (outbound_megolm d !! room) as [g|] eqn:Hg; [|done].
    pose proof (group_encrypt_spec g p) as (_ & Hid & _).
    destruct (group_encrypt g p) as [msg g']; cbn in *. apply keeps_set_outbound.
    intros g'' Hg''. congruence.
  - unfold megolm_decrypt. destruct (inbound_megolm d !! _) as [i|] eqn:Hi; [|done].
    destruct (map_err _ _) as [msg|]; [|done].
    pose proof (inbound_decrypt_spec i msg) as (Hr & Hf).
    destruct (inbound_decrypt i msg) as [r i']; cbn in *. apply keeps_set_inbound.
    intros i2 Hi2. rewrite Hi in Hi2. by injection Hi2 as <-.
Qed.

Lemma steps_keep d d' : rtc e2ee_step d d' → keeps d d'.
Proof. induction 1 as [|d1 d2 d3 H _ IH]; [done|]. etrans; [by apply step_keeps|done]. Qed.

(** ** Encrypting in sequence *)

Fixpoint megolm_encrypt_all (d : E2eeDevice) (room : list byte) (ps : list (list byte)) :
    result E2eeError (list MegolmCiphertext) * E2eeDevice :=
  match ps with
  | [] => (Ok [], d)
  | p :: ps =>
    match megolm_encrypt d room p with
    | (Err e, d) => (Err e, d)
    | (Ok ct, d) =>
      let '(r, d) := megolm_encrypt_all d room ps in (let? cts := r in Ok (ct :: cts), d)
    end
  end.

(** The ciphertext of [p] under a session with ratchet [r] at index [n] or later. *)
Definition sealed_from (r : Ratchet) (sid : list byte) (n : N) (p : list byte)
    (ct : MegolmCiphertext) : Prop :=
  ∃ g, group_ratchet g = r ∧ (n ≤ group_index g)%N ∧ (group_index g + 1 < 2 ^ 32)%N ∧
    mc_session_id ct = sid ∧ mc_ciphertext_b64 ct = megolm_to_base64 (group_encrypt g p).1.

Lemma sealed_from_weaken r sid n m p ct : (m ≤ n)%N → sealed_from r sid n p ct →
  sealed_from r sid m p ct.
Proof. intros Hm (g & ? & ? & ? & ? & ?). exists g. split_and!; try done. lia. Qed.

Lemma megolm_encrypt_all_spec room ps : ∀ d g, outbound_megolm d !! room = Some g →
  (group_index g + N.of_nat (length ps) < 2 ^ 32)%N →
  ∃ cts d', megolm_encrypt_all d room ps = (Ok cts, d') ∧
    Forall2 (sealed_from (group_ratchet g) (group_id g) (group_index g)) ps cts.
Proof.
  induction ps as [|p ps IH]; intros d g Hg Hn; cbn; [by exists [], d|].
  cbn in Hn. unfold megolm_encrypt. rewrite Hg.
  pose proof (group_encrypt_spec g p) as (Hr & Hid & Hi). specialize (Hi ltac:(lia)).
  destruct (group_encrypt g p) as [msg g'] eqn:He; cbn [snd] in *.
  destruct (IH (set_outbound d (<[room := g']> (outbound_megolm d))) g') as (cts & d' & -> & Hf).
  { cbn. by rewrite lookup_insert_eq. }
  { lia. }
  eexists _, d'. split; [done|]. constructor.
  - exists g. split_and!; [done|done|lia|exact Hid|]. cbn. by rewrite He.
  - rewrite Hr, Hid, Hi in Hf. eapply Forall2_impl; [|exact Hf]. intros q ct.
    apply sealed_from_weaken. lia.
Qed.

Lemma megolm_decrypt_sealed d r sid n p ct : reads d sid r n → sealed_from r sid n p ct →
  (megolm_decrypt d ct).1 = Ok p.
Proof.
  intros (i & Hi & <- & <-) (g & Hr & Hn & Hb & Hs & Hc). unfold megolm_decrypt.
  rewrite Hs, Hi, Hc, megolm_text; cbn.
  pose proof (megolm_correct i g p ltac:(done) Hn Hb) as Hd.
  destruct (inbound_decrypt i _) as [x i']; cbn in *. by rewrite Hd.
Qed.

(** ** The durable package *)

Lemma collect_inserts {A K V} `{Countable K} (f : A → result E2eeError (K * V))
    (h : K * V → A) (l : list (K * V)) : ∀ m : gmap K V,
  (∀ p, f (h p) = Ok p) → NoDup l.*1 → collect f (h <$> l) m = Ok (list_to_map l ∪ m).
Proof.
  induction l as [|[k v] l IH]; intros m Hf Hl; cbn in *.
  - by rewrite (left_id_L ∅ (∪)).
  - rewrite Hf. cbn. inversion Hl; subst. rewrite IH by done. f_equal.
    rewrite <-insert_union_r; [by rewrite insert_union_l|]. by apply not_elem_of_list_to_map.
Qed.

Lemma collect_map_iter `{HashIter} {A K V} `{Countable K}
    (f : A → result E2eeError (K * V)) (h : K * V → A) (m : gmap K V) :
  (∀ p, f (h p) = Ok p) → collect f (h <$> map_iter m) ∅ = Ok m.
Proof.
  intros Hf. rewrite collect_inserts; [|done|apply NoDup_map_keys].
  rewrite (right_id_L ∅ (∪)). f_equal.
  rewrite (list_to_map_proper _ (map_to_list m)); [|apply NoDup_map_keys|apply map_iter_perm].
  apply list_to_map_to_list.
Qed.

Lemma durable_restores `{HI : HashIter, HL : !HexLaws} (d : E2eeDevice) (id : DeviceId) :
  (let? pkg := export_durable d in import_durable id pkg) =
    if decide (id = ed_device_id d) then Ok d
    else Err (E2eeCodec (text "e2ee durable device_id mismatch")).
Proof.
  unfold export_durable, import_durable. cbn [mbind result_bind dp_v dp_device_id dp_account_b64
    dp_olm dp_outbound dp_inbound]. rewrite decide_False by (intros H; by apply H).
  case_decide as Hid; case_decide as He; try done.
  - by subst.
  - subst id. rewrite account_pickled; cbn [map_err mbind result_bind].
    assert (∀ p : DeviceId, parse_device_hex (hex_encode (array_bytes (DeviceId_0 p))) = Ok p) as Hp.
    { intros [p]. unfold parse_device_hex. rewrite hex_decode_encode; cbn.
      by rewrite try_into_array_bytes. }
    rewrite !collect_map_iter; cbn [mbind result_bind]; [by destruct d|..];
      intros [k v]; cbn -[parse_device_hex]; rewrite ?Hp, ?session_pickled, ?group_pickled,
        ?inbound_pickled; cbn; by rewrite ?session_pickled.
  - destruct He. apply (f_equal hex_decode) in Hid. rewrite !hex_decode_encode in Hid.
    injection Hid as Hid%array_ext. destruct id, (ed_device_id d). by cbn in Hid; subst.
Qed.

(** ** Fan-out *)

Definition addressed (self : DeviceId) (rids : list DeviceId) (cts : list OlmCiphertext) : Prop :=
  oc_recipient_device <$> cts = List.filter (λ r, negb (bool_decide (r = self))) rids ∧
  Forall (λ ct, oc_sender_device ct = self) cts.

Lemma fanout_loop_spec key seeds rids : ∀ d k out,
  let '(r, d') := fanout_loop d key seeds k rids out in
  ed_device_id d' = ed_device_id d ∧ outbound_megolm d' = outbound_megolm d ∧
  inbound_megolm d' = inbound_megolm d ∧ ed_account d' = ed_account d ∧
  dom (olm_sessions d') = dom (olm_sessions d) ∧
  match r with
  | Ok cts => ∃ new, cts = out ++ new ∧ addressed (ed_device_id d) rids new
  | Err e => ∃ rid, rid ∈ rids ∧ rid ≠ ed_device_id d ∧
      (e = MissingOlm rid ∧ olm_sessions d !! rid = None ∨
       is_Some (olm_sessions d !! rid) ∧ ∃ s, e = E2eeEncrypt s ∨ e = E2eeCodec s)
  end.
Proof.
  induction rids as [|rid rids IH]; intros d k out; cbn.
  { split_and!; try done. exists []. by rewrite app_nil_r. }
  case_decide as Hself.
  - specialize (IH d k out). destruct (fanout_loop _ _ _ _ _ _) as [[cts|e] d'];
      destruct IH as (? & ? & ? & ? & ? & Hr); split_and!; try done.
    + destruct Hr as (new & -> & Hn & ?). exists new. split; [done|]. split; [|done]. cbn.
      by rewrite bool_decide_eq_true_2.
    + destruct Hr as (x & ? & ?). exists x. split; [by right|done].
  - unfold olm_encrypt. destruct (olm_sessions d !! rid) as [session|] eqn:Hs.
    2: { split_and!; try done. exists rid. split_and!; [by left|done|by left]. }
    destruct (session_encrypt session key (seeds k)) as [r session'] eqn:Henc.
    set (d1 := set_olm d (<[rid := session']> (olm_sessions d))).
    assert (dom (olm_sessions d1) = dom (olm_sessions d)) as Hdom.
    { cbn. rewrite dom_insert_L. assert (rid ∈ dom (olm_sessions d)) by by apply elem_of_dom_2 in Hs.
      set_solver. }
    destruct r as [msg|e]; cbn.
    2: { split_and!; try done. exists rid. split_and!; [by left|done|right; eauto]. }
    destruct (olm_message_to_json msg) as [json|e]; cbn.
    2: { split_and!; try done. exists rid. split_and!; [by left|done|right; eauto]. }
    specialize (IH d1 (S k) (out ++ [mkOlmCiphertext (ed_device_id d) rid json])).
    destruct (fanout_loop _ _ _ _ _ _) as [[cts|e] d'];
      destruct IH as (? & ? & ? & ? & ? & Hr); split_and!; try done; try congruence.
    + destruct Hr as (new & -> & Hn & ?). exists (mkOlmCiphertext (ed_device_id d) rid json :: new).
      rewrite <-app_assoc. split; [done|]. split; [|by constructor]. cbn.
      rewrite bool_decide_eq_false_2 by done. cbn. f_equal. exact Hn.
    + destruct Hr as (x & ? & ? & Hr). exists x. split_and!; [by right|done|].
      cbn in Hr. destruct (decide (x = rid)) as [->|].
      * rewrite lookup_insert_eq in Hr. right. destruct Hr as [[_ ?]|[_ ?]]; [done|eauto].
      * by rewrite lookup_insert_ne in Hr.
Qed.

(** ** The start of an Olm session *)

Section start.
Context `{OL : !OlmLaws, OS : !OlmStartLaws}.

(** What [b] published, [a] took: the keys [b] answered with. *)
Lemma publish_keys_ok (b b1 : E2eeDevice) s keys : publish_keys b s = (Ok keys, b1) →
  ∃ acc otk, otk ∈ one_time_keys acc ∧ b1 = set_account b (mark_keys_as_published acc) ∧
    keys = mkOlmDeviceKeys (ed_device_id b)
      (curve_to_base64 (curve25519_key (mark_keys_as_published acc))) (curve_to_base64 otk).
Proof.
  unfold publish_keys. destruct (one_time_keys (ed_account b)) as [|k l] eqn:Hk.
  - cbn [set_account ed_account]. destruct (one_time_keys (generate_one_time_keys _ _ _)) as [|o l] eqn:Ho; [done|].
    intros [= <- <-]. exists (generate_one_time_keys (ed_account b) 10 s), o.
    split_and!; [rewrite Ho; left|done..].
  - rewrite Hk. intros [= <- <-]. exists (ed_account b), k. split_and!; [rewrite Hk; left|done..].
Qed.

(** [a] holds the session it made from the keys that [b] published; [b] has none yet. *)
Definition started (a b : E2eeDevice) : Prop := ∃ acc otk s seed,
  otk ∈ one_time_keys acc ∧ ed_account b = mark_keys_as_published acc ∧
  create_outbound_session (ed_account a) (curve25519_key acc) otk seed = Ok s ∧
  olm_sessions a !! ed_device_id b = Some s ∧ olm_sessions b !! ed_device_id a = None.

Lemma establish_starts (a a1 b b1 : E2eeDevice) keys s s' :
  olm_sessions a !! ed_device_id b = None → olm_sessions b !! ed_device_id a = None →
  publish_keys b s = (Ok keys, b1) → establish_olm_outbound a keys s' = (Ok tt, a1) →
  started a1 b1 ∧ ed_device_id a1 = ed_device_id a ∧ ed_device_id b1 = ed_device_id b.
Proof.
  intros Ha Hb (acc & otk & Hotk & -> & ->)%publish_keys_ok He.
  unfold establish_olm_outbound, has_olm_session, parse_curve in He.
  cbn [ok_device_id ok_curve25519_b64 ok_one_time_key_b64] in He.
  rewrite Ha, !curve_text, published_identity in He. cbn [ok_or mbind result_bind] in He.
  destruct (create_outbound_session _ _ _ _) as [ses|] eqn:Hc; [|done]. injection He as <-.
  split_and!; [|done..]. exists acc, otk, ses, s'. cbn. by rewrite lookup_insert_eq.
Qed.

(** What does not touch the account and the session with [b] keeps it so. *)
Lemma started_kept a a' b : started a b → ed_device_id a' = ed_device_id a → ed_account a' = ed_account a →
  olm_sessions a' !! ed_device_id b = olm_sessions a !! ed_device_id b → started a' b.
Proof.
  intros (acc & otk & s & seed & H1 & H2 & H3 & H4 & H5) Hid Hacc Hs.
  exists acc, otk, s, seed. by rewrite Hid, Hacc, Hs.
Qed.

(** The first message is read by the device it was encrypted for. *)
Lemma first_message a a' b p seed ct : started a b → olm_encrypt a (ed_device_id b) p seed = (Ok ct, a') →
  ∃ b' x y, olm_decrypt b (curve25519_b64 a') ct = (Ok p, b') ∧
    ed_device_id b' = ed_device_id b ∧ inbound_megolm b' = inbound_megolm b ∧
    olm_sessions a' !! ed_device_id b = Some x ∧ olm_sessions b' !! ed_device_id a = Some y ∧ paired x y.
Proof.
  intros (acc & otk & s & seed' & Hotk & Hacc & Hc & Hs & Hn) Henc. unfold olm_encrypt in Henc.
  rewrite Hs in Henc.
  pose proof (λ m, olm_start (ed_account a) acc otk s seed' p seed m Hotk Hc) as Hst.
  destruct (session_encrypt s p seed) as [[m|e] s1]; cbn in Henc; [|done].
  destruct (Hst m eq_refl) as (pre & y & -> & Hin & Hp). cbn [snd] in Hp.
  destruct (olm_message_to_json (PreKey pre)) as [j|e] eqn:Hj; cbn in Henc; [|done].
  injection Henc as <- <-. unfold olm_decrypt, curve25519_b64, parse_curve.
  cbn [oc_recipient_device oc_message_json oc_sender_device set_olm ed_device_id ed_account olm_sessions].
  rewrite (olm_message_text _ _ Hj); cbn [map_err]. rewrite decide_False by (intros H; by apply H).
  rewrite Hn, curve_text, Hacc. cbn [ok_or].
  destruct (create_inbound_session _ _ _) as [r acc']; cbn [fst] in Hin. subst r. cbn [map_err].
  eexists _, s1, y. split; [done|]. cbn. by rewrite !lookup_insert_eq.
Qed.

End start.

(** ** Theorems *)

(** C21: room messages reach every device that holds the room key: what a device
    encrypts after exporting its room key, any number of messages, is decrypted
    to the same bytes by a device that imported the key, at whatever later moment
    (after any operations of its own, other decryptions included) and in whatever
    order. *)
Theorem room_messages_decrypt (d b b' : E2eeDevice) (room key : list byte) (g : GroupSession)
    (ps : list (list byte)) :
  outbound_megolm d !! room = Some g →
  (group_index g + N.of_nat (length ps) < 2 ^ 32)%N →
  export_group_session_key d room = Ok key →
  inbound_megolm b !! group_id g = None →
  rtc e2ee_step (import_group_session_key b key).2 b' →
  ∃ cts d', megolm_encrypt_all d room ps = (Ok cts, d') ∧
    Forall2 (λ p ct, (megolm_decrypt b' ct).1 = Ok p) ps cts.
Proof.
  intros Hg Hn Hk Hb Hsteps.
  destruct (megolm_encrypt_all_spec room ps d g Hg Hn) as (cts & d' & Henc & Hf).
  exists cts, d'. split; [done|]. eapply Forall2_impl; [|exact Hf]. intros p ct.
  apply megolm_decrypt_sealed. apply (keeps_reads _ _ (steps_keep _ _ Hsteps)).
  unfold export_group_session_key in Hk. rewrite Hg in Hk. cbn in Hk. injection Hk as <-.
  destruct (inbound_new_spec g) as (Hr & Hfirst & Hid).
  unfold import_group_session_key. rewrite session_key_text; cbn. rewrite Hid, Hb. cbn.
  exists (inbound_new (group_key g)). cbn. by rewrite lookup_insert_eq.
Qed.

(** No sequence of operations takes a capability away: a device keeps its
    identity, every inbound session with its ratchet and the first index it can
    read (later exports never replace it), every Olm session, and the session id
    of every room it can write to (the first writer wins). *)
Lemma e2ee_state_monotone (d d' : E2eeDevice) :
  rtc e2ee_step d d' →
  ed_device_id d' = ed_device_id d ∧
  (∀ sid r n, reads d sid r n → reads d' sid r n) ∧
  (∀ peer, has_olm_session d peer = true → has_olm_session d' peer = true) ∧
  (∀ room sid, group_session_id d room = Some sid → group_session_id d' room = Some sid).
Proof. intros H. destruct (steps_keep _ _ H) as []. auto. Qed.

(** Importing a shared room session, on every outcome: an error leaves the
    outbound sessions alone; otherwise the returned id is the one of the session
    the room then has, which is the imported one exactly when the room had none,
    or the same session at an index not above the package's.  Other rooms, Olm
    sessions, the account and every inbound session stay. *)
Lemma room_import_exact (d : E2eeDevice) (pkg : RoomOutboundPackage) :
  let '(r, d') := import_room_outbound d pkg in
  inbound_megolm d ⊆ inbound_megolm d' ∧ olm_sessions d' = olm_sessions d ∧
  ed_account d' = ed_account d ∧
  match r with
  | Err _ => outbound_megolm d' = outbound_megolm d
  | Ok sid => ∃ g, group_id g = sid ∧
      outbound_megolm d' = <[ro_room_id pkg := g]> (outbound_megolm d) ∧
      (outbound_megolm d !! ro_room_id pkg = Some g ∧
         (sid ≠ ro_session_id pkg ∨ (ro_message_index pkg < group_index g)%N) ∨
       group_unpickle (ro_pickle_b64 pkg) ROOM_PICKLE_KEY = Ok g ∧ sid = ro_session_id pkg ∧
         ∀ local, outbound_megolm d !! ro_room_id pkg = Some local →
           group_id local = sid ∧ (group_index local ≤ ro_message_index pkg)%N)
  end.
Proof.
  pose proof (import_room_cases d pkg) as Hc.
  destruct (import_key_outbound d (ro_session_key_b64 pkg)) as (Ho & Hs & Ha & Hi).
  destruct (import_room_outbound d pkg) as [[sid|e] d']; cbv zeta in Hc.
  - destruct Hc as (session & g & [(_ & _ & Hg & -> & Hl & Hor)|(Hu & -> & Hid & -> & -> & Hl)]).
    + split_and!; try done. exists g. rewrite Ho, insert_id by done. split_and!; [done|done|].
      left. by subst sid.
    + cbn. split_and!; try done. exists session. rewrite Ho. split_and!; [done|done|]. by right.
  - destruct Hc as [->| ->]; by split_and!.
Qed.

(** A package whose stated index is not the one of its pickle winds the room's
    ratchet back: the index is taken from the package, not from the session it
    carries, so the next message reuses an index that was already used. *)
Lemma room_import_rolls_back (d : E2eeDevice) (pkg : RoomOutboundPackage)
    (key : SessionKey) (local session : GroupSession) :
  ro_v pkg = 1%N → session_key_from_base64 (ro_session_key_b64 pkg) = Ok key →
  outbound_megolm d !! ro_room_id pkg = Some local →
  group_unpickle (ro_pickle_b64 pkg) ROOM_PICKLE_KEY = Ok session →
  group_id session = ro_session_id pkg → group_id local = ro_session_id pkg →
  (group_index session < group_index local ≤ ro_message_index pkg)%N →
  (import_room_outbound d pkg).1 = Ok (ro_session_id pkg) ∧
  group_message_index (import_room_outbound d pkg).2 (ro_room_id pkg) = Some (group_index session).
Proof.
  intros Hv Hk Hl Hu Hid Hlid Hi. unfold import_room_outbound.
  rewrite decide_False by (by rewrite Hv; intros H; apply H).
  destruct (import_key_outbound d (ro_session_key_b64 pkg)) as (Ho & _).
  destruct (import_key_cases d (ro_session_key_b64 pkg)) as [(e & He)|(key' & _ & He)].
  { unfold import_group_session_key in He. rewrite Hk in He. done. }
  rewrite He in *. cbn [snd] in Ho. set (d1 := match _ with Some _ => d | None => _ end) in *.
  clearbody d1. rewrite Hu; cbn [map_err]. rewrite decide_False by tauto. rewrite Ho, Hl.
  rewrite decide_False by tauto. rewrite (proj2 (N.ltb_ge _ _)) by lia. cbn.
  split; [done|]. unfold group_message_index; cbn. by rewrite lookup_insert_eq.
Qed.

(** The durable package restores the device: importing what [export_durable]
    wrote gives back the same account, Olm sessions and Megolm sessions, whatever
    order the maps are walked in, and only under the device's own id. *)
Lemma durable_roundtrip `{HI : HashIter, HL : !HexLaws} (d : E2eeDevice) (id : DeviceId) :
  (let? pkg := export_durable d in import_durable id pkg) =
    if decide (id = ed_device_id d) then Ok d
    else Err (E2eeCodec (text "e2ee durable device_id mismatch")).
Proof. apply durable_restores. Qed.

(** Fanning a room key out: success means exactly one ciphertext for each
    listed device other than the sender, in the order of the list and signed off
    as the sender's; any error means no ciphertext is returned and names a missing
    room session, a listed device without an Olm session or a failed encryption.
    Megolm sessions, the account and the set of Olm peers stay. *)
Lemma fanout_exact (d : E2eeDevice) (room : list byte) (seeds : nat → Seed)
    (recipients : list DeviceId) :
  let '(r, d') := fanout_megolm_key d room seeds recipients in
  ed_device_id d' = ed_device_id d ∧ outbound_megolm d' = outbound_megolm d ∧
  inbound_megolm d' = inbound_megolm d ∧ ed_account d' = ed_account d ∧
  dom (olm_sessions d') = dom (olm_sessions d) ∧
  match r with
  | Ok cts => has_outbound d room = true ∧ addressed (ed_device_id d) recipients cts
  | Err e => e = MissingMegolm room ∧ has_outbound d room = false ∨
      ∃ rid, rid ∈ recipients ∧ rid ≠ ed_device_id d ∧
        (e = MissingOlm rid ∧ has_olm_session d rid = false ∨
         has_olm_session d rid = true ∧ ∃ s, e = E2eeEncrypt s ∨ e = E2eeCodec s)
  end.
Proof.
  unfold fanout_megolm_key, export_group_session_key, has_outbound, has_olm_session.
  destruct (outbound_megolm d !! room) as [g|]; cbn; [|by split_and!; auto].
  pose proof (fanout_loop_spec (session_key_to_base64 (group_key g)) seeds recipients d 0 []) as H.
  destruct (fanout_loop _ _ _ _ _ _) as [[cts|e] d'];
    destruct H as (? & ? & ? & ? & ? & Hr); split_and!; try done.
  - by destruct Hr as (new & -> & ?).
  - right. destruct Hr as (rid & ? & ? & Hr). exists rid. split_and!; [done|done|].
    destruct (olm_sessions d !! rid); [right|left];
      destruct Hr as [[? ?]|[[? ?] ?]]; try done.
Qed.

End e2ee.
