(* ===== verification/Seal.v ===== *)
(** * Relay seals ([crates/td-crypto/src/relay_seal.rs], and the sealing functions
    of [crates/td-node/src/sync.rs])

    What a device leaves on a relay: [0x01], a nonce and a shared-key AEAD text,
    or [0x02] and an Olm message for one recipient. *)

From S2P Require Import Prelude Text Crypto Event Store Sync E2ee.

(** ** [chacha20poly1305] *)

Class Aead : Type := {
  aead_encrypt : bytes32 → array 12 → list byte → option (list byte);
  aead_decrypt : bytes32 → array 12 → list byte → option (list byte);
}.
Class AeadLaws `{!Aead} : Prop := {
  aead_correct k n p c : aead_encrypt k n p = Some c → aead_decrypt k n c = Some p;
  (** the text carries a 16-byte tag *)
  aead_length k n p c : aead_encrypt k n p = Some c → length c = length p + 16;
}.

(** ** Data *)

Definition RELAY_SEAL_KDF_LABEL : list byte := text "td-relay-seal-v1".
Definition RELAY_SEAL_V1 : byte := x01.
Definition RELAY_SEAL_V2_OLM : byte := x02.
Definition DEFAULT_RELAY_KEY_MATERIAL : list byte := text "td-relay-dev-key-change-me!!!!!!".

Record RelayOlmWire : Type := mkRelayOlmWire {
  rw_v : N;
  rw_sender_curve25519_b64 : list byte;
  rw_olm : OlmCiphertext;
}.

Inductive RelaySealError : Type :=
| SealEncrypt
| SealDecrypt
| SealTooShort
| BadVersion (v : byte)
| SealOlm (s : list byte)
| SealCodec (s : list byte).

(** What sealing uses of its environment. *)
Class SealEnv : Type := {
  seal_crypto :: Crypto;
  seal_aead :: Aead;
  seal_voz :: Vodozemac;
  seal_hex :: Hex;
  seal_wire_encode :: Encode RelayOlmWire;
  (** [serde_json::from_slice], or the text of its error *)
  seal_wire_decode : list byte → result (list byte) RelayOlmWire;
  (** the text of [E2eeError::Serde] *)
  e2ee_serde_text : list byte;
}.
Class SealEnvLaws `{!SealEnv} : Prop := {
  seal_aead_laws :: AeadLaws;
  seal_wire_codec w : seal_wire_decode (to_vec w) = Ok w;
}.

Section seal.
Context {SN : SealEnv}.

(** [DeviceId]'s [Debug] and [E2eeError]'s [Display]. *)
Definition DeviceId_debug (d : DeviceId) : list byte :=
  text "DeviceId(" ++ hex_encode (array_bytes (DeviceId_0 d)) ++ text ")".

Definition E2eeError_to_string (e : E2eeError) : list byte :=
  match e with
  | SessionCreation s => text "session creation: " ++ s
  | E2eeEncrypt s => text "encryption: " ++ s
  | E2eeDecrypt s => text "decryption: " ++ s
  | MissingOlm d => text "missing olm session with " ++ DeviceId_debug d
  | MissingMegolm s => text "missing megolm inbound session " ++ s
  | E2eeInvalidKey => text "invalid curve25519 key"
  | E2eeCodec s => text "codec: " ++ s
  | E2eeSerde => e2ee_serde_text
  | Pickle s => text "pickle: " ++ s
  end.

(** [From<E2eeError>] *)
Definition seal_of_e2ee (e : E2eeError) : RelaySealError := SealOlm (E2eeError_to_string e).

(** ** Keys *)

(** Updating a hasher twice hashes the concatenation. *)
Definition derive_relay_key (material : list byte) : bytes32 :=
  blake3 (RELAY_SEAL_KDF_LABEL ++ material).

(** [u8::from_str_radix(_, 16)] on the two digits of [t[i * 2..i * 2 + 2]]. *)
Fixpoint hex_pairs (t : list byte) : list byte :=
  match t with
  | a :: b :: t =>
    default x00 (x ← hex_val a; y ← hex_val b; Some (byte_of_N (16 * x + y))) :: hex_pairs t
  | _ => []
  end.

Definition parse_relay_key_material (s : list byte) : list byte :=
  let t := trim s in
  if (length t =? 64) && forallb is_hex_digit t then hex_pairs t else t.

(** ** Version 1: the shared key *)

(** [nonce_bytes] is the draw of [OsRng]. *)
Definition seal_bytes (key : bytes32) (nonce_bytes : array 12) (plaintext : list byte) :
    result RelaySealError (list byte) :=
  let? ct := ok_or (aead_encrypt key nonce_bytes plaintext) SealEncrypt in
  Ok ([RELAY_SEAL_V1] ++ array_bytes nonce_bytes ++ ct).

Definition open_bytes (key : bytes32) (sealed : list byte) : result RelaySealError (list byte) :=
  match sealed with
  | [] => Err SealTooShort
  | ver :: _ =>
    if decide (ver ≠ RELAY_SEAL_V1) then Err (BadVersion ver) else
    if length sealed <? 1 + 12 + 16 then Err SealTooShort else
    match try_into_array 12 (take 12 (drop 1 sealed)) with
    | None => Err SealTooShort (* the slice has 12 bytes *)
    | Some nonce =>
      let ct := drop 13 sealed in
      ok_or (aead_decrypt key nonce ct) SealDecrypt
    end
  end.

(** ** Version 2: one recipient *)

Definition seal_bytes_olm (e2ee : E2eeDevice) (to : DeviceId) (plaintext : list byte) (s : Seed) :
    result RelaySealError (list byte) * E2eeDevice :=
  match olm_encrypt e2ee to plaintext s with
  | (Err e, e2ee) => (Err (seal_of_e2ee e), e2ee)
  | (Ok olm, e2ee) =>
    let wire := mkRelayOlmWire 1 (curve25519_b64 e2ee) olm in
    (Ok (RELAY_SEAL_V2_OLM :: to_vec wire), e2ee)
  end.

Definition open_bytes_olm (e2ee : E2eeDevice) (sealed : list byte) :
    result RelaySealError (list byte) * E2eeDevice :=
  match sealed with
  | [] => (Err SealTooShort, e2ee)
  | v :: rest =>
    if decide (v ≠ RELAY_SEAL_V2_OLM) then (Err (BadVersion v), e2ee) else
    match map_err SealCodec (seal_wire_decode rest) with
    | Err e => (Err e, e2ee)
    | Ok wire =>
      if decide (rw_v wire ≠ 1%N)
      then (Err (SealCodec (text "unsupported RelayOlmWire.v=" ++ dec (rw_v wire))), e2ee) else
      let '(r, e2ee) := olm_decrypt e2ee (rw_sender_curve25519_b64 wire) (rw_olm wire) in
      (map_err seal_of_e2ee r, e2ee)
    end
  end.

Definition open_bytes_auto (e2ee : E2eeDevice) (aead_key : option bytes32) (sealed : list byte) :
    result RelaySealError (list byte) * E2eeDevice :=
  match sealed with
  | [] => (Err SealTooShort, e2ee)
  | v :: _ =>
    if decide (v = RELAY_SEAL_V2_OLM) then open_bytes_olm e2ee sealed
    else if decide (v = RELAY_SEAL_V1) then
      (let? key := ok_or aead_key
         (SealCodec (text "v1 AEAD envelope but no relay key configured")) in
       open_bytes key sealed, e2ee)
    else (Err (BadVersion v), e2ee)
  end.

Definition seal_version (sealed : list byte) : option byte := head sealed.

(** ** The sealing functions of [DeviceNode] *)

Context {SE : StoreEnv}.

Definition seal_for_relay (ev : SignedEvent) (key : bytes32) (nonce : array 12) :
    result SyncError (list byte) :=
  let raw := to_vec ev in map_err (λ _, SyncRelaySeal) (seal_bytes key nonce raw).

Definition seal_for_relay_olm (e2ee : E2eeDevice) (to : DeviceId) (ev : SignedEvent) (s : Seed) :
    result SyncError (list byte) * E2eeDevice :=
  let raw := to_vec ev in
  let '(r, e2ee) := seal_bytes_olm e2ee to raw s in (map_err (λ _, SyncRelaySeal) r, e2ee).

Definition open_from_relay (ciphertext : list byte) (key : bytes32) :
    result SyncError SignedEvent :=
  let? raw := map_err (λ _, SyncRelaySeal) (open_bytes key ciphertext) in decode_event raw.

Definition open_from_relay_auto (e2ee : E2eeDevice) (aead_key : option bytes32)
    (ciphertext : list byte) : result SyncError SignedEvent * E2eeDevice :=
  let '(r, e2ee) := open_bytes_auto e2ee aead_key ciphertext in
  (let? raw := map_err (λ _, SyncRelaySeal) r in decode_event raw, e2ee).

(** ** Lemmas *)

Lemma open_bytes_ok key sealed p : open_bytes key sealed = Ok p ↔
  ∃ nonce ct, sealed = [RELAY_SEAL_V1] ++ array_bytes nonce ++ ct ∧ 16 ≤ length ct ∧
    aead_decrypt key nonce ct = Some p.
Proof.
  unfold open_bytes. split.
  - destruct sealed as [|v l]; [done|]. case_decide as Hv; [done|].
    destruct (Nat.ltb_spec (length (v :: l)) (1 + 12 + 16)) as [Hl|Hl]; [done|].
    destruct (try_into_array 12 _) as [nonce|] eqn:Hn; [|done]. intros H%ok_or_ok_inv.
    apply try_into_array_Some in Hn. exists nonce, (drop 13 (v :: l)).
    cbn [drop] in *. rewrite Hn, drop_0. rewrite Hv. split_and!; [by rewrite take_drop| |done].
    cbn [length] in Hl. rewrite length_drop. lia.
  - intros (nonce & ct & -> & Hl & Hd). cbn [app]. rewrite decide_False by (intros H; by apply H).
    pose proof (length_array nonce) as Hlen.
    destruct (Nat.ltb_spec (length (RELAY_SEAL_V1 :: array_bytes nonce ++ ct)) (1 + 12 + 16)) as [H|_].
    { cbn [length] in H. rewrite length_app in H. lia. }
    cbn [drop]. rewrite drop_0, take_app_length', drop_app_length' by done.
    rewrite try_into_array_bytes. by rewrite Hd.
Qed.

Context `{SA : !SealEnvLaws}.

Lemma seal_bytes_ok key nonce p sealed : seal_bytes key nonce p = Ok sealed →
  ∃ ct, aead_encrypt key nonce p = Some ct ∧ length ct = length p + 16 ∧
    sealed = [RELAY_SEAL_V1] ++ array_bytes nonce ++ ct.
Proof.
  unfold seal_bytes. intros H. apply bind_ok_inv in H as (ct & Hc%ok_or_ok_inv & H).
  injection H as <-. exists ct. split_and!; [done|by eapply aead_length|done].
Qed.

Lemma open_seal_bytes key nonce p sealed : seal_bytes key nonce p = Ok sealed →
  open_bytes key sealed = Ok p.
Proof.
  intros (ct & Hc & Hl & ->)%seal_bytes_ok. apply open_bytes_ok. exists nonce, ct.
  split_and!; [done|lia|by apply aead_correct].
Qed.

Lemma open_auto_v1 e2ee key ct l : ct = RELAY_SEAL_V1 :: l →
  open_bytes_auto e2ee (Some key) ct = (open_bytes key ct, e2ee).
Proof. intros ->. done. Qed.

Lemma open_auto_olm e2ee k w : open_bytes_auto e2ee k (RELAY_SEAL_V2_OLM :: to_vec w) =
  if decide (rw_v w ≠ 1%N)
  then (Err (SealCodec (text "unsupported RelayOlmWire.v=" ++ dec (rw_v w))), e2ee)
  else let '(r, e2ee) := olm_decrypt e2ee (rw_sender_curve25519_b64 w) (rw_olm w) in
       (map_err seal_of_e2ee r, e2ee).
Proof.
  unfold open_bytes_auto. rewrite decide_True by done. unfold open_bytes_olm.
  rewrite decide_False by (intros H; by apply H). by rewrite seal_wire_codec.
Qed.

(** What [b] reads of an event sealed for it, and what another device does. *)
Lemma open_sealed_olm `{SL : !StoreEnvLaws, OL : !OlmLaws} (a a' b : E2eeDevice)
    (k : option bytes32) (s s' : OlmSession) (ev : SignedEvent) (seed : Seed) (ct : list byte) :
  olm_sessions a !! ed_device_id b = Some s → olm_sessions b !! ed_device_id a = Some s' →
  paired s s' →
  seal_for_relay_olm a (ed_device_id b) ev seed = (Ok ct, a') →
  (∃ b', open_from_relay_auto b k ct =
     (let? _ := map_err SyncEvent (verify_event ev) in Ok ev, b') ∧
   ∃ s1 s1', olm_sessions a' !! ed_device_id b = Some s1 ∧
     olm_sessions b' !! ed_device_id a = Some s1' ∧ paired s1 s1') ∧
  ∀ c, ed_device_id c ≠ ed_device_id b →
    open_from_relay_auto c k ct = (Err SyncRelaySeal, c).
Proof.
  intros Ha Hb Hp H. unfold seal_for_relay_olm, seal_bytes_olm, olm_encrypt in H.
  rewrite Ha in H.
  pose proof (olm_correct s s' (to_vec ev) seed) as Hc.
  destruct (session_encrypt s (to_vec ev) seed) as [[m|e] s1]; cbn in H; [|done].
  destruct (olm_message_to_json m) as [j|e] eqn:Hj; cbn in H; [|done].
  injection H as <- <-. destruct (Hc m Hp eq_refl) as [Hd Hp']. cbn [snd] in Hp'.
  unfold open_from_relay_auto. setoid_rewrite open_auto_olm.
  cbn [rw_v rw_olm rw_sender_curve25519_b64]. rewrite decide_False by (intros H; by apply H).
  unfold olm_decrypt; cbn [oc_recipient_device oc_message_json oc_sender_device].
  rewrite (olm_message_text _ _ Hj); cbn [map_err]. split.
  - rewrite decide_False by (intros H; by apply H). rewrite Hb.
    destruct (session_decrypt s' m) as [r s1']; cbn [fst snd] in *. subst r.
    eexists. split; [cbn; by rewrite decode_event_to_vec|].
    exists s1, s1'. cbn. by rewrite !lookup_insert_eq.
  - intros c Hne. rewrite decide_False by (intros H; by apply H). by rewrite decide_True by done.
Qed.

(** The first event sealed for a device whose published keys were taken: it opens there. *)
Lemma open_first_olm `{SL : !StoreEnvLaws, OL : !OlmLaws, OS : !OlmStartLaws}
    (a a1 a2 b b1 : E2eeDevice) (keys : OlmDeviceKeys) (k : option bytes32) (s s' s'' : Seed)
    (ev : SignedEvent) (ct : list byte) :
  olm_sessions a !! ed_device_id b = None → olm_sessions b !! ed_device_id a = None →
  publish_keys b s = (Ok keys, b1) → establish_olm_outbound a keys s' = (Ok tt, a1) →
  seal_for_relay_olm a1 (ed_device_id b) ev s'' = (Ok ct, a2) →
  seal_version ct = Some RELAY_SEAL_V2_OLM ∧
  ∃ b2 x y, open_from_relay_auto b1 k ct = (let? _ := map_err SyncEvent (verify_event ev) in Ok ev, b2) ∧
    olm_sessions a2 !! ed_device_id b = Some x ∧ olm_sessions b2 !! ed_device_id a = Some y ∧ paired x y.
Proof.
  intros Ha Hb Hp He Hs.
  destruct (establish_starts _ _ _ _ _ _ _ Ha Hb Hp He) as (Hst & Hida & Hidb). rewrite <-Hidb in Hs.
  unfold seal_for_relay_olm, seal_bytes_olm in Hs.
  destruct (olm_encrypt a1 (ed_device_id b1) (to_vec ev) s'') as [[c|e] a2'] eqn:Henc; [|done].
  injection Hs as <- <-. split; [done|].
  destruct (first_message _ _ _ _ _ _ Hst Henc) as (b2 & x & y & Hd & _ & _ & Hx & Hy & Hxy).
  exists b2, x, y. rewrite <-Hidb, <-Hida. split; [|done].
  unfold open_from_relay_auto. rewrite open_auto_olm. cbn [rw_v rw_olm rw_sender_curve25519_b64].
  rewrite decide_False by (intros H; by apply H). rewrite Hd. cbn. by rewrite decode_event_to_vec.
Qed.

(** An event sealed under the shared key, opened under it. *)
Lemma open_sealed_aead `{SL : !StoreEnvLaws} e2ee ev key nonce ct :
  seal_for_relay ev key nonce = Ok ct →
  open_from_relay ct key = (let? _ := map_err SyncEvent (verify_event ev) in Ok ev) ∧
  open_from_relay_auto e2ee (Some key) ct =
    (let? _ := map_err SyncEvent (verify_event ev) in Ok ev, e2ee).
Proof.
  unfold seal_for_relay. intros Hs%map_err_ok_inv.
  pose proof (open_seal_bytes _ _ _ _ Hs) as Ho.
  apply seal_bytes_ok in Hs as (c & _ & _ & Hct). split.
  - unfold open_from_relay. rewrite Ho. apply decode_event_to_vec.
  - unfold open_from_relay_auto. rewrite (open_auto_v1 _ _ _ _ Hct), Ho; cbn.
    by rewrite decode_event_to_vec.
Qed.

Lemma open_auto_verified `{SL : !StoreEnvLaws} d k ct ev :
  (open_from_relay_auto d k ct).1 = Ok ev → verify_event ev = Ok tt.
Proof.
  intros H. unfold open_from_relay_auto in H.
  destruct (open_bytes_auto d k ct) as [r d']; cbn in H.
  apply bind_ok_inv in H as (raw & _ & H). by apply decode_event_Ok in H.
Qed.

(** ** Theorems *)

(** The shared-key seal: what opens is exactly a version byte, a 12-byte
    nonce and an authentic text of at least a tag; sealing then opening under the
    same key gives the plaintext back, whatever the nonce, and a sealed text has
    29 bytes more than its plaintext. *)
Lemma seal_bytes_roundtrip (key : bytes32) (nonce : array 12) (p sealed : list byte) :
  seal_bytes key nonce p = Ok sealed →
  open_bytes key sealed = Ok p ∧ seal_version sealed = Some RELAY_SEAL_V1 ∧
  length sealed = length p + 29 ∧
  ∀ key' sealed' p', open_bytes key' sealed' = Ok p' ↔
    ∃ nonce' ct, sealed' = [RELAY_SEAL_V1] ++ array_bytes nonce' ++ ct ∧ 16 ≤ length ct ∧
      aead_decrypt key' nonce' ct = Some p'.
Proof.
  intros Hs. split_and!; [by eapply open_seal_bytes| | |intros; apply open_bytes_ok].
  - by apply seal_bytes_ok in Hs as (ct & _ & _ & ->).
  - apply seal_bytes_ok in Hs as (ct & _ & Hl & ->). cbn. rewrite length_app, length_array. lia.
Qed.

(** A relayed event is authenticated: an event sealed under the shared key
    opens to itself when it verifies and to its verification error otherwise, by
    either opening function; and whatever opens, from any bytes under any key or
    session, is a verified event. *)
Lemma relay_seal_verified `{SL : !StoreEnvLaws} (e2ee : E2eeDevice) (ev : SignedEvent)
    (key : bytes32) (nonce : array 12) (ct : list byte) :
  seal_for_relay ev key nonce = Ok ct →
  open_from_relay ct key = (let? _ := map_err SyncEvent (verify_event ev) in Ok ev) ∧
  open_from_relay_auto e2ee (Some key) ct =
    (let? _ := map_err SyncEvent (verify_event ev) in Ok ev, e2ee) ∧
  (∀ ct' k ev', open_from_relay ct' k = Ok ev' → verify_event ev' = Ok tt) ∧
  (∀ d k ct' ev', (open_from_relay_auto d k ct').1 = Ok ev' → verify_event ev' = Ok tt).
Proof.
  intros Hs. destruct (open_sealed_aead e2ee ev key nonce ct Hs) as [H1 H2].
  split_and!; [done|done| |intros ????; apply open_auto_verified].
  intros ct' k ev' H. unfold open_from_relay in H.
  apply bind_ok_inv in H as (raw & _ & H). by apply decode_event_Ok in H.
Qed.

(** The per-recipient seal: an event sealed by [a] for [b] over a session whose
    ends are in step is opened by [b] to the same event, the ends stay in step for
    the next one, and any other device refuses the envelope and is unchanged. *)
Lemma relay_olm_addressed `{SL : !StoreEnvLaws, OL : !OlmLaws} (a a' b : E2eeDevice)
    (k : option bytes32) (s s' : OlmSession) (ev : SignedEvent) (seed : Seed) (ct : list byte) :
  olm_sessions a !! ed_device_id b = Some s → olm_sessions b !! ed_device_id a = Some s' →
  paired s s' →
  seal_for_relay_olm a (ed_device_id b) ev seed = (Ok ct, a') →
  (∃ b', open_from_relay_auto b k ct =
     (let? _ := map_err SyncEvent (verify_event ev) in Ok ev, b') ∧
   ∃ s1 s1', olm_sessions a' !! ed_device_id b = Some s1 ∧
     olm_sessions b' !! ed_device_id a = Some s1' ∧ paired s1 s1') ∧
  ∀ c, ed_device_id c ≠ ed_device_id b →
    open_from_relay_auto c k ct = (Err SyncRelaySeal, c).
Proof.
  apply open_sealed_olm.
Qed.

End seal.
