(* ===== verification/Persist.v ===== *)
(** * The data directory ([crates/td-node/src/persist.rs])

    Identity, claim, counters and end-to-end state as files of one directory.
    A file system call can fail at any moment: an oracle says which calls fail
    and how much of a failing write reached the file.  A rename is atomic for the
    processes that look at the directory.  A crash keeps the contents of the files that
    were synced and may leave anything in the others; which file a name stands for is
    not synced with the file (fsync(2)), so each name may go back to what it stood for
    before, and a new directory may be gone.  Paths are the file names under the root.
    File modes, which change no contents and whose errors the code ignores, are left
    out. *)

From S2P Require Import Prelude Text Crypto Event Net Link E2ee Seal.

(** ** The file system *)

Record File : Type := mkFile { f_data : list byte; f_synced : bool }.

Record Disk : Type := mkDisk {
  dk_files : gmap (list byte) File;
  (** what a name stood for before, as long as a crash may bring it back *)
  dk_past : gmap (list byte) (list (option File));
  dk_dir : bool;
  (** the directory was made, and a crash may undo that *)
  dk_dir_new : bool;
  (** calls made so far *)
  dk_step : nat;
}.

(** [Some k]: the call fails, after [k] bytes if it writes. *)
Abbreviation Oracle := (nat → option nat).

Definition Fs (E A : Type) : Type := Oracle → Disk → result E A * Disk.

Definition fs_ret {E A} (a : A) : Fs E A := λ _ d, (Ok a, d).
Definition fs_err {E A} (e : E) : Fs E A := λ _ d, (Err e, d).
Definition fs_bind {E A B} (m : Fs E A) (k : A → Fs E B) : Fs E B := λ o d,
  match m o d with
  | (Ok a, d) => k a o d
  | (Err e, d) => (Err e, d)
  end.
Definition fs_lift {E A} (r : result E A) : Fs E A := λ _ d, (r, d).

Notation "'let!' x := m 'in' k" := (fs_bind m (λ x, k))
  (at level 200, x pattern, m at level 100, k at level 200, format "'let!'  x  :=  m  'in' '//' k")
  : td_scope.

Inductive PersistError : Type :=
| PersistIo (e : io_error)
| PersistJson
| PersistE2ee (s : list byte)
| BadIdentityLen (n : N)
| BadIdentityHex (s : list byte).

Definition tick (d : Disk) : Disk :=
  mkDisk (dk_files d) (dk_past d) (dk_dir d) (dk_dir_new d) (S (dk_step d)).

(** A file changes in place. *)
Definition set_file (d : Disk) (p : list byte) (f : File) : Disk :=
  mkDisk (<[p := f]> (dk_files d)) (dk_past d) (dk_dir d) (dk_dir_new d) (dk_step d).

(** All that a name may stand for after a crash, the present first. *)
Definition entries (d : Disk) (p : list byte) : list (option File) :=
  dk_files d !! p :: default [] (dk_past d !! p).

(** A name stands for something else; [old] is what a crash may bring back. *)
Definition set_entry (d : Disk) (p : list byte) (old e : option File) : Disk :=
  mkDisk (partial_alter (λ _, e) p (dk_files d)) (<[p := old :: default [] (dk_past d !! p)]> (dk_past d))
    (dk_dir d) (dk_dir_new d) (dk_step d).

(** A call that acts or fails without a trace. *)
Definition fs_call {A} (act : Disk → result io_error A * Disk) : Fs PersistError A := λ o d,
  match o (dk_step d) with
  | Some _ => (Err (PersistIo OtherIo), tick d)
  | None => let '(r, d) := act (tick d) in (map_err PersistIo r, d)
  end.

Definition fs_create_dir_all : Fs PersistError unit :=
  fs_call (λ d, (Ok tt, mkDisk (dk_files d) (dk_past d) true (dk_dir_new d || negb (dk_dir d)) (dk_step d))).

(** [File::create]: makes or truncates. *)
Definition fs_create (p : list byte) : Fs PersistError unit :=
  fs_call (λ d,
    if dk_dir d then
      (Ok tt, match dk_files d !! p with
              | Some _ => set_file d p (mkFile [] false)
              | None => set_entry d p None (Some (mkFile [] false))
              end)
    else (Err OtherIo, d)).

(** [write_all] at the end of the open file. *)
Definition fs_write_all (p l : list byte) : Fs PersistError unit := λ o d,
  let put k := match dk_files d !! p with
               | Some f => set_file (tick d) p (mkFile (f_data f ++ k) false)
               | None => tick d
               end in
  match o (dk_step d) with
  | Some k => (Err (PersistIo OtherIo), put (take k l))
  | None => (Ok tt, put l)
  end.

Definition fs_sync_all (p : list byte) : Fs PersistError unit :=
  fs_call (λ d, match dk_files d !! p with
                | Some f => (Ok tt, set_file d p (mkFile (f_data f) true))
                | None => (Ok tt, d)
                end).

(** The old name may come back with whatever is written to the file under the new one:
    [old] of the first change is not synced. *)
Definition fs_rename (a b : list byte) : Fs PersistError unit :=
  fs_call (λ d, match dk_files d !! a with
                | Some f =>
                  let d := set_entry d a (Some (mkFile (f_data f) false)) None in
                  (Ok tt, set_entry d b (dk_files d !! b) (Some f))
                | None => (Err OtherIo, d)
                end).

(** [Path::exists] is false when it fails. *)
Definition fs_exists (p : list byte) : Fs PersistError bool := λ o d,
  (Ok (match o (dk_step d) with
       | Some _ => false
       | None => dk_dir d && match dk_files d !! p with Some _ => true | None => false end
       end), tick d).

Definition fs_read (p : list byte) : Fs PersistError (list byte) :=
  fs_call (λ d, match dk_files d !! p with Some f => (Ok (f_data f), d) | None => (Err OtherIo, d) end).

(** [fs::read_to_string] *)
Definition fs_read_to_string (p : list byte) : Fs PersistError (list byte) :=
  let! s := fs_read p in
  if is_utf8 s then fs_ret s else fs_err (PersistIo OtherIo).

(** ** Data *)

Record ClaimState : Type := mkClaimState {
  cs_claimed : bool;
  cs_display_name : option (list byte);
  cs_recovery_hash : option (list byte);
  cs_claimed_at_ms : option N;
}.
Definition ClaimState_default : ClaimState := mkClaimState false None None None.

Record NodeMetaDisk : Type := mkNodeMetaDisk { nm_ts_counter : N }.

Record ClaimDisk : Type := mkClaimDisk {
  cd_claimed : bool;
  cd_display_name : option (list byte);
  cd_recovery_hash : option (list byte);
  cd_claimed_at_ms : option N;
}.

Definition ClaimDisk_from (c : ClaimState) : ClaimDisk :=
  mkClaimDisk (cs_claimed c) (cs_display_name c) (cs_recovery_hash c) (cs_claimed_at_ms c).
Definition ClaimState_from (c : ClaimDisk) : ClaimState :=
  mkClaimState (cd_claimed c) (cd_display_name c) (cd_recovery_hash c) (cd_claimed_at_ms c).

(** [serde_json::to_vec_pretty] and [from_str] of one type. *)
Class JsonFile (A : Type) : Type := { to_vec_pretty : A → list byte; from_str : list byte → option A }.
(** The text is UTF-8 and reads back, also with a line end after it. *)
Class JsonFileLaws (A : Type) `{!JsonFile A} : Prop := {
  from_str_pretty a : from_str (to_vec_pretty a) = Some a;
  from_str_line a : from_str (to_vec_pretty a ++ [x0a]) = Some a;
  pretty_utf8 a : is_utf8 (to_vec_pretty a) = true ∧ is_utf8 (to_vec_pretty a ++ [x0a]) = true;
}.

Class PersistEnv : Type := {
  persist_link :: LinkEnv;
  persist_seal :: SealEnv;
  persist_iter :: HashIter;
  claim_json :: JsonFile ClaimDisk;
  meta_json :: JsonFile NodeMetaDisk;
  e2ee_json :: JsonFile E2eeDurablePackage;
}.
Class PersistEnvLaws `{!PersistEnv} : Type := {
  persist_key_laws : KeyBytesLaws;
  persist_voz_laws : VodozemacLaws;
  persist_hex_laws : HexLaws;
  claim_json_laws : JsonFileLaws ClaimDisk;
  meta_json_laws : JsonFileLaws NodeMetaDisk;
  e2ee_json_laws : JsonFileLaws E2eeDurablePackage;
}.

Section persist.
Context {PV : PersistEnv}.

Definition IDENTITY_FILE : list byte := text "identity.key".
Definition CLAIM_FILE : list byte := text "claim.json".
Definition EVENTS_DB : list byte := text "events.sqlite".
Definition E2EE_FILE : list byte := text "e2ee.json".
Definition META_FILE : list byte := text "meta.json".

#[local] Arguments IDENTITY_FILE : simpl never.
#[local] Arguments CLAIM_FILE : simpl never.
#[local] Arguments E2EE_FILE : simpl never.
#[local] Arguments META_FILE : simpl never.

(** [Path::with_extension] for a name that has one. *)
Definition with_extension (name ext : list byte) : list byte :=
  match rsplit_once x2e name with
  | Some (stem, _) => stem ++ x2e :: ext
  | None => name ++ x2e :: ext
  end.

(** ** Operations *)

Definition ensure_dir : Fs PersistError unit := fs_create_dir_all.

Definition ends_with_newline (body : list byte) : bool :=
  match rev body with b :: _ => bool_decide (b = x0a) | [] => false end.

Definition atomic_write_bytes (tmp final_path body : list byte) : Fs PersistError unit :=
  let! _ := fs_create tmp in
  let! _ := fs_write_all tmp body in
  let! _ := (if ends_with_newline body then fs_ret tt else fs_write_all tmp [x0a]) in
  let! _ := fs_sync_all tmp in
  fs_rename tmp final_path.

Definition parse_identity_bytes (raw : list byte) : result PersistError bytes32 :=
  match try_into_array 32 raw with
  | Some out => Ok out
  | None =>
    if negb (is_utf8 raw) then Err (BadIdentityLen (N.of_nat (length raw))) else
    let s := trim raw in
    let? bytes := map_err BadIdentityHex (hex_decode s) in
    ok_or (try_into_array 32 bytes) (BadIdentityLen (N.of_nat (length bytes)))
  end.

Definition write_identity (kp : DeviceKeypair) : Fs PersistError unit :=
  let! _ := ensure_dir in
  let path := IDENTITY_FILE in
  let tmp := with_extension path (text "key.tmp") in
  let! _ := fs_create tmp in
  let! _ := fs_write_all tmp (array_bytes (to_seed_bytes kp)) in
  let! _ := fs_sync_all tmp in
  fs_rename tmp path.

(** [signing] is the key [DeviceKeypair::generate] would draw. *)
Definition load_or_create_identity (signing : @SigningKey (@env_crypto link_event)) : Fs PersistError DeviceKeypair :=
  let! _ := ensure_dir in
  let path := IDENTITY_FILE in
  let! e := fs_exists path in
  if e then
    let! raw := fs_read path in
    let! seed := fs_lift (parse_identity_bytes raw) in
    fs_ret (from_seed_bytes seed)
  else
    let kp := DeviceKeypair_generate signing in
    let! _ := write_identity kp in
    fs_ret kp.

Definition load_claim : Fs PersistError ClaimState :=
  let path := CLAIM_FILE in
  let! e := fs_exists path in
  if negb e then fs_ret ClaimState_default else
  let! s := fs_read_to_string path in
  let! disk := fs_lift (ok_or (from_str (A:=ClaimDisk) s) PersistJson) in
  fs_ret (ClaimState_from disk).

Definition save_claim (claim : ClaimState) : Fs PersistError unit :=
  let! _ := ensure_dir in
  let path := CLAIM_FILE in
  let tmp := with_extension path (text "json.tmp") in
  let disk := ClaimDisk_from claim in
  let body := to_vec_pretty disk in
  atomic_write_bytes tmp path body.

Definition load_meta : Fs PersistError NodeMetaDisk :=
  let path := META_FILE in
  let! e := fs_exists path in
  if negb e then fs_ret (mkNodeMetaDisk 1) else
  let! s := fs_read_to_string path in
  fs_lift (ok_or (from_str s) PersistJson).

Definition save_meta (meta : NodeMetaDisk) : Fs PersistError unit :=
  let! _ := ensure_dir in
  let path := META_FILE in
  let tmp := with_extension path (text "json.tmp") in
  let body := to_vec_pretty meta in
  atomic_write_bytes tmp path body.

(** [s], [s'] are the draws of [E2eeDevice::new]. *)
Definition load_e2ee (s s' : Seed) (device_id : DeviceId) : Fs PersistError E2eeDevice :=
  let path := E2EE_FILE in
  let! e := fs_exists path in
  if negb e then fs_ret (E2eeDevice_new s s' device_id) else
  let! s := fs_read_to_string path in
  let! pkg := fs_lift (ok_or (from_str (A:=E2eeDurablePackage) s) PersistJson) in
  fs_lift (map_err (λ e, PersistE2ee (E2eeError_to_string e)) (import_durable device_id pkg)).

Definition save_e2ee (e2ee : E2eeDevice) : Fs PersistError unit :=
  let! _ := ensure_dir in
  let path := E2EE_FILE in
  let tmp := with_extension path (text "json.tmp") in
  let! pkg := fs_lift (map_err (λ e, PersistE2ee (E2eeError_to_string e)) (export_durable e2ee)) in
  let body := to_vec_pretty pkg in
  atomic_write_bytes tmp path body.

(** ** Specification *)

(** What a crash may make of one entry: a synced file stays as it is. *)
Definition left_by (e e' : option File) : Prop :=
  match e, e' with
  | None, None => True
  | Some f, Some f' => f_synced f' = true ∧ (f_synced f = true → f_data f' = f_data f)
  | _, _ => False
  end.

(** What a crash leaves: every name stands for what it did or for what it did before;
    or a directory made since is gone.  All of it is on the disk then. *)
Definition crash (d d' : Disk) : Prop :=
  dk_past d' = ∅ ∧ dk_dir_new d' = false ∧
  ((dk_dir_new d = true ∧ dk_dir d' = false ∧ dk_files d' = ∅) ∨
   (dk_dir d' = dk_dir d ∧ ∀ p, ∃ e, e ∈ entries d p ∧ left_by e (dk_files d' !! p))).

(** Without the directory there is nothing. *)
Definition disk_wf (d : Disk) : Prop :=
  dk_dir d = false → dk_files d = ∅ ∧ dk_past d = ∅.

(** What a process that starts now finds in a file. *)
Definition view (d : Disk) (p : list byte) : option (list byte) :=
  if dk_dir d then f_data <$> dk_files d !! p else None.

(** Only the file [p] differs. *)
Definition only (p : list byte) (d d' : Disk) : Prop :=
  dk_dir d' = dk_dir d ∧ ∀ q, q ≠ p → dk_files d' !! q = dk_files d !! q.

(** Likewise, also in what a crash may bring back. *)
Definition touched (p : list byte) (d d' : Disk) : Prop :=
  only p d d' ∧ dk_dir_new d' = dk_dir_new d ∧ ∀ q, q ≠ p → dk_past d' !! q = dk_past d !! q.

(** No call fails. *)
Definition never : Oracle := λ _, None.

#[global] Instance only_preorder p : PreOrder (only p).
Proof.
  split; [done|]. intros d1 d2 d3 [H1 H2] [H3 H4]. split; [congruence|].
  intros q Hq. by rewrite H4, H2.
Qed.
#[global] Instance touched_preorder p : PreOrder (touched p).
Proof.
  split; [done|]. intros d1 d2 d3 (H1 & H2 & H3) (H4 & H5 & H6). split; [by etrans|].
  split; [congruence|]. intros q Hq. by rewrite H6, H3.
Qed.

Lemma touched_tick p d : touched p d (tick d).
Proof. done. Qed.
Lemma touched_file p d f : touched p d (set_file d p f).
Proof. split; [split; [done|]|done]. intros q Hq. cbn. by rewrite lookup_insert_ne. Qed.
Lemma touched_entry p d old e : touched p d (set_entry d p old e).
Proof.
  split; [split; [done|]|split; [done|]]; intros q Hq; cbn.
  - by rewrite lookup_partial_alter_ne.
  - by rewrite lookup_insert_ne.
Qed.

Lemma touched_entries p d d' q : touched p d d' → q ≠ p → entries d' q = entries d q.
Proof. intros ([_ H1] & _ & H2) Hq. unfold entries. by rewrite H1, H2. Qed.

Lemma fs_create_spec p o d : let '(r, d') := fs_create p o d in
  touched p d d' ∧ (is_ok r = true → dk_files d' !! p = Some (mkFile [] false) ∧ dk_dir d' = true).
Proof.
  unfold fs_create, fs_call. destruct (o (dk_step d)); [by split|]. cbn.
  destruct (dk_dir d) eqn:Hd; cbn; [|by split]. destruct (dk_files d !! p); cbn.
  - split; [etrans; [apply (touched_tick p)|apply touched_file]|]. by rewrite lookup_insert_eq.
  - split; [etrans; [apply (touched_tick p)|apply touched_entry]|]. by rewrite lookup_partial_alter_eq.
Qed.

Lemma fs_write_spec p l o d x b : dk_files d !! p = Some (mkFile x b) →
  let '(r, d') := fs_write_all p l o d in
  touched p d d' ∧ (is_ok r = true → dk_files d' !! p = Some (mkFile (x ++ l) false)).
Proof.
  intros Hp. unfold fs_write_all. rewrite Hp. destruct (o (dk_step d)); cbn.
  - split; [|done]. etrans; [apply (touched_tick p)|apply touched_file].
  - split; [etrans; [apply (touched_tick p)|apply touched_file]|]. by rewrite lookup_insert_eq.
Qed.

Lemma fs_sync_spec p o d x b : dk_files d !! p = Some (mkFile x b) →
  let '(r, d') := fs_sync_all p o d in
  touched p d d' ∧ (is_ok r = true → dk_files d' !! p = Some (mkFile x true)).
Proof.
  intros Hp. unfold fs_sync_all, fs_call. destruct (o (dk_step d)); [by split|]. cbn. rewrite Hp.
  cbn. split; [etrans; [apply (touched_tick p)|apply touched_file]|]. by rewrite lookup_insert_eq.
Qed.

(** After staging in [tmp]: success made [path] stand for the synced contents, failure
    left it alone. *)
Definition replaced (path body : list byte) (d : Disk) (p : result PersistError unit * Disk) : Prop :=
  dk_dir p.2 = dk_dir d ∧ dk_dir_new p.2 = dk_dir_new d ∧
  entries p.2 path =
    match p.1 with Ok _ => Some (mkFile body true) :: entries d path | Err _ => entries d path end.

Lemma fs_rename_spec tmp path body o d d0 : tmp ≠ path → touched tmp d0 d →
  dk_files d !! tmp = Some (mkFile body true) → replaced path body d0 (fs_rename tmp path o d).
Proof.
  intros Hne Ht Hb. pose proof (touched_entries _ _ _ path Ht (not_eq_sym Hne)) as He.
  destruct Ht as ([Hd _] & Hn & _). unfold fs_rename, fs_call, replaced.
  destruct (o (dk_step d)); cbn; [by split_and!|]. rewrite Hb. cbn. split_and!; [done|done|].
  rewrite <-He. unfold entries. cbn. rewrite lookup_partial_alter_eq, lookup_insert_eq. cbn.
  by rewrite lookup_partial_alter_ne, lookup_insert_ne.
Qed.

Lemma replaced_err tmp path body d d' e : tmp ≠ path → touched tmp d d' →
  replaced path body d (Err e, d').
Proof.
  intros Hne Ht. split_and!; cbn; [apply Ht|apply Ht|]. eapply touched_entries; [exact Ht|congruence].
Qed.

(** The end of every staged write. *)
Lemma sync_rename_spec tmp path body b o d d0 : tmp ≠ path → touched tmp d0 d →
  dk_files d !! tmp = Some (mkFile body b) →
  replaced path body d0 ((let! _ := fs_sync_all tmp in fs_rename tmp path) o d).
Proof.
  intros Hne Ho Ht. unfold fs_bind. pose proof (fs_sync_spec tmp o d body b Ht) as Hs.
  destruct (fs_sync_all tmp o d) as [[[]|e] d1]; destruct Hs as [Hs1 Hs2].
  - apply fs_rename_spec; [done|by etrans|by apply Hs2].
  - apply (replaced_err tmp); [done|by etrans].
Qed.

(** The bytes [atomic_write_bytes] leaves. *)
Definition with_newline (body : list byte) : list byte :=
  if ends_with_newline body then body else body ++ [x0a].

Lemma atomic_write_spec tmp path body o d : tmp ≠ path →
  replaced path (with_newline body) d (atomic_write_bytes tmp path body o d).
Proof.
  intros Hne. unfold atomic_write_bytes. unfold fs_bind at 1.
  pose proof (fs_create_spec tmp o d) as Hc.
  destruct (fs_create tmp o d) as [[[]|e] d1]; destruct Hc as [Hc Hc'];
    [|by apply (replaced_err tmp)]. specialize (Hc' eq_refl) as [Hc' _].
  unfold fs_bind at 1. pose proof (fs_write_spec tmp body o d1 _ _ Hc') as Hw.
  destruct (fs_write_all tmp body o d1) as [[[]|e] d2]; destruct Hw as [Hw Hw'];
    [|apply (replaced_err tmp); [done|by etrans]]. specialize (Hw' eq_refl). cbn [app] in Hw'.
  unfold with_newline. destruct (ends_with_newline body).
  - unfold fs_bind at 1. cbn [fs_ret]. eapply sync_rename_spec; [done|by etrans|exact Hw'].
  - unfold fs_bind at 1. pose proof (fs_write_spec tmp [x0a] o d2 _ _ Hw') as Hn.
    destruct (fs_write_all tmp [x0a] o d2) as [[[]|e] d3]; destruct Hn as [Hn Hn'].
    + eapply sync_rename_spec; [done|by etrans; [|etrans]|by apply Hn'].
    + apply (replaced_err tmp); [done|by etrans; [|etrans]].
Qed.

(** The same without the newline, as the identity key is written. *)
Lemma raw_write_spec tmp path body o d : tmp ≠ path →
  replaced path body d ((let! _ := fs_create tmp in let! _ := fs_write_all tmp body in
    let! _ := fs_sync_all tmp in fs_rename tmp path) o d).
Proof.
  intros Hne. unfold fs_bind at 1. pose proof (fs_create_spec tmp o d) as Hc.
  destruct (fs_create tmp o d) as [[[]|e] d1]; destruct Hc as [Hc Hc'];
    [|by apply (replaced_err tmp)]. specialize (Hc' eq_refl) as [Hc' _].
  unfold fs_bind at 1. pose proof (fs_write_spec tmp body o d1 _ _ Hc') as Hw.
  destruct (fs_write_all tmp body o d1) as [[[]|e] d2]; destruct Hw as [Hw Hw'];
    [|apply (replaced_err tmp); [done|by etrans]]. specialize (Hw' eq_refl).
  eapply sync_rename_spec; [done|by etrans|exact Hw'].
Qed.

Lemma create_dir_spec o d : let '(r, d') := fs_create_dir_all o d in
  dk_files d' = dk_files d ∧ (is_ok r = true → dk_dir d' = true) ∧
  (dk_dir d = true → dk_dir d' = true).
Proof. unfold fs_create_dir_all, fs_call. destruct (o (dk_step d)); by split_and!. Qed.

(** The directory may have been made; nothing else changed. *)
Definition opened (d d' : Disk) : Prop :=
  (∀ p, entries d' p = entries d p) ∧
  ((dk_dir d' = dk_dir d ∧ dk_dir_new d' = dk_dir_new d) ∨ (dk_dir d = false ∧ dk_dir d' = true)).

Lemma create_dir_opened o d : let '(r, d') := fs_create_dir_all o d in
  opened d d' ∧ (is_ok r = true → dk_dir d' = true).
Proof.
  unfold fs_create_dir_all, fs_call. destruct (o (dk_step d)); cbn; [by split; [split; [|left]|]|].
  split; [|done]. split; [done|]. cbn. destruct (dk_dir d); [left|by right].
  by rewrite orb_false_r.
Qed.

#[global] Instance opened_refl : Reflexive opened.
Proof. intros d. split; [done|by left]. Qed.

Lemma opened_tick d d' : opened d d' → opened d (tick d').
Proof. done. Qed.

Lemma opened_trans d d1 d2 : opened d d1 → opened d1 d2 → opened d d2.
Proof.
  intros [H1 H2] [H3 H4]. split; [intros p; by rewrite H3, H1|].
  destruct H2 as [[Ha Hb]|[Ha Hb]], H4 as [[Hc He]|[Hc He]]; rewrite ?Ha, ?Hb in *;
    try (left; split; congruence); right; split; congruence.
Qed.

(** ** What a crash leaves of one file *)

(** Everything as it is, and on the disk. *)
Definition written_back (d : Disk) : Disk :=
  mkDisk ((λ f, mkFile (f_data f) true) <$> dk_files d) ∅ (dk_dir d) false 0.

(** Any of the entries of a name may be the one left. *)
Lemma crash_one d p e e' : e ∈ entries d p → left_by e e' →
  ∃ d', crash d d' ∧ dk_dir d' = dk_dir d ∧ dk_files d' !! p = e'.
Proof.
  intros He Hl. set (d0 := written_back d).
  exists (mkDisk (partial_alter (λ _, e') p (dk_files d0)) ∅ (dk_dir d) false 0).
  split; [|split; [done|cbn; by rewrite lookup_partial_alter_eq]].
  split_and!; [done|done|]. right. split; [done|]. intros q. cbn [dk_files].
  destruct (decide (q = p)) as [->|Hq]; [exists e; by rewrite lookup_partial_alter_eq|].
  rewrite lookup_partial_alter_ne by done. exists (dk_files d !! q). split; [left|].
  cbn. rewrite lookup_fmap. by destruct (dk_files d !! q).
Qed.

Lemma opened_view d d1 p : disk_wf d → opened d d1 → view d1 p = view d p.
Proof.
  intros Hw [He Hd]. specialize (He p). injection He as Hf _. unfold view. rewrite Hf.
  destruct Hd as [[-> _]|[Hd ->]]; [done|]. rewrite Hd. destruct (Hw Hd) as [-> _]. by rewrite lookup_empty.
Qed.

Lemma opened_crash d d1 d2 : disk_wf d → opened d d1 → crash d1 d2 →
  ∃ d0, crash d d0 ∧ ∀ p, view d0 p = view d2 p.
Proof.
  intros Hw [He [[Hd Hn]|[Hd Hd1]]] (Hp & Hn2 & Hc).
  - exists d2. split; [|done]. split_and!; [done|done|]. rewrite Hd, Hn in Hc.
    destruct Hc as [?|[? Hc]]; [by left|right]. split; [done|]. intros p. by rewrite <-He.
  - destruct (Hw Hd) as [Hf Hpast]. exists (mkDisk ∅ ∅ false false 0). split.
    + split_and!; [done|done|]. right. split; [done|]. intros p. exists None. cbn.
      rewrite lookup_empty. split; [|done]. unfold entries. rewrite Hf, lookup_empty. left.
    + intros p. unfold view at 1. cbn. unfold view. destruct Hc as [(_ & -> & _)|[_ Hc]]; [done|].
      destruct (Hc p) as (e & Hin & Hl). rewrite He in Hin. unfold entries in Hin.
      rewrite Hf, Hpast, !lookup_empty in Hin. apply list_elem_of_singleton in Hin as ->.
      destruct (dk_files d2 !! p); [done|]. by destruct (dk_dir d2).
Qed.

Lemma replaced_view path body d p : replaced path body d p → dk_dir d = true →
  view p.2 path = match p.1 with Ok _ => Some body | Err _ => view d path end.
Proof.
  intros (Hd & _ & He) Hdir. unfold view. rewrite Hd, Hdir. unfold entries in He.
  destruct (p.1); injection He as -> _; done.
Qed.

Lemma replaced_crash path body d p d2 : replaced path body d p → dk_dir d = true → crash p.2 d2 →
  (is_ok p.1 = true ∧ view d2 path = Some body) ∨ ∃ d0, crash d d0 ∧ view d0 path = view d2 path.
Proof.
  intros (Hd & Hn & He) Hdir (Hp & Hn2 & [(Hc & Hd2 & Hf)|[Hd2 Hc]]).
  - right. exists d2. split; [|done]. split_and!; [done|done|]. left. by rewrite <-Hn.
  - destruct (Hc path) as (e & Hin & Hl). rewrite He in Hin. unfold view at 1 3.
    rewrite Hd2, Hd, Hdir.
    assert (e ∈ entries d path → ∃ d0, crash d d0 ∧ view d0 path = f_data <$> dk_files d2 !! path) as Hold.
    { intros Hin'. destruct (crash_one d path e _ Hin' Hl) as (d0 & Hc0 & Hd0 & Hf0).
      exists d0. split; [done|]. unfold view. by rewrite Hd0, Hdir, Hf0. }
    destruct (p.1); [|by right; apply Hold]. apply elem_of_cons in Hin as [->|Hin]; [|by right; apply Hold].
    left. split; [done|]. cbn in Hl. destruct (dk_files d2 !! path); [|done]. cbn. by rewrite (proj2 Hl eq_refl).
Qed.

(** A file all of which is on the disk: a crash leaves it, and leaves such files. *)
Definition settled (d : Disk) (p : list byte) : Prop :=
  dk_dir_new d = false ∧ dk_past d !! p = None ∧
  match dk_files d !! p with Some f => f_synced f = true | None => True end.

Lemma settled_crash d d2 p : settled d p → crash d d2 → view d2 p = view d p.
Proof.
  intros (Hn & Hp & Hf) (_ & _ & [[? _]|[Hd Hc]]); [congruence|]. unfold view. rewrite Hd.
  destruct (dk_dir d); [|done]. destruct (Hc p) as (e & Hin & Hl). unfold entries in Hin. rewrite Hp in Hin.
  apply list_elem_of_singleton in Hin as ->. destruct (dk_files d !! p), (dk_files d2 !! p); try done.
  cbn. f_equal. by apply Hl.
Qed.

Lemma crash_settled d d2 p : crash d d2 → settled d2 p.
Proof.
  intros (Hp & Hn & Hc). split_and!; [done|by rewrite Hp, lookup_empty|].
  destruct Hc as [(_ & _ & ->)|[_ Hc]]; [by rewrite lookup_empty|].
  destruct (Hc p) as (e & _ & Hl). destruct (dk_files d2 !! p), e; try done. apply Hl.
Qed.

(** What a save of [body] under [path] makes of a disk: at once, and after a crash. *)
Definition saved {A} (path body : list byte) (d : Disk) (p : result PersistError A * Disk) : Prop :=
  view p.2 path = match p.1 with Ok _ => Some body | Err _ => view d path end ∧
  ∀ d2, crash p.2 d2 → (is_ok p.1 = true ∧ view d2 path = Some body) ∨
    ∃ d0, crash d d0 ∧ view d0 path = view d2 path.

Lemma replaced_saved path body d d1 p : disk_wf d → opened d d1 → dk_dir d1 = true →
  replaced path body d1 p → saved path body d p.
Proof.
  intros Hw Ho Hd Hr. split.
  - rewrite (replaced_view _ _ _ _ Hr Hd). by rewrite (opened_view d d1).
  - intros d2 Hc. destruct (replaced_crash _ _ _ _ d2 Hr Hd Hc) as [?|(d3 & Hc3 & Hv)]; [by left|right].
    destruct (opened_crash d d1 d3 Hw Ho Hc3) as (d0 & Hc0 & Hv0). exists d0. by rewrite Hv0.
Qed.

Lemma opened_saved {A} path body d d1 (e : PersistError) : disk_wf d → opened d d1 →
  saved (A:=A) path body d (Err e, d1).
Proof.
  intros Hw Ho. split; [by apply opened_view|]. intros d2 Hc. right.
  destruct (opened_crash d d1 d2 Hw Ho Hc) as (d0 & Hc0 & Hv). by exists d0.
Qed.

(** Without a sync of the directory a crash may undo a save. *)
Lemma replaced_undone path body d p e e' : replaced path body d p → e ∈ entries d path → left_by e e' →
  ∃ d2, crash p.2 d2 ∧ dk_dir d2 = dk_dir d ∧ dk_files d2 !! path = e'.
Proof.
  intros (Hd & _ & He) Hin Hl. destruct (crash_one p.2 path e e') as (d2 & Hc & Hd2 & Hf); [|done|].
  - rewrite He. destruct (p.1); [by right|done].
  - exists d2. split_and!; [done|congruence|done].
Qed.

(** ** Loads *)

Definition parse_file {A} `{JsonFile A} (data : list byte) : result PersistError A :=
  if is_utf8 data then ok_or (from_str data) PersistJson else Err (PersistIo OtherIo).

Lemma parse_file_saved {A} `{JsonFileLaws A} (a : A) : parse_file (with_newline (to_vec_pretty a)) = Ok a.
Proof.
  destruct (pretty_utf8 a) as [Hu1 Hu2]. unfold parse_file, with_newline.
  by destruct (ends_with_newline _); rewrite ?Hu1, ?Hu2, ?from_str_pretty, ?from_str_line.
Qed.

Definition claim_of (v : option (list byte)) : result PersistError ClaimState :=
  match v with
  | None => Ok ClaimState_default
  | Some data => let? disk := parse_file (A:=ClaimDisk) data in Ok (ClaimState_from disk)
  end.
Definition meta_of (v : option (list byte)) : result PersistError NodeMetaDisk :=
  match v with None => Ok (mkNodeMetaDisk 1) | Some data => parse_file data end.
Definition e2ee_of (s s' : Seed) (id : DeviceId) (v : option (list byte)) : result PersistError E2eeDevice :=
  match v with
  | None => Ok (E2eeDevice_new s s' id)
  | Some data =>
    let? pkg := parse_file (A:=E2eeDurablePackage) data in
    map_err (λ e, PersistE2ee (E2eeError_to_string e)) (import_durable id pkg)
  end.

Ltac load_view := unfold view, parse_file, fs_read_to_string, fs_bind, fs_exists, fs_read, fs_call, fs_lift,
  fs_ret, fs_err, never; intros; cbn;
  match goal with |- context [dk_dir ?d && match dk_files ?d !! ?p with _ => _ end] =>
    destruct (dk_dir d); cbn; [|done]; destruct (dk_files d !! p) as [f|] eqn:Hf; cbn; rewrite ?Hf; [|done];
    cbn; destruct (is_utf8 (f_data f)); cbn; [|done] end.

Lemma load_claim_view d : (load_claim never d).1 = claim_of (view d CLAIM_FILE).
Proof. unfold load_claim, claim_of. load_view. by destruct (from_str (f_data f)). Qed.
Lemma load_meta_view d : (load_meta never d).1 = meta_of (view d META_FILE).
Proof. unfold load_meta, meta_of. load_view. by destruct (from_str (f_data f)). Qed.
Lemma load_e2ee_view s s' id d : (load_e2ee s s' id never d).1 = e2ee_of s s' id (view d E2EE_FILE).
Proof. unfold load_e2ee, e2ee_of. load_view. by destruct (from_str (f_data f)). Qed.

(** A load after a save, for any reading of the file. *)
Lemma saved_reads {A B} path body d (p : result PersistError A * Disk) (load : Disk → B) (rd : option (list byte) → B) :
  (∀ x, load x = rd (view x path)) → saved path body d p →
  load p.2 = match p.1 with Ok _ => rd (Some body) | Err _ => load d end ∧
  ∀ d2, crash p.2 d2 → (is_ok p.1 = true ∧ load d2 = rd (Some body)) ∨ ∃ d0, crash d d0 ∧ load d2 = load d0.
Proof.
  intros Hl [H1 H2]. split.
  - rewrite Hl, H1. destruct (p.1); [done|by rewrite Hl].
  - intros d2 Hc. destruct (H2 d2 Hc) as [[Hok Hv]|(d0 & Hc0 & Hv)].
    + left. by rewrite Hl, Hv.
    + right. exists d0. by rewrite !Hl, Hv.
Qed.

Context {PL : PersistEnvLaws}.

Lemma save_json_saved {A} `{JsonFile A} path (a : A) o d :
  with_extension path (text "json.tmp") ≠ path → disk_wf d →
  saved path (with_newline (to_vec_pretty a)) d ((let! _ := ensure_dir in
    atomic_write_bytes (with_extension path (text "json.tmp")) path (to_vec_pretty a)) o d).
Proof.
  intros Hne Hw. unfold fs_bind, ensure_dir. pose proof (create_dir_opened o d) as Hd.
  destruct (fs_create_dir_all o d) as [[[]|e] d1]; destruct Hd as [Ho Hdir].
  - eapply replaced_saved; [done|exact Ho|by apply Hdir|by apply atomic_write_spec].
  - by apply opened_saved.
Qed.

(** The claim after a save of [c'], whatever calls fail: a process that starts finds
    [c'] if the save was reported as done and else the claim from before; after a crash
    it may also find what a crash before the save could have left. *)
Lemma claim_save_atomic (d : Disk) (c' : ClaimState) (o : Oracle) : disk_wf d →
  let '(r, d1) := save_claim c' o d in
  let load x := (load_claim never x).1 in
  load d1 = match r with Ok _ => Ok c' | Err _ => load d end ∧
  ∀ d2, crash d1 d2 → (is_ok r = true ∧ load d2 = Ok c') ∨ ∃ d0, crash d d0 ∧ load d2 = load d0.
Proof.
  intros Hw. unfold save_claim. cbv zeta.
  pose proof (save_json_saved CLAIM_FILE (ClaimDisk_from c') o d ltac:(done) Hw) as Hs.
  destruct ((let! _ := ensure_dir in _) o d) as [r d1].
  pose proof (saved_reads _ _ _ _ (λ x, (load_claim never x).1) claim_of load_claim_view Hs) as Hr.
  cbn [fst snd claim_of] in Hr. rewrite (parse_file_saved (H:=claim_json_laws)) in Hr. cbn in Hr.
  by replace (ClaimState_from (ClaimDisk_from c')) with c' in Hr by by destruct c'.
Qed.

(** The first claim of a node, answered as saved, may be gone after a crash: its owner
    finds a node that anybody can claim. *)
Lemma claim_may_roll_back (d d1 : Disk) (c : ClaimState) (o : Oracle) :
  disk_wf d → dk_files d !! CLAIM_FILE = None → save_claim c o d = (Ok tt, d1) →
  ∃ d2, crash d1 d2 ∧ (load_claim never d2).1 = Ok ClaimState_default.
Proof.
  intros Hw Hn. unfold save_claim, ensure_dir. cbv zeta. unfold fs_bind at 1.
  pose proof (create_dir_opened o d) as Hd.
  destruct (fs_create_dir_all o d) as [[[]|e] d0]; destruct Hd as [[He _] _]; [|done]. intros Hs.
  pose proof (atomic_write_spec (with_extension CLAIM_FILE (text "json.tmp")) CLAIM_FILE
    (to_vec_pretty (ClaimDisk_from c)) o d0 ltac:(done)) as Hr. rewrite Hs in Hr.
  destruct (replaced_undone _ _ _ _ None None Hr) as (d2 & Hc & _ & Hf); [|done|].
  - rewrite He. unfold entries. rewrite Hn. left.
  - exists d2. split; [done|]. rewrite load_claim_view. unfold view. rewrite Hf. by destruct (dk_dir d2).
Qed.

(** A failing [stat] reads as an absent file: the claim is gone from memory. *)
Lemma stat_error_unclaims d o : o (dk_step d) = Some 0 →
  (load_claim o d).1 = Ok ClaimState_default.
Proof. intros Ho. unfold load_claim, fs_bind, fs_exists. by rewrite Ho. Qed.

Lemma parse_identity_seed (seed : bytes32) : parse_identity_bytes (array_bytes seed) = Ok seed.
Proof. unfold parse_identity_bytes. by rewrite try_into_array_bytes. Qed.

Lemma generated_reads sk : from_seed_bytes (to_seed_bytes (DeviceKeypair_generate sk)) = DeviceKeypair_generate sk.
Proof. unfold from_seed_bytes, to_seed_bytes. by rewrite (sk_from_to_bytes (KeyBytesLaws:=persist_key_laws)). Qed.

Definition identity_of (raw : list byte) : result PersistError DeviceKeypair :=
  let? seed := parse_identity_bytes raw in Ok (from_seed_bytes seed).

Lemma identity_of_generated sk :
  identity_of (array_bytes (to_seed_bytes (DeviceKeypair_generate sk))) = Ok (DeviceKeypair_generate sk).
Proof. unfold identity_of. rewrite parse_identity_seed. cbn. by rewrite generated_reads. Qed.

Lemma load_identity_view d sk raw kp : view d IDENTITY_FILE = Some raw → identity_of raw = Ok kp →
  (load_or_create_identity sk never d).1 = Ok kp.
Proof.
  unfold view, identity_of. intros Hv (seed & Hp & [= <-])%bind_ok_inv. unfold load_or_create_identity, ensure_dir,
    fs_create_dir_all, fs_bind, fs_exists, fs_read, fs_call, never, fs_lift, fs_ret. cbn.
  destruct (dk_dir d); [|done]. destruct (dk_files d !! IDENTITY_FILE) as [f|] eqn:Hf; [|done].
  injection Hv as Hv. cbn. rewrite Hf. cbn. by rewrite Hv, Hp.
Qed.

(** The second half of a start without an identity. *)
Lemma write_identity_replaced kp o d : let '(r, d') := write_identity kp o d in
  (∃ e, r = Err e ∧ opened d d') ∨
  ∃ d1, opened d d1 ∧ dk_dir d1 = true ∧ replaced IDENTITY_FILE (array_bytes (to_seed_bytes kp)) d1 (r, d').
Proof.
  unfold write_identity, ensure_dir. cbv zeta. unfold fs_bind at 1.
  pose proof (create_dir_opened o d) as Hd.
  destruct (fs_create_dir_all o d) as [[[]|e] d1]; destruct Hd as [Ho Hdir]; [|left; by exists e].
  pose proof (raw_write_spec (with_extension IDENTITY_FILE (text "key.tmp")) IDENTITY_FILE
    (array_bytes (to_seed_bytes kp)) o d1 ltac:(done)) as Hr.
  destruct (fs_bind (fs_create _) _ o d1) as [r d']. right. exists d1. split_and!; [done|by apply Hdir|done].
Qed.

(** The two ways of a start: it reads what is stored, or writes a new key. *)
Lemma load_or_create_cases d o sk : let '(r, d1) := load_or_create_identity sk o d in
  (opened d d1 ∧ ∀ kp, r = Ok kp → ∃ raw, view d1 IDENTITY_FILE = Some raw ∧ identity_of raw = Ok kp) ∨
  ((is_Some (o (S (dk_step d))) ∨ view d IDENTITY_FILE = None) ∧
   ∃ u d0, r = (let? _ := u in Ok (DeviceKeypair_generate sk)) ∧ opened d d0 ∧ dk_dir d0 = true ∧
     replaced IDENTITY_FILE (array_bytes (to_seed_bytes (DeviceKeypair_generate sk))) d0 (u, d1)).
Proof.
  unfold load_or_create_identity, ensure_dir. cbv zeta. unfold fs_bind at 1.
  pose proof (create_dir_opened o d) as Hd. assert (dk_step (fs_create_dir_all o d).2 = S (dk_step d)) as Hstep
    by (unfold fs_create_dir_all, fs_call; by destruct (o (dk_step d))).
  destruct (fs_create_dir_all o d) as [[[]|e] d1]; destruct Hd as [Ho Hdir]; cbn [snd] in Hstep; [|by left].
  specialize (Hdir eq_refl). unfold fs_bind at 1, fs_exists. rewrite Hstep, Hdir. cbn [andb].
  destruct (match o (S (dk_step d)) with Some _ => false | None => _ end) eqn:Hex.
  - unfold fs_bind at 1, fs_read, fs_call. destruct (o (dk_step (tick d1))); cbn; [by left; split|].
    destruct (o (S (dk_step d))); [done|]. destruct (dk_files d1 !! IDENTITY_FILE) as [f|] eqn:Hf; [|done].
    cbn. unfold fs_bind, fs_lift, fs_ret.
    destruct (parse_identity_bytes (f_data f)) as [seed|e] eqn:Hp; left; (split; [exact Ho|]); [|done].
    intros kp [= <-]. exists (f_data f). unfold view, identity_of. cbn. by rewrite Hdir, Hf, Hp.
  - set (kp := DeviceKeypair_generate sk). unfold fs_bind.
    pose proof (write_identity_replaced kp o (tick d1)) as Hw.
    assert (∀ d', opened (tick d1) d' → opened d d') as Htick
      by (intros d' H; eapply opened_trans; [exact Ho|exact H]).
    destruct (write_identity kp o (tick d1)) as [r d3].
    destruct Hw as [(e & -> & Hw)|(d0 & Hd0 & Hdir0 & Hw)]; [left; split; [by apply Htick|done]|].
    assert (is_Some (o (S (dk_step d))) ∨ view d IDENTITY_FILE = None) as Hstat.
    { destruct (o (S (dk_step d))); [left; eauto|right]. destruct (dk_files d1 !! IDENTITY_FILE) eqn:Hf; [done|].
      destruct Ho as [He _]. specialize (He IDENTITY_FILE). injection He as Hf' _. unfold view.
      rewrite <-Hf', Hf. by destruct (dk_dir d). }
    destruct r as [[]|e]; right; (split; [done|]); [exists (Ok tt), d0|exists (Err e), d0]; split_and!; auto.
Qed.

(** A fresh key is written when no call after the look at the file fails. *)
Lemma write_identity_ok kp o d : (∀ k, dk_step d ≤ k → o k = None) →
  (write_identity kp o d).1 = Ok tt.
Proof.
  intros Ho. unfold write_identity, ensure_dir, fs_bind, fs_create_dir_all, fs_create, fs_write_all,
    fs_sync_all, fs_rename, fs_call. cbv zeta.
  rewrite (Ho (dk_step d)) by done. cbn. rewrite Ho by (cbn; lia). cbn.
  destruct (dk_files d !! _); cbn; rewrite Ho by (cbn; lia); cbn;
    rewrite ?lookup_insert_eq, ?lookup_partial_alter_eq; cbn; rewrite Ho by (cbn; lia); cbn;
    rewrite ?lookup_insert_eq; cbn; rewrite Ho by (cbn; lia); cbn; by rewrite ?lookup_insert_eq.
Qed.

(** A start whose [stat] of the stored key fails draws a new one and replaces it. *)
Lemma stat_error_replaces_identity (d : Disk) (sk : @SigningKey (@env_crypto link_event)) :
  dk_dir d = true →
  let '(r, d1) := load_or_create_identity sk (λ k, if k =? S (dk_step d) then Some 0 else None) d in
  r = Ok (DeviceKeypair_generate sk) ∧
  view d1 IDENTITY_FILE = Some (array_bytes (to_seed_bytes (DeviceKeypair_generate sk))).
Proof.
  intros Hdir. set (o := λ k, _).
  assert (o (S (dk_step d)) = Some 0) as Ho by (unfold o; by rewrite Nat.eqb_refl).
  assert (∀ k, k ≠ S (dk_step d) → o k = None) as Hn
    by (intros k Hk; unfold o; by apply Nat.eqb_neq in Hk as ->). clearbody o.
  unfold load_or_create_identity, ensure_dir, fs_bind at 1, fs_create_dir_all, fs_call. cbv zeta.
  rewrite (Hn (dk_step d)) by lia. cbn [map_err]. unfold fs_bind at 1, fs_exists. cbn [dk_step tick]. rewrite Ho.
  set (d0 := tick _). set (kp := DeviceKeypair_generate sk). unfold fs_bind.
  pose proof (write_identity_replaced kp o d0) as Hw.
  assert ((write_identity kp o d0).1 = Ok tt) as Hr by (apply write_identity_ok; intros k; cbn; intros; apply Hn; lia).
  destruct (write_identity kp o d0) as [r d1]; cbn [fst] in Hr; subst r. split; [done|].
  destruct Hw as [(e & ? & _)|(d2 & _ & Hd2 & Hrep)]; [done|]. by apply (replaced_view _ _ _ _ Hrep).
Qed.

(** The first key of a node may be gone after a crash: it then starts as another device. *)
Lemma identity_may_be_lost (d d1 : Disk) (o : Oracle) (sk sk' : @SigningKey (@env_crypto link_event)) kp :
  disk_wf d → dk_files d !! IDENTITY_FILE = None → load_or_create_identity sk o d = (Ok kp, d1) →
  ∃ d2, crash d1 d2 ∧ (load_or_create_identity sk' never d2).1 = Ok (DeviceKeypair_generate sk').
Proof.
  intros Hw Hn Hl. pose proof (load_or_create_cases d o sk) as Hc. rewrite Hl in Hc.
  assert (view d IDENTITY_FILE = None) as Hv by (unfold view; rewrite Hn; by destruct (dk_dir d)).
  destruct Hc as [[Ho Hr]|(_ & u & d0 & Hu & [He _] & _ & Hrep)].
  { destruct (Hr kp eq_refl) as (raw & Hraw & _). rewrite (opened_view d d1) in Hraw by done. congruence. }
  destruct (replaced_undone _ _ _ _ None None Hrep) as (d2 & Hc & _ & Hf); [|done|].
  { rewrite He. unfold entries. rewrite Hn. left. }
  exists d2. split; [exact Hc|]. unfold load_or_create_identity, ensure_dir, fs_bind at 1, fs_create_dir_all, fs_call, never.
  cbv zeta. cbn [map_err]. unfold fs_bind at 1, fs_exists. cbn [tick dk_step dk_files dk_dir andb]. rewrite Hf. unfold fs_bind.
  match goal with |- context [write_identity ?kp ?o ?d] => pose proof (write_identity_ok kp o d ltac:(done)) as Hok;
    destruct (write_identity kp o d) as [r d3] end. cbn [fst] in Hok. by subst r.
Qed.

(** C25: the identity is never half written, and is lost or replaced only as said here.
    What a start returns is what the directory then holds and every later start gives.
    A start that fails changes nothing, and one whose [stat] of the key file is answered
    never replaces a stored key.  After a crash the directory holds what a crash before
    the start could have left, or the new key, whole. *)
Theorem identity_durable (d : Disk) (o : Oracle) (sk : @SigningKey (@env_crypto link_event)) :
  disk_wf d →
  let '(r, d1) := load_or_create_identity sk o d in
  let stored x := view x IDENTITY_FILE in
  let new := DeviceKeypair_generate sk in
  (∀ kp, r = Ok kp → (∃ raw, stored d1 = Some raw ∧ identity_of raw = Ok kp) ∧
     ∀ sk', (load_or_create_identity sk' never d1).1 = Ok kp) ∧
  (is_ok r = false → stored d1 = stored d) ∧
  (is_Some (stored d) → o (S (dk_step d)) = None → stored d1 = stored d) ∧
  ∀ d2, crash d1 d2 → (∃ d0, crash d d0 ∧ stored d2 = stored d0) ∨
    (r = Ok new ∧ stored d2 = Some (array_bytes (to_seed_bytes new)) ∧
     ∀ sk', (load_or_create_identity sk' never d2).1 = Ok new).
Proof.
  intros Hw. pose proof (load_or_create_cases d o sk) as Hc.
  destruct (load_or_create_identity sk o d) as [r d1]. cbv zeta.
  destruct Hc as [[Ho Hr]|(Hstat & u & d0 & -> & Ho & Hdir & Hrep)].
  - pose proof (opened_view d d1 IDENTITY_FILE Hw Ho) as Hv. split_and!; [|done|done|].
    + intros kp Hkp. destruct (Hr kp Hkp) as (raw & Hraw & Hid). split; [eauto|].
      intros sk'. by eapply load_identity_view.
    + intros d2 Hcr. left. destruct (opened_crash d d1 d2 Hw Ho Hcr) as (d0 & Hc0 & Hv0). by exists d0.
  - pose proof (replaced_saved _ _ _ _ _ Hw Ho Hdir Hrep) as [Hv Hcr]. cbn [fst snd] in *.
    pose proof (identity_of_generated sk) as Hid.
    split_and!.
    + intros kp Hkp. destruct u as [[]|e]; [|done]. injection Hkp as <-. split; [eauto|].
      intros sk'. by eapply load_identity_view.
    + by destruct u as [[]|e].
    + intros Hs Hst. destruct Hstat as [Hstat|Hstat]; [|by rewrite Hstat in Hs; destruct Hs].
      rewrite Hst in Hstat. by destruct Hstat.
    + intros d2 Hc2. destruct (Hcr d2 Hc2) as [[Hok Hv2]|(d3 & Hc3 & Hv3)].
      * right. destruct u as [[]|e]; [|done]. split_and!; [done|done|]. intros sk'. by eapply load_identity_view.
      * left. by exists d3.
Qed.

(** C26: the end-to-end state survives a restart: after a save that was reported as done,
    a load under the same device id gives back the device with all its sessions, and
    under another id it refuses; after one that failed, it gives what it gave before.
    After a crash it gives the same, or what a crash before the save could have left. *)
Theorem e2ee_restart (d : Disk) (o : Oracle) (e2ee : E2eeDevice) (id : DeviceId) (s s' : Seed) :
  disk_wf d →
  let '(r, d1) := save_e2ee e2ee o d in
  let load x := (load_e2ee s s' id never x).1 in
  let new :=
    if decide (id = ed_device_id e2ee) then Ok e2ee
    else Err (PersistE2ee (E2eeError_to_string (E2eeCodec (text "e2ee durable device_id mismatch")))) in
  load d1 = match r with Ok _ => new | Err _ => load d end ∧
  ∀ d2, crash d1 d2 → (is_ok r = true ∧ load d2 = new) ∨ ∃ d0, crash d d0 ∧ load d2 = load d0.
Proof.
  intros Hw. pose proof persist_hex_laws as HL.
  pose proof (durable_restores (VL:=persist_voz_laws) e2ee id) as Hdur.
  cbv zeta. set (new := if decide _ then _ else _).
  assert (∃ body, saved E2EE_FILE body d (save_e2ee e2ee o d) ∧
    (is_ok (save_e2ee e2ee o d).1 = true → e2ee_of s s' id (Some body) = new)) as (body & Hs & Hb).
  { unfold save_e2ee, ensure_dir, fs_lift. cbv zeta. unfold fs_bind. pose proof (create_dir_opened o d) as Hd.
    destruct (fs_create_dir_all o d) as [[[]|e] d1]; destruct Hd as [Ho Hdir].
    2: { exists []. split; [by apply opened_saved|done]. }
    destruct (export_durable e2ee) as [pkg|] eqn:Hpkg; cbn [map_err].
    2: { exists []. split; [by apply opened_saved|done]. }
    exists (with_newline (to_vec_pretty pkg)). split.
    - eapply replaced_saved; [done|exact Ho|by apply Hdir|by apply atomic_write_spec].
    - intros _. unfold e2ee_of. rewrite (parse_file_saved (H:=e2ee_json_laws)). cbn [mbind result_bind] in *.
      rewrite Hdur. unfold new. by case_decide. }
  pose proof (saved_reads _ _ _ _ (λ x, (load_e2ee s s' id never x).1) (e2ee_of s s' id) (load_e2ee_view s s' id) Hs)
    as [H1 H2].
  destruct (save_e2ee e2ee o d) as [r d1]. cbn [fst snd] in *. split.
  - rewrite H1. destruct r; [by apply Hb|done].
  - intros d2 Hc. destruct (H2 d2 Hc) as [[Hok Hl]|?]; [left|by right]. split; [done|]. by rewrite Hl, Hb.
Qed.

End persist.
