(* ===== verification/Quic.v ===== *)
(** * The QUIC transport ([crates/td-net/src/quic.rs])

    Certificate pins, the TLS policy of either side of a connection, the identity on
    disk, and events over a stream.  [rustls], [rcgen] and [quinn] are parameters:
    what a generated identity is, whether a configuration is accepted, which
    connections complete. *)

From S2P Require Import Prelude Text Crypto Event Net Link E2ee Seal Persist Base64.

(** ** Certificates, keys and their PEM text *)

Definition CertificateDer : Type := list byte.
Inductive PrivateKeyDer : Type :=
| Pkcs8 (der : list byte)
| Sec1 (der : list byte)
| Pkcs1 (der : list byte)
| OtherKey.

Definition ALPN : list byte := text "td-p2p/1".

Inductive QuicError : Type :=
| Quinn (s : list byte)
| QuicFrame (e : FrameError)
| QuicIo (e : io_error)
| QuicInvalidUri (s : list byte)
| QuicClosed
| QuicTls (s : list byte)
| QuicPin (s : list byte).

(** The outcome of [self_signed_cert]. *)
Abbreviation Generated := (result QuicError (list CertificateDer * PrivateKeyDer)).

(** [data.chunks(n)] *)
Fixpoint chunks_loop {A} (fuel n : nat) (l : list A) : list (list A) :=
  match fuel, l with
  | S fuel, _ :: _ => take n l :: chunks_loop fuel n (drop n l)
  | _, _ => []
  end.
Definition chunks {A} (n : nat) (l : list A) : list (list A) := chunks_loop (length l) n l.

Definition PEM_T : list byte := text "ABCDEFGHIJKLMNOPQRSTUVWXYZabcdefghijklmnopqrstuvwxyz0123456789+/".

(** [T[((n >> k) & 63) as usize]] *)
Definition pem_char (n k : N) : byte := nth (N.to_nat (N.land (N.shiftr n k) 63)) PEM_T x00.

(** One chunk of one to three bytes. *)
Definition base64_chunk (chunk : list byte) : list byte :=
  let at_ i := match nth_error chunk i with Some b => Byte.to_N b | None => 0%N end in
  let n := N.lor (N.lor (N.shiftl (at_ 0) 16) (N.shiftl (at_ 1) 8)) (at_ 2) in
  [pem_char n 18; pem_char n 12;
   if 1 <? length chunk then pem_char n 6 else x3d;
   if 2 <? length chunk then pem_char n 0 else x3d].

Definition base64_std (data : list byte) : list byte := concat (base64_chunk <$> chunks 3 data).

(** [for chunk in b64.as_bytes().chunks(64) { .. }] *)
Definition pem_lines (b64 : list byte) : list byte :=
  concat ((λ chunk, chunk ++ [x0a]) <$> chunks 64 b64).

Definition pem_text (label der : list byte) : list byte :=
  text "-----BEGIN " ++ label ++ text "-----" ++ [x0a] ++ pem_lines (base64_std der) ++
  text "-----END " ++ label ++ text "-----" ++ [x0a].

Class Tls : Type := {
  tls_crypto :: Crypto;
  tls_hex :: Hex;
  (** [rustls_pemfile] *)
  pem_certs : list byte → result (list byte) (list CertificateDer);
  pem_private_key : list byte → result (list byte) (option PrivateKeyDer);
  (** whether [rustls] takes a certificate chain with its key *)
  single_cert : list CertificateDer → PrivateKeyDer → result (list byte) unit;
}.

(** The textual encoding of RFC 7468, with the standard alphabet and lines of 64. *)
Definition pem_block (label der : list byte) : list byte :=
  text "-----BEGIN " ++ label ++ text "-----" ++ [x0a] ++
  concat ((λ chunk, chunk ++ [x0a]) <$> chunks 64 (base64_encode_config der false)) ++
  text "-----END " ++ label ++ text "-----" ++ [x0a].
Class TlsLaws `{!Tls} : Prop := {
  pem_certs_blocks ders : pem_certs (concat (pem_block (text "CERTIFICATE") <$> ders)) = Ok ders;
  pem_key_block der : pem_private_key (pem_block (text "PRIVATE KEY") der) = Ok (Some (Pkcs8 der));
}.

Section quic.
Context {TL : Tls}.

(** ** Pins *)

Definition cert_pin_blake3 (cert : CertificateDer) : bytes32 := blake3 cert.
Definition cert_pin_hex (cert : CertificateDer) : list byte :=
  hex_encode (array_bytes (cert_pin_blake3 cert)).

(** The characters [parse_pin_list] splits on. *)
Definition pin_separators : list (list byte) := [x2c] :: white_space.

(** [s.split(|c| c == ',' || c.is_whitespace())]; each round drops a byte at least. *)
Fixpoint split_any (fuel : nat) (ps : list (list byte)) (s : list byte) : list (list byte) :=
  match fuel, s with
  | S fuel, b :: r =>
    match strip_any ps s with
    | Some r => [] :: split_any fuel ps r
    | None =>
      match split_any fuel ps r with
      | p :: l => (b :: p) :: l
      | [] => [[b]]
      end
    end
  | _, _ => [s]
  end.

Definition parse_pin (p : list byte) : result QuicError bytes32 :=
  let? bytes := map_err (λ e, QuicPin (text "bad pin hex: " ++ e)) (hex_decode p) in
  ok_or (try_into_array 32 bytes)
    (QuicPin (text "pin must be 32 bytes (64 hex), got " ++ dec (N.of_nat (length bytes)) ++ text " bytes")).

(** [for part in ..] *)
Fixpoint parse_pins (parts : list (list byte)) : result QuicError (list bytes32) :=
  match parts with
  | [] => Ok []
  | part :: parts =>
    let p := trim part in
    if bool_decide (p = []) then parse_pins parts else
    let? arr := parse_pin p in
    let? out := parse_pins parts in
    Ok (arr :: out)
  end.

Definition parse_pin_list (s : list byte) : result QuicError (list bytes32) :=
  parse_pins (split_any (length s) pin_separators s).

Definition pin_allowed (pins : list bytes32) (cert : CertificateDer) : bool :=
  match pins with
  | [] => false
  | _ :: _ => let got := cert_pin_blake3 cert in existsb (λ p, bool_decide (p = got)) pins
  end.

(** ** [QuicTlsConfig] *)

Record QuicTlsConfig : Type := mkQuicTlsConfig {
  qc_certs : list CertificateDer;
  qc_key : PrivateKeyDer;
  qc_peer_pins : list bytes32;
  qc_require_client_auth : bool;
  qc_insecure_skip_verify : bool;
  qc_server_name : list byte;
}.

Definition insecure_ephemeral (generated : Generated) : result QuicError QuicTlsConfig :=
  let? '(certs, key) := generated in
  Ok (mkQuicTlsConfig certs key [] false true (text "td-pond")).

(** [cert_pem] and [key_pem] are the outcomes of the two reads. *)
Definition load_pem_identity (cert_pem key_pem : result io_error (list byte)) :
    result QuicError (list CertificateDer * PrivateKeyDer) :=
  let? cert_pem := map_err QuicIo cert_pem in
  let? key_pem := map_err QuicIo key_pem in
  let? certs := map_err (λ e, QuicTls (text "cert pem: " ++ e)) (pem_certs cert_pem) in
  if bool_decide (certs = []) then Err (QuicTls (text "no certificates in cert pem")) else
  let? key := map_err (λ e, QuicTls (text "key pem: " ++ e)) (pem_private_key key_pem) in
  let? key := ok_or key (QuicTls (text "no private key in key pem")) in
  Ok (certs, key).

Definition from_pem_files (cert_pem key_pem : result io_error (list byte)) (peer_pins : list bytes32)
    (require_client_auth : bool) : result QuicError QuicTlsConfig :=
  let? '(certs, key) := load_pem_identity cert_pem key_pem in
  let insecure := bool_decide (peer_pins = []) && negb require_client_auth in
  Ok (mkQuicTlsConfig certs key peer_pins require_client_auth insecure (text "td-pond")).

Definition local_pin (self : QuicTlsConfig) : option bytes32 := cert_pin_blake3 <$> head (qc_certs self).
Definition local_pin_hex (self : QuicTlsConfig) : option (list byte) := cert_pin_hex <$> head (qc_certs self).

Definition with_pins (self : QuicTlsConfig) (pins : list bytes32) : QuicTlsConfig :=
  mkQuicTlsConfig (qc_certs self) (qc_key self) pins (qc_require_client_auth self)
    (match pins with [] => qc_insecure_skip_verify self | _ :: _ => false end) (qc_server_name self).

Definition with_mtls (self : QuicTlsConfig) (on : bool) : QuicTlsConfig :=
  mkQuicTlsConfig (qc_certs self) (qc_key self) (qc_peer_pins self) on
    (if on then false else qc_insecure_skip_verify self) (qc_server_name self).

(** [fs::write] *)
Definition fs_write (p l : list byte) : Fs PersistError unit :=
  let! _ := fs_create p in fs_write_all p l.

Definition secret_der (key : PrivateKeyDer) : result QuicError (list byte) :=
  match key with
  | Pkcs8 k | Sec1 k | Pkcs1 k => Ok k
  | OtherKey => Err (QuicTls (text "unsupported key type for pem export"))
  end.

Definition quic_fs {A} (m : Fs PersistError A) : Fs QuicError A := λ o d,
  let '(r, d) := m o d in
  (map_err (λ e, match e with PersistIo e => QuicIo e | _ => QuicIo OtherIo end) r, d).

(** Both paths are files of the data directory. *)
Definition write_self_signed_pem (generated : Generated) (cert_path key_path : list byte) :
    Fs QuicError QuicTlsConfig :=
  let! (certs, key) := fs_lift generated in
  let cert_pem := concat (pem_text (text "CERTIFICATE") <$> certs) in
  let! key_raw := fs_lift (secret_der key) in
  let key_pem := pem_text (text "PRIVATE KEY") key_raw in
  let! _ := quic_fs fs_create_dir_all in
  let! _ := quic_fs fs_create_dir_all in
  let! _ := quic_fs (fs_write cert_path cert_pem) in
  let! _ := quic_fs (fs_write key_path key_pem) in
  fs_ret (mkQuicTlsConfig certs key [] false true (text "td-pond")).

(** ** What a side asks of the other *)

Inductive CertError : Type := ApplicationVerificationFailure.

Record PinOrSkipServerVerifier : Type := mkServerVerifier { sv_pins : list bytes32; sv_skip : bool }.

Definition verify_server_cert (self : PinOrSkipServerVerifier) (end_entity : CertificateDer) :
    result CertError unit :=
  match sv_pins self with
  | _ :: _ => if pin_allowed (sv_pins self) end_entity then Ok tt else Err ApplicationVerificationFailure
  | [] => if sv_skip self then Ok tt else Err ApplicationVerificationFailure
  end.

Record PinClientCertVerifier : Type := mkClientVerifier { cv_pins : list bytes32; cv_allow_any : bool }.

Definition verify_client_cert (self : PinClientCertVerifier) (end_entity : CertificateDer) :
    result CertError unit :=
  match cv_pins self with
  | _ :: _ => if pin_allowed (cv_pins self) end_entity then Ok tt else Err ApplicationVerificationFailure
  | [] => if cv_allow_any self then Ok tt else Err ApplicationVerificationFailure
  end.

(** [client_auth_mandatory] holds when there is a verifier. *)
Record ServerConfig : Type := mkServerConfig {
  sc_client_verifier : option PinClientCertVerifier;
  sc_certs : list CertificateDer;
  sc_key : PrivateKeyDer;
  sc_alpn : list (list byte);
  sc_max_bidi_streams : N;
}.
Record ClientConfig : Type := mkClientConfig {
  cc_verifier : PinOrSkipServerVerifier;
  cc_identity : option (list CertificateDer * PrivateKeyDer);
  cc_alpn : list (list byte);
}.

Definition server_config (cfg : QuicTlsConfig) : result QuicError ServerConfig :=
  let verifier :=
    if qc_require_client_auth cfg
    then Some (mkClientVerifier (qc_peer_pins cfg) (bool_decide (qc_peer_pins cfg = [])))
    else None in
  let? _ := map_err QuicTls (single_cert (qc_certs cfg) (qc_key cfg)) in
  Ok (mkServerConfig verifier (qc_certs cfg) (qc_key cfg) [ALPN] 64).

Definition client_config (cfg : QuicTlsConfig) : result QuicError ClientConfig :=
  let verifier := mkServerVerifier (qc_peer_pins cfg) (qc_insecure_skip_verify cfg) in
  if qc_require_client_auth cfg || negb (bool_decide (qc_certs cfg = [])) then
    let? _ := map_err (λ e, QuicTls (text "client auth cert: " ++ e)) (single_cert (qc_certs cfg) (qc_key cfg)) in
    Ok (mkClientConfig verifier (Some (qc_certs cfg, qc_key cfg)) [ALPN])
  else Ok (mkClientConfig verifier None [ALPN]).

(** ** Dialling and events *)

Definition is_quic_uri (s : list byte) : bool := starts_with (trim s) (text "td-quic://").

(** [parse] reads a socket address or gives the text of its error; [connect] is the
    outcome of the connection and its stream. *)
Definition quic_dial_with_config {S} (uri : PeerUri) (cfg : QuicTlsConfig)
    (parse : list byte → result (list byte) SocketAddr)
    (connect : SocketAddr → list byte → ClientConfig → result (list byte) S) : result QuicError S :=
  if negb (pu_quic uri) then Err (QuicInvalidUri (text "expected td-quic:// peer uri")) else
  let? addr := map_err (λ e, QuicInvalidUri (socket_addr uri ++ text ": " ++ e)) (parse (socket_addr uri)) in
  let? cc := client_config cfg in
  map_err Quinn (connect addr (qc_server_name cfg) cc).

(** [quic_listen_with_config] up to the endpoint. *)
Definition quic_listen_with_config (bind : list byte) (cfg : QuicTlsConfig)
    (parse : list byte → result (list byte) SocketAddr)
    (listen : SocketAddr → ServerConfig → result (list byte) SocketAddr) : result QuicError SocketAddr :=
  let? addr := map_err (λ e, QuicInvalidUri (bind ++ text ": " ++ e)) (parse bind) in
  let? sc := server_config cfg in
  map_err Quinn (listen addr sc).

(** [QuicStream]: its two halves. *)
Record QuicStream : Type := mkQuicStream { qs_send : Writer; qs_recv : Reader }.

Definition quic_write_event `{Encode SignedEvent} (self : QuicStream) (ev : SignedEvent) :
    result QuicError unit * QuicStream :=
  let '(r, w) := write_event (qs_send self) ev in (map_err QuicFrame r, mkQuicStream w (qs_recv self)).
Definition quic_read_event `{Decode SignedEvent} (self : QuicStream) :
    result QuicError SignedEvent * QuicStream :=
  let '(r, rd) := read_event (qs_recv self) in (map_err QuicFrame r, mkQuicStream (qs_send self) rd).

(** ** Base64 and PEM *)

Lemma chunks_loop_fuel {A} n f1 : ∀ f2 (l : list A), 0 < n → length l ≤ f1 → length l ≤ f2 →
  chunks_loop f1 n l = chunks_loop f2 n l.
Proof.
  induction f1 as [|f1 IH]; intros f2 l Hn H1 H2; [by destruct l, f2; cbn in *; try lia|].
  destruct l as [|x l]; [by destruct f2|]. destruct f2 as [|f2]; [cbn in H2; lia|].
  cbn [chunks_loop]. f_equal.
  assert (length (drop n (x :: l)) ≤ length l) by (rewrite length_drop; cbn; lia).
  cbn in H1, H2. apply IH; lia.
Qed.

Lemma chunks_cons {A} n (l : list A) : 0 < n → l ≠ [] → chunks n l = take n l :: chunks n (drop n l).
Proof.
  intros Hn Hl. unfold chunks at 1. destruct l as [|x l]; [done|]. cbn [length chunks_loop]. f_equal.
  apply chunks_loop_fuel; [done| |done]. rewrite length_drop. cbn. lia.
Qed.

Lemma concat_chunks {A} n (l : list A) : 0 < n → concat (chunks n l) = l.
Proof.
  intros Hn. remember (length l) as k eqn:Hk. revert l Hk.
  induction k as [k IH] using lt_wf_ind; intros l ->.
  destruct (decide (l = [])) as [->|Hl]; [done|]. rewrite chunks_cons by done. cbn [concat].
  rewrite (IH (length (drop n l))); [by rewrite take_drop| |done].
  rewrite length_drop. destruct l; [done|cbn; lia].
Qed.

Lemma pem_char_eq t k : pem_char t k = b64_char false t k.
Proof. done. Qed.

Lemma lor_below n a b : (a < 2 ^ n)%N → (b < 2 ^ n)%N → (N.lor a b < 2 ^ n)%N.
Proof.
  intros Ha Hb. rewrite <-(N.mod_small a (2 ^ n)), <-(N.mod_small b (2 ^ n)) by done.
  rewrite <-!N.land_ones, <-N.land_lor_distr_l, N.land_ones. apply N.mod_lt. by apply N.pow_nonzero.
Qed.

Lemma triple_small b0 b1 b2 : (b0 < 256)%N → (b1 < 256)%N → (b2 < 256)%N →
  b64_triple b0 b1 b2 = N.lor (N.lor (N.shiftl b0 16) (N.shiftl b1 8)) b2.
Proof.
  intros H0 H1 H2. unfold b64_triple. apply wrap_small.
  apply N.lt_le_trans with (2 ^ 24)%N; [|done].
  apply lor_below; [apply lor_below|]; rewrite ?N.shiftl_mul_pow2; lia.
Qed.

(** The encoder written for PEM files computes the standard alphabet of the other. *)
Lemma base64_std_eq (data : list byte) : base64_std data = base64_encode_config data false.
Proof.
  assert (∀ b : byte, Byte.to_N b < 256)%N as Hb by (intros b; pose proof (Byte.to_N_bounded b); lia).
  unfold base64_std. induction data as [|b0|b0 b1|b0 b1 b2 data IH] using list_ind_3; [done| | |].
  - cbn [chunks length chunks_loop take drop fmap list_fmap concat base64_chunk nth_error app base64_encode_config pad].
    rewrite triple_small by (done || apply Hb). done.
  - cbn [chunks length chunks_loop take drop fmap list_fmap concat base64_chunk nth_error app base64_encode_config pad].
    rewrite triple_small by (done || apply Hb). done.
  - rewrite chunks_cons by (lia || done). cbn [take drop]. rewrite fmap_cons, take_0, drop_0. cbn [concat]. rewrite IH.
    cbn [base64_encode_config]. rewrite triple_small by apply Hb. done.
Qed.

Lemma pem_text_block label der : pem_text label der = pem_block label der.
Proof. unfold pem_text, pem_block, pem_lines. by rewrite base64_std_eq. Qed.

(** A write that succeeds leaves the whole text. *)
Lemma fs_write_spec_ok p l o d d' : fs_write p l o d = (Ok tt, d') →
  only p d d' ∧ dk_files d' !! p = Some (mkFile l false).
Proof.
  unfold fs_write, fs_bind. pose proof (fs_create_spec p o d) as H1.
  destruct (fs_create p o d) as [[[]|e] d1]; [|done]. destruct H1 as [[H1 _] H1'].
  pose proof (fs_write_spec p l o d1 [] false (proj1 (H1' eq_refl))) as H2.
  destruct (fs_write_all p l o d1) as [[[]|e] d2]; [|done]. destruct H2 as [[H2 _] H2'].
  intros [= <-]. split; [by etrans|by apply H2'].
Qed.

(** What a read that does not fail gives. *)
Definition contents (d : Disk) (p : list byte) : result io_error (list byte) :=
  match dk_files d !! p with Some f => Ok (f_data f) | None => Err OtherIo end.

Lemma quic_fs_ok {A} (m : Fs PersistError A) o d a d' :
  quic_fs m o d = (Ok a, d') → m o d = (Ok a, d').
Proof. unfold quic_fs. destruct (m o d) as [[x|e] d1]; [|done]. by intros [= <- <-]. Qed.

(** C32: An identity that was written loads again: when [write_self_signed_pem] returns,
    the two files parse to the certificates and the key it generated, whatever calls
    failed before. *)
Theorem pem_identity_roundtrip {TLL : TlsLaws} (certs : list CertificateDer) (k : list byte)
    (cert_path key_path : list byte) (o : Oracle) (d d' : Disk) (cfg : QuicTlsConfig) :
  certs ≠ [] → cert_path ≠ key_path →
  write_self_signed_pem (Ok (certs, Pkcs8 k)) cert_path key_path o d = (Ok cfg, d') →
  load_pem_identity (contents d' cert_path) (contents d' key_path) = Ok (certs, Pkcs8 k) ∧
  cfg = mkQuicTlsConfig certs (Pkcs8 k) [] false true (text "td-pond").
Proof.
  intros Hc Hp. unfold write_self_signed_pem. cbn [fs_lift fs_bind secret_der].
  unfold fs_bind, fs_lift, fs_ret; cbn [secret_der].
  destruct (quic_fs fs_create_dir_all o d) as [[[]|e] d0]; [|done].
  destruct (quic_fs fs_create_dir_all o d0) as [[[]|e] d1]; [|done].
  destruct (quic_fs (fs_write cert_path _) o d1) as [[[]|e] d2] eqn:H2; [|done].
  destruct (quic_fs (fs_write key_path _) o d2) as [[[]|e] d3] eqn:H3; [|done].
  intros [= <- <-]. split; [|done].
  apply quic_fs_ok, fs_write_spec_ok in H2 as [_ H2]. apply quic_fs_ok, fs_write_spec_ok in H3 as [[_ H3] H3'].
  unfold contents. rewrite H3, H2, H3' by done. unfold load_pem_identity. cbn [map_err mbind result_bind f_data].
  assert (pem_text (text "CERTIFICATE") <$> certs = pem_block (text "CERTIFICATE") <$> certs) as ->.
  { apply list_fmap_ext. intros ? x _. apply pem_text_block. }
  rewrite pem_certs_blocks. cbn [map_err mbind result_bind].
  rewrite bool_decide_eq_false_2 by done. by rewrite pem_text_block, pem_key_block.
Qed.

(** ** Pin lists *)

Definition split_pins (s : list byte) : list (list byte) := split_any (length s) pin_separators s.

Lemma strip_any_shorter ps s r : Forall (λ p, p ≠ []) ps → strip_any ps s = Some r → length r < length s.
Proof.
  induction 1 as [|p ps Hp _ IH]; [done|]. cbn. destruct (strip_prefix p s) as [r'|] eqn:H; [|done].
  intros [= <-]. apply strip_prefix_Some in H as ->. rewrite length_app. destruct p; [done|cbn; lia].
Qed.

Lemma separators_nonempty : Forall (λ p, p ≠ []) pin_separators.
Proof. by repeat (constructor; [done|]). Qed.

Lemma split_any_fuel f1 : ∀ f2 s, length s ≤ f1 → length s ≤ f2 →
  split_any f1 pin_separators s = split_any f2 pin_separators s.
Proof.
  induction f1 as [|f1 IH]; intros f2 s H1 H2; [by destruct s, f2; cbn in *; try lia|].
  destruct s as [|b s]; [by destruct f2|]. destruct f2 as [|f2]; [cbn in H2; lia|]. cbn in H1, H2.
  cbn [split_any]. destruct (strip_any pin_separators (b :: s)) as [r|] eqn:Hr.
  - apply strip_any_shorter in Hr; [|apply separators_nonempty]. cbn in Hr. f_equal. apply IH; lia.
  - by rewrite (IH f2 s) by lia.
Qed.

Lemma split_pins_cons b s : split_pins (b :: s) =
  match strip_any pin_separators (b :: s) with
  | Some r => [] :: split_pins r
  | None => match split_pins s with p :: l => (b :: p) :: l | [] => [[b]] end
  end.
Proof.
  unfold split_pins at 1. cbn [length split_any].
  destruct (strip_any pin_separators (b :: s)) as [r|] eqn:Hr; [|done].
  apply strip_any_shorter in Hr; [|apply separators_nonempty]. cbn in Hr. f_equal.
  apply split_any_fuel; lia.
Qed.

(** Separators are told apart by their bytes. *)
Lemma strip_separator sep r : sep ∈ pin_separators → strip_any pin_separators (sep ++ r) = Some r.
Proof. intros H. repeat (apply elem_of_cons in H as [->|H]; [done|]). by apply elem_of_nil in H. Qed.

Lemma split_pins_sep sep r : sep ∈ pin_separators → split_pins (sep ++ r) = [] :: split_pins r.
Proof.
  intros H. pose proof (strip_separator sep r H) as Hs.
  pose proof (proj1 (Forall_forall _ _) separators_nonempty sep (proj1 (list_elem_of_In _ _) H)) as Hne.
  destruct sep as [|b sep]; [done|]. cbn [app] in *. by rewrite split_pins_cons, Hs.
Qed.

Lemma strip_digit b s : is_hex_digit b = true → strip_any pin_separators (b :: s) = None.
Proof. intros H. by destruct b; try discriminate H. Qed.

Lemma split_pins_digits h sep r : Forall (λ b, is_hex_digit b = true) h → sep ∈ pin_separators →
  split_pins (h ++ sep ++ r) = h :: split_pins r.
Proof.
  induction 1 as [|b h Hb _ IH]; intros Hs; [exact (split_pins_sep sep r Hs)|].
  change ((b :: h) ++ sep ++ r) with (b :: (h ++ sep ++ r)).
  by rewrite split_pins_cons, strip_digit, IH.
Qed.

(** Text of hexadecimal digits has no blanks to trim. *)
Lemma trim_digits h : Forall (λ b, is_hex_digit b = true) h → trim h = h.
Proof.
  intros Hh. unfold trim.
  assert (∀ b s, is_hex_digit b = true → strip_any white_space (b :: s) = None) as H1
    by (intros b s H; by destruct b; try discriminate H).
  assert (∀ b s, is_hex_digit b = true → strip_any ((λ p, rev p) <$> white_space) (b :: s) = None) as H2
    by (intros b s H; by destruct b; try discriminate H).
  assert (trim_start h = h) as ->.
  { unfold trim_start. destruct h as [|b h]; [done|]. inversion Hh; subst. cbn [length strip_all]. by rewrite H1. }
  unfold trim_end. destruct (rev h) as [|b l] eqn:Hr.
  { replace h with (@nil byte); [done|]. by rewrite <-(rev_involutive h), Hr. }
  assert (is_hex_digit b = true) as Hb.
  { apply (proj1 (Forall_forall _ _) Hh), in_rev. rewrite Hr. by left. }
  destruct (length h) eqn:Hl; [by destruct h|]. cbn [strip_all]. rewrite H2 by done.
  by rewrite <-Hr, rev_involutive.
Qed.

End quic.

(** What [hex::encode] writes: two digits a byte. *)
Class HexDigits `{!Hex} : Prop := {
  hex_encode_digits b : Forall (λ c, is_hex_digit c = true) (hex_encode b);
  hex_encode_length b : length (hex_encode b) = 2 * length b;
}.

Section pins.
Context {TL : Tls} {HL : HexLaws} {HD : HexDigits}.

Lemma parse_pins_hex (p : bytes32) parts : parse_pins (hex_encode (array_bytes p) :: parts) =
  let? out := parse_pins parts in Ok (p :: out).
Proof.
  cbn [parse_pins]. rewrite trim_digits by apply hex_encode_digits.
  rewrite bool_decide_eq_false_2.
  2: { intros H. apply (f_equal length) in H. rewrite hex_encode_length, length_array in H. done. }
  unfold parse_pin. rewrite hex_decode_encode. cbn [map_err mbind result_bind].
  by rewrite try_into_array_bytes.
Qed.

(** The list an operator writes: each pin in hexadecimal, separated by any number of
    commas and blanks. *)
Definition print_pins (l : list (bytes32 * list (list byte))) : list byte :=
  concat ((λ x, hex_encode (array_bytes x.1) ++ concat x.2) <$> l).

Lemma split_pins_seps ss r : Forall (λ s, s ∈ pin_separators) ss →
  parse_pins (split_pins (concat ss ++ r)) = parse_pins (split_pins r).
Proof.
  induction 1 as [|s ss Hs _ IH]; [done|]. cbn [concat]. rewrite <-app_assoc, split_pins_sep by done.
  cbn [parse_pins]. exact IH.
Qed.

(** Pin lists round trip. *)
Lemma parse_pin_list_print (l : list (bytes32 * list (list byte))) :
  Forall (λ x, x.2 ≠ [] ∧ Forall (λ s, s ∈ pin_separators) x.2) l →
  parse_pin_list (print_pins l) = Ok l.*1.
Proof.
  unfold parse_pin_list. fold (split_pins (print_pins l)).
  induction 1 as [|[p ss] l [Hne Hs] _ IH]; [done|]. cbn [fst snd] in *.
  destruct ss as [|s ss]; [done|]. inversion Hs; subst.
  assert (print_pins ((p, s :: ss) :: l) = hex_encode (array_bytes p) ++ s ++ (concat ss ++ print_pins l)) as ->.
  { unfold print_pins. cbn. by rewrite <-!app_assoc. }
  rewrite split_pins_digits by (done || apply hex_encode_digits).
  rewrite parse_pins_hex, split_pins_seps by done. by rewrite IH.
Qed.

(** ** Admission *)

(** What [rustls] does with the two configurations: a connection completes only if
    the client accepts the certificate the server shows, and the server, when it has a
    verifier, the one the client shows. *)
Definition rustls_checks (establishes : ClientConfig → ServerConfig → bool) : Prop :=
  ∀ c s, establishes c s = true →
    (∃ leaf rest, sc_certs s = leaf :: rest ∧ verify_server_cert (cc_verifier c) leaf = Ok tt) ∧
    (∀ v, sc_client_verifier s = Some v →
       ∃ leaf rest key, cc_identity c = Some (leaf :: rest, key) ∧ verify_client_cert v leaf = Ok tt).

Lemma pin_allowed_in pins cert : pin_allowed pins cert = true ↔ cert_pin_blake3 cert ∈ pins.
Proof.
  unfold pin_allowed. destruct pins as [|p pins]; [by split; [|intros ?%elem_of_nil]|].
  rewrite existsb_exists. setoid_rewrite bool_decide_eq_true. rewrite list_elem_of_In.
  split; [intros (x & Hx & <-); exact Hx|eauto].
Qed.

Lemma verify_server_ok v cert : verify_server_cert v cert = Ok tt ↔
  cert_pin_blake3 cert ∈ sv_pins v ∨ sv_pins v = [] ∧ sv_skip v = true.
Proof.
  unfold verify_server_cert. rewrite <-pin_allowed_in. destruct (sv_pins v) as [|p pins].
  - cbn. destruct (sv_skip v); naive_solver.
  - destruct (pin_allowed _ _); naive_solver.
Qed.
Lemma verify_client_ok v cert : verify_client_cert v cert = Ok tt ↔
  cert_pin_blake3 cert ∈ cv_pins v ∨ cv_pins v = [] ∧ cv_allow_any v = true.
Proof.
  unfold verify_client_cert. rewrite <-pin_allowed_in. destruct (cv_pins v) as [|p pins].
  - cbn. destruct (cv_allow_any v); naive_solver.
  - destruct (pin_allowed _ _); naive_solver.
Qed.

(** What the two ends of a connection know of each other. *)
Lemma quic_admission establishes (c s : QuicTlsConfig) cc sc : rustls_checks establishes →
  client_config c = Ok cc → server_config s = Ok sc → establishes cc sc = true →
  (∃ leaf, head (qc_certs s) = Some leaf ∧
     (cert_pin_blake3 leaf ∈ qc_peer_pins c ∨ qc_peer_pins c = [] ∧ qc_insecure_skip_verify c = true)) ∧
  (qc_require_client_auth s = true → ∃ leaf, head (qc_certs c) = Some leaf ∧
     (cert_pin_blake3 leaf ∈ qc_peer_pins s ∨ qc_peer_pins s = [])).
Proof.
  intros Hr Hc Hs He. destruct (Hr cc sc He) as [(leaf & rest & Hl & Hv) Hcl].
  unfold server_config in Hs. destruct (single_cert (qc_certs s) (qc_key s)) as [[]|]; [|done].
  injection Hs as <-. cbn [sc_certs sc_client_verifier] in *.
  assert (cc_verifier cc = mkServerVerifier (qc_peer_pins c) (qc_insecure_skip_verify c) ∧
    ∀ x k, cc_identity cc = Some (x, k) → x = qc_certs c) as [Hcv Hci].
  { unfold client_config in Hc. destruct (_ || _).
    - destruct (single_cert (qc_certs c) (qc_key c)); [|done]. injection Hc as <-. by split; [|intros ? ? [= <- <-]].
    - injection Hc as <-. by split. }
  split.
  - exists leaf. rewrite Hl. split; [done|]. rewrite Hcv in Hv. by apply verify_server_ok in Hv.
  - intros Ha. rewrite Ha in Hcl. destruct (Hcl _ eq_refl) as (l & r & k & Hi & Hv').
    apply Hci in Hi. exists l. rewrite <-Hi. split; [done|].
    apply verify_client_ok in Hv' as [H|[H _]]; [by left|by right].
Qed.

End pins.
