(* ===== verification/Rate.v ===== *)
(** * Request rate limits ([RateLimitBook] of [crates/td-node/src/rpc.rs])

    Fixed windows counted per client address and path, and the rule of each
    route.  An [Instant] is a number of nanoseconds; the one reading [check]
    makes is an argument. *)

From S2P Require Import Prelude Text.

Definition secs (n : N) : N := n * 1000000000.

Record RateWindow : Type := mkRateWindow { rw_start : N; rw_count : N }.
Record RateRule : Type := mkRateRule { rr_limit : N; rr_window : N }.
Record RateLimitBook : Type := mkRateLimitBook { windows : gmap (list byte) RateWindow }.

Definition prune_age : N := secs 120.

Definition check (self : RateLimitBook) (ip bucket : list byte) (rule : RateRule) (now : N) :
    result N unit * RateLimitBook :=
  let key := ip ++ x7c :: bucket in
  let entry := default (mkRateWindow now 0) (windows self !! key) in
  let entry := if (rr_window rule <=? now - rw_start entry)%N then mkRateWindow now 0 else entry in
  if (rr_limit rule <=? rw_count entry)%N then
    (Err (if (now - rw_start entry <=? rr_window rule)%N
          then rr_window rule - (now - rw_start entry) else secs 1)%N,
     mkRateLimitBook (<[key := entry]> (windows self)))
  else
    let entry := mkRateWindow (rw_start entry) (rw_count entry + 1) in
    let ws := <[key := entry]> (windows self) in
    let ws := if 4096 <? size ws then filter (λ p, (now < rw_start p.2 + prune_age)%N) ws else ws in
    (Ok tt, mkRateLimitBook ws).

Definition rate_rule_for (path method : list byte) : RateRule :=
  if bool_decide (path = text "/v1/recovery/login") ||
     bool_decide (path = text "/v1/claim") && eq_ignore_ascii_case method (text "POST")
  then mkRateRule 10 (secs 60) else
  if bool_decide (path = text "/v1/pair/redeem") then mkRateRule 20 (secs 60) else
  if bool_decide (path = text "/v1/messages/stream") || bool_decide (path = text "/v1/messages/wait")
  then mkRateRule 120 (secs 60) else
  if eq_ignore_ascii_case method (text "POST") || eq_ignore_ascii_case method (text "PUT") ||
     eq_ignore_ascii_case method (text "DELETE") || eq_ignore_ascii_case method (text "PATCH")
  then mkRateRule 180 (secs 60) else mkRateRule 600 (secs 60).

(** ** Runs *)

(** A request as the book sees it: address, bucket, rule and reading. *)
Record RateCall : Type := mkRateCall {
  rc_ip : list byte; rc_bucket : list byte; rc_rule : RateRule; rc_now : N }.
Definition rc_key (c : RateCall) : list byte := rc_ip c ++ x7c :: rc_bucket c.

(** How many of the calls with the key [k] the book lets through. *)
Fixpoint let_through (k : list byte) (book : RateLimitBook) (l : list RateCall) : N :=
  match l with
  | [] => 0
  | c :: l =>
    let '(r, book) := check book (rc_ip c) (rc_bucket c) (rc_rule c) (rc_now c) in
    (if is_ok r && bool_decide (rc_key c = k) then 1 else 0) + let_through k book l
  end%N.

(** Readings in [lo, hi) that do not go back. *)
Fixpoint clock_within (lo hi : N) (l : list RateCall) : Prop :=
  match l with
  | [] => True
  | c :: l => (lo ≤ rc_now c)%N ∧ (rc_now c < hi)%N ∧ clock_within (rc_now c) hi l
  end.

(** The window a call on [k] counts in. *)
Definition current (book : RateLimitBook) (k : list byte) (w now : N) : RateWindow :=
  let e := default (mkRateWindow now 0) (windows book !! k) in
  if (w <=? now - rw_start e)%N then mkRateWindow now 0 else e.

Lemma check_spec book ip bucket rule now :
  let k := ip ++ x7c :: bucket in
  let e := current book k (rr_window rule) now in
  let '(r, book') := check book ip bucket rule now in
  is_ok r = (rw_count e <? rr_limit rule)%N ∧
  ∀ x, windows book' !! x =
       (if decide (x = k)
        then Some (if is_ok r then mkRateWindow (rw_start e) (rw_count e + 1) else e)
        else windows book !! x) ∨
     windows book' !! x = None ∧
       ∀ y, (if decide (x = k) then Some (mkRateWindow (rw_start e) (rw_count e + 1))
             else windows book !! x) = Some y → (rw_start y + prune_age ≤ now)%N.
Proof.
  cbv zeta. unfold check. fold (current book (ip ++ x7c :: bucket) (rr_window rule) now).
  set (k := ip ++ x7c :: bucket). set (e := current book k (rr_window rule) now).
  assert (∀ y x, (<[k := y]> (windows book)) !! x = if decide (x = k) then Some y else windows book !! x)
    as Hins.
  { intros y x. case_decide as Hx; [subst; by rewrite lookup_insert_eq|by rewrite lookup_insert_ne]. }
  change (let entry := default (mkRateWindow now 0) (windows book !! k) in
    if (rr_window rule <=? now - rw_start entry)%N then mkRateWindow now 0 else entry) with e.
  destruct (N.leb_spec (rr_limit rule) (rw_count e)) as [Hle|Hlt]; cbn [is_ok].
  - split; [symmetry; by apply N.ltb_ge|]. intros x. left. apply Hins.
  - split; [symmetry; by apply N.ltb_lt|]. intros x. cbn [windows].
    destruct (4096 <? _); [|left; apply Hins].
    set (e' := mkRateWindow (rw_start e) (rw_count e + 1)) in *.
    destruct (filter _ (<[k := e']> (windows book)) !! x) as [y|] eqn:Hf.
    + left. apply map_lookup_filter_Some in Hf as [Hf _]. by rewrite <-Hins.
    + right. split; [done|]. intros y Hy. rewrite <-Hins in Hy.
      rewrite map_lookup_filter_None in Hf. destruct Hf as [Hf|Hf]; [congruence|].
      specialize (Hf y Hy). cbn in Hf. lia.
Qed.

(** A bound on what one key can use up. *)
Definition ruled (k : list byte) (L w : N) (c : RateCall) : Prop :=
  rc_key c = k → rr_window (rc_rule c) = w ∧ (rr_limit (rc_rule c) ≤ L)%N.

(** The entry of [k] after a call, when the call was not in a position to drop it. *)
Lemma check_entry book c k e w hi :
  windows book !! k = Some e → (hi ≤ rw_start e + w)%N → (0 < w ≤ prune_age)%N → (rc_now c < hi)%N →
  (rc_key c = k → rr_window (rc_rule c) = w) →
  let '(r, book') := check book (rc_ip c) (rc_bucket c) (rc_rule c) (rc_now c) in
  if decide (rc_key c = k)
  then is_ok r = (rw_count e <? rr_limit (rc_rule c))%N ∧
       windows book' !! k = Some (if is_ok r then mkRateWindow (rw_start e) (rw_count e + 1) else e)
  else windows book' !! k = Some e.
Proof.
  intros He Hhi Hw Hnow Hrule.
  pose proof (check_spec book (rc_ip c) (rc_bucket c) (rc_rule c) (rc_now c)) as Hc; cbv zeta in Hc.
  fold (rc_key c) in Hc. destruct (check book _ _ _ _) as [r book']. destruct Hc as [Hok Hx].
  specialize (Hx k). destruct (decide (rc_key c = k)) as [Hk|Hk].
  - rewrite !decide_True in Hx by done. rewrite (Hrule Hk) in *.
    assert (current book (rc_key c) w (rc_now c) = e) as Hcur.
    { unfold current. rewrite Hk, He. cbn. by rewrite (proj2 (N.leb_gt _ _)) by lia. }
    rewrite Hcur in *. split; [done|]. destruct Hx as [Hx|[_ Hx]]; [done|].
    specialize (Hx _ eq_refl). cbn in Hx. lia.
  - rewrite !decide_False in Hx by done. destruct Hx as [Hx|[_ Hx]]; [congruence|].
    specialize (Hx _ He). lia.
Qed.

Lemma let_through_live k L w hi l : ∀ book e lo, windows book !! k = Some e →
  (rw_count e ≤ L)%N → (hi ≤ rw_start e + w)%N → (0 < w ≤ prune_age)%N →
  clock_within lo hi l → Forall (ruled k L w) l → (let_through k book l ≤ L - rw_count e)%N.
Proof.
  induction l as [|c l IH]; intros book e lo He Hce Hhi Hw Hcl Hr; cbn [let_through]; [lia|].
  destruct Hcl as (_ & Hnow & Hcl). inversion Hr as [|? ? Hrc Hrl]; subst.
  pose proof (check_entry book c k e w hi He Hhi Hw Hnow (λ H, proj1 (Hrc H))) as Hc.
  destruct (check book _ _ _ _) as [r book']. case_decide as Hk.
  - destruct Hc as [Hok Hb]. rewrite bool_decide_eq_true_2, andb_true_r by done.
    destruct (Hrc Hk) as [_ Hlim]. destruct (is_ok r).
    + symmetry in Hok. apply N.ltb_lt in Hok.
      specialize (IH book' _ (rc_now c) Hb ltac:(cbn; lia) Hhi Hw Hcl Hrl). cbn in IH. lia.
    + specialize (IH book' _ (rc_now c) Hb Hce Hhi Hw Hcl Hrl). lia.
  - rewrite bool_decide_eq_false_2, andb_false_r by done.
    specialize (IH book' e (rc_now c) Hc Hce Hhi Hw Hcl Hrl). lia.
Qed.

(** What a key may still use before its window ends, and one window more. *)
Definition allowance (L : N) (o : option RateWindow) : N :=
  match o with Some e => (L - rw_count e) + L | None => L end.

Definition counted (L : N) (o : option RateWindow) : Prop :=
  match o with Some e => (rw_count e ≤ L)%N | None => True end.

Lemma let_through_bound k L w hi l : ∀ book lo, counted L (windows book !! k) →
  (hi ≤ lo + w)%N → (0 < w ≤ prune_age)%N → clock_within lo hi l → Forall (ruled k L w) l →
  (let_through k book l ≤ allowance L (windows book !! k))%N.
Proof.
  induction l as [|c l IH]; intros book lo Hc0 Hhi Hw Hcl Hr; cbn [let_through]; [lia|].
  destruct Hcl as (Hlo & Hnow & Hcl). inversion Hr as [|? ? Hrc Hrl]; subst.
  pose proof (check_spec book (rc_ip c) (rc_bucket c) (rc_rule c) (rc_now c)) as Hc; cbv zeta in Hc.
  fold (rc_key c) in Hc. destruct (check book _ _ _ _) as [r book']. destruct Hc as [Hok Hx].
  specialize (Hx k). destruct (decide (rc_key c = k)) as [Hk|Hk].
  - rewrite bool_decide_eq_true_2, andb_true_r by done. rewrite !decide_True in Hx by done.
    destruct (Hrc Hk) as [Hwin Hlim]. rewrite Hwin, Hk in *.
    set (e := current book k w (rc_now c)) in *.
    assert (rw_start e = rc_now c ∧ rw_count e = 0%N ∨ windows book !! k = Some e) as He.
    { unfold e, current. destruct (windows book !! k) as [e0|]; cbn.
      - destruct (w <=? rc_now c - rw_start e0)%N; auto.
      - destruct (w <=? rc_now c - rc_now c)%N; auto. }
    assert (counted L (windows book' !! k)) as Hc1.
    { destruct Hx as [->|[-> _]]; [|done]. cbn. destruct (is_ok r) eqn:Hr0; cbn.
      - symmetry in Hok. apply N.ltb_lt in Hok. lia.
      - destruct He as [[_ ->]|He]; [lia|]. by rewrite He in Hc0. }
    destruct He as [[Hs H0]|He].
    + (* a fresh window outlives the clock *)
      destruct Hx as [Hx|[_ Hx]].
      2: { specialize (Hx _ eq_refl). cbn in Hx. rewrite Hs in Hx. unfold prune_age, secs in *. lia. }
      assert (L ≤ allowance L (windows book !! k))%N as Hal
        by (unfold allowance; destruct (windows book !! k); lia).
      pose proof (let_through_live k L w hi l book' _ (rc_now c) Hx) as Hlive.
      rewrite Hx in Hc1. cbn in Hc1. destruct (is_ok r) eqn:Hr0; cbn in *.
      * rewrite Hs, H0 in *. symmetry in Hok. apply N.ltb_lt in Hok.
        specialize (Hlive ltac:(lia) ltac:(lia) Hw Hcl Hrl). lia.
      * rewrite Hs, H0 in *. specialize (Hlive ltac:(lia) ltac:(lia) Hw Hcl Hrl). lia.
    + specialize (IH book' (rc_now c) Hc1 ltac:(lia) Hw Hcl Hrl). rewrite He in *. cbn in *.
      destruct Hx as [Hx|[Hx _]]; rewrite Hx in IH.
      * destruct (is_ok r) eqn:Hr0; cbn in *; [|lia]. symmetry in Hok. apply N.ltb_lt in Hok. lia.
      * cbn in IH. destruct (is_ok r); [|lia]. symmetry in Hok. apply N.ltb_lt in Hok. lia.
  - rewrite bool_decide_eq_false_2, andb_false_r by done. rewrite !decide_False in Hx by done.
    destruct Hx as [Hx|[Hx _]].
    + specialize (IH book' (rc_now c)). rewrite Hx in IH.
      specialize (IH Hc0 ltac:(lia) Hw Hcl Hrl). lia.
    + specialize (IH book' (rc_now c)). rewrite Hx in IH.
      specialize (IH I ltac:(lia) Hw Hcl Hrl). cbn in IH.
      assert (L ≤ allowance L (windows book !! k))%N by (unfold allowance; destruct (windows book !! k); lia).
      lia.
Qed.

Lemma rate_rule_window path method : rr_window (rate_rule_for path method) = secs 60.
Proof.
  unfold rate_rule_for.
  repeat match goal with |- context [if ?b then _ else _] => destruct b end; reflexivity.
Qed.

(** A request of the middleware: its bucket is the path, its rule the route's. *)
Definition routed (c : RateCall) : Prop :=
  ∃ method, rc_rule c = rate_rule_for (rc_bucket c) method.

(** ** Theorems *)

(** The rate limit holds: in any stretch of sixty seconds, whatever the traffic
    of other addresses and paths and however often the book is pruned, at most
    twice the limit of a path is let through for one address (a window may start
    anew once); from a book without an entry for it, at most the limit. *)
Lemma rate_book_bound (book : RateLimitBook) (l : list RateCall) (ip path : list byte)
    (L lo hi : N) :
  let k := ip ++ x7c :: path in
  Forall routed l → Forall (λ c, rc_key c = k → rr_limit (rc_rule c) ≤ L)%N l →
  counted L (windows book !! k) → clock_within lo hi l → (hi ≤ lo + secs 60)%N →
  (let_through k book l ≤ 2 * L)%N ∧
  (windows book !! k = None → (let_through k book l ≤ L)%N).
Proof.
  intros k Hroute Hlim Hc Hcl Hhi.
  assert (Forall (ruled k L (secs 60)) l) as Hr.
  { apply list.Forall_forall. intros c Hin Hk. rewrite list.Forall_forall in Hroute, Hlim.
    destruct (Hroute c Hin) as [m Hm].
    split; [rewrite Hm; apply rate_rule_window|by apply Hlim]. }
  assert (0 < secs 60 ≤ prune_age)%N as Hw by (unfold prune_age, secs; lia).
  pose proof (let_through_bound k L (secs 60) hi l book lo Hc Hhi Hw Hcl Hr) as H.
  split; [|intros Hn; by rewrite Hn in H].
  unfold allowance in H. destruct (windows book !! k); lia.
Qed.
