(* ===== verification/Access.v ===== *)
(** * Access to a node ([crates/td-node/src/rpc.rs])

    Claiming a node, recovery login and its throttle, owner sessions, pairing
    tokens, the per-address rate limits and the gate in front of every route.
    An [Instant] is a number of nanoseconds; every reading of a clock and every
    random draw is an argument.  The node's mutex makes each handler atomic.  Of
    [NodeSession] the state here has the fields these handlers use. *)

From S2P Require Import Prelude Text Crypto Event Net Link E2ee Seal Persist Rate.

(** ** Data *)

Record PairToken : Type := mkPairToken {
  pt_label : list byte;
  pt_expires_at : N;
  pt_created_ms : N;
  pt_redeemed_by : option (list byte);
}.

Record OwnerSession : Type := mkOwnerSession {
  os_source : list byte;
  os_created_ms : N;
  os_expires_at : N;
}.

(** The values of the two headers as text ([get(..)] then [to_str().ok()]). *)
Record Headers : Type := mkHeaders {
  hd_authorization : option (list byte);
  hd_owner_token : option (list byte);
}.

(** A response: the body of a success, or a status with the text of [ErrorBody]
    and the [retry-after] header. *)
Inductive Reply (A : Type) : Type :=
| Json (body : A)
| Refuse (status : N) (error : list byte) (retry_after : option N).
Arguments Json {_}.
Arguments Refuse {_}.

Definition accepted {A} (r : Reply A) : bool := match r with Json _ => true | Refuse _ _ _ => false end.

(** What the handlers use of their environment besides the data directory. *)
Class AccessEnv : Type := {
  access_persist :: PersistEnv;
  (** [str::to_uppercase], the Unicode case mapping *)
  to_uppercase : list byte → list byte;
  (** the texts of [io::Error] and [serde_json::Error] *)
  io_error_text : io_error → list byte;
  json_error_text : list byte;
}.

Section access.
Context {AV : AccessEnv}.

Record Access : Type := mkAccess {
  ac_device_id : DeviceId;
  ac_claim : ClaimState;
  ac_pair_tokens : gmap (list byte) PairToken;
  ac_owner_sessions : gmap (list byte) OwnerSession;
  ac_recovery_failures : N;
  ac_recovery_lock_until : option N;
  ac_link : LinkRegistry;
  (** whether there is a data directory *)
  ac_data_dir : bool;
  ac_rpc_base : option (list byte);
  ac_p2p_uri : option (list byte);
}.

Definition set_claim (g : Access) (x : ClaimState) : Access :=
  mkAccess (ac_device_id g) x (ac_pair_tokens g) (ac_owner_sessions g) (ac_recovery_failures g)
    (ac_recovery_lock_until g) (ac_link g) (ac_data_dir g) (ac_rpc_base g) (ac_p2p_uri g).
Definition set_pair_tokens (g : Access) (x : gmap (list byte) PairToken) : Access :=
  mkAccess (ac_device_id g) (ac_claim g) x (ac_owner_sessions g) (ac_recovery_failures g)
    (ac_recovery_lock_until g) (ac_link g) (ac_data_dir g) (ac_rpc_base g) (ac_p2p_uri g).
Definition set_owner_sessions (g : Access) (x : gmap (list byte) OwnerSession) : Access :=
  mkAccess (ac_device_id g) (ac_claim g) (ac_pair_tokens g) x (ac_recovery_failures g)
    (ac_recovery_lock_until g) (ac_link g) (ac_data_dir g) (ac_rpc_base g) (ac_p2p_uri g).
Definition set_recovery (g : Access) (n : N) (l : option N) : Access :=
  mkAccess (ac_device_id g) (ac_claim g) (ac_pair_tokens g) (ac_owner_sessions g) n l
    (ac_link g) (ac_data_dir g) (ac_rpc_base g) (ac_p2p_uri g).
Definition set_link (g : Access) (x : LinkRegistry) : Access :=
  mkAccess (ac_device_id g) (ac_claim g) (ac_pair_tokens g) (ac_owner_sessions g)
    (ac_recovery_failures g) (ac_recovery_lock_until g) x (ac_data_dir g) (ac_rpc_base g)
    (ac_p2p_uri g).

(** ** Sessions *)

Definition purge_expired_pair_tokens (g : Access) (now : N) : Access :=
  set_pair_tokens g (filter (λ p, (now < pt_expires_at p.2)%N) (ac_pair_tokens g)).

Definition purge_expired_owner_sessions (g : Access) (now : N) : Access :=
  set_owner_sessions g (filter (λ p, (now < os_expires_at p.2)%N) (ac_owner_sessions g)).

(** [Iterator::min_by_key]: the first element with the least key. *)
Fixpoint min_by_key {A} (key : A → N) (l : list A) : option A :=
  match l with
  | [] => None
  | a :: l =>
    match min_by_key key l with
    | Some b => if (key a <=? key b)%N then Some a else Some b
    | None => Some a
    end
  end.

Definition MAX_OWNER_SESSIONS : nat := 16.
Definition OWNER_TTL : N := 86400.

(** [t], [t'] are the two readings of the clock, [ms] the one of the wall clock. *)
Definition mint_owner_session (g : Access) (source token : list byte) (t t' ms : N) :
    list byte * N * Access :=
  let g := purge_expired_owner_sessions g t in
  let g :=
    if MAX_OWNER_SESSIONS <=? size (ac_owner_sessions g) then
      match min_by_key (λ p : list byte * OwnerSession, os_created_ms p.2)
        (map_iter (ac_owner_sessions g)) with
      | Some (oldest, _) => set_owner_sessions g (delete oldest (ac_owner_sessions g))
      | None => g
      end
    else g in
  let ttl_secs := OWNER_TTL in
  (token, ttl_secs,
   set_owner_sessions g (<[token := mkOwnerSession source ms (t' + secs ttl_secs)]>
     (ac_owner_sessions g))).

Definition owner_session_valid (g : Access) (token : list byte) (t t' : N) : bool * Access :=
  let g := purge_expired_owner_sessions g t in
  (match ac_owner_sessions g !! token with
   | Some s => (t' <? os_expires_at s)%N
   | None => false
   end, g).

Definition revoke_owner_session (g : Access) (token : list byte) : bool * Access :=
  (match ac_owner_sessions g !! token with Some _ => true | None => false end,
   set_owner_sessions g (delete token (ac_owner_sessions g))).

(** ** Recovery *)

Definition recovery_locked (g : Access) (now : N) : option N :=
  until ← ac_recovery_lock_until g;
  if (now <? until)%N then Some (N.max ((until - now) / secs 1) 1) else None.

(** [saturating_add] on [u32] *)
Definition note_recovery_failure (g : Access) (now : N) : Access :=
  let f := N.min (ac_recovery_failures g + 1) (2 ^ 32 - 1) in
  if (5 <=? f)%N then set_recovery g 0 (Some (now + secs 60)%N)
  else set_recovery g f (ac_recovery_lock_until g).

Definition note_recovery_success (g : Access) : Access := set_recovery g 0 None.

Definition hash_recovery (code : list byte) : list byte :=
  let norm := List.filter (λ b, negb (bool_decide (b = x20) || bool_decide (b = x5f)))
    (to_uppercase (trim code)) in
  hex_encode (array_bytes (@blake3 env_crypto norm)).

(** [recovery_code_new] from the text of ten random bytes *)
Definition recovery_code_of (raw : list byte) : list byte :=
  take 5 raw ++ x2d :: take 5 (drop 5 raw) ++ x2d :: take 5 (drop 10 raw) ++ x2d ::
    take 5 (drop 15 raw).

(** The comparison of [recovery_login]: equal lengths and no differing bit. *)
Definition same_hex (got expected : list byte) : bool :=
  (length got =? length expected) &&
  (foldl (λ acc p, N.lor acc (N.lxor (Byte.to_N p.1) (Byte.to_N p.2))) 0%N
    (zip got expected) =? 0)%N.

(** ** Persistence *)

Definition PersistError_to_string (e : PersistError) : list byte :=
  match e with
  | PersistIo e => text "io: " ++ io_error_text e
  | PersistJson => text "json: " ++ json_error_text
  | PersistE2ee s => text "e2ee: " ++ s
  | BadIdentityLen n => text "invalid identity key length (want 32 bytes, got " ++ dec n ++ text ")"
  | BadIdentityHex s => text "invalid identity key hex: " ++ s
  end.

Definition persist_claim (g : Access) (o : Oracle) (d : Disk) : result (list byte) unit * Disk :=
  if ac_data_dir g then
    let '(r, d) := save_claim (ac_claim g) o d in
    (map_err (λ e, text "persist claim: " ++ PersistError_to_string e) r, d)
  else (Ok tt, d).

(** ** Owner tokens *)

Definition non_empty (s : list byte) : option (list byte) :=
  match s with [] => None | _ :: _ => Some s end.

Definition extract_bearer (h : Headers) : option (list byte) :=
  auth ← hd_authorization h;
  rest ← match strip_prefix (text "Bearer ") auth with
         | Some r => Some r
         | None => strip_prefix (text "bearer ") auth
         end;
  non_empty (trim rest).

Definition extract_owner_token (h : Headers) : option (list byte) :=
  match extract_bearer h with
  | Some t => Some t
  | None => s ← hd_owner_token h; non_empty (trim s)
  end.

Definition extract_owner_token_flexible (h : Headers) (query_token : option (list byte)) :
    option (list byte) :=
  match extract_owner_token h with
  | Some t => Some t
  | None => s ← query_token; non_empty (trim s)
  end.

(** [require_owner_token]; [require_owner] is it on the headers' token. *)
Definition require_owner_token (g : Access) (token : option (list byte)) (t t' : N) :
    result (Reply Empty_set) unit * Access :=
  match token with
  | None =>
    (Err (Refuse 401 (text "owner session required (Authorization: Bearer <token>)") None), g)
  | Some token =>
    let '(ok, g) := owner_session_valid g token t t' in
    (if ok then Ok tt else Err (Refuse 401 (text "invalid or expired owner session") None), g)
  end.

Definition require_owner (g : Access) (h : Headers) (t t' : N) :
    result (Reply Empty_set) unit * Access :=
  require_owner_token g (extract_owner_token h) t t'.

Definition refused {A} (r : Reply Empty_set) : Reply A :=
  match r with Json e => match e with end | Refuse s e x => Refuse s e x end.

(** ** Handlers *)

Record ClaimRequest : Type := mkClaimRequest {
  cq_display_name : list byte; cq_recovery_code : option (list byte) }.
Record ClaimResponse : Type := mkClaimResponse {
  cp_display_name : list byte; cp_recovery_code : list byte; cp_device_id : list byte;
  cp_claimed_at_ms : N; cp_owner_token : list byte; cp_expires_in_secs : N }.

(** The draws and readings of a login: the fresh token, two instants, the wall clock. *)
Record Draw : Type := mkDraw { dr_token : list byte; dr_t : N; dr_t' : N; dr_ms : N }.

Definition hex32 (d : DeviceId) : list byte := hex_encode (array_bytes (DeviceId_0 d)).

(** [fresh] is the code [recovery_code_new] would draw, [at_] the wall clock. *)
Definition claim_node (g : Access) (req : ClaimRequest) (fresh : list byte) (at_ : N) (dr : Draw)
    (o : Oracle) (d : Disk) : Reply ClaimResponse * Access * Disk :=
  let name := trim (cq_display_name req) in
  if bool_decide (name = []) || (64 <? length name)
  then (Refuse 400 (text "display_name required (1-64 chars)") None, g, d) else
  if cs_claimed (ac_claim g) then (Refuse 409 (text "node already claimed") None, g, d) else
  let code := default fresh (c ← cq_recovery_code req; non_empty (trim c)) in
  if length code <? 8 then (Refuse 400 (text "recovery_code too short") None, g, d) else
  let g := set_claim g (mkClaimState true (Some name) (Some (hash_recovery code)) (Some at_)) in
  match persist_claim g o d with
  | (Err e, d) => (Refuse 500 e None, set_claim g ClaimState_default, d)
  | (Ok _, d) =>
    let '(owner_token, expires_in_secs, g) :=
      mint_owner_session g (text "claim") (dr_token dr) (dr_t dr) (dr_t' dr) (dr_ms dr) in
    (Json {| cp_display_name := name;
             cp_recovery_code := code;
             cp_device_id := hex32 (ac_device_id g);
             cp_claimed_at_ms := at_;
             cp_owner_token := owner_token;
             cp_expires_in_secs := expires_in_secs |}, g, d)
  end.

Record RecoveryLoginResponse : Type := mkRecoveryLoginResponse {
  rl_owner_token : list byte; rl_expires_in_secs : N; rl_display_name : option (list byte);
  rl_device_id : list byte }.

(** [t_lock] and [t_fail] are the readings of [recovery_locked] and of a failure. *)
Definition recovery_login (g : Access) (recovery_code : list byte) (t_lock t_fail : N) (dr : Draw) :
    Reply RecoveryLoginResponse * Access :=
  let code := trim recovery_code in
  if length code <? 8 then (Refuse 400 (text "recovery_code required") None, g) else
  match recovery_locked g t_lock with
  | Some n =>
    (Refuse 429 (text "too many failed attempts; retry in " ++ dec n ++ text "s")
      (Some (N.max n 1)), g)
  | None =>
    if negb (cs_claimed (ac_claim g)) then (Refuse 409 (text "node not claimed") None, g) else
    match cs_recovery_hash (ac_claim g) with
    | None => (Refuse 409 (text "recovery login not configured") None, g)
    | Some expected =>
      let got := hash_recovery code in
      if negb (same_hex got expected)
      then (Refuse 401 (text "invalid recovery code") None, note_recovery_failure g t_fail) else
      let g := note_recovery_success g in
      let '(owner_token, expires_in_secs, g) :=
        mint_owner_session g (text "recovery") (dr_token dr) (dr_t dr) (dr_t' dr) (dr_ms dr) in
      (Json {| rl_owner_token := owner_token;
               rl_expires_in_secs := expires_in_secs;
               rl_display_name := cs_display_name (ac_claim g);
               rl_device_id := hex32 (ac_device_id g) |}, g)
    end
  end.

(** Whether the session was there. *)
Definition owner_logout (g : Access) (h : Headers) : Reply bool * Access :=
  match extract_owner_token h with
  | None => (Refuse 400 (text "owner token required") None, g)
  | Some token => let '(revoked, g) := revoke_owner_session g token in (Json revoked, g)
  end.

Record PairCreateResponse : Type := mkPairCreateResponse {
  pc_token : list byte; pc_label : list byte; pc_expires_in_secs : N; pc_pair_path : list byte;
  pc_rpc_base : option (list byte) }.

(** [t], [t'] are the readings of [require_owner], [t_purge] and [t_now] the next
    ones, [ms] the wall clock. *)
Definition pair_create (g : Access) (h : Headers) (label : option (list byte))
    (ttl_secs : option N) (token : list byte) (t t' t_purge t_now ms : N) :
    Reply PairCreateResponse * Access :=
  if negb (cs_claimed (ac_claim g))
  then (Refuse 409 (text "claim node before minting pair tokens") None, g) else
  match require_owner g h t t' with
  | (Err r, g) => (refused r, g)
  | (Ok _, g) =>
    let g := purge_expired_pair_tokens g t_purge in
    let ttl := N.min (N.max (default 600%N ttl_secs) 60) 3600 in
    let label := take_chars 32 (default (text "device") (l ← label; non_empty (trim l))) in
    let g := set_pair_tokens g (<[token := mkPairToken label (t_now + secs ttl) ms None]>
      (ac_pair_tokens g)) in
    (Json {| pc_token := token; pc_label := label; pc_expires_in_secs := ttl;
             pc_pair_path := text "?pair=" ++ token; pc_rpc_base := ac_rpc_base g |}, g)
  end.

Record PairRedeemResponse : Type := mkPairRedeemResponse {
  pr_label : list byte; pr_pond_name : option (list byte); pr_device_id : list byte;
  pr_rpc_base : option (list byte); pr_p2p_uri : option (list byte) }.

(** [secondary] is the key pair [DeviceKeypair::generate] draws. *)
Definition pair_redeem (g : Access) (token : list byte) (device_label : option (list byte))
    (secondary : DeviceKeypair) (t_purge t_now : N) : Reply PairRedeemResponse * Access :=
  let token := trim token in
  if bool_decide (token = []) then (Refuse 400 (text "token required") None, g) else
  if negb (cs_claimed (ac_claim g)) then (Refuse 409 (text "node not claimed") None, g) else
  let g := purge_expired_pair_tokens g t_purge in
  let gone := (Refuse 404 (text "invalid or expired pair token") None,
    set_pair_tokens g (delete token (ac_pair_tokens g))) in
  match ac_pair_tokens g !! token with
  | None => gone
  | Some entry =>
    if (pt_expires_at entry <=? t_now)%N then gone else
    match pt_redeemed_by entry with
    | Some _ => (Refuse 409 (text "pair token already used") None, g)
    | None =>
      let label := default (pt_label entry)
        (l ← device_label; take_chars 32 <$> non_empty (trim l)) in
      let secondary_hex := hex32 (kp_device_id secondary) in
      let g := set_link g (trust_local (ac_link g) secondary).2 in
      let g := set_pair_tokens g (<[token := mkPairToken label (pt_expires_at entry)
        (pt_created_ms entry) (Some secondary_hex)]> (ac_pair_tokens g)) in
      (Json {| pr_label := label;
               pr_pond_name := cs_display_name (ac_claim g);
               pr_device_id := hex32 (ac_device_id g);
               pr_rpc_base := ac_rpc_base g;
               pr_p2p_uri := ac_p2p_uri g |}, g)
    end
  end.

(** ** The gate *)

Definition public_routes : list (list byte * list byte) :=
  [(text "GET", text "/health"); (text "GET", text "/v1/status"); (text "GET", text "/v1/claim");
   (text "POST", text "/v1/claim"); (text "POST", text "/v1/recovery/login");
   (text "GET", text "/v1/owner/session"); (text "DELETE", text "/v1/owner/session");
   (text "POST", text "/v1/pair/redeem"); (text "GET", text "/v1/p2p");
   (text "GET", text "/v1/remote")].

Definition is_public_path (method path : list byte) : bool :=
  bool_decide ((to_ascii_uppercase method, path) ∈ public_routes).

(** The value of the first [owner_token] of a query. *)
Definition query_owner_token (q : list byte) : option (list byte) :=
  head (omap (λ pair,
    let '(k, v) := match split_once x3d pair with Some kv => kv | None => (pair, []) end in
    if decide (k = text "owner_token") then Some v else None) (split x26 q)).

Record RpcState : Type := mkRpcState {
  rs_inner : Access;
  rs_require_owner : bool;
  rs_rate_limits : RateLimitBook;
  rs_rate_limit_enabled : bool;
}.

Record HttpRequest : Type := mkHttpRequest {
  hq_ip : list byte;
  hq_method : list byte;
  hq_path : list byte;
  hq_query : option (list byte);
  hq_headers : Headers;
}.

(** The gate; [Ok] means the request goes on to its handler.  [now] is the reading
    of [check], [t] and [t'] those of the session check. *)
Definition authn_rate_middleware (st : RpcState) (req : HttpRequest) (now t t' : N) :
    result (Reply Empty_set) unit * RpcState :=
  let '(limited, book) :=
    if rs_rate_limit_enabled st then
      check (rs_rate_limits st) (hq_ip req) (hq_path req)
        (rate_rule_for (hq_path req) (hq_method req)) now
    else (Ok tt, rs_rate_limits st) in
  let st := mkRpcState (rs_inner st) (rs_require_owner st) book (rs_rate_limit_enabled st) in
  match limited with
  | Err retry =>
    let s := N.max (retry / secs 1) 1 in
    (Err (Refuse 429 (text "rate limit exceeded; retry in ~" ++ dec s ++ text "s") (Some s)), st)
  | Ok _ =>
    if rs_require_owner st && negb (is_public_path (hq_method req) (hq_path req)) then
      let q_token := q ← hq_query req; query_owner_token q in
      let token := extract_owner_token_flexible (hq_headers req) q_token in
      let '(r, g) := require_owner_token (rs_inner st) token t t' in
      (r, mkRpcState g (rs_require_owner st) (rs_rate_limits st) (rs_rate_limit_enabled st))
    else (Ok tt, st)
  end.

(** ** Lemmas on sessions *)

#[local] Arguments mint_owner_session : simpl never.

Lemma min_by_key_spec {A} (key : A → N) l :
  match min_by_key key l with
  | Some a => a ∈ l ∧ ∀ b, b ∈ l → (key a ≤ key b)%N
  | None => l = []
  end.
Proof.
  induction l as [|a l IH]; cbn; [done|]. destruct (min_by_key key l) as [b|].
  - destruct IH as [Hb Hmin]. destruct (N.leb_spec (key a) (key b)).
    + split; [by left|]. intros c [->|Hc]%elem_of_cons; [lia|]. specialize (Hmin c Hc). lia.
    + split; [by right|]. intros c [->|Hc]%elem_of_cons; [lia|auto].
  - subst. split; [by left|]. intros c [->|[]%not_elem_of_nil]%elem_of_cons. lia.
Qed.

(** A session that is still running. *)
Definition running (g : Access) (t : N) (k : list byte) (s : OwnerSession) : Prop :=
  ac_owner_sessions g !! k = Some s ∧ (t < os_expires_at s)%N.

Lemma purge_running g t k s :
  ac_owner_sessions (purge_expired_owner_sessions g t) !! k = Some s ↔ running g t k s.
Proof. cbn. by rewrite map_lookup_filter_Some. Qed.

Lemma owner_session_valid_spec g token t t' :
  (owner_session_valid g token t t').1 = true ↔
  ∃ s, running g t token s ∧ (t' < os_expires_at s)%N.
Proof.
  unfold owner_session_valid; cbn [fst]. pose proof (purge_running g t token) as Hp.
  destruct (ac_owner_sessions (purge_expired_owner_sessions g t) !! token) as [s|] eqn:Hs.
  - rewrite N.ltb_lt. split.
    + intros Ht. exists s. split; [by apply Hp|done].
    + intros (s' & Hr & Ht). apply Hp in Hr. congruence.
  - split; [done|]. intros (s' & Hr & _). apply Hp in Hr. congruence.
Qed.

Definition sessions_capped (g : Access) : Prop := size (ac_owner_sessions g) ≤ MAX_OWNER_SESSIONS.

(** The sessions after the purge and the eviction of [mint_owner_session]. *)
Definition evicted (g : Access) (t : N) : Access :=
  let g := purge_expired_owner_sessions g t in
  if MAX_OWNER_SESSIONS <=? size (ac_owner_sessions g) then
    match min_by_key (λ p : list byte * OwnerSession, os_created_ms p.2)
      (map_iter (ac_owner_sessions g)) with
    | Some (oldest, _) => set_owner_sessions g (delete oldest (ac_owner_sessions g))
    | None => g
    end
  else g.

Lemma mint_evicted g source token t t' ms :
  mint_owner_session g source token t t' ms =
  (token, OWNER_TTL, set_owner_sessions (evicted g t)
     (<[token := mkOwnerSession source ms (t' + secs OWNER_TTL)]> (ac_owner_sessions (evicted g t)))).
Proof. done. Qed.

Lemma evicted_spec g t : sessions_capped g →
  size (ac_owner_sessions (evicted g t)) < MAX_OWNER_SESSIONS ∧
  (∀ k s, ac_owner_sessions (evicted g t) !! k = Some s → running g t k s) ∧
  (∀ k s, running g t k s → ac_owner_sessions (evicted g t) !! k = Some s ∨
     size (ac_owner_sessions g) = MAX_OWNER_SESSIONS ∧
     ∀ k' s', running g t k' s' → (os_created_ms s ≤ os_created_ms s')%N).
Proof.
  intros Hcap. unfold evicted. set (p := purge_expired_owner_sessions g t).
  assert (size (ac_owner_sessions p) ≤ size (ac_owner_sessions g)) as Hsize.
  { apply map_subseteq_size, map_filter_subseteq. }
  destruct (Nat.leb_spec MAX_OWNER_SESSIONS (size (ac_owner_sessions p))) as [Hfull|Hroom].
  2: { split_and!; [done| |]; intros k s H; [|left]; by apply (purge_running g t). }
  pose proof (min_by_key_spec (λ q : list byte * OwnerSession, os_created_ms q.2)
    (map_iter (ac_owner_sessions p))) as Hmin.
  destruct (min_by_key _ _) as [[k0 s0]|].
  - destruct Hmin as [Hin Hmin]. apply elem_of_map_iter in Hin.
    unfold sessions_capped in Hcap. cbn [ac_owner_sessions set_owner_sessions]. split_and!.
    + rewrite map_size_delete, Hin. unfold MAX_OWNER_SESSIONS in *. cbv iota. lia.
    + intros k s [_ Hs]%lookup_delete_Some. by apply purge_running.
    + intros k s Hr. destruct (decide (k0 = k)) as [->|Hne].
      * right. split; [lia|]. intros k' s' Hr'. apply purge_running in Hr, Hr'.
        fold p in Hr, Hr'. rewrite Hin in Hr. injection Hr as <-.
        apply (Hmin (k', s')). by apply elem_of_map_iter.
      * left. rewrite lookup_delete_ne by done. by apply purge_running.
  - assert (size (ac_owner_sessions p) = 0) as H0 by (by rewrite <-length_map_iter, Hmin).
    unfold MAX_OWNER_SESSIONS in Hfull. lia.
Qed.

(** The comparison of two hex texts is equality. *)
Lemma foldl_lor_zero (l : list (byte * byte)) acc :
  foldl (λ acc p, N.lor acc (N.lxor (Byte.to_N p.1) (Byte.to_N p.2))) acc l = 0%N ↔
  acc = 0%N ∧ Forall (λ p, p.1 = p.2) l.
Proof.
  revert acc. induction l as [|[a b] l IH]; intros acc; cbn [foldl].
  - split; [by intros ->|by intros [-> _]].
  - rewrite IH, N.lor_eq_0_iff, N.lxor_eq_0_iff, list.Forall_cons. cbn [fst snd].
    assert (Byte.to_N a = Byte.to_N b ↔ a = b) as Hab; [|tauto].
    split; [|by intros ->]. intros H. apply (f_equal byte_of_N) in H.
    by rewrite !byte_of_N_to_N in H.
Qed.

Lemma same_hex_eq a b : same_hex a b = true ↔ a = b.
Proof.
  unfold same_hex. rewrite andb_true_iff, Nat.eqb_eq, N.eqb_eq, foldl_lor_zero. split.
  - intros (Hl & _ & Hf). revert b Hl Hf. induction a as [|x a IH]; intros [|y b] Hl Hf; try done.
    cbn in *. inversion Hf; subst; cbn in *. f_equal; [done|]. apply IH; [lia|done].
  - intros ->. split_and!; [done|done|]. induction b; cbn; by constructor.
Qed.

(** ** Runs *)

Inductive action : Type :=
| ActClaim (req : ClaimRequest) (fresh : list byte) (at_ : N) (dr : Draw) (o : Oracle)
| ActLogin (code : list byte) (t_lock t_fail : N) (dr : Draw)
| ActLogout (h : Headers)
| ActGate (token : option (list byte)) (t t' : N)
| ActPairCreate (h : Headers) (label : option (list byte)) (ttl : option N) (token : list byte)
    (t t' t_purge t_now ms : N)
| ActPairRedeem (token : list byte) (label : option (list byte)) (secondary : DeviceKeypair)
    (t_purge t_now : N).

(** Whether the request was accepted, and the state after it. *)
Definition act (s : Access * Disk) (a : action) : bool * (Access * Disk) :=
  let '(g, d) := s in
  match a with
  | ActClaim req fresh at_ dr o =>
    let '(r, g, d) := claim_node g req fresh at_ dr o d in (accepted r, (g, d))
  | ActLogin code tl tf dr => let '(r, g) := recovery_login g code tl tf dr in (accepted r, (g, d))
  | ActLogout h => let '(r, g) := owner_logout g h in (accepted r, (g, d))
  | ActGate tok t t' => let '(r, g) := require_owner_token g tok t t' in (is_ok r, (g, d))
  | ActPairCreate h l ttl tok t t' tp tn ms =>
    let '(r, g) := pair_create g h l ttl tok t t' tp tn ms in (accepted r, (g, d))
  | ActPairRedeem tok l kp tp tn =>
    let '(r, g) := pair_redeem g tok l kp tp tn in (accepted r, (g, d))
  end.

Definition run (s : Access * Disk) (l : list action) : Access * Disk :=
  foldl (λ s a, (act s a).2) s l.

(** The action hands out the owner token [tok]: a claim of an unclaimed node, or a
    login with a code whose hash is the one of the claim. *)
Definition grants (s : Access * Disk) (a : action) (tok : list byte) : Prop :=
  (act s a).1 = true ∧
  match a with
  | ActClaim _ _ _ dr _ => dr_token dr = tok ∧ cs_claimed (ac_claim s.1) = false
  | ActLogin code _ _ dr => dr_token dr = tok ∧ cs_claimed (ac_claim s.1) = true ∧
      cs_recovery_hash (ac_claim s.1) = Some (hash_recovery (trim code))
  | _ => False
  end.

(** What an action leaves of the sessions, the claim and the pairing tokens. *)
Lemma mint_dom g source token t t' ms k :
  is_Some (ac_owner_sessions (mint_owner_session g source token t t' ms).2 !! k) →
  k = token ∨ is_Some (ac_owner_sessions g !! k).
Proof.
  rewrite mint_evicted. cbn. intros [->|[s Hs]]%lookup_insert_is_Some'; [by left|right].
  unfold evicted in Hs. destruct (_ <=? _).
  - destruct (min_by_key _ _) as [[k0 ?]|]; [cbn in Hs; apply lookup_delete_Some in Hs as [_ Hs]|];
      apply purge_running in Hs as [? _]; eauto.
  - apply purge_running in Hs as [? _]. eauto.
Qed.

Lemma mint_claim g source token t t' ms :
  ac_claim (mint_owner_session g source token t t' ms).2 = ac_claim g ∧
  ac_pair_tokens (mint_owner_session g source token t t' ms).2 = ac_pair_tokens g.
Proof.
  rewrite mint_evicted. cbn. unfold evicted. destruct (_ <=? _); [|done].
  by destruct (min_by_key _ _) as [[]|].
Qed.

Lemma valid_dom g tok t t' k :
  is_Some (ac_owner_sessions (owner_session_valid g tok t t').2 !! k) →
  is_Some (ac_owner_sessions g !! k).
Proof. cbn. intros [s [Hs _]%map_lookup_filter_Some]. eauto. Qed.

Lemma require_owner_frame g tok t t' :
  ac_claim (require_owner_token g tok t t').2 = ac_claim g ∧
  ac_pair_tokens (require_owner_token g tok t t').2 = ac_pair_tokens g ∧
  ∀ k, is_Some (ac_owner_sessions (require_owner_token g tok t t').2 !! k) →
    is_Some (ac_owner_sessions g !! k).
Proof.
  destruct tok as [tok|]; cbn; [|done]. split_and!; [done|done|].
  intros k [s [Hs _]%map_lookup_filter_Some]. eauto.
Qed.

(** The cases of a claim and of a login. *)
Lemma claim_node_cases g req fresh at_ dr o d :
  (∃ st e x d', claim_node g req fresh at_ dr o d = (Refuse st e x, g, d') ∧ d' = d) ∨
  cs_claimed (ac_claim g) = false ∧ ∃ name code,
    let c := mkClaimState true (Some name) (Some (hash_recovery code)) (Some at_) in
    (∃ e d', persist_claim (set_claim g c) o d = (Err e, d') ∧
       claim_node g req fresh at_ dr o d = (Refuse 500 e None, set_claim g ClaimState_default, d')) ∨
    (∃ body d', persist_claim (set_claim g c) o d = (Ok tt, d') ∧
       cp_owner_token body = dr_token dr ∧ cp_recovery_code body = code ∧
       claim_node g req fresh at_ dr o d = (Json body,
         (mint_owner_session (set_claim g c) (text "claim") (dr_token dr) (dr_t dr) (dr_t' dr)
           (dr_ms dr)).2, d')).
Proof.
  unfold claim_node. destruct (bool_decide _ || _); [left; eauto 10|].
  destruct (cs_claimed (ac_claim g)) eqn:Hc; [left; eauto 10|].
  set (code := default fresh _). destruct (length code <? 8); [left; eauto 10|].
  right. split; [done|]. exists (trim (cq_display_name req)), code. cbv zeta.
  destruct (persist_claim _ o d) as [[[]|e] d'].
  - right. eexists _, d'. split_and!; [done|..|]; cycle 2.
    + rewrite mint_evicted. reflexivity.
    + done.
    + done.
  - left. eauto.
Qed.

Lemma recovery_login_cases g code tl tf dr :
  (∃ st e x, recovery_login g code tl tf dr = (Refuse st e x, g) ∧ st ≠ 401%N ∧
     (recovery_locked g tl ≠ None ∨ length (trim code) < 8 ∨ cs_claimed (ac_claim g) = false ∨
      cs_recovery_hash (ac_claim g) = None)) ∨
  recovery_locked g tl = None ∧ cs_claimed (ac_claim g) = true ∧
  ∃ expected, cs_recovery_hash (ac_claim g) = Some expected ∧
    ((expected ≠ hash_recovery (trim code) ∧
      recovery_login g code tl tf dr =
        (Refuse 401 (text "invalid recovery code") None, note_recovery_failure g tf)) ∨
     (expected = hash_recovery (trim code) ∧ ∃ body, rl_owner_token body = dr_token dr ∧
      recovery_login g code tl tf dr = (Json body,
        (mint_owner_session (note_recovery_success g) (text "recovery") (dr_token dr) (dr_t dr)
          (dr_t' dr) (dr_ms dr)).2))).
Proof.
  unfold recovery_login.
  destruct (Nat.ltb_spec (length (trim code)) 8); [left; eexists _, _, _; split_and!; [done|done|auto]|].
  destruct (recovery_locked g tl) eqn:Hl; [left; eexists _, _, _; by split_and!; auto|].
  destruct (cs_claimed (ac_claim g)) eqn:Hc; cbn [negb];
    [|left; eexists _, _, _; by split_and!; auto].
  destruct (cs_recovery_hash (ac_claim g)) as [expected|] eqn:Hh;
    [|left; eexists _, _, _; by split_and!; auto].
  right. split_and!; [done|done|]. exists expected. split; [done|].
  destruct (same_hex (hash_recovery (trim code)) expected) eqn:Hs; cbn [negb].
  - apply same_hex_eq in Hs. right. split; [done|]. eexists. split; [|rewrite mint_evicted; reflexivity].
    done.
  - left. split; [|done]. intros ->. by rewrite (proj2 (same_hex_eq _ _)) in Hs.
Qed.

Lemma note_failure_frame g tf :
  ac_claim (note_recovery_failure g tf) = ac_claim g ∧
  ac_owner_sessions (note_recovery_failure g tf) = ac_owner_sessions g ∧
  ac_pair_tokens (note_recovery_failure g tf) = ac_pair_tokens g.
Proof. unfold note_recovery_failure. by destruct (5 <=? _)%N. Qed.

Lemma pair_create_frame g h l ttl tok t t' tp tn ms :
  let g' := (pair_create g h l ttl tok t t' tp tn ms).2 in
  ac_claim g' = ac_claim g ∧
  (∀ k, is_Some (ac_owner_sessions g' !! k) → is_Some (ac_owner_sessions g !! k)).
Proof.
  cbv zeta. unfold pair_create. destruct (negb _); [done|].
  destruct (require_owner_frame g (extract_owner_token h) t t') as (Hc & _ & Hs).
  unfold require_owner. destruct (require_owner_token _ _ t t') as [[[]|e] g1]; by cbn in *.
Qed.

Lemma pair_redeem_frame g tok l kp tp tn :
  let g' := (pair_redeem g tok l kp tp tn).2 in
  ac_claim g' = ac_claim g ∧ ac_owner_sessions g' = ac_owner_sessions g.
Proof.
  cbv zeta. unfold pair_redeem. destruct (bool_decide _); [done|]. destruct (negb _); [done|].
  destruct (ac_pair_tokens _ !! _) as [e|]; [|done].
  destruct (_ <=? _)%N; [done|]. by destruct (pt_redeemed_by e).
Qed.

(** A session that is there after an action was there before, or was granted. *)
Lemma act_sessions s a k :
  is_Some (ac_owner_sessions (act s a).2.1 !! k) →
  is_Some (ac_owner_sessions s.1 !! k) ∨ grants s a k.
Proof.
  destruct s as [g d]. unfold grants. destruct a as [req fresh at_ dr o|code tl tf dr|h|tok t t'|
    h l ttl tok t t' tp tn ms|tok l kp tp tn]; cbn [act fst snd].
  - destruct (claim_node_cases g req fresh at_ dr o d) as
      [(st & e & x & d' & -> & ->)|(Hc & name & code & [(e & d' & _ & ->)|(body & d' & _ & _ & _ & ->)])];
      cbn; [by left|by left|].
    intros [->|H]%mint_dom; [right; auto|by left].
  - destruct (recovery_login_cases g code tl tf dr) as
      [(st & e & x & -> & _)|(_ & Hc & exp & Hh & [(_ & ->)|(He & body & _ & ->)])]; cbn [fst snd accepted]; [by left| |].
    + destruct (note_failure_frame g tf) as (_ & -> & _). by left.
    + intros [->|H]%mint_dom; [right|by left]. subst. auto.
  - unfold owner_logout. destruct (extract_owner_token h); cbn; [|by left].
    intros [x [_ Hx]%lookup_delete_Some]. left. eauto.
  - destruct (require_owner_frame g tok t t') as (_ & _ & Hs).
    destruct (require_owner_token g tok t t'); cbn in *. auto.
  - pose proof (pair_create_frame g h l ttl tok t t' tp tn ms) as [_ Hs]; cbv zeta in Hs.
    destruct (pair_create _ _ _ _ _ _ _ _ _ _); cbn in *. auto.
  - pose proof (pair_redeem_frame g tok l kp tp tn) as [_ Hs]; cbv zeta in Hs.
    destruct (pair_redeem _ _ _ _ _ _); cbn in *. rewrite Hs. auto.
Qed.

Lemma act_claim_kept s a : cs_claimed (ac_claim s.1) = true →
  ac_claim (act s a).2.1 = ac_claim s.1 ∧
  match a with ActClaim _ _ _ _ _ => (act s a).1 = false | _ => True end.
Proof.
  destruct s as [g d]. destruct a as [req fresh at_ dr o|code tl tf dr|h|tok t t'|
    h l ttl tok t t' tp tn ms|tok l kp tp tn]; cbn [act fst snd]; intros Hcl.
  - destruct (claim_node_cases g req fresh at_ dr o d) as
      [(st & e & x & d' & -> & ->)|(Hc & _)]; [done|congruence].
  - destruct (recovery_login_cases g code tl tf dr) as
      [(st & e & x & -> & _)|(_ & Hc & exp & Hh & [(_ & ->)|(He & body & _ & ->)])]; cbn [fst snd accepted]; [done| |].
    + by destruct (note_failure_frame g tf) as (-> & _).
    + by destruct (mint_claim (note_recovery_success g) (text "recovery") (dr_token dr) (dr_t dr)
        (dr_t' dr) (dr_ms dr)) as [-> _].
  - unfold owner_logout. by destruct (extract_owner_token h).
  - destruct (require_owner_frame g tok t t') as (Hc & _).
    by destruct (require_owner_token g tok t t').
  - pose proof (pair_create_frame g h l ttl tok t t' tp tn ms) as [Hs _]; cbv zeta in Hs.
    by destruct (pair_create _ _ _ _ _ _ _ _ _ _).
  - pose proof (pair_redeem_frame g tok l kp tp tn) as [Hs _]; cbv zeta in Hs.
    by destruct (pair_redeem _ _ _ _ _ _).
Qed.

(** ** Attempts at the recovery code *)

(** A series of logins: code, readings and draw. *)
Fixpoint logins (g : Access) (l : list (list byte * N * N * Draw)) : list bool * Access :=
  match l with
  | [] => ([], g)
  | (code, tl, tf, dr) :: l =>
    let '(r, g) := recovery_login g code tl tf dr in
    let checked := match r with Refuse 401 _ _ => true | _ => false end in
    let '(bs, g) := logins g l in (checked :: bs, g)
  end.

(** Readings in [lo, hi) that do not go back. *)
Fixpoint clock_in (lo hi : N) (l : list (list byte * N * N * Draw)) : Prop :=
  match l with
  | [] => True
  | (_, tl, tf, _) :: l => (lo ≤ tl ∧ tl ≤ tf ∧ tf < hi)%N ∧ clock_in tf hi l
  end.

Definition wrong (g : Access) (code : list byte) : Prop :=
  cs_recovery_hash (ac_claim g) ≠ Some (hash_recovery (trim code)).

Lemma logins_locked g l lo hi until : ac_recovery_lock_until g = Some until → (hi ≤ until)%N →
  clock_in lo hi l → length (List.filter id (logins g l).1) = 0.
Proof.
  intros Hu Hhi. revert lo. induction l as [|[[[code tl] tf] dr] l IH]; intros lo Hcl; [done|].
  destruct Hcl as [(? & ? & ?) Hcl]. cbn [logins].
  assert (recovery_locked g tl ≠ None) as Hl.
  { unfold recovery_locked. rewrite Hu. cbn. rewrite (proj2 (N.ltb_lt _ _)) by lia. done. }
  destruct (recovery_login_cases g code tl tf dr) as [(st & e & x & -> & Hne & _)|(Hn & _)];
    [|done]. specialize (IH _ Hcl). destruct (logins g l) as [bs g']; cbn [fst] in *.
  replace (match st with 401%N => true | _ => false end) with false; [exact IH|].
  symmetry. destruct (N.eqb_spec st 401) as [|Hx]; [done|].
  repeat (match goal with |- context [match ?p with _ => _ end] => destruct p end; try done).
Qed.

Lemma logins_bound g l lo hi : (ac_recovery_failures g < 5)%N → (hi ≤ lo + secs 60)%N →
  clock_in lo hi l → Forall (λ p, wrong g p.1.1.1) l →
  (N.of_nat (length (List.filter id (logins g l).1)) ≤ 5 - ac_recovery_failures g)%N.
Proof.
  intros Hf Hhi. revert g lo Hf Hhi.
  induction l as [|[[[code tl] tf] dr] l IH]; intros g lo Hf Hhi Hcl Hw; [cbn; lia|].
  destruct Hcl as [(? & ? & ?) Hcl]. inversion Hw as [|? ? Hw1 Hw2]; subst. cbn [logins].
  destruct (recovery_login_cases g code tl tf dr) as
    [(st & e & x & -> & Hne & _)|(_ & Hc & exp & Hh & [(_ & ->)|(He & body & _ & ->)])].
  - specialize (IH g tf Hf ltac:(lia) Hcl Hw2). destruct (logins g l) as [bs g']; cbn [fst] in *.
    replace (match st with 401%N => true | _ => false end) with false; [exact IH|].
    symmetry. repeat (match goal with |- context [match ?p with _ => _ end] => destruct p end; try done).
  - destruct (note_failure_frame g tf) as (Hcl' & _). cbn [fst snd].
    unfold note_recovery_failure in *.
    replace (N.min (ac_recovery_failures g + 1) (2 ^ 32 - 1))%N with (ac_recovery_failures g + 1)%N in *
      by lia.
    destruct (N.leb_spec 5 (ac_recovery_failures g + 1)).
    + pose proof (logins_locked (set_recovery g 0 (Some (tf + secs 60)%N)) l tf hi (tf + secs 60)
        eq_refl ltac:(lia) Hcl) as Hz.
      destruct (logins _ l) as [bs g']; cbn [fst List.filter id length] in *. rewrite Hz. lia.
    + specialize (IH (set_recovery g (ac_recovery_failures g + 1) (ac_recovery_lock_until g)) tf
        ltac:(cbn; lia) ltac:(lia) Hcl Hw2).
      destruct (logins _ l) as [bs g']; cbn [fst List.filter id length ac_recovery_failures
        set_recovery] in *. lia.
  - exfalso. apply Hw1. cbn [fst]. by rewrite Hh, He.
Qed.

(** ** Pairing tokens in a run *)

(** The action mints, or redeems, the pairing token [tok]. *)
Definition mints_pair (tok : list byte) (a : action) : bool :=
  match a with ActPairCreate _ _ _ x _ _ _ _ _ => bool_decide (x = tok) | _ => false end.
Definition redeems_pair (tok : list byte) (a : action) : bool :=
  match a with ActPairRedeem x _ _ _ _ => bool_decide (trim x = tok) | _ => false end.

(** Accepted redemptions of [tok] in a run. *)
Fixpoint redemptions (tok : list byte) (s : Access * Disk) (l : list action) : nat :=
  match l with
  | [] => 0
  | a :: l =>
    let '(ok, s') := act s a in
    (if ok && redeems_pair tok a then 1 else 0) + redemptions tok s' l
  end.

(** One while the token can still be redeemed. *)
Definition open_token (tok : list byte) (g : Access) : nat :=
  match ac_pair_tokens g !! tok with
  | Some e => match pt_redeemed_by e with None => 1 | Some _ => 0 end
  | None => 0
  end.

Lemma open_token_same tok g g' : ac_pair_tokens g' = ac_pair_tokens g →
  open_token tok g' = open_token tok g.
Proof. unfold open_token. by intros ->. Qed.

Lemma purge_open_token tok g t : open_token tok (purge_expired_pair_tokens g t) ≤ open_token tok g.
Proof.
  unfold open_token; cbn.
  destruct (filter _ (ac_pair_tokens g) !! tok) as [e|] eqn:He; [|lia].
  apply map_lookup_filter_Some in He as [-> _]. done.
Qed.

Lemma delete_open_token tok k g :
  open_token tok (set_pair_tokens g (delete k (ac_pair_tokens g))) ≤ open_token tok g.
Proof.
  unfold open_token; cbn. destruct (decide (k = tok)) as [->|];
    [rewrite lookup_delete_eq; lia|by rewrite lookup_delete_ne].
Qed.

Lemma pair_redeem_open tok g x l kp tp tn :
  let '(r, g') := pair_redeem g x l kp tp tn in
  (if accepted r && bool_decide (trim x = tok) then 1 else 0) + open_token tok g' ≤ open_token tok g.
Proof.
  unfold pair_redeem. destruct (bool_decide (trim x = [])); [cbn; lia|].
  destruct (negb _); [cbn; lia|].
  pose proof (purge_open_token tok g tp) as Hp. set (g1 := purge_expired_pair_tokens g tp) in *.
  clearbody g1. pose proof (delete_open_token tok (trim x) g1) as Hd.
  destruct (ac_pair_tokens g1 !! trim x) as [e|] eqn:He; [|cbn [accepted andb]; lia].
  destruct (_ <=? _)%N; [cbn [accepted andb]; lia|].
  destruct (pt_redeemed_by e) eqn:Hr; cbn [accepted andb]; [lia|].
  unfold open_token at 1; cbn [ac_pair_tokens set_pair_tokens set_link].
  case_bool_decide as Hx.
  - subst tok. rewrite lookup_insert_eq; cbn. unfold open_token in Hp at 1. rewrite He, Hr in Hp. lia.
  - rewrite lookup_insert_ne by done. unfold open_token in Hp at 1. lia.
Qed.

Lemma pair_create_open tok g h lb ttl x t t' tp tn ms :
  open_token tok (pair_create g h lb ttl x t t' tp tn ms).2 ≤
    open_token tok g + (if bool_decide (x = tok) then 1 else 0).
Proof.
  unfold pair_create. destruct (negb _); [cbn; lia|].
  destruct (require_owner_frame g (extract_owner_token h) t t') as (_ & Hs & _).
  unfold require_owner. destruct (require_owner_token _ _ t t') as [[[]|e] g1]; cbn [snd] in *;
    rewrite <-(open_token_same tok g g1 Hs); [|lia].
  pose proof (purge_open_token tok g1 tp) as Hp. set (g2 := purge_expired_pair_tokens g1 tp) in *.
  clearbody g2. unfold open_token at 1; cbn [ac_pair_tokens set_pair_tokens].
  case_bool_decide as Hx.
  - subst. rewrite lookup_insert_eq; cbn. lia.
  - rewrite lookup_insert_ne by done. unfold open_token in Hp at 1. lia.
Qed.

Lemma act_open_token tok s a :
  (if (act s a).1 && redeems_pair tok a then 1 else 0) + open_token tok (act s a).2.1 ≤
  open_token tok s.1 + (if mints_pair tok a then 1 else 0).
Proof.
  destruct s as [g d]. destruct a as [req fresh at_ dr o|code tl tf dr|h|x t t'|
    h lb ttl x t t' tp tn ms|x lb kp tp tn]; cbn [act fst snd redeems_pair mints_pair];
    rewrite ?andb_false_r.
  - destruct (claim_node_cases g req fresh at_ dr o d) as
      [(st & e & y & d' & -> & ->)|(Hc & name & code & [(e & d' & _ & ->)|(body & d' & _ & _ & _ & ->)])];
      cbn [fst snd accepted]; rewrite ?andb_false_r; [lia|unfold open_token; cbn; lia|].
    rewrite (open_token_same tok g); [lia|].
    exact (proj2 (mint_claim (set_claim g _) _ _ _ _ _)).
  - destruct (recovery_login_cases g code tl tf dr) as
      [(st & e & y & -> & _)|(_ & Hc & exp & Hh & [(_ & ->)|(He & body & _ & ->)])];
      cbn [fst snd accepted]; rewrite ?andb_false_r; [lia| |].
    + destruct (note_failure_frame g tf) as (_ & _ & Hp). rewrite (open_token_same tok g) by done. lia.
    + rewrite (open_token_same tok g); [lia|].
      exact (proj2 (mint_claim (note_recovery_success g) _ _ _ _ _)).
  - unfold owner_logout. destruct (extract_owner_token h); cbn [fst snd accepted];
      rewrite ?andb_false_r; [unfold open_token; cbn|]; lia.
  - destruct (require_owner_frame g x t t') as (_ & Hp & _).
    destruct (require_owner_token g x t t'); cbn [fst snd] in *. rewrite ?andb_false_r.
    rewrite (open_token_same tok g) by done. lia.
  - pose proof (pair_create_open tok g h lb ttl x t t' tp tn ms) as Hp.
    destruct (pair_create _ _ _ _ _ _ _ _ _ _); cbn [fst snd] in *. rewrite ?andb_false_r. lia.
  - pose proof (pair_redeem_open tok g x lb kp tp tn) as Hp.
    destruct (pair_redeem _ _ _ _ _ _); cbn [fst snd] in *. lia.
Qed.

(** ** Theorems *)

(** Minting an owner session: the new token is valid until a day after the
    reading, the number of sessions never exceeds the cap, no session is invented,
    and every running session stays, except that at the cap one with the earliest
    creation time makes room. *)
Lemma mint_owner_session_exact (g : Access) (source token : list byte) (t t' ms : N) :
  sessions_capped g →
  let '(tok, ttl, g') := mint_owner_session g source token t t' ms in
  tok = token ∧ ttl = OWNER_TTL ∧ sessions_capped g' ∧
  (∀ u u', (u < t' + secs OWNER_TTL)%N → (u' < t' + secs OWNER_TTL)%N →
     (owner_session_valid g' token u u').1 = true) ∧
  (∀ k s, k ≠ token → ac_owner_sessions g' !! k = Some s → running g t k s) ∧
  (∀ k s, k ≠ token → running g t k s → ac_owner_sessions g' !! k = Some s ∨
     size (ac_owner_sessions g) = MAX_OWNER_SESSIONS ∧
     ∀ k' s', running g t k' s' → (os_created_ms s ≤ os_created_ms s')%N).
Proof.
  intros Hcap. rewrite mint_evicted. destruct (evicted_spec g t Hcap) as (Hsize & Hsub & Hkeep).
  split_and!; [done|done| | | |].
  - unfold sessions_capped; cbn [ac_owner_sessions set_owner_sessions]. rewrite map_size_insert.
    destruct (_ !! token); cbn; lia.
  - intros u u' Hu Hu'. apply owner_session_valid_spec. eexists. split; [split|]; cbn.
    + apply lookup_insert_eq.
    + exact Hu.
    + exact Hu'.
  - intros k s Hk. cbn. rewrite lookup_insert_ne by done. apply Hsub.
  - intros k s Hk Hr. cbn. rewrite lookup_insert_ne by done. auto.
Qed.

(** A session in the table was handed out earlier in the run. *)
Lemma session_granted (s : Access * Disk) (l : list action) (tok : list byte) :
  ac_owner_sessions s.1 = ∅ → is_Some (ac_owner_sessions (run s l).1 !! tok) →
  ∃ l1 a l2, l = l1 ++ a :: l2 ∧ grants (run s l1) a tok.
Proof.
  intros H0 Hin. induction l as [|a l IH] using rev_ind.
  - cbn in Hin. rewrite H0, lookup_empty in Hin. by destruct Hin.
  - unfold run in Hin. rewrite foldl_app in Hin. cbn in Hin. fold (run s l) in Hin.
    apply act_sessions in Hin as [Hin|Hg].
    + destruct (IH Hin) as (l1 & b & l2 & -> & Hg). exists l1, b, (l2 ++ [a]).
      by rewrite <-app_assoc.
    + by exists l, a, [].
Qed.

(** C9: owner tokens are earned: in any run from a node without sessions, whatever
    requests come from anybody, a token that passes the owner check was handed out
    earlier in the run, by the claim of the still unclaimed node or by a login with
    a code whose hash was the one of the claim at that moment. *)
Theorem owner_tokens_earned (s : Access * Disk) (l : list action) (tok : list byte) (t t' : N) :
  ac_owner_sessions s.1 = ∅ →
  (require_owner_token (run s l).1 (Some tok) t t').1 = Ok tt →
  ∃ l1 a l2, l = l1 ++ a :: l2 ∧ grants (run s l1) a tok.
Proof.
  intros H0 Hv. apply session_granted; [done|].
  cbn in Hv. destruct (owner_session_valid (run s l).1 tok t t').1 eqn:Hval.
  - apply owner_session_valid_spec in Hval as (x & [Hx _] & _). eauto.
  - unfold owner_session_valid in *; cbn in *. by rewrite Hval in Hv.
Qed.

(** A node is claimed once: no request changes the claim of a claimed node, and
    in any run at most one claim is accepted. *)
Lemma claim_once (s : Access * Disk) (l : list action) :
  (cs_claimed (ac_claim s.1) = true → ac_claim (run s l).1 = ac_claim s.1) ∧
  ∀ l1 a l2 b l3, l = l1 ++ a :: l2 ++ b :: l3 →
    match a, b with
    | ActClaim _ _ _ _ _, ActClaim _ _ _ _ _ => (act (run s l1) a).1 = true →
        (act (run s (l1 ++ a :: l2)) b).1 = false
    | _, _ => True
    end.
Proof.
  assert (∀ l s, cs_claimed (ac_claim s.1) = true → ac_claim (run s l).1 = ac_claim s.1) as Hkeep.
  { clear. induction l as [|a l IH]; intros s Hs; [done|]. cbn.
    destruct (act_claim_kept s a Hs) as [Ha _]. unfold run in IH.
    rewrite IH; [done|]. by rewrite Ha. }
  split; [apply Hkeep|]. intros l1 a l2 b l3 ->. destruct a as [req fresh at_ dr o| | | | |]; try done.
  destruct b as [req' fresh' at' dr' o'| | | | |]; try done. intros Ha.
  assert (run s (l1 ++ ActClaim req fresh at_ dr o :: l2) =
    run (act (run s l1) (ActClaim req fresh at_ dr o)).2 l2) as ->
    by (unfold run; by rewrite foldl_app).
  set (s1 := act (run s l1) (ActClaim req fresh at_ dr o)) in *.
  assert (cs_claimed (ac_claim s1.2.1) = true) as Hc.
  { unfold s1 in *. destruct (run s l1) as [g d]. cbn [act] in *.
    destruct (claim_node_cases g req fresh at_ dr o d) as
      [(st & e & y & d' & He & _)|(_ & name & code & [(e & d' & _ & He)|(body & d' & _ & _ & _ & He)])];
      rewrite He in *; try done. cbn [fst snd].
    by rewrite (proj1 (mint_claim (set_claim g _) _ _ _ _ _)). }
  exact (proj2 (act_claim_kept (run s1.2 l2) (ActClaim req' fresh' at' dr' o')
    ltac:(by rewrite (Hkeep l2 s1.2 Hc)))).
Qed.

(** C24: the claim in memory is the claim on disk: whatever file system calls fail
    during a claim, a process that starts on the disk afterwards loads the claim this
    node answered for: the new one with the owner's recovery hash when the claim was
    accepted, and otherwise the one from before.  After a crash it loads that claim,
    or what a crash before the request could have left. *)
Theorem claim_node_durable {PL : PersistEnvLaws} (g : Access) (req : ClaimRequest)
    (fresh : list byte) (at_ : N) (dr : Draw) (o : Oracle) (d : Disk) :
  let load x := (load_claim never x).1 in
  ac_data_dir g = true → disk_wf d → load d = Ok (ac_claim g) →
  (cs_claimed (ac_claim g) = false → ac_claim g = ClaimState_default) →
  let '(r, g', d') := claim_node g req fresh at_ dr o d in
  load d' = Ok (ac_claim g') ∧
  (∀ d2, crash d' d2 → load d2 = Ok (ac_claim g') ∨ ∃ d0, crash d d0 ∧ load d2 = load d0) ∧
  match r with
  | Json body => cs_claimed (ac_claim g') = true ∧
      cs_recovery_hash (ac_claim g') = Some (hash_recovery (cp_recovery_code body)) ∧
      ∀ u u', (u < dr_t' dr + secs OWNER_TTL)%N → (u' < dr_t' dr + secs OWNER_TTL)%N →
        (owner_session_valid g' (cp_owner_token body) u u').1 = true
  | Refuse _ _ _ => ac_claim g' = ac_claim g ∧ ac_owner_sessions g' = ac_owner_sessions g
  end.
Proof.
  cbv zeta. intros Hdir Hw Hold Hdef.
  destruct (claim_node_cases g req fresh at_ dr o d) as
    [(st & e & x & d' & -> & ->)|(Hc & name & code & Hcases)].
  - split_and!; [done| |done..]. eauto.
  - set (c := mkClaimState true _ _ _) in Hcases. cbv zeta in Hcases.
    pose proof (claim_save_atomic d c o Hw) as Hs.
    unfold persist_claim in Hcases. cbn [ac_data_dir set_claim ac_claim] in Hcases. rewrite Hdir in Hcases.
    destruct (save_claim c o d) as [[[]|e] d1]; cbn [map_err] in Hcases; destruct Hs as [Hs1 Hs2];
      destruct Hcases as [(? & d' & Hp & ->)|(body & d' & Hp & Ht & Hcode & ->)]; try done;
      injection Hp as; subst.
    + pose proof (mint_claim (set_claim g c) (text "claim") (dr_token dr) (dr_t dr) (dr_t' dr)
        (dr_ms dr)) as [-> _]. split_and!; [done| |done|done|].
      { intros d2 Hcr. destruct (Hs2 d2 Hcr) as [[_ ?]|?]; [by left|by right]. }
      intros u u' Hu Hu'. rewrite mint_evicted, Ht. apply owner_session_valid_spec. eexists.
      split; [split|]; cbn; [apply lookup_insert_eq|exact Hu|exact Hu'].
    + cbn [ac_claim set_claim]. rewrite <-(Hdef Hc). split_and!; [by rewrite Hs1| |done|done].
      intros d2 Hcr. destruct (Hs2 d2 Hcr) as [[? _]|?]; [done|by right].
Qed.

(** C30: guessing the recovery code is throttled: of any number of logins with wrong
    codes inside one minute, from whatever addresses, at most five less the failures
    already counted get an answer about their code; every other one is refused
    before the code is looked at. *)
Theorem recovery_throttle (g : Access) (l : list (list byte * N * N * Draw)) (lo : N) :
  (ac_recovery_failures g < 5)%N →
  clock_in lo (lo + secs 60) l → Forall (λ p, wrong g p.1.1.1) l →
  (N.of_nat (length (List.filter id (logins g l).1)) ≤ 5 - ac_recovery_failures g)%N.
Proof. intros Hf Hcl Hw. by eapply logins_bound. Qed.

(** C31: a pairing token works once: in any run the accepted redemptions of a token
    are at most the times it was minted, plus one if it was open at the start. *)
Theorem pair_token_single_use (tok : list byte) (s : Access * Disk) (l : list action) :
  redemptions tok s l ≤ open_token tok s.1 + length (List.filter (mints_pair tok) l).
Proof.
  revert s. induction l as [|a l IH]; intros s; cbn [redemptions List.filter length]; [lia|].
  pose proof (act_open_token tok s a) as Ha. destruct (act s a) as [ok s']. cbn [fst snd] in Ha.
  specialize (IH s'). destruct (mints_pair tok a); cbn [length]; lia.
Qed.

(** What a request shows that passes a gate requiring the owner. *)
Lemma gate_passed (st : RpcState) (req : HttpRequest) (now t t' : N) :
  (authn_rate_middleware st req now t t').1 = Ok tt → rs_require_owner st = true →
  is_public_path (hq_method req) (hq_path req) = false →
  ∃ tok, extract_owner_token_flexible (hq_headers req) (q ← hq_query req; query_owner_token q) =
      Some tok ∧ is_Some (ac_owner_sessions (rs_inner st) !! tok).
Proof.
  unfold authn_rate_middleware. intros H Hr Hp.
  destruct (if rs_rate_limit_enabled st then _ else _) as [[[]|retry] book]; [|done].
  cbn [rs_require_owner rs_inner] in H. rewrite Hr, Hp in H. cbn [andb negb] in H.
  unfold require_owner_token in H. destruct (extract_owner_token_flexible _ _) as [tok|]; [|done].
  exists tok. split; [done|]. pose proof (owner_session_valid_spec (rs_inner st) tok t t') as Hv.
  destruct (owner_session_valid (rs_inner st) tok t t') as [[] g]; [|done].
  destruct (proj1 Hv eq_refl) as (x & [Hx _] & _). eauto.
Qed.

(** The status of the wireless network and of updates is behind the gate. *)
Lemma status_paths_gated :
  is_public_path (text "GET") (text "/v1/wifi") = false ∧
  is_public_path (text "GET") (text "/v1/ota") = false.
Proof. split; vm_compute; reflexivity. Qed.

(** The gate: a request reaches its handler exactly when the rate limit of its
    address lets it pass and, where owner sessions are required, its path is public
    or it carries the token of a session that is running at both readings. *)
Lemma gate_exact (st : RpcState) (req : HttpRequest) (now t t' : N) :
  (authn_rate_middleware st req now t t').1 = Ok tt ↔
  (rs_rate_limit_enabled st = true →
   (check (rs_rate_limits st) (hq_ip req) (hq_path req)
     (rate_rule_for (hq_path req) (hq_method req)) now).1 = Ok tt) ∧
  (rs_require_owner st = true → is_public_path (hq_method req) (hq_path req) = false →
   ∃ tok s, extract_owner_token_flexible (hq_headers req) (q ← hq_query req; query_owner_token q) =
       Some tok ∧ running (rs_inner st) t tok s ∧ (t' < os_expires_at s)%N).
Proof.
  unfold authn_rate_middleware. set (lim := if rs_rate_limit_enabled st then _ else _).
  assert ((rs_rate_limit_enabled st = true →
    (check (rs_rate_limits st) (hq_ip req) (hq_path req)
      (rate_rule_for (hq_path req) (hq_method req)) now).1 = Ok tt) ↔ lim.1 = Ok tt) as ->.
  { unfold lim. destruct (rs_rate_limit_enabled st); [tauto|by split]. }
  destruct lim as [[[]|retry] book]; cbn [fst rs_require_owner rs_inner]; [|split; [done|by intros []]].
  destruct (rs_require_owner st); cbn [andb fst]; [|by split; [split|]].
  destruct (is_public_path _ _); cbn [negb fst]; [by split; [split|]|].
  unfold require_owner_token. destruct (extract_owner_token_flexible _ _) as [tok|].
  - pose proof (owner_session_valid_spec (rs_inner st) tok t t') as Hv.
    destruct (owner_session_valid (rs_inner st) tok t t') as [[] g]; cbn [fst] in *.
    + split; [intros _|done]. split; [done|]. intros _ _. destruct (proj1 Hv eq_refl) as (s & ?). eauto.
    + split; [done|]. intros [_ H]. destruct (H eq_refl eq_refl) as (tok' & s & [= <-] & Hr).
      discriminate (proj2 Hv (ex_intro _ s Hr)).
  - split; [done|]. intros [_ H]. by destruct (H eq_refl eq_refl) as (tok' & s & ? & _).
Qed.

End access.
