(* ===== verification/Files.v ===== *)
(** * Plain files of the data directory

    The calls the appliance handlers of [crates/td-node/src/rpc.rs] make on files they
    read and write without the care of [persist.rs]: reading a JSON value and its
    fields, a write whose failure is ignored; what each does on a disk where no call
    fails. *)

From S2P Require Import Prelude Text Json Event Persist Quic Access.

Section files.
Context {AV : AccessEnv} {JT : JvText}.

(** The text of a failed file system call, without the prefix of [PersistError]. *)
Definition fs_error (e : PersistError) : list byte :=
  match e with PersistIo e => io_error_text e | _ => PersistError_to_string e end.

(** The parsed file, [None] when it cannot be read or parsed. *)
Definition read_jv (p : list byte) (o : Oracle) (d : Disk) : option Jv * Disk :=
  match fs_read_to_string p o d with
  | (Ok raw, d) => (jv_from_str raw, d)
  | (Err _, d) => (None, d)
  end.

Definition str_field (k : list byte) (v : option Jv) : option (list byte) :=
  v ← v; x ← jv_get v k; as_str x.

Definition u64_field (k : list byte) (v : option Jv) : option N := v ← v; x ← jv_get v k; as_u64 x.
Definition bool_field (k : list byte) (v : option Jv) : option bool := v ← v; x ← jv_get v k; as_bool x.

(** [Path::exists] and [Path::is_file], which cannot fail. *)
Definition file_exists (p : list byte) (o : Oracle) (d : Disk) : bool * Disk :=
  match fs_exists p o d with (Ok b, d) => (b, d) | (Err _, d) => (false, d) end.

(** [let _ = fs::write(..)] *)
Definition write_quietly (p l : list byte) (o : Oracle) (d : Disk) : Disk := (fs_write p l o d).2.

(** What a read that does not fail parses; the same files and directory. *)
Definition parsed (d : Disk) (p : list byte) : option Jv :=
  f ← dk_files d !! p; if is_utf8 (f_data f) then jv_from_str (f_data f) else None.

Definition same_files (d d' : Disk) : Prop := dk_files d' = dk_files d ∧ dk_dir d' = dk_dir d.

(** ** Lemmas *)

(** Reading changes no file; what is read is there. *)
Lemma fs_read_to_string_spec p o d : let '(r, d') := fs_read_to_string p o d in
  dk_files d' = dk_files d ∧ dk_dir d' = dk_dir d ∧
  match r with
  | Ok s => ∃ f, dk_files d !! p = Some f ∧ f_data f = s ∧ is_utf8 s = true
  | Err _ => True
  end.
Proof.
  unfold fs_read_to_string, fs_bind, fs_read, fs_call. destruct (o (dk_step d)); [done|]. cbn.
  destruct (dk_files d !! p) as [f|]; cbn; [|done].
  destruct (is_utf8 (f_data f)) eqn:Hu; split_and!; eauto.
Qed.

Lemma fs_write_frame p l o d : only p d (fs_write p l o d).2.
Proof.
  unfold fs_write, fs_bind. pose proof (fs_create_spec p o d) as H1.
  destruct (fs_create p o d) as [[[]|e] d1]; destruct H1 as [[H1 _] H1']; [|done].
  pose proof (fs_write_spec p l o d1 [] false (proj1 (H1' eq_refl))) as H2.
  destruct (fs_write_all p l o d1) as [r d2]. etrans; [exact H1|apply H2].
Qed.

Lemma fs_write_never p l d : dk_dir d = true →
  ∃ d', fs_write p l never d = (Ok tt, d') ∧ only p d d' ∧ dk_files d' !! p = Some (mkFile l false).
Proof.
  intros Hd. destruct (fs_write p l never d) as [r d'] eqn:He.
  assert (r = Ok tt) as ->.
  { revert He. unfold fs_write, fs_bind, fs_create, fs_call, fs_write_all, never. cbn. rewrite Hd. cbn. by intros [= <- _]. }
  exists d'. split; [done|by apply fs_write_spec_ok in He].
Qed.

Lemma write_quietly_frame p l o d : only p d (write_quietly p l o d).
Proof. apply fs_write_frame. Qed.

Lemma read_jv_never p d : ∃ d', read_jv p never d = (parsed d p, d') ∧ same_files d d'.
Proof.
  unfold read_jv, parsed, fs_read_to_string, fs_bind, fs_read, fs_call, never. cbn.
  destruct (dk_files d !! p) as [f|]; cbn; [|by eexists].
  destruct (is_utf8 (f_data f)); cbn; by eexists.
Qed.

Lemma parsed_same d d' p : same_files d d' → parsed d' p = parsed d p.
Proof. unfold parsed. by intros [-> _]. Qed.

#[global] Instance same_files_trans : Transitive same_files.
Proof. intros d1 d2 d3 [H1 H2] [H3 H4]. split; congruence. Qed.

Lemma file_exists_never p d : file_exists p never d =
  (dk_dir d && match dk_files d !! p with Some _ => true | None => false end, tick d).
Proof. done. Qed.

Lemma create_dir_never d : ∃ d', fs_create_dir_all never d = (Ok tt, d') ∧
  dk_files d' = dk_files d ∧ dk_dir d' = true.
Proof. by eexists. Qed.

Lemma require_owner_dir g h t t' : ac_data_dir (require_owner g h t t').2 = ac_data_dir g.
Proof. unfold require_owner, require_owner_token. by destruct (extract_owner_token h). Qed.

End files.
