(* ===== verification/Ota.v ===== *)
(** * Over-the-air updates ([crates/td-node/src/rpc.rs], [ota_check], [ota_apply],
    [ota_rollback])

    Checking a manifest, staging the artifact it names, handing it to the helper that
    installs it, and going back.  Files are paths under the root of the data directory
    ([ota] exists once [create_dir_all] returned); the environment, the answers of the
    servers, [systemctl] and the clock are arguments. *)

From S2P Require Import Prelude Text Json Crypto Event Net Link E2ee Seal Persist Quic Rate Access Files.

(** ** Data *)

Record OtaManifest : Type := mkOtaManifest {
  om_version : list byte;
  om_url : list byte;
  om_sha256 : option (list byte);
  om_signature : option (list byte);
  om_channel : list byte;
}.

Definition default_ota_channel : list byte := text "stable".

(** The derived [Serialize] and, on a value, [Deserialize]: an object, or its fields in
    order.  A field that may be absent may also be null, the channel may be absent. *)
Definition manifest_to_jv (m : OtaManifest) : Jv :=
  jobj [(text "version", VString (om_version m)); (text "url", VString (om_url m));
        (text "sha256", jopt VString (om_sha256 m)); (text "signature", jopt VString (om_signature m));
        (text "channel", VString (om_channel m))].

Definition opt_str (v : option Jv) : option (option (list byte)) :=
  match v with
  | None | Some VNull => Some None
  | Some (VString s) => Some (Some s)
  | Some _ => None
  end.

Definition manifest_of (version url sha256 signature channel : option Jv) : option OtaManifest :=
  version ← (x ← version; as_str x);
  url ← (x ← url; as_str x);
  sha256 ← opt_str sha256;
  signature ← opt_str signature;
  channel ← match channel with None => Some default_ota_channel | Some x => as_str x end;
  Some (mkOtaManifest version url sha256 signature channel).

Definition manifest_from_jv (v : Jv) : option OtaManifest :=
  match v with
  | VObject _ => manifest_of (jv_get v (text "version")) (jv_get v (text "url"))
      (jv_get v (text "sha256")) (jv_get v (text "signature")) (jv_get v (text "channel"))
  | VArray l => if 5 <? length l then None
                else manifest_of (l !! 0) (l !! 1) (l !! 2) (l !! 3) (l !! 4)
  | _ => None
  end.

(** The answer of a server to a GET. *)
Inductive Download : Type :=
| DlFailed (e : list byte)
| DlStatus (status : list byte)
| DlBody (body : result (list byte) (list byte)).

(** The outcome of [systemctl start]. *)
Inductive Kick : Type :=
| KickOk
| KickFailed (status stderr : list byte)
| KickMissing (e : list byte).

Definition OTA_STATE : list byte := text "ota-state.json".
Definition PENDING : list byte := text "ota/pending.json".
Definition LAST_APPLY : list byte := text "ota/last-apply.json".
Definition PREV_BIN : list byte := text "ota/previous/tducks.bin".
Definition PREV_META : list byte := text "ota/previous/meta.json".

Section ota.
Context {AV : AccessEnv} {JT : JvText} `{Decode OtaManifest}.
(** [env!("CARGO_PKG_VERSION")], the text of the root, that of a key's decoding error,
    [std::env::var] *)
Context (package_version root key_error : list byte) (var : list byte → option (list byte)).

(** ** The environment *)

Definition ota_channel : list byte := default (text "stable") (var (text "TD_OTA_CHANNEL")).

Definition ota_manifest_url : option (list byte) := s ← var (text "TD_OTA_MANIFEST_URL"); non_empty (trim s).

(** [for i in 0..32 { u8::from_str_radix(&t[i * 2..i * 2 + 2], 16) }] on digits *)
Definition ota_pubkey : option bytes32 :=
  s ← var (text "TD_OTA_PUBKEY");
  let t := trim s in
  if negb (length t =? 64) || negb (forallb is_hex_digit t) then None
  else try_into_array 32 (hex_pairs t).

(** Not one of the words for off, where [extra] is one more. *)
Definition env_on (name : list byte) (extra : list (list byte)) : bool :=
  match var name with
  | Some s =>
    let t := to_ascii_lowercase (trim s) in
    negb (bool_decide (t ∈ extra ++ [text "0"; text "false"; text "no"; text "off"]))
  | None => true
  end.
Definition ota_auto_apply_enabled : bool := env_on (text "TD_OTA_AUTO_APPLY") [[]].
Definition ota_restart : bool := env_on (text "TD_OTA_RESTART") [].

(** ** The signature of a manifest *)

(** [format!("{}\n{}\n{}", m.version, m.url, sha)] *)
Definition ota_message (m : OtaManifest) : list byte :=
  om_version m ++ x0a :: om_url m ++ x0a :: default [] (om_sha256 m).

Definition verify_ota_manifest (m : OtaManifest) : result (list byte) unit :=
  match ota_pubkey with
  | None => Ok tt
  | Some pk =>
    let? sig_hex := ok_or (om_signature m) (text "manifest missing signature (TD_OTA_PUBKEY set)") in
    if negb (length sig_hex =? 128) || negb (forallb is_hex_digit sig_hex)
    then Err (text "invalid signature hex") else
    let? sig := ok_or (try_into_array 64 (hex_pairs sig_hex)) (text "bad sig hex") in
    let? vk := ok_or (@vk_from_bytes env_crypto pk) key_error in
    if @ed_verify env_crypto vk (ota_message m) sig then Ok tt
    else Err (text "OTA manifest signature invalid")
  end.

(** [Path::display] *)
Definition display (p : list byte) : list byte := root ++ text "/" ++ p.

(** ** The status *)

Record OtaStatus : Type := mkOtaStatus {
  os_current_version : list byte; os_channel : list byte; os_manifest_url : option (list byte);
  os_signature_required : bool; os_auto_apply : bool; os_pending : bool;
  os_last_check_ms : option N; os_available : option OtaManifest; os_staged_path : option (list byte);
  os_last_apply : option (list byte); os_last_apply_ok : option bool; os_last_apply_ms : option N;
  os_installed_version : option (list byte); os_previous_version : option (list byte);
  os_previous_path : option (list byte); os_previous_saved_ms : option N; os_can_rollback : bool;
  os_last_action : option (list byte); os_last_rollback_ms : option N;
  os_last_rollback_version : option (list byte); os_helper_result : option Jv;
  os_last_error : option (list byte) }.

(** The path, version and time of the binary to go back to: the file under the root
    first, then what the state says.  [is_file] asks for the path the state names. *)
Definition previous_binary (is_file : list byte → bool) (path version : option (list byte))
    (saved_ms : option N) (o : Oracle) (d : Disk) :
    (bool * option (list byte) * option (list byte) * option N) * Disk :=
  match file_exists PREV_BIN o d with
  | (true, d) =>
    let path := match path with Some p => Some p | None => Some (display PREV_BIN) end in
    match version with
    | Some v => ((true, path, Some v, saved_ms), d)
    | None =>
      let '(meta, d) := read_jv PREV_META o d in
      let saved_ms := match saved_ms with Some n => Some n | None => u64_field (text "saved_ms") meta end in
      ((true, path, str_field (text "version") meta, saved_ms), d)
    end
  | (false, d) =>
    ((match path with Some p => is_file p | None => false end, path, version, saved_ms), d)
  end.

Definition ota_status (g : Access) (is_file : list byte → bool) (o : Oracle) (d : Disk) : OtaStatus * Disk :=
  let '(v, d) := if ac_data_dir g then read_jv OTA_STATE o d else (None, d) in
  let path := str_field (text "previous_path") v in
  let version := str_field (text "previous_version") v in
  let saved_ms := u64_field (text "previous_saved_ms") v in
  let '((can, path, version, saved_ms), d) :=
    if ac_data_dir g then previous_binary is_file path version saved_ms o d
    else ((false, path, version, saved_ms), d) in
  let '(pending, d) := if ac_data_dir g then file_exists PENDING o d else (false, d) in
  let '(helper, d) := if ac_data_dir g then read_jv LAST_APPLY o d else (None, d) in
  (mkOtaStatus package_version ota_channel ota_manifest_url (bool_decide (is_Some ota_pubkey))
     ota_auto_apply_enabled pending (u64_field (text "last_check_ms") v)
     (v ← v; a ← jv_get v (text "available"); manifest_from_jv a)
     (str_field (text "staged_path") v) (str_field (text "last_apply") v)
     (bool_field (text "last_apply_ok") v) (u64_field (text "last_apply_ms") v)
     (str_field (text "installed_version") v) version path saved_ms can
     (str_field (text "last_action") v) (u64_field (text "last_rollback_ms") v)
     (str_field (text "last_rollback_version") v) helper (str_field (text "last_error") v), d).

(** ** Checking *)

Record OtaChecked : Type := mkOtaChecked {
  oc_current_version : list byte; oc_available : OtaManifest; oc_update_available : bool;
  oc_checked_at_ms : N }.

Definition check_state (now : N) (m : OtaManifest) : Jv :=
  jobj [(text "last_check_ms", VNumber now); (text "available", manifest_to_jv m);
        (text "last_error", VNull)].

(** What the server's answer holds, as [ota_check] reads it. *)
Definition fetch_manifest (answer : Download) : result (list byte) OtaManifest :=
  match answer with
  | DlFailed e => Err (text "manifest fetch failed: " ++ e)
  | DlStatus s => Err (text "manifest HTTP " ++ s)
  | DlBody (Err e) => Err (text "manifest decode: " ++ e)
  | DlBody (Ok body) => ok_or (from_slice body) (text "manifest decode: " ++ json_error_text)
  end.

(** [t], [t'] are the readings of the owner check, [client] the outcome of building the
    HTTP client, [now] the wall clock. *)
Definition ota_check (g : Access) (h : Headers) (t t' : N) (client : result (list byte) unit)
    (get : list byte → Download) (now : N) (o : Oracle) (d : Disk) :
    Reply OtaChecked * Access * Disk :=
  match require_owner g h t t' with
  | (Err r, g) => (refused r, g, d)
  | (Ok _, g) =>
    match ota_manifest_url with
    | None => (Refuse 409 (text "TD_OTA_MANIFEST_URL not configured") None, g, d)
    | Some url =>
      match client with
      | Err e => (Refuse 500 e None, g, d)
      | Ok _ =>
        match fetch_manifest (get url) with
        | Err e => (Refuse 502 e None, g, d)
        | Ok m =>
          match verify_ota_manifest m with
          | Err e => (Refuse 400 e None, g, d)
          | Ok _ =>
            let d := if ac_data_dir g then write_quietly OTA_STATE (jv_pretty (check_state now m)) o d else d in
            (Json (mkOtaChecked package_version m (negb (bool_decide (om_version m = package_version))) now),
             g, d)
          end
        end
      end
    end
  end.

(** ** Applying *)

(** The manifest of the last check, as [ota_apply] finds it. *)
Definition available_manifest (g : Access) (o : Oracle) (d : Disk) :
    result (N * list byte) OtaManifest * Disk :=
  if negb (ac_data_dir g) then (Err (409%N, text "data dir required for OTA staging"), d) else
  match fs_read_to_string OTA_STATE o d with
  | (Err _, d) => (Err (409%N, text "run POST /v1/ota/check first"), d)
  | (Ok raw, d) =>
    (let? v := ok_or (jv_from_str raw) (500%N, json_error_text) in
     let? avail := ok_or (jv_get v (text "available")) (409%N, text "no available update in ota-state") in
     ok_or (manifest_from_jv avail) (500%N, json_error_text), d)
  end.

Definition fetch_artifact (m : OtaManifest) (answer : Download) : result (N * list byte) (list byte) :=
  let? bytes := match answer with
                | DlFailed e => Err (502%N, text "download failed: " ++ e)
                | DlStatus s => Err (502%N, text "download HTTP " ++ s)
                | DlBody (Err e) => Err (502%N, text "download body: " ++ e)
                | DlBody (Ok b) => Ok b
                end in
  match om_sha256 m with
  | Some want =>
    let got := hex_encode (array_bytes (@blake3 env_crypto bytes)) in
    if bool_decide (to_ascii_lowercase (trim want) = got) then Ok bytes
    else Err (400%N, text "artifact hash mismatch (expected blake3 hex)")
  | None => Ok bytes
  end.

Definition stage_name (m : OtaManifest) : list byte := text "tducks-" ++ om_version m ++ text ".bin".
Definition stage_path (m : OtaManifest) : list byte := text "ota/" ++ stage_name m.
(** A name with a slash is in a directory that does not exist, one with a NUL is not a
    name. *)
Definition plain_name (s : list byte) : bool :=
  forallb (λ b, negb (bool_decide (b = x2f)) && negb (bool_decide (b = x00))) s.
Definition write_artifact (m : OtaManifest) (bytes : list byte) : Fs PersistError unit :=
  if plain_name (om_version m) then fs_write (stage_path m) bytes
  else fs_err (PersistIo OtherIo).

Definition apply_pending (m : OtaManifest) (restart : bool) (now : N) : Jv :=
  jobj [(text "action", VString (text "apply")); (text "version", VString (om_version m));
        (text "staged_path", VString (display (stage_path m))); (text "restart", VBool restart);
        (text "requested_ms", VNumber now)].

(** The error and the note of a kick that did not start the helper. *)
Definition kick_error (k : Kick) : option (list byte) :=
  match k with
  | KickOk => None
  | KickFailed status stderr =>
    let err := trim stderr in
    Some (if bool_decide (err = []) then text "systemctl start exit " ++ status else err)
  | KickMissing e => Some (text "systemctl not available: " ++ e)
  end.
Definition kick_note (done : list byte) (k : Kick) : list byte :=
  match k with
  | KickOk => done
  | KickFailed _ _ => text "pending.json written; systemctl start failed (" ++
      default (text "?") (kick_error k) ++ text ") " ++ [xe2; x80; x94] ++
      text " ensure tducks-ota-apply.path is enabled"
  | KickMissing _ => text "pending.json written; no systemctl " ++ [xe2; x80; x94] ++
      text " run scripts/tducks-ota-apply.sh as root"
  end.

Record OtaApplied : Type := mkOtaApplied {
  oa_staged_path : list byte; oa_version : list byte; oa_bytes : nat; oa_auto_apply : bool;
  oa_restart : bool; oa_pending_written : bool; oa_helper_started : bool; oa_mode : list byte;
  oa_note : list byte; oa_helper_error : option (list byte) }.

(** What [ota-state.json] holds after applying. *)
Definition apply_state (m : OtaManifest) (r : OtaApplied) (now : N) : Jv :=
  jobj [(text "last_check_ms", VNumber now); (text "available", manifest_to_jv m);
        (text "staged_path", VString (oa_staged_path r)); (text "last_error", jopt VString (oa_helper_error r));
        (text "last_apply", VString (oa_note r));
        (text "last_apply_ok", VBool (oa_pending_written r || negb (oa_auto_apply r)));
        (text "pending", if oa_pending_written r
           then jobj [(text "path", VString (display PENDING)); (text "restart", VBool (oa_restart r))]
           else VNull)].

(** The part with the lock held again: stage, hand over, record.  [now] is read for the
    request and [now'] for the record. *)
Definition stage_and_hand_over (m : OtaManifest) (bytes : list byte) (kick : Kick) (now now' : N)
    (o : Oracle) (d : Disk) : result (N * list byte) OtaApplied * Disk :=
  let io e := (500%N, fs_error e) in
  match fs_create_dir_all o d with
  | (Err e, d) => (Err (io e), d)
  | (Ok _, d) =>
    match write_artifact m bytes o d with
    | (Err e, d) => (Err (io e), d)
    | (Ok _, d) =>
      let auto := ota_auto_apply_enabled in
      let reply written started mode note error :=
        mkOtaApplied (display (stage_path m)) (om_version m) (length bytes) auto ota_restart
          written started mode note error in
      let staged_note := text "Artifact staged only (TD_OTA_AUTO_APPLY=false). Install manually or enable auto-apply." in
      let '(r, d) :=
        if auto then
          match fs_write PENDING (jv_pretty (apply_pending m ota_restart now)) o d with
          | (Err e, d) => (reply false false (text "staged") staged_note
              (Some (text "write pending.json: " ++ fs_error e)), d)
          | (Ok _, d) =>
            let started := match kick with KickOk => true | _ => false end in
            (reply true started (if started then text "applying" else text "pending")
               (kick_note (text "tducks-ota-apply.service started (install + restart)") kick)
               (kick_error kick), d)
          end
        else (reply false false (text "staged") staged_note None, d) in
      (Ok r, write_quietly OTA_STATE (jv_pretty (apply_state m r now')) o d)
    end
  end.

(** [others] is what happens to the disk while the lock is released for the download. *)
Definition ota_apply (g : Access) (h : Headers) (t t' : N) (client : result (list byte) unit)
    (get : list byte → Download) (others : Disk → Disk) (kick : Kick) (now now' : N)
    (o : Oracle) (d : Disk) : Reply OtaApplied * Access * Disk :=
  match require_owner g h t t' with
  | (Err r, g) => (refused r, g, d)
  | (Ok _, g) =>
    match available_manifest g o d with
    | (Err (st, e), d) => (Refuse st e None, g, d)
    | (Ok m, d) =>
      match verify_ota_manifest m with
      | Err e => (Refuse 400 e None, g, others d)
      | Ok _ =>
        match client with
        | Err e => (Refuse 500 e None, g, others d)
        | Ok _ =>
          match fetch_artifact m (get (om_url m)) with
          | Err (st, e) => (Refuse st e None, g, others d)
          | Ok bytes =>
            match stage_and_hand_over m bytes kick now now' o (others d) with
            | (Err (st, e), d) => (Refuse st e None, g, d)
            | (Ok r, d) => (Json r, g, d)
            end
          end
        end
      end
    end
  end.

(** ** Going back *)

Record OtaRolledBack : Type := mkOtaRolledBack {
  or_version : list byte; or_from_version : list byte; or_restart : bool; or_helper_started : bool;
  or_mode : list byte; or_note : list byte; or_helper_error : option (list byte) }.

Definition rollback_pending (version from_version : list byte) (restart : bool) (now : N) : Jv :=
  jobj [(text "action", VString (text "rollback")); (text "version", VString version);
        (text "from_version", VString from_version); (text "staged_path", VString (display PREV_BIN));
        (text "restart", VBool restart); (text "requested_ms", VNumber now)].

(** [obj.insert(..)] on the state of the last check, when it is an object. *)
Definition rollback_state (v : Jv) (r : OtaRolledBack) : Jv :=
  match v with
  | VObject l => VObject
      (obj_insert (text "pending") (jobj [(text "action", VString (text "rollback"));
         (text "path", VString (display PENDING)); (text "restart", VBool (or_restart r));
         (text "version", VString (or_version r))])
      (obj_insert (text "last_error") (jopt VString (or_helper_error r))
      (obj_insert (text "last_apply_ok") (VBool true)
      (obj_insert (text "last_apply") (VString (or_note r)) l))))
  | _ => v
  end.

(** The version to go back to, and the one left behind. *)
Definition previous_version (o : Oracle) (d : Disk) : list byte * Disk :=
  let '(meta, d) := read_jv PREV_META o d in
  match (s ← str_field (text "version") meta; non_empty s) with
  | Some v => if bool_decide (v = text "unknown")
              then let '(st, d) := read_jv OTA_STATE o d in
                   (default v (s ← str_field (text "previous_version") st; non_empty s), d)
              else (v, d)
  | None =>
    let '(st, d) := read_jv OTA_STATE o d in
    (default (text "unknown") (s ← str_field (text "previous_version") st; non_empty s), d)
  end.

Definition ota_rollback (g : Access) (h : Headers) (t t' : N) (kick : Kick) (now : N)
    (o : Oracle) (d : Disk) : Reply OtaRolledBack * Access * Disk :=
  match require_owner g h t t' with
  | (Err r, g) => (refused r, g, d)
  | (Ok _, g) =>
    if negb (ac_data_dir g) then (Refuse 409 (text "data dir required for OTA rollback") None, g, d) else
    match file_exists PENDING o d with
    | (true, d) =>
      (Refuse 409 (text "OTA pending already exists; wait for apply/rollback to finish") None, g, d)
    | (false, d) =>
      match file_exists PREV_BIN o d with
      | (false, d) =>
        (Refuse 409 (text "no previous binary available for rollback") None, g, d)
      | (true, d) =>
        let '(version, d) := previous_version o d in
        let '(st, d) := read_jv OTA_STATE o d in
        let from_version := default package_version (str_field (text "installed_version") st) in
        match fs_create_dir_all o d with
        | (Err e, d) => (Refuse 500 (text "create ota dir: " ++ fs_error e) None, g, d)
        | (Ok _, d) =>
          match fs_write PENDING (jv_pretty (rollback_pending version from_version ota_restart now)) o d with
          | (Err e, d) => (Refuse 500 (text "write pending.json: " ++ fs_error e) None, g, d)
          | (Ok _, d) =>
            let started := match kick with KickOk => true | _ => false end in
            let r := mkOtaRolledBack version from_version ota_restart started
              (if started then text "rolling_back" else text "pending")
              (kick_note (text "tducks-ota-apply.service started (rollback + restart)") kick)
              (kick_error kick) in
            let '(st, d) := read_jv OTA_STATE o d in
            let st_val := rollback_state (default (VObject []) st) r in
            (Json r, g, write_quietly OTA_STATE (jv_pretty st_val) o d)
          end
        end
      end
    end
  end.

(** ** Lemmas *)

Lemma manifest_roundtrip m : manifest_from_jv (manifest_to_jv m) = Some m.
Proof. by destruct m as [v u [s|] [g|] c]. Qed.

Lemma manifest_ok m : jv_ok (manifest_to_jv m) = true.
Proof. by destruct m as [v u [s|] [g|] c]. Qed.

(** Two manifests without a line feed in version and url have the same signed text
    only if they agree on version, url and hash: a signature does not carry over. *)
Lemma ota_message_binds m m' : x0a ∉ om_version m → x0a ∉ om_url m →
  x0a ∉ om_version m' → x0a ∉ om_url m' → ota_message m = ota_message m' →
  om_version m = om_version m' ∧ om_url m = om_url m' ∧
  default [] (om_sha256 m) = default [] (om_sha256 m').
Proof.
  assert (∀ a b (r r' : list byte), x0a ∉ a → x0a ∉ b → a ++ x0a :: r = b ++ x0a :: r' → a = b ∧ r = r') as Hsplit.
  { induction a as [|x a IH]; intros [|y b] r r'; cbn; rewrite ?not_elem_of_cons.
    - by intros _ _ [= ->].
    - by intros _ [Hy _] [= <- _].
    - by intros [Hx _] _ [= -> _].
    - intros [_ Ha] [_ Hb] [= -> He]. by destruct (IH b r r' Ha Hb He) as [-> ->]. }
  unfold ota_message. intros Hv Hu Hv' Hu' He.
  destruct (Hsplit _ _ _ _ Hv Hv' He) as [-> He']. by destruct (Hsplit _ _ _ _ Hu Hu' He') as [-> ->].
Qed.

(** The channel is not signed: it can be changed without the key. *)
Lemma ota_channel_unsigned m c :
  verify_ota_manifest (mkOtaManifest (om_version m) (om_url m) (om_sha256 m) (om_signature m) c) =
  verify_ota_manifest m.
Proof. done. Qed.

(** A key that is not 64 digits turns the check of signatures off. *)
Lemma bad_pubkey_accepts s m : var (text "TD_OTA_PUBKEY") = Some s →
  negb (length (trim s) =? 64) || negb (forallb is_hex_digit (trim s)) = true →
  verify_ota_manifest m = Ok tt.
Proof.
  intros Hs Hbad. unfold verify_ota_manifest, ota_pubkey. rewrite Hs. cbn [mbind option_bind].
  by rewrite Hbad.
Qed.

(** The manifest carries a signature of its message under the configured key. *)
Definition signed (m : OtaManifest) : Prop :=
  match ota_pubkey with
  | None => True
  | Some pk => ∃ s sig vk, om_signature m = Some s ∧ array_bytes sig = hex_pairs s ∧
      @vk_from_bytes env_crypto pk = Some vk ∧ @ed_verify env_crypto vk (ota_message m) sig = true
  end.
(** The bytes have the hash the manifest gives, if it gives one. *)
Definition matches (m : OtaManifest) (bytes : list byte) : Prop :=
  match om_sha256 m with
  | None => True
  | Some want => to_ascii_lowercase (trim want) = hex_encode (array_bytes (@blake3 env_crypto bytes))
  end.

Lemma verify_signed m : verify_ota_manifest m = Ok tt → signed m.
Proof.
  unfold verify_ota_manifest, signed. destruct ota_pubkey as [pk|]; [|done].
  destruct (om_signature m) as [s|]; cbn [ok_or mbind result_bind]; [|done].
  destruct (_ || _); [done|].
  destruct (try_into_array 64 _) as [sig|] eqn:Hs; cbn [ok_or mbind result_bind]; [|done].
  destruct (vk_from_bytes pk) as [vk|] eqn:Hv; cbn [ok_or mbind result_bind]; [|done].
  destruct (ed_verify _ _ _) eqn:He; [|done]. intros _. exists s, sig, vk.
  by apply try_into_array_Some in Hs.
Qed.

Lemma fetch_artifact_ok m a bytes : fetch_artifact m a = Ok bytes → a = DlBody (Ok bytes) ∧ matches m bytes.
Proof.
  unfold fetch_artifact, matches. destruct a as [e|s|[b|e]]; cbn [mbind result_bind]; [done|done| |done].
  destruct (om_sha256 m) as [w|]; [case_bool_decide; [|done]|]; by intros [= ->].
Qed.

(** The manifest [ota-state.json] offers. *)
Definition offered (d : Disk) : option OtaManifest :=
  f ← dk_files d !! OTA_STATE;
  if negb (is_utf8 (f_data f)) then None else
  v ← jv_from_str (f_data f); a ← jv_get v (text "available"); manifest_from_jv a.

Lemma available_spec g o d : let '(r, d') := available_manifest g o d in
  dk_files d' = dk_files d ∧ dk_dir d' = dk_dir d ∧
  ∀ m, r = Ok m → ac_data_dir g = true ∧ offered d = Some m.
Proof.
  unfold available_manifest, offered. destruct (ac_data_dir g); [|done]. cbn [negb].
  pose proof (fs_read_to_string_spec OTA_STATE o d) as Hr.
  destruct (fs_read_to_string OTA_STATE o d) as [[s|e] d']; destruct Hr as (Hf & Hd & Hr); [|done].
  split_and!; [done|done|]. intros m. destruct Hr as (f & -> & <- & Hu).
  cbn [mbind option_bind]. rewrite Hu. cbn [negb].
  destruct (jv_from_str (f_data f)) as [v|]; cbn [ok_or mbind result_bind option_bind]; [|done].
  destruct (jv_get v (text "available")) as [a|]; cbn [ok_or mbind result_bind option_bind]; [|done].
  destruct (manifest_from_jv a); cbn [ok_or]; [|done]. by intros [= ->].
Qed.

Lemma stage_not_meta m : stage_path m ≠ PENDING ∧ stage_path m ≠ OTA_STATE ∧ stage_path m ≠ PREV_BIN.
Proof. by split_and!. Qed.

(** Staging: a refusal touches the staged file at most; otherwise it holds the bytes,
    the request names it, and only the record beside them is rewritten. *)
Lemma stage_spec m bytes kick now now' o d :
  let '(r, d') := stage_and_hand_over m bytes kick now now' o d in
  match r with
  | Err _ => ∀ q, q ≠ stage_path m → dk_files d' !! q = dk_files d !! q
  | Ok a =>
    oa_version a = om_version m ∧ oa_bytes a = length bytes ∧
    oa_staged_path a = display (stage_path m) ∧ oa_auto_apply a = ota_auto_apply_enabled ∧
    dk_files d' !! stage_path m = Some (mkFile bytes false) ∧
    (∀ q, q ≠ stage_path m → q ≠ PENDING → q ≠ OTA_STATE → dk_files d' !! q = dk_files d !! q) ∧
    (oa_pending_written a = true → ota_auto_apply_enabled = true ∧
       dk_files d' !! PENDING = Some (mkFile (jv_pretty (apply_pending m ota_restart now)) false)) ∧
    (ota_auto_apply_enabled = false → dk_files d' !! PENDING = dk_files d !! PENDING)
  end.
Proof.
  unfold stage_and_hand_over. pose proof (create_dir_spec o d) as Hd.
  destruct (fs_create_dir_all o d) as [[[]|e] d1]; destruct Hd as (Hd & _); [|by rewrite Hd].
  unfold write_artifact. destruct (plain_name (om_version m)); cbn [fs_err]; [|by rewrite Hd].
  pose proof (fs_write_frame (stage_path m) bytes o d1) as [_ Hw].
  destruct (fs_write (stage_path m) bytes o d1) as [[[]|e] d2] eqn:Hw'; cbn [snd] in Hw;
    [|by intros q Hq; rewrite Hw, Hd].
  apply fs_write_spec_ok in Hw' as [_ Hw'].
  destruct (stage_not_meta m) as (Hn1 & Hn2 & _). destruct ota_auto_apply_enabled.
  - pose proof (fs_write_frame PENDING (jv_pretty (apply_pending m ota_restart now)) o d2) as [_ Hp].
    destruct (fs_write PENDING _ o d2) as [[[]|e] d3] eqn:Hp'; cbn [snd] in Hp;
      cbn [oa_version oa_bytes oa_staged_path oa_auto_apply oa_pending_written];
      lazymatch goal with |- context [write_quietly OTA_STATE ?l o d3] =>
        destruct (write_quietly_frame OTA_STATE l o d3) as [_ Hq] end;
      (split_and!; [done|done|done|done|by rewrite Hq, Hp|
        by intros q H1 H2 H3; rewrite Hq, Hp, Hw, Hd by done| |done]); [|done].
    intros _. split; [done|]. rewrite Hq by done. by apply fs_write_spec_ok in Hp' as [_ ->].
  - cbn [oa_version oa_bytes oa_staged_path oa_auto_apply oa_pending_written].
    lazymatch goal with |- context [write_quietly OTA_STATE ?l o d2] =>
      destruct (write_quietly_frame OTA_STATE l o d2) as [_ Hq] end.
    split_and!; [done|done|done|done|by rewrite Hq|by intros q H1 H2 H3; rewrite Hq, Hw, Hd by done|done|].
    intros _. by rewrite Hq, Hw, Hd by done.
Qed.

(** A check on a healthy disk: what it answered is what [ota-state.json] offers. *)
Lemma ota_check_offers `{!JvTextLaws} g h t t' client get now d c g' d' :
  dk_dir d = true → ac_data_dir g = true →
  ota_check g h t t' client get now never d = (Json c, g', d') →
  offered d' = Some (oc_available c) ∧ signed (oc_available c) ∧
  (oc_update_available c = false ↔ om_version (oc_available c) = package_version).
Proof.
  intros Hd Hg. unfold ota_check.
  pose proof (require_owner_dir g h t t') as Hg'.
  destruct (require_owner g h t t') as [[[]|r] g1]; cbn [snd] in Hg'; [|by destruct r].
  destruct ota_manifest_url as [url|]; [|done]. destruct client; [|done].
  destruct (fetch_manifest (get url)) as [m|]; [|done].
  destruct (verify_ota_manifest m) as [[]|] eqn:Hv; [|done]. rewrite Hg', Hg. intros [= <- <- <-].
  cbn [oc_available oc_update_available].
  split_and!; [|by apply verify_signed|by rewrite negb_false_iff, bool_decide_eq_true].
  unfold offered, write_quietly.
  destruct (fs_write_never OTA_STATE (jv_pretty (check_state now m)) d Hd) as (d' & -> & _ & Hf).
  cbn [snd]. rewrite Hf. cbn [mbind option_bind f_data]. rewrite jv_pretty_utf8, jv_from_pretty; [|by destruct m as [v u [s|] [k|] c]].
  cbn [negb option_bind mbind]. by destruct m as [v u [s|] [k|] c].
Qed.

(** The check rewrites the whole file: the fields of the last install are gone, and with
    them the version [ota_rollback] and [ota_status] look for. *)
Lemma ota_check_forgets now m k :
  jv_get (check_state now m) k = None ∨ k ∈ [text "available"; text "last_check_ms"; text "last_error"].
Proof.
  unfold check_state, jobj, jv_get. cbn [foldl fst snd]. rewrite !obj_get_insert. cbn [obj_get].
  repeat case_decide; subst; [right; set_solver..|by left].
Qed.

(** ** Going back *)

(** The version [ota_rollback] goes back to, from the files alone. *)
Definition version_before (d : Disk) : list byte :=
  let st := (s ← str_field (text "previous_version") (parsed d OTA_STATE); non_empty s) in
  match (s ← str_field (text "version") (parsed d PREV_META); non_empty s) with
  | Some v => if bool_decide (v = text "unknown") then default v st else v
  | None => default (text "unknown") st
  end.

Lemma previous_version_never d : ∃ d', previous_version never d = (version_before d, d') ∧ same_files d d'.
Proof.
  unfold previous_version, version_before. destruct (read_jv_never PREV_META d) as (d1 & -> & H1).
  destruct (read_jv_never OTA_STATE d1) as (d2 & H2 & H2'). rewrite H2, (parsed_same d d1) by done.
  assert (same_files d d2) as H3 by (by etrans).
  destruct (s ← str_field _ _; _) as [v|]; [case_bool_decide; eauto|eauto].
Qed.

Lemma version_before_same d d' : same_files d d' → version_before d' = version_before d.
Proof. intros Hs. unfold version_before. by rewrite !(parsed_same d d'). Qed.

(** The fields [ota_rollback] writes in the record. *)
Definition rollback_fields : list (list byte) :=
  [text "pending"; text "last_error"; text "last_apply_ok"; text "last_apply"].

Lemma rollback_state_keeps v r k : k ∉ rollback_fields → jv_get (rollback_state v r) k = jv_get v k.
Proof.
  unfold rollback_fields. rewrite !not_elem_of_cons. intros (H1 & H2 & H3 & H4 & _).
  destruct v; try done. cbn [rollback_state jv_get]. rewrite !obj_get_insert.
  by repeat (rewrite decide_False by done).
Qed.

(** Without a hash nothing ties the artifact to the manifest, signed or not. *)
Lemma unhashed_artifact m bytes : om_sha256 m = None → fetch_artifact m (DlBody (Ok bytes)) = Ok bytes.
Proof. unfold fetch_artifact. by intros ->. Qed.

(** [ota_apply] does not look for a pending request: it replaces one. *)
Lemma apply_replaces_pending m bytes kick now now' d : plain_name (om_version m) = true →
  ota_auto_apply_enabled = true →
  dk_files (stage_and_hand_over m bytes kick now now' never d).2 !! PENDING =
    Some (mkFile (jv_pretty (apply_pending m ota_restart now)) false).
Proof.
  intros Hn Ha. unfold stage_and_hand_over. destruct (create_dir_never d) as (d1 & -> & H1 & Hd1).
  unfold write_artifact. rewrite Hn, Ha.
  destruct (fs_write_never (stage_path m) bytes d1 Hd1) as (d2 & -> & [Hd2 _] & _). rewrite Hd1 in Hd2.
  destruct (fs_write_never PENDING (jv_pretty (apply_pending m ota_restart now)) d2 Hd2) as (d3 & -> & _ & H3).
  cbn [snd]. lazymatch goal with |- context [write_quietly OTA_STATE ?l never d3] =>
    destruct (write_quietly_frame OTA_STATE l never d3) as [_ ->] end; done.
Qed.

(** ** Theorems *)

(** C11: What [ota_apply] installs is genuine.  Whatever calls fail, a reply that accepts
    was asked for by an owner; it staged, under the name of the version, exactly the bytes
    the server gave for the URL of the manifest that [ota-state.json] offered, which is
    signed under the configured key and whose hash, when it gives one, the bytes have.  The
    helper's request names that file, and is written only when automatic installs are on;
    of the other files only the record changes.  A refusal touches no file but the staged
    one. *)
Theorem ota_apply_genuine (g : Access) (h : Headers) (t t' : N) (client : result (list byte) unit)
    (get : list byte → Download) (others : Disk → Disk) (kick : Kick) (now now' : N)
    (o : Oracle) (d : Disk) :
  let d0 := (available_manifest g o d).2 in
  let '(r, g', d') := ota_apply g h t t' client get others kick now now' o d in
  g' = (require_owner g h t t').2 ∧ same_files d d0 ∧
  match r with
  | Json a =>
    (require_owner g h t t').1 = Ok tt ∧
    ∃ m bytes, offered d = Some m ∧ signed m ∧ get (om_url m) = DlBody (Ok bytes) ∧ matches m bytes ∧
      oa_version a = om_version m ∧ oa_bytes a = length bytes ∧ oa_staged_path a = display (stage_path m) ∧
      dk_files d' !! stage_path m = Some (mkFile bytes false) ∧
      (∀ q, q ≠ stage_path m → q ≠ PENDING → q ≠ OTA_STATE → dk_files d' !! q = dk_files (others d0) !! q) ∧
      (oa_pending_written a = true → ota_auto_apply_enabled = true ∧
         dk_files d' !! PENDING = Some (mkFile (jv_pretty (apply_pending m ota_restart now)) false)) ∧
      (ota_auto_apply_enabled = false → dk_files d' !! PENDING = dk_files (others d0) !! PENDING)
  | Refuse _ _ _ =>
    same_files d d' ∨ d' = others d0 ∨
    ∃ m, offered d = Some m ∧ ∀ q, q ≠ stage_path m → dk_files d' !! q = dk_files (others d0) !! q
  end.
Proof.
  cbv zeta. unfold ota_apply. pose proof (require_owner_dir g h t t') as Hdir.
  assert (available_manifest (require_owner g h t t').2 o d = available_manifest g o d) as Hg.
  { unfold available_manifest. by rewrite Hdir. }
  pose proof (available_spec g o d) as Ha.
  destruct (require_owner g h t t') as [[[]|r] g1]; cbn [fst snd] in *; [rewrite Hg|].
  2:{ destruct (available_manifest g o d) as [ra d0]; destruct Ha as (? & ? & _).
      destruct r; [done|]. cbn [refused snd]. by split_and!; [| |left]. }
  destruct (available_manifest g o d) as [[m|[st e]] d0]; destruct Ha as (Hf & Hd & Ha); cbn [snd];
    [|by split_and!; [| |left]].
  destruct (Ha m eq_refl) as [_ Hm].
  destruct (verify_ota_manifest m) as [[]|e] eqn:Hv; [|by split_and!; [| |right; left]].
  destruct client as [[]|]; [|by split_and!; [| |right; left]].
  destruct (fetch_artifact m (get (om_url m))) as [bytes|[st e]] eqn:Hb; [|by split_and!; [| |right; left]].
  apply fetch_artifact_ok in Hb as [Hb Hmatch]. apply verify_signed in Hv.
  pose proof (stage_spec m bytes kick now now' o (others d0)) as Hs.
  destruct (stage_and_hand_over _ _ _ _ _ _ _) as [[a|[st e]] d']; (split; [done|split; [done|]]).
  - split; [done|]. exists m, bytes. destruct Hs as (? & ? & ? & ? & ? & ? & ? & ?). by split_and!.
  - right; right. eauto.
Qed.

(** C33: Going back, on a healthy disk: [ota_rollback] of an owner refuses exactly when a
    request is still pending or no previous binary is there, and then changes no file.
    Otherwise the request it writes names the previous binary, the version saved with it
    (else the one of the record) and the installed version; the record gets a note and
    keeps every other field; no other file changes. *)
Theorem ota_rollback_exact (g : Access) (h : Headers) (t t' : N) (kick : Kick) (now : N) (d : Disk) :
  (require_owner g h t t').1 = Ok tt → ac_data_dir g = true → dk_dir d = true →
  let '(r, g', d') := ota_rollback g h t t' kick now never d in
  match r with
  | Refuse st _ _ => st = 409%N ∧ same_files d d' ∧
      (is_Some (dk_files d !! PENDING) ∨ dk_files d !! PREV_BIN = None)
  | Json a =>
    dk_files d !! PENDING = None ∧ is_Some (dk_files d !! PREV_BIN) ∧
    or_version a = version_before d ∧
    or_from_version a = default package_version (str_field (text "installed_version") (parsed d OTA_STATE)) ∧
    (or_helper_started a = true ↔ kick = KickOk) ∧
    dk_files d' !! PENDING = Some (mkFile (jv_pretty
      (rollback_pending (or_version a) (or_from_version a) ota_restart now)) false) ∧
    (∃ v, dk_files d' !! OTA_STATE = Some (mkFile (jv_pretty v) false) ∧
       ∀ k, k ∉ rollback_fields → jv_get v k = x ← parsed d OTA_STATE; jv_get x k) ∧
    (∀ q, q ≠ PENDING → q ≠ OTA_STATE → dk_files d' !! q = dk_files d !! q)
  end.
Proof.
  intros Ho Hg Hd. unfold ota_rollback. pose proof (require_owner_dir g h t t') as Hdir.
  destruct (require_owner g h t t') as [[[]|r] g1]; cbn [fst snd] in *; [|done].
  rewrite Hdir, Hg. cbn [negb]. rewrite !file_exists_never, Hd. cbn [andb].
  destruct (dk_files d !! PENDING) as [f|] eqn:Hp; [by split_and!; [| |left]|].
  cbn [tick dk_dir dk_files]. rewrite Hd. cbn [andb].
  destruct (dk_files d !! PREV_BIN) as [f|] eqn:Hb; [|by split_and!; [| |right]].
  set (d1 := tick (tick d)). assert (same_files d d1) as H1 by done. clearbody d1.
  destruct (previous_version_never d1) as (d2 & -> & H2). rewrite (version_before_same d d1) by done.
  destruct (read_jv_never OTA_STATE d2) as (d3 & -> & H3).
  rewrite (parsed_same d d2) by (by etrans).
  assert (same_files d d3) as Hs3 by (by repeat (etrans; [eassumption|])).
  destruct (create_dir_never d3) as (d4 & -> & H4 & Hd4).
  destruct (fs_write_never PENDING (jv_pretty (rollback_pending (version_before d)
    (default package_version (str_field (text "installed_version") (parsed d OTA_STATE))) ota_restart now)) d4 Hd4)
    as (d5 & -> & [Hd5 Ho5] & Hp5).
  destruct (read_jv_never OTA_STATE d5) as (d6 & -> & [H6 Hd6]). unfold write_quietly.
  lazymatch goal with |- context [fs_write OTA_STATE ?l never d6] =>
    destruct (fs_write_never OTA_STATE l d6) as (d7 & -> & [_ Ho7] & Hp7); [congruence|] end.
  cbn [snd or_version or_from_version or_helper_started].
  assert (parsed d5 OTA_STATE = parsed d OTA_STATE) as Hpar.
  { unfold parsed. rewrite Ho5, H4 by done. by destruct Hs3 as [-> _]. }
  rewrite Hpar in Hp7. split_and!; [done|eauto|done|done|by destruct kick| | |].
  - by rewrite Ho7, H6, Hp5.
  - eexists. split; [exact Hp7|]. intros k Hk. rewrite rollback_state_keeps by done.
    by destruct (parsed d OTA_STATE).
  - intros q Hq Hq'. rewrite Ho7, H6, Ho5, H4 by done. by destruct Hs3 as [-> _].
Qed.

End ota.
