(* ===== verification/Wifi.v ===== *)
(** * The Wi-Fi wizard ([crates/td-node/src/rpc.rs], [wifi_status], [wifi_scan],
    [wifi_apply])

    The stored configuration, the scan and the connection by [nmcli], whose runs are
    arguments; the texts of its outputs are those [String::from_utf8_lossy] makes. *)

From S2P Require Import Prelude Text Json Event Persist Quic Access Files.

(** ** Data *)

Record WifiState : Type := mkWifiState {
  ws_ssid : option (list byte); ws_has_psk : bool; ws_last_apply : option (list byte);
  ws_last_apply_ok : option bool; ws_iface : list byte }.

(** The outcome of a run. *)
Inductive Nmcli : Type :=
| NmOk (stdout : list byte)
| NmFailed (status stderr : list byte)
| NmMissing (e : list byte).

Record WifiNetwork : Type := mkWifiNetwork {
  wn_ssid : list byte; wn_signal : list byte; wn_security : list byte; wn_bars : list byte }.

Record WifiScanned : Type := mkWifiScanned {
  wc_iface : list byte; wc_networks : list WifiNetwork; wc_backend : list byte;
  wc_note : option (list byte) }.

Record WifiApplyRequest : Type := mkWifiApplyRequest {
  wq_ssid : list byte; wq_psk : option (list byte); wq_iface : option (list byte) }.

Record WifiApplied : Type := mkWifiApplied {
  wa_ok : bool; wa_ssid : list byte; wa_iface : list byte; wa_message : list byte;
  wa_persisted : bool }.

Definition WIFI_FILE : list byte := text "wifi.json".

(** [str::lines]: split at line feeds, without a last empty piece and the returns. *)
Definition strip_cr (s : list byte) : list byte :=
  match rev s with b :: r => if decide (b = x0d) then rev r else s | [] => s end.
Fixpoint line_pieces (l : list (list byte)) : list (list byte) :=
  match l with
  | [] => []
  | [s] => match s with [] => [] | _ => [s] end
  | s :: l => strip_cr s :: line_pieces l
  end.
Definition str_lines (s : list byte) : list (list byte) := line_pieces (split x0a s).

Section wifi.
Context {AV : AccessEnv} {JT : JvText}.
(** [std::env::var], a run of [nmcli] on its arguments *)
Context (var : list byte → option (list byte)) (nmcli : list (list byte) → Nmcli).

(** ** The stored configuration *)

Definition default_iface : list byte := default (text "wlan0") (var (text "TD_WIFI_IFACE")).

Definition load_wifi_state (data : bool) (o : Oracle) (d : Disk) : WifiState * Disk :=
  let st := mkWifiState None false None None default_iface in
  if data then
    match read_jv WIFI_FILE o d with
    | (Some v, d) =>
      (mkWifiState (str_field (text "ssid") (Some v))
         (match str_field (text "psk") (Some v) with Some s => negb (bool_decide (s = [])) | None => false end)
         (str_field (text "last_apply") (Some v)) (bool_field (text "last_apply_ok") (Some v))
         (default default_iface (str_field (text "iface") (Some v))), d)
    | (None, d) => (st, d)
    end
  else (st, d).

Definition wifi_jv (ssid psk iface last_apply : list byte) (ok : bool) : Jv :=
  jobj [(text "ssid", VString ssid); (text "psk", VString psk); (text "iface", VString iface);
        (text "last_apply", VString last_apply); (text "last_apply_ok", VBool ok)].

Definition save_wifi_disk (data : bool) (ssid psk iface last_apply : list byte) (ok : bool)
    (o : Oracle) (d : Disk) : result (list byte) unit * Disk :=
  if data then
    let '(r, d) := fs_write WIFI_FILE (jv_pretty (wifi_jv ssid psk iface last_apply ok)) o d in
    (map_err fs_error r, d)
  else (Err (text "no data dir " ++ [xe2; x80; x94] ++ text " wifi config not durable"), d).

(** The fields of the answer that are not constant. *)
Definition wifi_status (g : Access) (o : Oracle) (d : Disk) : WifiState * Disk :=
  load_wifi_state (ac_data_dir g) o d.

(** ** Scanning *)

(** [.filter(|s| !s.trim().is_empty()).unwrap_or_else(..)] *)
Definition pick_iface (iface : option (list byte)) : list byte :=
  default default_iface (s ← iface; if bool_decide (trim s = []) then None else Some s).

Definition scan_args (iface : list byte) : list (list byte) :=
  [text "-t"; text "-f"; text "SSID,SIGNAL,SECURITY,BARS"; text "dev"; text "wifi"; text "list";
   text "ifname"; iface].

Definition scan_line (line : list byte) : option WifiNetwork :=
  let parts := split x3a line in
  match parts with
  | [] | [] :: _ => None
  | ssid :: _ =>
    Some (mkWifiNetwork ssid (default [] (parts !! 1)) (default [] (parts !! 2)) (default [] (parts !! 3)))
  end.

Definition wifi_scan (need : bool) (g : Access) (h : Headers) (t t' : N) (iface : option (list byte)) :
    Reply WifiScanned * Access :=
  let '(r, g) := if need then require_owner g h t t' else (Ok tt, g) in
  match r with
  | Err e => (refused e, g)
  | Ok _ =>
    let iface := pick_iface iface in
    (Json match nmcli (scan_args iface) with
          | NmOk stdout => mkWifiScanned iface (omap scan_line (str_lines stdout)) (text "nmcli") None
          | NmFailed _ stderr =>
            let err := trim stderr in
            mkWifiScanned iface [] (text "stub")
              (Some (if bool_decide (err = []) then text "nmcli unavailable or no wifi device" else err))
          | NmMissing e => mkWifiScanned iface [] (text "stub") (Some (text "nmcli not found: " ++ e))
          end, g)
  end.

(** ** Connecting *)

Definition connect_args (ssid psk iface : list byte) : list (list byte) :=
  [text "dev"; text "wifi"; text "connect"; ssid; text "ifname"; iface] ++
  (if bool_decide (psk = []) then [] else [text "password"; psk]).

Definition connected (r : Nmcli) : bool * list byte :=
  match r with
  | NmOk stdout => (true, let m := trim stdout in if bool_decide (m = []) then text "connected" else m)
  | NmFailed status stderr =>
    (false, let m := trim stderr in if bool_decide (m = []) then text "nmcli exit " ++ status else m)
  | NmMissing e => (false, text "nmcli not available (" ++ e ++ text "); config saved for later apply")
  end.

(** [others] is what happens to the disk while the lock is released for the run. *)
Definition wifi_apply (g : Access) (h : Headers) (req : WifiApplyRequest) (t t' : N)
    (others : Disk → Disk) (o : Oracle) (d : Disk) : Reply WifiApplied * Access * Disk :=
  let ssid := trim (wq_ssid req) in
  if bool_decide (ssid = []) || (32 <? length ssid)
  then (Refuse 400 (text "ssid required (1-32 chars)") None, g, d) else
  let psk := default [] (wq_psk req) in
  let iface := pick_iface (wq_iface req) in
  match require_owner g h t t' with
  | (Err r, g) => (refused r, g, d)
  | (Ok _, g) =>
    let '(saved, d) := save_wifi_disk (ac_data_dir g) ssid psk iface (text "pending") false o d in
    match saved, ac_data_dir g with
    | Err e, true => (Refuse 500 e None, g, d)
    | _, _ =>
      let '(ok, msg) := connected (nmcli (connect_args ssid psk iface)) in
      (Json (mkWifiApplied ok ssid iface msg true), g,
       (save_wifi_disk (ac_data_dir g) ssid psk iface msg ok o (others d)).2)
    end
  end.

(** ** Lemmas *)

(** A saved configuration loads; of the key only its presence comes back. *)
Lemma save_load `{!JvTextLaws} ssid psk iface msg ok d : dk_dir d = true →
  let '(r, d') := save_wifi_disk true ssid psk iface msg ok never d in
  r = Ok tt ∧ only WIFI_FILE d d' ∧
  (load_wifi_state true never d').1 =
    mkWifiState (Some ssid) (negb (bool_decide (psk = []))) (Some msg) (Some ok) iface.
Proof.
  intros Hd. unfold save_wifi_disk.
  destruct (fs_write_never WIFI_FILE (jv_pretty (wifi_jv ssid psk iface msg ok)) d Hd) as (d' & -> & Ho & Hf).
  split_and!; [done|done|]. unfold load_wifi_state. destruct (read_jv_never WIFI_FILE d') as (d2 & -> & _).
  unfold parsed. rewrite Hf. cbn [mbind option_bind f_data]. by rewrite jv_pretty_utf8, jv_from_pretty.
Qed.

(** Without a data directory nothing is stored; the reply still says it is. *)
Lemma wifi_unpersisted g h req t t' others o d a g' d' : ac_data_dir g = false →
  wifi_apply g h req t t' others o d = (Json a, g', d') → wa_persisted a = true ∧ d' = others d.
Proof.
  intros Hg. unfold wifi_apply. destruct (_ || _); [done|].
  pose proof (require_owner_dir g h t t') as Hg'.
  destruct (require_owner g h t t') as [[[]|r] g1]; cbn [snd] in Hg'; [|by destruct r].
  rewrite Hg', Hg. cbn [save_wifi_disk fst snd]. destruct (connected _) as [ok msg]. by intros [= <- _ <-].
Qed.

(** [nmcli -t] writes a colon of a name as [\:]; the reader cuts the name there and
    shifts the other columns. *)
Lemma scan_line_escaped : scan_line (text "Cafe\:5:80:WPA2:****") =
  Some (mkWifiNetwork (text "Cafe\") (text "5") (text "80") (text "WPA2")).
Proof. reflexivity. Qed.

(** A line of four columns without a colon in them is read as it is. *)
Lemma scan_line_plain ssid a b c : ssid ≠ [] → x3a ∉ ssid → x3a ∉ a → x3a ∉ b → x3a ∉ c →
  scan_line (ssid ++ x3a :: a ++ x3a :: b ++ x3a :: c) = Some (mkWifiNetwork ssid a b c).
Proof.
  assert (∀ p r, x3a ∉ p → split x3a (p ++ x3a :: r) = p :: split x3a r) as Hs.
  { induction p as [|b' p IH]; intros r; cbn; [by rewrite decide_True|].
    rewrite not_elem_of_cons. intros [Hb Hp]. rewrite decide_False, IH by done. done. }
  assert (∀ p, x3a ∉ p → split x3a p = [p]) as Hl.
  { induction p as [|b' p IH]; cbn; [done|]. rewrite not_elem_of_cons. intros [Hb Hp].
    by rewrite decide_False, IH by done. }
  intros Hn H0 Ha Hb Hc. unfold scan_line. rewrite Hs, Hs, Hs, Hl by done. by destruct ssid.
Qed.

(** ** Theorems *)

(** Connecting, on a healthy disk.  A request is refused, and changes no file, exactly
    when its name is blank or longer than 32 bytes or no owner asks; otherwise one run of
    [nmcli] decides the reply, and with a data directory [wifi_status] then reports the
    trimmed name, the interface, that run's outcome and message, and of the key only
    whether there is one. *)
Lemma wifi_apply_exact `{!JvTextLaws} (g : Access) (h : Headers) (req : WifiApplyRequest) (t t' : N)
    (others : Disk → Disk) (d : Disk) :
  dk_dir d = true → (∀ d, dk_dir (others d) = dk_dir d) →
  let ssid := trim (wq_ssid req) in
  let psk := default [] (wq_psk req) in
  let '(r, g', d') := wifi_apply g h req t t' others never d in
  match r with
  | Refuse st _ _ => d' = d ∧
      (st = 400%N ∧ (ssid = [] ∨ 32 < length ssid) ∨ is_ok (require_owner g h t t').1 = false)
  | Json a =>
    (require_owner g h t t').1 = Ok tt ∧ g' = (require_owner g h t t').2 ∧
    ssid ≠ [] ∧ length ssid ≤ 32 ∧ wa_ssid a = ssid ∧
    (wa_ok a, wa_message a) = connected (nmcli (connect_args ssid psk (wa_iface a))) ∧
    (∃ d1, only WIFI_FILE d d1 ∧ only WIFI_FILE (others d1) d') ∧
    (ac_data_dir g = true → (wifi_status g' never d').1 =
      mkWifiState (Some ssid) (negb (bool_decide (psk = []))) (Some (wa_message a)) (Some (wa_ok a)) (wa_iface a))
  end.
Proof.
  intros Hd Hothers. cbv zeta. unfold wifi_apply. case_bool_decide as Hn; cbn [orb].
  { split; [done|left; split; [done|by left]]. }
  destruct (Nat.ltb_spec 32 (length (trim (wq_ssid req)))) as [Hl|Hl].
  { split; [done|left; split; [done|by right]]. }
  pose proof (require_owner_dir g h t t') as Hg'.
  destruct (require_owner g h t t') as [[[]|r] g1]; cbn [fst snd] in *; [|by destruct r as [[]|]; split; [|right]].
  set (psk := default [] (wq_psk req)). set (iface := pick_iface (wq_iface req)).
  rewrite Hg'. destruct (ac_data_dir g) eqn:Hg.
  - pose proof (save_load (trim (wq_ssid req)) psk iface (text "pending") false d Hd) as H1.
    destruct (save_wifi_disk true _ psk iface _ false never d) as [r d1]. destruct H1 as (-> & H1 & _).
    destruct (connected _) as [ok msg] eqn:Hc.
    assert (dk_dir (others d1) = true) as Hd1 by (rewrite Hothers; destruct H1; congruence).
    pose proof (save_load (trim (wq_ssid req)) psk iface msg ok (others d1) Hd1) as H2.
    destruct (save_wifi_disk true _ psk iface msg ok never (others d1)) as [r d2].
    destruct H2 as (_ & H2 & H3). cbn [wa_ssid wa_ok wa_message wa_iface snd].
    split_and!; eauto. intros _. unfold wifi_status. by rewrite Hg'.
  - cbn [save_wifi_disk snd]. destruct (connected _) as [ok msg] eqn:Hc.
    cbn [wa_ssid wa_ok wa_message wa_iface]. split_and!; eauto; [|done]. by exists d.
Qed.

End wifi.
