(* ===== verification/Session.v ===== *)
(** * The node session ([crates/td-node/src/rpc.rs], [NodeSession])

    The state behind a node's mutex: identity, event log, rooms, peers, access
    state, passkeys, ratchets, clock and relay status, with its start from a data
    directory and the steps the handlers share.  [ns_access] groups the fields
    [Access.v] models; the QUIC identity and pins are fields of [Serve.Node].  A session
    is paired with the disk of its data directory; a fault oracle, the random draws
    and the wall clock are arguments. *)

From S2P Require Import Prelude Text Crypto Event Dag Store Room Sync Net Link Passkey E2ee Seal.
From S2P Require Import Persist Rate Access.

(** ** Environment *)

(** [serde_json::Value]: [value_get_str v k] is [v.get(k)] as a string, [json_object]
    the text of a [json!] object. *)
Inductive Scalar : Type := JStr (s : list byte) | JNum (n : N).

Class JsonValue : Type := {
  Value : Type;
  value_from_slice : list byte → option Value;
  value_get_str : Value → list byte → option (list byte);
  json_object : list (list byte * Scalar) → list byte;
}.
Fixpoint field (k : list byte) (l : list (list byte * Scalar)) : option (list byte) :=
  match l with
  | [] => None
  | (k', x) :: l =>
    if decide (k' = k) then match x with JStr s => Some s | JNum _ => None end else field k l
  end.
(** A printed object parses and has its fields. *)
Class JsonValueLaws `{!JsonValue} : Prop :=
  json_object_fields l : NoDup l.*1 → ∃ v, value_from_slice (json_object l) = Some v ∧
    ∀ k, value_get_str v k = field k l.

Class NodeEnv : Type := {
  node_access :: AccessEnv;
  node_db :: EventsDb;
  node_event_encode :: Encode SignedEvent;
  node_event_decode :: Decode SignedEvent;
  node_create_encode : Encode CreateRoomPayload;
  node_create_decode : Decode CreateRoomPayload;
  node_member_encode : Encode MembershipPayload;
  node_member_decode : Decode MembershipPayload;
  node_json :: JsonValue;
  node_package_encode :: Encode RoomOutboundPackage;
  node_package_decode :: Decode RoomOutboundPackage;
  node_request_encode :: Encode RelayRequest;
  node_response_decode :: Decode RelayResponse;
}.
#[global] Instance node_store `{NodeEnv} : StoreEnv :=
  {| store_event := link_event; store_db := node_db;
     store_encode := node_event_encode; store_decode := node_event_decode |}.
#[global] Instance node_room `{NodeEnv} : RoomEnv :=
  {| room_event := link_event; room_iter := persist_iter;
     room_create_encode := node_create_encode; room_create_decode := node_create_decode;
     room_member_encode := node_member_encode; room_member_decode := node_member_decode |}.

Class NodeEnvLaws `{NodeEnv} : Type := {
  node_store_laws :: @StoreEnvLaws node_store;
  node_room_laws :: @RoomEnvLaws node_room;
  node_link_laws :: LinkEnvLaws;
  node_persist_laws :: PersistEnvLaws;
  node_seal_laws :: SealEnvLaws;
  node_json_laws :: JsonValueLaws;
}.

(** ** Data *)

Record PeerEndpoint : Type := mkPeerEndpoint {
  pe_name : list byte;
  pe_p2p : option (list byte);
  pe_rpc : option (list byte);
  pe_device_id : option (list byte);
}.

Section session.
Context {NE : NodeEnv}.
#[local] Existing Instance persist_iter.
#[local] Existing Instance link_event.

(** The error of a response or of [relay_last_error], before it becomes text: a
    text, or the value whose [Display] it contains. *)
Inductive Fault : Type :=
| FText (s : list byte)
| FRoom (e : RoomError)
| FSync (e : SyncError)
| FE2ee (e : E2eeError)
| FLink (e : LinkError)
| FPeer (e : PeerError)
| FRelay (e : RelayClientError)
| FPersist (what : list byte) (e : PersistError).

Record Remote : Type := mkRemote {
  rm_advertise_host : option (list byte);
  rm_relay_uri : option (list byte);
  rm_relay_key : bytes32;
  rm_p2p_noise : bool;
  rm_p2p_quic : bool;
}.
Record RelayStatus : Type := mkRelayStatus {
  rl_last_fetch_ms : option N;
  rl_last_error : option Fault;
  rl_last_fetched : N;
}.

Record NodeSession : Type := mkNodeSession {
  ns_keypair : DeviceKeypair;
  ns_node : DeviceNode;
  ns_rooms : RoomRegistry;
  ns_peers : gmap (list byte) PeerEndpoint;
  ns_access : Access;
  ns_passkeys : PasskeyRegistry;
  ns_e2ee : E2eeDevice;
  ns_e2ee_rooms : gmap (list byte) bool;
  ns_peer_olm_keys : gmap DeviceId OlmDeviceKeys;
  ns_ts_counter : N;
  ns_remote : Remote;
  ns_relay : RelayStatus;
}.

(** Field updates. *)
Definition with_node (g : NodeSession) (x : DeviceNode) : NodeSession :=
  mkNodeSession (ns_keypair g) x (ns_rooms g) (ns_peers g) (ns_access g) (ns_passkeys g) (ns_e2ee g)
    (ns_e2ee_rooms g) (ns_peer_olm_keys g) (ns_ts_counter g) (ns_remote g) (ns_relay g).
Definition with_rooms (g : NodeSession) (x : RoomRegistry) : NodeSession :=
  mkNodeSession (ns_keypair g) (ns_node g) x (ns_peers g) (ns_access g) (ns_passkeys g) (ns_e2ee g)
    (ns_e2ee_rooms g) (ns_peer_olm_keys g) (ns_ts_counter g) (ns_remote g) (ns_relay g).
Definition with_peers (g : NodeSession) (x : gmap (list byte) PeerEndpoint) : NodeSession :=
  mkNodeSession (ns_keypair g) (ns_node g) (ns_rooms g) x (ns_access g) (ns_passkeys g) (ns_e2ee g)
    (ns_e2ee_rooms g) (ns_peer_olm_keys g) (ns_ts_counter g) (ns_remote g) (ns_relay g).
Definition with_access (g : NodeSession) (x : Access) : NodeSession :=
  mkNodeSession (ns_keypair g) (ns_node g) (ns_rooms g) (ns_peers g) x (ns_passkeys g) (ns_e2ee g)
    (ns_e2ee_rooms g) (ns_peer_olm_keys g) (ns_ts_counter g) (ns_remote g) (ns_relay g).
Definition with_e2ee (g : NodeSession) (x : E2eeDevice) : NodeSession :=
  mkNodeSession (ns_keypair g) (ns_node g) (ns_rooms g) (ns_peers g) (ns_access g) (ns_passkeys g) x
    (ns_e2ee_rooms g) (ns_peer_olm_keys g) (ns_ts_counter g) (ns_remote g) (ns_relay g).
Definition with_e2ee_rooms (g : NodeSession) (x : gmap (list byte) bool) : NodeSession :=
  mkNodeSession (ns_keypair g) (ns_node g) (ns_rooms g) (ns_peers g) (ns_access g) (ns_passkeys g)
    (ns_e2ee g) x (ns_peer_olm_keys g) (ns_ts_counter g) (ns_remote g) (ns_relay g).
Definition with_olm_keys (g : NodeSession) (x : gmap DeviceId OlmDeviceKeys) : NodeSession :=
  mkNodeSession (ns_keypair g) (ns_node g) (ns_rooms g) (ns_peers g) (ns_access g) (ns_passkeys g)
    (ns_e2ee g) (ns_e2ee_rooms g) x (ns_ts_counter g) (ns_remote g) (ns_relay g).
Definition with_ts (g : NodeSession) (x : N) : NodeSession :=
  mkNodeSession (ns_keypair g) (ns_node g) (ns_rooms g) (ns_peers g) (ns_access g) (ns_passkeys g)
    (ns_e2ee g) (ns_e2ee_rooms g) (ns_peer_olm_keys g) x (ns_remote g) (ns_relay g).
Definition with_remote (g : NodeSession) (x : Remote) : NodeSession :=
  mkNodeSession (ns_keypair g) (ns_node g) (ns_rooms g) (ns_peers g) (ns_access g) (ns_passkeys g)
    (ns_e2ee g) (ns_e2ee_rooms g) (ns_peer_olm_keys g) (ns_ts_counter g) x (ns_relay g).
Definition with_relay (g : NodeSession) (x : RelayStatus) : NodeSession :=
  mkNodeSession (ns_keypair g) (ns_node g) (ns_rooms g) (ns_peers g) (ns_access g) (ns_passkeys g)
    (ns_e2ee g) (ns_e2ee_rooms g) (ns_peer_olm_keys g) (ns_ts_counter g) (ns_remote g) x.

(** ** Starting *)

(** Rooms that already have an outbound session. *)
Definition ready_rooms (node : DeviceNode) (e2ee : E2eeDevice) : gmap (list byte) bool :=
  foldl (λ m rid, let hex := hex_encode (array_bytes (RoomId_0 rid)) in
    if has_outbound e2ee hex then <[hex := true]> m else m) ∅ (room_ids node).

Definition from_parts (keypair : DeviceKeypair) (claim : ClaimState) (data_dir : bool)
    (node : DeviceNode) (e2ee : E2eeDevice) (rooms : RoomRegistry) (ts_counter : N) : NodeSession :=
  let link := (trust_local (LinkRegistry_new (kp_device_id keypair)) keypair).2 in
  {| ns_keypair := keypair;
     ns_node := node;
     ns_rooms := rooms;
     ns_peers := ∅;
     ns_access := mkAccess (kp_device_id keypair) claim ∅ ∅ 0 None link data_dir None None;
     ns_passkeys := localhost_default;
     ns_e2ee := e2ee;
     ns_e2ee_rooms := ready_rooms node e2ee;
     ns_peer_olm_keys := ∅;
     ns_ts_counter := N.max ts_counter 1;
     ns_remote := mkRemote None None (derive_relay_key DEFAULT_RELAY_KEY_MATERIAL) false false;
     ns_relay := mkRelayStatus None None 0 |}.

(** [sk] is the key [DeviceKeypair::generate] draws. *)
Definition NodeSession_new (sk : @SigningKey (@env_crypto link_event)) (s s' : Seed) : NodeSession :=
  let keypair := DeviceKeypair_generate sk in
  let node := from_crypto_device (DeviceId_0 (kp_device_id keypair)) in
  let e2ee := E2eeDevice_new s s' (kp_device_id keypair) in
  from_parts keypair ClaimState_default false node e2ee RoomRegistry_new 1.

(** All events, room by room, in the order of the loops of [load_from_data_dir]. *)
Definition loaded_events (node : DeviceNode) : list SignedEvent :=
  room_ids node ≫= list_events node.

Definition rebuild_rooms (l : list SignedEvent) : RoomRegistry :=
  foldl (λ rooms ev, (apply_event rooms ev).2) RoomRegistry_new l.

(** [ev.ts_ms + 1] wraps in a release build. *)
Definition clock_after (ts : N) (l : list SignedEvent) : N :=
  foldl (λ c ev, if (c <=? se_ts_ms ev)%N then wrap 64 (se_ts_ms ev + 1) else c) ts l.

(** The identity, the claim and the clock are read first; [store] is the outcome of
    opening [events.sqlite]. *)
Definition load_from_data_dir (sk : @SigningKey (@env_crypto link_event)) (s s' : Seed) (events_db : FsPath) :
    Oracle → Disk → result Fault NodeSession * Disk := λ o d,
  match load_or_create_identity sk o d with
  | (Err e, d) => (Err (FPersist (text "identity: ") e), d)
  | (Ok keypair, d) =>
    match load_claim o d with
    | (Err e, d) => (Err (FPersist (text "claim: ") e), d)
    | (Ok claim, d) =>
      match load_meta o d with
      | (Err e, d) => (Err (FPersist (text "meta: ") e), d)
      | (Ok meta, d) =>
        match with_sqlite (kp_device_id keypair) events_db with
        | Err e => (Err (FSync e), d)
        | Ok node =>
          match load_e2ee s s' (kp_device_id keypair) o d with
          | (Err e, d) => (Err (FPersist (text "e2ee: ") e), d)
          | (Ok e2ee, d) =>
            let rooms := rebuild_rooms (loaded_events node) in
            let ts_counter := clock_after (N.max (nm_ts_counter meta) 1) (loaded_events node) in
            (Ok (from_parts keypair claim true node e2ee rooms ts_counter), d)
          end
        end
      end
    end
  end.

(** ** Steps the handlers share *)

Definition state : Type := NodeSession * Disk.

(** [if let Some(dir) = &self.data_dir { .. }] on the outcome of a save. *)
Definition persist_meta (g : NodeSession) (o : Oracle) (d : Disk) : result Fault unit * Disk :=
  if ac_data_dir (ns_access g) then
    let '(r, d) := save_meta (mkNodeMetaDisk (ns_ts_counter g)) o d in
    (map_err (FPersist (text "persist meta: ")) r, d)
  else (Ok tt, d).

Definition persist_e2ee (g : NodeSession) (o : Oracle) (d : Disk) : result Fault unit * Disk :=
  if ac_data_dir (ns_access g) then
    let '(r, d) := save_e2ee (ns_e2ee g) o d in
    (map_err (FPersist (text "persist e2ee: ")) r, d)
  else (Ok tt, d).

(** [self.ts_counter += 1] wraps in a release build. *)
Definition next_ts (s : state) (o : Oracle) : N * state :=
  let '(g, d) := s in
  let g := with_ts g (wrap 64 (ns_ts_counter g + 1)) in
  let ts := ns_ts_counter g in
  let '(_, d) := persist_meta g o d in
  (ts, (g, d)).

Definition ensure_room_e2ee (s : state) (room_hex : list byte) (seed : Seed) (o : Oracle) : state :=
  let '(g, d) := s in
  if has_outbound (ns_e2ee g) room_hex
  then (with_e2ee_rooms g (<[room_hex := true]> (ns_e2ee_rooms g)), d)
  else
    let '(_, e2ee) := create_group_session (ns_e2ee g) room_hex seed in
    let g := with_e2ee g e2ee in
    let g := with_e2ee_rooms g (<[room_hex := true]> (ns_e2ee_rooms g)) in
    let '(_, d) := persist_e2ee g o d in
    (g, d).

Definition remember_peer_olm (g : NodeSession) (keys : OlmDeviceKeys) : NodeSession :=
  with_olm_keys g (<[ok_device_id keys := keys]> (ns_peer_olm_keys g)).

Definition ensure_olm_to (g : NodeSession) (peer : DeviceId) (seed : Seed) :
    result Fault unit * NodeSession :=
  if has_olm_session (ns_e2ee g) peer then (Ok tt, g) else
  match ns_peer_olm_keys g !! peer with
  | None => (Err (FText (text "no olm keys cached for peer " ++ hex32 peer)), g)
  | Some keys =>
    let '(r, e2ee) := establish_olm_outbound (ns_e2ee g) keys seed in
    (map_err FE2ee r, with_e2ee g e2ee)
  end.

Definition parse_id (what : list byte) (s : list byte) : result Fault bytes32 :=
  let? b := map_err FText (hex_decode s) in
  ok_or (try_into_array 32 b) (FText (what ++ text " must be 32 bytes hex")).

Definition parse_room_id (s : list byte) : result Fault RoomId :=
  mkRoomId <$> parse_id (text "room_id") s.
Definition parse_crypto_device_id (s : list byte) : result Fault DeviceId :=
  mkDeviceId <$> parse_id (text "device_id") s.

(** [if id != self_id && !out.contains(&id) { out.push(id) }] *)
Definition push_recipient (self_id : DeviceId) (out : list DeviceId) (id : DeviceId) : list DeviceId :=
  if decide (id ≠ self_id ∧ id ∉ out) then out ++ [id] else out.

Definition relay_recipients (g : NodeSession) : list DeviceId :=
  let self_id := kp_device_id (ns_keypair g) in
  let out := filter (λ d, d ≠ self_id) (linked_devices (ac_link (ns_access g))) in
  let out := foldl (λ out ep,
    match pe_device_id ep with
    | Some hex_id =>
      match parse_crypto_device_id hex_id with
      | Ok id => push_recipient self_id out id
      | Err _ => out
      end
    | None => out
    end) out (map_values (ns_peers g)) in
  foldl (push_recipient self_id) out (map_keys (ns_peer_olm_keys g)).

Inductive SealMode : Type := OlmV2 | AeadV1.

(** [seed] and [seed'] are the draws of the Olm operations, [nonce] the one of the
    AEAD. *)
Definition seal_event_for_recipient (g : NodeSession) (ev : SignedEvent) (recip : DeviceId)
    (seed seed' : Seed) (nonce : array 12) : result Fault (list byte * SealMode) * NodeSession :=
  match ensure_olm_to g recip seed with
  | (Ok _, g) =>
    let '(r, e2ee) := seal_for_relay_olm (ns_e2ee g) recip ev seed' in
    ((λ ct, (ct, OlmV2)) <$> map_err FSync r, with_e2ee g e2ee)
  | (Err _, g) =>
    ((λ ct, (ct, AeadV1)) <$> map_err FSync (seal_for_relay ev (rm_relay_key (ns_remote g)) nonce), g)
  end.

Definition is_room_event (k : EventKind) : bool :=
  match k with CreateRoom | Membership => true | _ => false end.

Definition ingest_remote (g : NodeSession) (ev : SignedEvent) : result Fault bool * NodeSession :=
  let kind := se_kind ev in
  match commit_remote (ns_node g) ev with
  | (Err e, node) => (Err (FSync e), with_node g node)
  | (Ok inserted, node) =>
    let g := with_node g node in
    (Ok inserted, if is_room_event kind then with_rooms g (apply_event (ns_rooms g) ev).2 else g)
  end.

End session.
