(* ===== verification/Peers.v ===== *)
(** * Options, advertised addresses and peers ([crates/td-node/src/rpc.rs])

    [ServeOptions] and its environment variables, the addresses a node tells
    others, and the endpoints it keeps of its peers. *)

From S2P Require Import Prelude Text Crypto Event Dag Store Room Sync Net Link Passkey E2ee Seal.
From S2P Require Import Persist Rate Access Session.

Section peers.
Context {NE : NodeEnv}.

(** ** Options *)

Record ServeOptions : Type := mkServeOptions {
  so_data_dir : option (list byte);
  so_p2p_bind : option (list byte);
  so_advertise_host : option (list byte);
  so_relay_uri : option (list byte);
  so_relay_key : bytes32;
  so_require_owner_non_loopback : bool;
  so_rate_limit : bool;
  so_p2p_noise : bool;
  so_p2p_quic : bool;
  so_tls_cert : option (list byte);
  so_tls_key : option (list byte);
  so_tls_self_signed : bool;
  so_quic_cert : option (list byte);
  so_quic_key : option (list byte);
  so_quic_pins : option (list byte);
  so_quic_mtls : option bool;
}.

(** [env::var], which refuses a value that is not UTF-8, on [env::var_os]. *)
Definition env_var (var_os : list byte → option (list byte)) (name : list byte) : option (list byte) :=
  v ← var_os name; if is_utf8 v then Some v else None.

(** [!(v == "0" || v == "false" || v == "off" || v == "no")] *)
Definition switch_on (v : list byte) : bool :=
  let v := to_ascii_lowercase (trim v) in
  negb (bool_decide (v = text "0") || bool_decide (v = text "false") ||
        bool_decide (v = text "off") || bool_decide (v = text "no")).

Definition from_env (var_os : list byte → option (list byte)) : ServeOptions :=
  let var := env_var var_os in
  let trimmed name := v ← var name; non_empty (trim v) in
  let switch name dflt := match var name with Some v => switch_on v | None => dflt end in
  let material := match (v ← var (text "TD_RELAY_KEY"); if bool_decide (trim v = []) then None else Some v) with
    | Some v => parse_relay_key_material v
    | None => DEFAULT_RELAY_KEY_MATERIAL
    end in
  {| so_data_dir := var_os (text "TD_DATA_DIR");
     so_p2p_bind := (v ← var (text "TD_P2P_BIND"); if bool_decide (trim v = []) then None else Some v);
     so_advertise_host := trimmed (text "TD_ADVERTISE_HOST");
     so_relay_uri := trimmed (text "TD_RELAY_URI");
     so_relay_key := derive_relay_key material;
     so_require_owner_non_loopback := switch (text "TD_REQUIRE_OWNER") true;
     so_rate_limit := switch (text "TD_RATE_LIMIT") true;
     so_p2p_noise := switch (text "TD_P2P_NOISE") false;
     so_p2p_quic := switch (text "TD_P2P_QUIC") false;
     so_tls_cert := var_os (text "TD_TLS_CERT");
     so_tls_key := var_os (text "TD_TLS_KEY");
     so_tls_self_signed := switch (text "TD_TLS_SELF_SIGNED") false;
     so_quic_cert := var_os (text "TD_QUIC_CERT");
     so_quic_key := var_os (text "TD_QUIC_KEY");
     so_quic_pins := trimmed (text "TD_QUIC_PINS");
     so_quic_mtls := switch_on <$> var (text "TD_QUIC_MTLS") |}.

Definition ServeOptions_default : ServeOptions :=
  {| so_data_dir := None;
     so_p2p_bind := None;
     so_advertise_host := None;
     so_relay_uri := None;
     so_relay_key := derive_relay_key DEFAULT_RELAY_KEY_MATERIAL;
     so_require_owner_non_loopback := true;
     so_rate_limit := true;
     so_p2p_noise := false;
     so_p2p_quic := false;
     so_tls_cert := None;
     so_tls_key := None;
     so_tls_self_signed := false;
     so_quic_cert := None;
     so_quic_key := None;
     so_quic_pins := None;
     so_quic_mtls := None |}.

Definition apply_remote_opts (g : NodeSession) (opts : ServeOptions) : NodeSession :=
  let r := ns_remote g in
  with_remote g {|
    rm_advertise_host := match so_advertise_host opts with Some h => Some h | None => rm_advertise_host r end;
    rm_relay_uri := match so_relay_uri opts with Some u => Some u | None => rm_relay_uri r end;
    rm_relay_key := so_relay_key opts;
    rm_p2p_noise := so_p2p_noise opts;
    rm_p2p_quic := so_p2p_quic opts |}.

(** ** Advertised addresses *)

Definition contains_byte (c : byte) (s : list byte) : bool := bool_decide (c ∈ s).
Definition count_byte (c : byte) (s : list byte) : nat :=
  length (List.filter (λ b, bool_decide (b = c)) s).

(** [SocketAddr]'s [Display]: brackets around an IPv6 address. *)
Definition socket_to_string (a : SocketAddr) : list byte :=
  if contains_byte x3a (sa_ip a)
  then text "[" ++ sa_ip a ++ text "]" ++ x3a :: dec (sa_port a)
  else sa_ip a ++ x3a :: dec (sa_port a).

(** The host names a port already. *)
Definition complete_host (h : list byte) : bool :=
  contains_byte x3a h && negb (starts_with h (text "[")) &&
  match rsplit_once x3a h with
  | Some (_, p) => match parse_uint (2 ^ 16) p with Some _ => true | None => false end
  | None => false
  end && (count_byte x3a h =? 1).

Definition advertise_addr (local : SocketAddr) (advertise_host : option (list byte)) : list byte :=
  match (h ← advertise_host; non_empty (trim h)) with
  | Some h => if complete_host h then h else h ++ x3a :: dec (sa_port local)
  | None => socket_to_string local
  end.

Definition advertise_http_base (local : SocketAddr) (advertise_host : option (list byte))
    (https : bool) : list byte :=
  let scheme := if https then text "https" else text "http" in
  scheme ++ text "://" ++ advertise_addr local advertise_host.

Definition advertise_p2p_uri (local : SocketAddr) (advertise_host : option (list byte))
    (noise quic : bool) : list byte :=
  let adv := advertise_addr local advertise_host in
  let scheme := if quic then text "td-quic" else if noise then text "td-noise" else text "td" in
  if starts_with adv (text "td://") || starts_with adv (text "td-noise://") ||
     starts_with adv (text "td-quic://")
  then adv
  else scheme ++ text "://" ++ adv.

(** ** Peers *)

Definition classify_uri (ep : PeerEndpoint) (uri : list byte) : PeerEndpoint :=
  let u := trim uri in
  if starts_with u (text "http://") || starts_with u (text "https://") then
    mkPeerEndpoint (pe_name ep) (pe_p2p ep) (Some (trim_end_matches (text "/") u)) (pe_device_id ep)
  else if starts_with u (text "td://") then
    mkPeerEndpoint (pe_name ep) (Some u) (pe_rpc ep) (pe_device_id ep)
  else if negb (bool_decide (u = [])) then
    mkPeerEndpoint (pe_name ep) (pe_p2p ep)
      (Some (text "http://" ++ trim_end_matches (text "/") u)) (pe_device_id ep)
  else ep.

Definition set_rpc (ep : PeerEndpoint) (r : list byte) : PeerEndpoint :=
  let r := trim_end_matches (text "/") (trim r) in
  if bool_decide (r = []) then ep else
  mkPeerEndpoint (pe_name ep) (pe_p2p ep)
    (Some (if starts_with r (text "http") then r else text "http://" ++ r)) (pe_device_id ep).

Definition set_p2p (ep : PeerEndpoint) (p : list byte) : PeerEndpoint :=
  let p := trim p in
  if bool_decide (p = []) then ep else
  mkPeerEndpoint (pe_name ep) (Some (if starts_with p (text "td://") then p else text "td://" ++ p))
    (pe_rpc ep) (pe_device_id ep).

Definition upsert_peer (g : NodeSession) (name uri : list byte) (rpc p2p : option (list byte)) :
    NodeSession :=
  let ep := default (mkPeerEndpoint name None None None) (ns_peers g !! name) in
  let ep := classify_uri ep uri in
  let ep := match rpc with Some r => set_rpc ep r | None => ep end in
  let ep := match p2p with Some p => set_p2p ep p | None => ep end in
  with_peers g (<[name := ep]> (ns_peers g)).

(** [ep.device_id = Some(..)] on a peer that is known. *)
Definition stamp_device (g : NodeSession) (name did : list byte) : NodeSession :=
  match ns_peers g !! name with
  | Some ep =>
    with_peers g (<[name := mkPeerEndpoint (pe_name ep) (pe_p2p ep) (pe_rpc ep) (Some did)]> (ns_peers g))
  | None => g
  end.

(** ** Lemmas *)

Lemma starts_with_app p s : starts_with (p ++ s) p = true.
Proof. unfold starts_with. by rewrite strip_prefix_app. Qed.

Lemma parse_scheme (scheme adv : list byte) noise quic :
  (scheme, noise, quic) ∈ [(text "td-quic", false, true); (text "td-noise", true, false);
    (text "td", false, false)] →
  PeerUri_parse (scheme ++ text "://" ++ adv) =
    (let? '(host, port_s) := ok_or (rsplit_once x3a adv) (InvalidUri (scheme ++ text "://" ++ adv)) in
     let? port := ok_or (parse_uint (2 ^ 16) port_s) (InvalidUri (scheme ++ text "://" ++ adv)) in
     Ok (mkPeerUri host port noise quic)).
Proof.
  intros H. repeat (apply elem_of_cons in H as [[= -> -> ->]|H]); [..|by apply not_elem_of_nil in H];
    unfold PeerUri_parse; rewrite !app_assoc; change (text "td-quic" ++ text "://") with (text "td-quic://");
    change (text "td-noise" ++ text "://") with (text "td-noise://");
    change (text "td" ++ text "://") with (text "td://").
  - by rewrite strip_prefix_app.
  - assert (∀ x, strip_prefix (text "td-quic://") (text "td-noise://" ++ x) = None) as -> by done.
    by rewrite strip_prefix_app.
  - assert (∀ x, strip_prefix (text "td-quic://") (text "td://" ++ x) = None) as -> by done.
    assert (∀ x, strip_prefix (text "td-noise://") (text "td://" ++ x) = None) as -> by done.
    by rewrite strip_prefix_app.
Qed.

(** The text ends in a colon and a port. *)
Definition ends_in_port (adv : list byte) (host : list byte) (port : N) : Prop :=
  ∃ p, rsplit_once x3a adv = Some (host, p) ∧ parse_uint (2 ^ 16) p = Some port.

Lemma ends_in_dec h port : (port < 2 ^ 16)%N → ends_in_port (h ++ x3a :: dec port) h port.
Proof.
  intros Hp. exists (dec port). split; [apply rsplit_once_app, dec_no_colon|].
  apply parse_dec; [done|]. unfold U64. lia.
Qed.

Lemma advertise_addr_port local host : (sa_port local < 2 ^ 16)%N →
  ∃ h port, ends_in_port (advertise_addr local host) h port.
Proof.
  intros Hp. unfold advertise_addr, complete_host. destruct (h ← host; _) as [h|].
  - destruct (contains_byte x3a h && _) eqn:Hb; cbn [andb]; [|eauto using ends_in_dec].
    destruct (rsplit_once x3a h) as [[l p]|] eqn:Hr; cbn [andb]; [|eauto using ends_in_dec].
    destruct (parse_uint (2 ^ 16) p) as [n|] eqn:Hn; cbn [andb]; [|eauto using ends_in_dec].
    destruct (count_byte x3a h =? 1); [|eauto using ends_in_dec]. exists l, n, p. done.
  - unfold socket_to_string. destruct (contains_byte _ _); [rewrite !app_assoc|]; eauto using ends_in_dec.
Qed.

(** A scheme in front does not hide the port. *)
Lemma ends_in_rest a b l port : ends_in_port (a ++ x3a :: x2f :: x2f :: b) l port →
  ∃ h, ends_in_port b h port.
Proof.
  intros (p & Hr & Hn). destruct (rsplit_once x3a b) as [[l' p']|] eqn:Hb.
  - exists l', p'. split; [done|]. apply rsplit_once_Some in Hb as [Hb Hc]. rewrite Hb in Hr.
    rewrite !app_comm_cons, app_assoc, rsplit_once_app in Hr by done. by injection Hr as _ ->.
  - apply rsplit_once_None in Hb. rewrite rsplit_once_app in Hr by set_solver.
    injection Hr as _ <-. done.
Qed.

(** Text that ends in a port parses, with or without a scheme. *)
Lemma parse_ends_in s l port : ends_in_port s l port → ∃ u, PeerUri_parse s = Ok u.
Proof.
  intros Hend. unfold PeerUri_parse.
  set (m := match strip_prefix (text "td-quic://") s with Some _ => _ | None => _ end).
  assert (∃ h, ends_in_port m.1.1 h port) as (h & p & Hr & Hp).
  { unfold m. destruct (strip_prefix (text "td-quic://") s) as [r|] eqn:H1.
    { apply strip_prefix_Some in H1 as ->. by apply (ends_in_rest (text "td-quic")) in Hend. }
    destruct (strip_prefix (text "td-noise://") s) as [r|] eqn:H2.
    { apply strip_prefix_Some in H2 as ->. by apply (ends_in_rest (text "td-noise")) in Hend. }
    destruct (strip_prefix (text "td://") s) as [r|] eqn:H3; [|by exists l].
    apply strip_prefix_Some in H3 as ->. by apply (ends_in_rest (text "td")) in Hend. }
  clearbody m. destruct m as [[rest noise] quic]; cbn [fst] in Hr. rewrite Hr; cbn [ok_or mbind result_bind].
  rewrite Hp. cbn. eauto.
Qed.

(** The URI that a node with QUIC advertises is filed as an HTTP address when it
    is given as a URI, and behind a second scheme when it is given as a P2P one. *)
Lemma quic_peer_misfiled ep : let uri := text "td-quic://10.0.0.7:7400" in
  is_ok (PeerUri_parse uri) = true ∧
  pe_rpc (classify_uri ep uri) = Some (text "http://td-quic://10.0.0.7:7400") ∧
  pe_p2p (set_p2p ep uri) = Some (text "td://td-quic://10.0.0.7:7400").
Proof. split_and!; vm_compute; reflexivity. Qed.

Lemma starts_with_weaken s p q : starts_with s (p ++ q) = true → starts_with s p = true.
Proof.
  unfold starts_with. destruct (strip_prefix (p ++ q) s) eqn:H; [|done].
  apply strip_prefix_Some in H as ->. by rewrite <-app_assoc, strip_prefix_app.
Qed.

(** The advertised address works: whatever host is configured, with or without
    a port or a scheme, what a node advertises parses as a peer URI; without a
    scheme in the host it names the transport the node listens with, and without a
    configured host also the address and the port of the socket. *)
Lemma advertised_uri_parses (local : SocketAddr) (host : option (list byte)) (noise quic : bool) :
  (sa_port local < 2 ^ 16)%N →
  ∃ u, PeerUri_parse (advertise_p2p_uri local host noise quic) = Ok u ∧
    (starts_with (advertise_addr local host) (text "td") = false →
       pu_quic u = quic ∧ pu_noise u = noise && negb quic ∧
       (host = None → x3a ∉ sa_ip local → pu_host u = sa_ip local ∧ pu_port u = sa_port local)).
Proof.
  intros Hp. destruct (advertise_addr_port local host Hp) as (h & port & Hend).
  unfold advertise_p2p_uri. set (adv := advertise_addr local host) in *.
  set (scheme := if quic then _ else _).
  assert ((scheme, noise && negb quic, quic) ∈ [(text "td-quic", false, true);
    (text "td-noise", true, false); (text "td", false, false)]) as Hs
    by (unfold scheme; destruct quic, noise; set_solver).
  destruct (_ || _ || _) eqn:Hb.
  - destruct (parse_ends_in _ _ _ Hend) as [u Hu]. exists u. split; [done|].
    rewrite !orb_true_iff in Hb. destruct Hb as [[Hb|Hb]|Hb];
      [pose proof (starts_with_weaken adv (text "td") (text "://") Hb) as ->
      |pose proof (starts_with_weaken adv (text "td") (text "-noise://") Hb) as ->
      |pose proof (starts_with_weaken adv (text "td") (text "-quic://") Hb) as ->]; done.
  - destruct Hend as (p & Hr & Hn). rewrite (parse_scheme _ _ _ _ Hs), Hr.
    cbn [ok_or mbind result_bind]. rewrite Hn. cbn. eexists. split; [done|]. intros _.
    split_and!; [done|done|]. intros -> Hc. unfold adv, advertise_addr, socket_to_string in Hr.
    cbn [mbind option_bind] in Hr. unfold contains_byte in Hr. rewrite bool_decide_eq_false_2 in Hr by done.
    rewrite rsplit_once_app in Hr by apply dec_no_colon. injection Hr as <- <-.
    rewrite parse_dec in Hn; [by simplify_eq|done|unfold U64; lia].
Qed.

End peers.
