(* ===== verification/Messages.v ===== *)
(** * Rooms and messages over RPC ([crates/td-node/src/rpc.rs])

    The handlers that create rooms, send and list messages, exchange events with
    peers and share room sessions.  Each holds the node's lock from its first to
    its last step unless it says otherwise; the answers of other nodes over HTTP
    are arguments.  An [Err] is the status and the error of the response.  The
    best-effort pushes of [send_message] are in [Serve.v] ([p2p_push]), its wake-ups of
    waiting readers in [Notify.v] ([notify_room_from_id]). *)

From S2P Require Import Prelude Text Crypto Event Dag Store Room Sync Net Link Passkey E2ee Seal.
From S2P Require Import Persist Rate Access Session Peers.

(** ** Requests and responses *)

Record CreateRoomResponse : Type := mkCreateRoomResponse {
  crr_room_id : list byte; crr_event_id : list byte }.

Record MessageView : Type := mkMessageView {
  mv_event_id : list byte; mv_author : list byte; mv_ts_ms : N; mv_text : list byte }.

Record OlmKeysHttp : Type := mkOlmKeysHttp {
  kh_device_id : list byte; kh_curve25519_b64 : list byte; kh_one_time_key_b64 : list byte }.

Record AddPeerRequest : Type := mkAddPeerRequest {
  ap_name : list byte; ap_uri : option (list byte); ap_rpc : option (list byte);
  ap_p2p : option (list byte); ap_device_id : option (list byte) }.

Record LinkSecondaryResponse : Type := mkLinkSecondaryResponse {
  ls_primary_device : list byte; ls_secondary_device : list byte; ls_linked : bool }.

Section messages.
Context {NE : NodeEnv}.
#[local] Existing Instance persist_iter.
#[local] Existing Instance link_event.

Definition Response (A : Type) : Type := result (N * Fault) A.

Definition with_status {A} (st : N) (r : result Fault A) : Response A := map_err (λ e, (st, e)) r.

(** ** The text of a message *)

(** [serde_json::json!({ "text": req.text })] *)
Definition text_json (t : list byte) : list byte := json_object [(text "text", JStr t)].

Definition megolm_json (ct : MegolmCiphertext) : list byte :=
  json_object [(text "v", JNum 1); (text "enc", JStr (text "megolm"));
    (text "session_id", JStr (mc_session_id ct));
    (text "ciphertext_b64", JStr (mc_ciphertext_b64 ct));
    (text "sender_device", JStr (hex32 (mc_sender_device ct)))].

(** The text of a plaintext: its [text] field, or the whole as UTF-8. *)
Definition plain_text (plain : list byte) : list byte :=
  match (v ← value_from_slice plain; value_get_str v (text "text")) with
  | Some t => t
  | None => from_utf8_lossy plain
  end.

Definition decrypt_message_text (e2ee : E2eeDevice) (ev : SignedEvent) : list byte * E2eeDevice :=
  match value_from_slice (se_payload ev) with
  | None => (from_utf8_lossy (se_payload ev), e2ee)
  | Some v =>
    if decide (value_get_str v (text "enc") = Some (text "megolm")) then
      let ct := {|
        mc_sender_device := se_author_device ev;
        mc_session_id := default [] (value_get_str v (text "session_id"));
        mc_ciphertext_b64 := default [] (value_get_str v (text "ciphertext_b64")) |} in
      match megolm_decrypt e2ee ct with
      | (Ok plain, e2ee) => (plain_text plain, e2ee)
      | (Err _, e2ee) => (text "[e2ee:decrypt-failed]", e2ee)
      end
    else
      (match value_get_str v (text "text") with
       | Some t => t
       | None => from_utf8_lossy (se_payload ev)
       end, e2ee)
  end.

Definition hex_id (b : bytes32) : list byte := hex_encode (array_bytes b).

(** [.into_iter().map(..).collect()] over the messages of the room *)
Fixpoint view_messages (e2ee : E2eeDevice) (l : list SignedEvent) : list MessageView * E2eeDevice :=
  match l with
  | [] => ([], e2ee)
  | ev :: l =>
    let '(t, e2ee) := decrypt_message_text e2ee ev in
    let view := {| mv_event_id := hex_id (EventId_0 (se_id ev));
                   mv_author := hex32 (se_author_device ev);
                   mv_ts_ms := se_ts_ms ev;
                   mv_text := t |} in
    let '(views, e2ee) := view_messages e2ee l in
    (view :: views, e2ee)
  end.

Definition snapshot_messages (g : NodeSession) (room_id : RoomId) :
    nat * list MessageView * NodeSession :=
  let '(msgs, e2ee) := view_messages (ns_e2ee g) (list_messages (ns_node g) room_id) in
  (length msgs, msgs, with_e2ee g e2ee).

Definition rpc_list_messages (g : NodeSession) (room : list byte) :
    Response (list MessageView) * NodeSession :=
  match parse_room_id room with
  | Err e => (Err (400%N, e), g)
  | Ok room_id =>
    let '(messages, e2ee) := view_messages (ns_e2ee g) (list_messages (ns_node g) room_id) in
    (Ok messages, with_e2ee g e2ee)
  end.

(** ** Creating and sending *)

Definition rpc_create_room (s : state) (name : list byte) (o : Oracle) :
    Response CreateRoomResponse * state :=
  let '(ts, (g, d)) := next_ts s o in
  let creator := kp_device_id (ns_keypair g) in
  let sk := kp_signing (ns_keypair g) in
  match create_room (ns_rooms g) sk creator name ts with
  | (Err e, rooms) => (Err (400%N, FRoom e), (with_rooms g rooms, d))
  | (Ok (room_id, signed), rooms) =>
    let g := with_rooms g rooms in
    match commit_local (ns_node g) signed with
    | (Err e, node) => (Err (500%N, FSync e), (with_node g node, d))
    | (Ok _, node) =>
      (Ok {| crr_room_id := hex_id (RoomId_0 room_id);
             crr_event_id := hex_id (EventId_0 (se_id signed)) |}, (with_node g node, d))
    end
  end.

(** What [send_message] holds when it releases the lock. *)
Record Sent : Type := mkSent {
  st_event : SignedEvent;
  st_room_outbound : option RoomOutboundPackage;
  st_peers : list PeerEndpoint;
  st_full_dag : list SignedEvent;
}.

Definition message_unsigned (g : NodeSession) (room_id : RoomId) (parents : list EventId)
    (ct : MegolmCiphertext) (ts : N) : UnsignedEvent :=
  {| ue_room_id := room_id;
     ue_parents := parents;
     ue_kind := Message;
     ue_payload := megolm_json ct;
     ue_author_device := kp_device_id (ns_keypair g);
     ue_ts_ms := ts |}.

(** The registry refuses, and no event of the room is in the log. *)
Definition message_denied (g : NodeSession) (room_id : RoomId) : option RoomError :=
  match assert_can_message (ns_rooms g) room_id (kp_device_id (ns_keypair g)) with
  | Err e => if decide (room_event_ids (ns_node g) room_id = ∅) then Some e else None
  | Ok _ => None
  end.

(** [send_message] up to [drop(g)]; [seed] is the draw of a new room session. *)
Definition send_local (s : state) (room txt : list byte) (seed : Seed) (o : Oracle) :
    Response Sent * state :=
  match parse_room_id room with
  | Err e => (Err (400%N, e), s)
  | Ok room_id =>
    match message_denied s.1 room_id with
    | Some e => (Err (400%N, FRoom e), s)
    | None =>
      let parents := DeviceNode_tips (ns_node s.1) room_id in
      let '(ts, s) := next_ts s o in
      let room_hex := hex_id (RoomId_0 room_id) in
      let '(g, d) := ensure_room_e2ee s room_hex seed o in
      let room_outbound := match export_room_outbound (ns_e2ee g) room_hex with
                           | Ok pkg => Some pkg | Err _ => None end in
      match megolm_encrypt (ns_e2ee g) room_hex (text_json txt) with
      | (Err e, e2ee) => (Err (500%N, FE2ee e), (with_e2ee g e2ee, d))
      | (Ok ct, e2ee) =>
        let g := with_e2ee g e2ee in
        let '(_, d) := persist_e2ee g o d in
        match sign_event (kp_signing (ns_keypair g)) (message_unsigned g room_id parents ct ts) with
        | Err e => (Err (500%N, FSync (SyncEvent e)), (g, d))
        | Ok signed =>
          let g := with_rooms g (apply_event (ns_rooms g) signed).2 in
          match commit_local (ns_node g) signed with
          | (Err e, node) => (Err (500%N, FSync e), (with_node g node, d))
          | (Ok _, node) =>
            let g := with_node g node in
            (Ok {| st_event := signed;
                   st_room_outbound := room_outbound;
                   st_peers := map_values (ns_peers g);
                   st_full_dag := list_events (ns_node g) room_id |}, (g, d))
          end
        end
      end
    end
  end.

(** ** Room sessions *)

Definition export_session (s : state) (room_hex : list byte) (seed : Seed) (o : Oracle) :
    Response (list byte * list byte) * state :=
  let '(g, d) := ensure_room_e2ee s room_hex seed o in
  (with_status 400 (
     let? session_key_b64 := map_err FE2ee (export_group_session_key (ns_e2ee g) room_hex) in
     Ok (default [] (group_session_id (ns_e2ee g) room_hex), session_key_b64)), (g, d)).

Definition olm_keys_get (g : NodeSession) (seed : Seed) : Response OlmKeysHttp * NodeSession :=
  let '(r, e2ee) := publish_keys (ns_e2ee g) seed in
  (with_status 500 (
     let? k := map_err FE2ee r in
     Ok (mkOlmKeysHttp (hex32 (ok_device_id k)) (ok_curve25519_b64 k) (ok_one_time_key_b64 k))),
   with_e2ee g e2ee).

Definition import_session (g : NodeSession) (session_key_b64 : option (list byte)) :
    Response (list byte) * NodeSession :=
  match session_key_b64 with
  | None => (Err (400%N, FText (text "session_key_b64 required for plaintext import; use /v1/e2ee/import-olm")), g)
  | Some key =>
    let '(r, e2ee) := import_group_session_key (ns_e2ee g) key in
    (with_status 400 (map_err FE2ee r), with_e2ee g e2ee)
  end.

Inductive ImportPath : Type := OlmRoomOutbound | OlmKey.

Definition import_session_olm (g : NodeSession) (sender_curve25519_b64 : list byte)
    (olm : OlmCiphertext) : Response (list byte * ImportPath) * NodeSession :=
  match olm_decrypt (ns_e2ee g) sender_curve25519_b64 olm with
  | (Err e, e2ee) => (Err (400%N, FE2ee e), with_e2ee g e2ee)
  | (Ok plain, e2ee) =>
    let g := with_e2ee g e2ee in
    match from_slice (A:=RoomOutboundPackage) plain with
    | Some pkg =>
      match import_room_outbound (ns_e2ee g) pkg with
      | (Ok session_id, e2ee) =>
        let g := with_e2ee g e2ee in
        (Ok (session_id, OlmRoomOutbound),
         with_e2ee_rooms g (<[ro_room_id pkg := true]> (ns_e2ee_rooms g)))
      | (Err e, e2ee) => (Err (400%N, FE2ee e), with_e2ee g e2ee)
      end
    | None =>
      if negb (is_utf8 plain) then (Err (400%N, FText (text "olm plaintext utf8")), g) else
      let '(r, e2ee) := import_group_session_key (ns_e2ee g) plain in
      (with_status 400 ((λ sid, (sid, OlmKey)) <$> map_err FE2ee r), with_e2ee g e2ee)
    end
  end.

(** ** Exchange with peers *)

(** The ids of an offer that are 32 bytes of hex. *)
Definition parse_have (have : list (list byte)) : gset EventId :=
  list_to_set (omap (λ h, match hex_decode h with
                          | Ok b => mkEventId <$> try_into_array 32 b
                          | Err _ => None
                          end) have).

Definition sync_offer (g : NodeSession) (room : list byte) (have : list (list byte)) :
    Response (list SignedEvent) :=
  match parse_room_id room with
  | Err e => Err (400%N, e)
  | Ok room_id =>
    let offer := {| so_from_device := device_id (ns_node g);
                    so_room_id := room_id;
                    so_tips := DeviceNode_tips (ns_node g) room_id;
                    so_have := set_iter (parse_have have) |} in
    let resp := respond_to_offer (ns_node g) offer in
    Ok (sr_missing resp)
  end.

(** How many were new, and the errors in order. *)
Fixpoint sync_ingest (g : NodeSession) (l : list SignedEvent) : N * list Fault * NodeSession :=
  match l with
  | [] => (0%N, [], g)
  | ev :: l =>
    match ingest_remote g ev with
    | (Ok inserted, g) =>
      let '(n, errors, g) := sync_ingest g l in ((if inserted then n + 1 else n)%N, errors, g)
    | (Err e, g) => let '(n, errors, g) := sync_ingest g l in (n, e :: errors, g)
    end
  end.

(** [pull] is the peer's answer to the offer, or the status and the error of the
    response (500 without an HTTP client, 502 for the peer); [push] is what it
    accepts of the events sent.  The lock is released in between, the events sent
    are those of the start. *)
Definition sync_peer (g : NodeSession) (room : list byte)
    (pull : list (list byte) → result (N * list byte) (list SignedEvent)) (push : list SignedEvent → N) :
    Response (N * N) * NodeSession :=
  match parse_room_id room with
  | Err e => (Err (400%N, e), g)
  | Ok room_id =>
    let our_have := (λ id, hex_id (EventId_0 id)) <$> set_iter (room_event_ids (ns_node g) room_id) in
    let our_events := list_events (ns_node g) room_id in
    match pull our_have with
    | Err (st, e) => (Err (st, FText e), g)
    | Ok missing =>
      let '(accepted_from_peer, _, g) := sync_ingest g missing in
      (Ok (accepted_from_peer, push our_events), g)
    end
  end.

(** The answers of a peer: its keys, what it says to a room session and to events. *)
Record PeerHttp : Type := mkPeerHttp {
  ph_olm_keys : result (list byte) OlmKeysHttp;
  ph_import_olm : list byte → OlmCiphertext → result (list byte) unit;
  ph_ingest : list SignedEvent → result (list byte) N;
}.

(** The section of [share_megolm_olm_to_peer] under the lock. *)
Definition wrap_room_session (s : state) (room_hex : list byte) (their : OlmDeviceKeys)
    (pre_exported : option RoomOutboundPackage) (seed seed' seed'' : Seed) (o : Oracle) :
    result Fault (OlmCiphertext * list byte * list byte * list byte) * state :=
  let '(g, d) := ensure_room_e2ee s room_hex seed o in
  let g := remember_peer_olm g their in
  match establish_olm_outbound (ns_e2ee g) their seed' with
  | (Err e, e2ee) => (Err (FE2ee e), (with_e2ee g e2ee, d))
  | (Ok _, e2ee) =>
    let g := with_e2ee g e2ee in
    match match pre_exported with
          | Some pkg => Ok pkg
          | None => export_room_outbound (ns_e2ee g) room_hex
          end with
    | Err e => (Err (FE2ee e), (g, d))
    | Ok pkg =>
      match olm_encrypt (ns_e2ee g) (ok_device_id their) (to_vec pkg) seed'' with
      | (Err e, e2ee) => (Err (FE2ee e), (with_e2ee g e2ee, d))
      | (Ok ct, e2ee) =>
        let g := with_e2ee g e2ee in
        (Ok (ct, curve25519_b64 (ns_e2ee g), default [] (group_session_id (ns_e2ee g) room_hex),
             hex32 (kp_device_id (ns_keypair g))), (g, d))
      end
    end
  end.

Definition share_megolm_olm_to_peer (s : state) (room_hex : list byte) (http : PeerHttp)
    (pre_exported : option RoomOutboundPackage) (seed seed' seed'' : Seed) (o : Oracle) :
    result Fault (list byte * list byte) * state :=
  match (let? k := map_err FText (ph_olm_keys http) in
         let? peer_dev := parse_crypto_device_id (kh_device_id k) in
         Ok (mkOlmDeviceKeys peer_dev (kh_curve25519_b64 k) (kh_one_time_key_b64 k))) with
  | Err e => (Err e, s)
  | Ok their =>
    match wrap_room_session s room_hex their pre_exported seed seed' seed'' o with
    | (Err e, s) => (Err e, s)
    | (Ok (olm_ct, sender_curve, session_id, sender_dev), s) =>
      (let? _ := map_err FText (ph_import_olm http sender_curve olm_ct) in
       Ok (session_id, sender_dev), s)
    end
  end.

(** The HTTP loop of [send_message]; an error is paired with the peer's name.  A
    peer that accepts nothing is also sent the whole log, and its answer dropped. *)
Fixpoint fan_out (s : state) (room_hex : list byte) (sent : Sent) (peers : list PeerEndpoint)
    (http : list byte → PeerHttp) (seeds : nat → Seed) (o : Oracle) :
    nat * list (list byte * Fault) * state :=
  match peers with
  | [] => (0, [], s)
  | ep :: peers =>
    match pe_rpc ep with
    | None => fan_out s room_hex sent peers http seeds o
    | Some rpc =>
      let peer := http (trim_end_matches (text "/") rpc) in
      match share_megolm_olm_to_peer s room_hex peer (st_room_outbound sent)
              (seeds 0) (seeds 1) (seeds 2) o with
      | (Err e, s) =>
        let '(n, errors, s) := fan_out s room_hex sent peers http (λ k, seeds (3 + k)) o in
        (n, (pe_name ep, e) :: errors, s)
      | (Ok _, s) =>
        match ph_ingest peer [st_event sent] with
        | Err e =>
          let '(n, errors, s) := fan_out s room_hex sent peers http (λ k, seeds (3 + k)) o in
          (n, (pe_name ep, FText e) :: errors, s)
        | Ok accepted =>
          let '(n, errors, s) := fan_out s room_hex sent peers http (λ k, seeds (3 + k)) o in
          (S n, errors, s)
        end
      end
    end
  end.

Record SendResponse : Type := mkSendResponse {
  sd_event_id : list byte; sd_ts_ms : N; sd_fanout_ok : nat; sd_fanout_peers : nat;
  sd_fanout_errors : list (list byte * Fault) }.

Definition has_rpc (ep : PeerEndpoint) : bool :=
  match pe_rpc ep with Some _ => true | None => false end.

(** [between] is what other requests do to the state while the lock is released;
    without [http] the HTTP client could not be built and nothing is fanned out. *)
Definition send_message (s : state) (room txt : list byte) (seed : Seed) (o : Oracle)
    (between : state → state) (http : option (list byte → PeerHttp)) (seeds : nat → Seed) :
    Response SendResponse * state :=
  match send_local s room txt seed o with
  | (Err e, s) => (Err e, s)
  | (Ok sent, s) =>
    let room_hex := hex_id (RoomId_0 (se_room_id (st_event sent))) in
    let '(fanout_ok, fanout_errors, s) :=
      match http with
      | Some http => fan_out (between s) room_hex sent (st_peers sent) http seeds o
      | None => (0, [], between s)
      end in
    (Ok {| sd_event_id := hex_id (EventId_0 (se_id (st_event sent)));
           sd_ts_ms := se_ts_ms (st_event sent);
           sd_fanout_ok := fanout_ok;
           sd_fanout_peers := length (List.filter has_rpc (st_peers sent));
           sd_fanout_errors := fanout_errors |}, s)
  end.

(** ** Requests of the owner *)

Definition require_owner_if_remote (need : bool) (g : NodeSession) (h : Headers) (t t' : N) :
    Response unit * NodeSession :=
  if need then
    let '(r, a) := require_owner (ns_access g) h t t' in
    (map_err (λ e : Reply Empty_set, match e with
                   | Json x => match x with end
                   | Refuse st e _ => (st, FText e)
                   end) r, with_access g a)
  else (Ok tt, g).

Definition add_peer (need : bool) (g : NodeSession) (h : Headers) (req : AddPeerRequest) (t t' : N) :
    Response (option PeerEndpoint) * NodeSession :=
  match require_owner_if_remote need g h t t' with
  | (Err e, g) => (Err e, g)
  | (Ok _, g) =>
    let g := upsert_peer g (ap_name req) (default [] (ap_uri req)) (ap_rpc req) (ap_p2p req) in
    let g := match (d ← ap_device_id req; non_empty (trim d)) with
             | Some did => stamp_device g (ap_name req) did
             | None => g
             end in
    (Ok (ns_peers g !! ap_name req), g)
  end.

(** [secondary] is the key pair [DeviceKeypair::generate] draws. *)
Definition link_secondary (need : bool) (g : NodeSession) (h : Headers) (secondary : DeviceKeypair)
    (t t' : N) : Response LinkSecondaryResponse * NodeSession :=
  match require_owner_if_remote need g h t t' with
  | (Err e, g) => (Err e, g)
  | (Ok _, g) =>
    let link := ac_link (ns_access g) in
    match (let? request := create_link_request link secondary in
           approve_link link (ns_keypair g) request) with
    | Err e => (Err (400%N, FLink e), g)
    | Ok approval =>
      let '(r, link) := apply_approval link approval in
      let g := with_access g (set_link (ns_access g) link) in
      (match r with
       | Err e => Err (400%N, FLink e)
       | Ok _ => Ok {| ls_primary_device := hex32 (kp_device_id (ns_keypair g));
                       ls_secondary_device := hex32 (kp_device_id secondary);
                       ls_linked := is_linked link (kp_device_id secondary) |}
       end, g)
    end
  end.

Record TrustOlmKeysRequest : Type := mkTrustOlmKeysRequest {
  tk_device_id : list byte; tk_curve25519_b64 : list byte; tk_one_time_key_b64 : list byte;
  tk_peer_name : option (list byte) }.

Definition trust_olm_keys (need : bool) (g : NodeSession) (h : Headers) (req : TrustOlmKeysRequest)
    (seed : Seed) (t t' : N) : Response (list byte) * NodeSession :=
  match require_owner_if_remote need g h t t' with
  | (Err e, g) => (Err e, g)
  | (Ok _, g) =>
    match parse_crypto_device_id (tk_device_id req) with
    | Err e => (Err (400%N, e), g)
    | Ok peer_dev =>
      let keys := mkOlmDeviceKeys peer_dev (tk_curve25519_b64 req) (tk_one_time_key_b64 req) in
      match establish_olm_outbound (ns_e2ee g) keys seed with
      | (Err e, e2ee) => (Err (400%N, FE2ee e), with_e2ee g e2ee)
      | (Ok _, e2ee) =>
        let g := remember_peer_olm (with_e2ee g e2ee) keys in
        let g := match tk_peer_name req with
                 | Some name => stamp_device g name (hex32 peer_dev)
                 | None => g
                 end in
        (Ok (hex32 peer_dev), g)
      end
    end
  end.

(** ** Lemmas: the text of a message *)

Section readable.
Context {JL : JsonValueLaws}.

Lemma plain_text_json t : plain_text (text_json t) = t.
Proof.
  unfold plain_text, text_json.
  destruct (json_object_fields [(text "text", JStr t)]) as (v & -> & Hf); [apply NoDup_singleton|].
  cbn [mbind option_bind]. by rewrite Hf.
Qed.

(** A message of the program's own form is decrypted with the session it names. *)
Lemma decrypt_megolm_json e2ee ev ct : se_payload ev = megolm_json ct →
  (decrypt_message_text e2ee ev).1 =
    match (megolm_decrypt e2ee ct).1 with
    | Ok plain => plain_text plain
    | Err _ => text "[e2ee:decrypt-failed]"
    end.
Proof.
  intros Hp. unfold decrypt_message_text. rewrite Hp. unfold megolm_json.
  match goal with |- context [json_object ?l] => destruct (json_object_fields l) as (v & -> & Hf) end.
  { apply (bool_decide_unpack _). vm_compute. exact I. }
  rewrite decide_True by (rewrite Hf; reflexivity).
  rewrite !Hf. destruct ct as [sender sid ctx].
  change (field (text "session_id") _) with (Some sid).
  change (field (text "ciphertext_b64") _) with (Some ctx). cbn [from_option id].
  unfold megolm_decrypt; cbn [mc_session_id mc_ciphertext_b64].
  destruct (inbound_megolm e2ee !! sid) as [i|]; [|done].
  destruct (map_err E2eeCodec _) as [msg|]; [|done].
  by destruct (inbound_decrypt i msg) as [[p|e] i'].
Qed.

End readable.

(** ** Lemmas: sending *)

Lemma next_ts_fields s o : let '(ts, s') := next_ts s o in
  ts = wrap 64 (ns_ts_counter s.1 + 1) ∧ s'.1 = with_ts s.1 ts.
Proof.
  destruct s as [g d]. unfold next_ts. cbn [fst]. by destruct (persist_meta _ o d).
Qed.

(** [ensure_room_e2ee] leaves an outbound session and touches the ratchets only. *)
Lemma ensure_room_fields s room seed o : let s' := ensure_room_e2ee s room seed o in
  s'.1 = with_e2ee_rooms (with_e2ee s.1 (ns_e2ee s'.1)) (<[room := true]> (ns_e2ee_rooms s.1)) ∧
  ns_e2ee s'.1 = (if has_outbound (ns_e2ee s.1) room then ns_e2ee s.1
                  else (create_group_session (ns_e2ee s.1) room seed).2) ∧
  has_outbound (ns_e2ee s'.1) room = true.
Proof.
  destruct s as [g d]. unfold ensure_room_e2ee. cbn [fst]. cbv zeta.
  destruct (has_outbound (ns_e2ee g) room) eqn:Ho; cbn [fst]; [by destruct g|].
  unfold create_group_session, group_session_id.
  destruct (outbound_megolm (ns_e2ee g) !! room) eqn:Hl; [by unfold has_outbound in Ho; rewrite Hl in Ho|].
  cbn [fmap option_fmap option_map]. cbn [outbound_megolm set_outbound]. rewrite lookup_insert_eq.
  destruct (persist_e2ee _ o d). cbn [fst]. split_and!; [done|done|].
  unfold has_outbound; cbn. by rewrite lookup_insert_eq.
Qed.

(** An accepted message: the session it is encrypted with and the event it becomes. *)
Lemma send_local_Ok s room txt seed o sent s' : send_local s room txt seed o = (Ok sent, s') →
  ∃ room_id gs ct b,
    let hex := hex_id (RoomId_0 room_id) in
    let e1 := ns_e2ee (ensure_room_e2ee (next_ts s o).2 hex seed o).1 in
    parse_room_id room = Ok room_id ∧ message_denied s.1 room_id = None ∧
    outbound_megolm e1 !! hex = Some gs ∧
    (megolm_encrypt e1 hex (text_json txt)).1 = Ok ct ∧
    (∃ pkg, export_room_outbound e1 hex = Ok pkg ∧ st_room_outbound sent = Some pkg) ∧
    sign_event (kp_signing (ns_keypair s.1)) (message_unsigned s.1 room_id
      (DeviceNode_tips (ns_node s.1) room_id) ct (wrap 64 (ns_ts_counter s.1 + 1))) =
      Ok (st_event sent) ∧
    commit_local (ns_node s.1) (st_event sent) = (Ok b, ns_node s'.1) ∧
    ns_e2ee s'.1 = (megolm_encrypt e1 hex (text_json txt)).2 ∧
    ns_rooms s'.1 = (apply_event (ns_rooms s.1) (st_event sent)).2 ∧
    ns_ts_counter s'.1 = wrap 64 (ns_ts_counter s.1 + 1).
Proof.
  intros H. unfold send_local in H.
  destruct (parse_room_id room) as [room_id|e] eqn:Hp; [|done].
  destruct (message_denied s.1 room_id) eqn:Hd; [done|].
  pose proof (next_ts_fields s o) as Hts. destruct (next_ts s o) as [ts s1] eqn:Hn.
  destruct Hts as [Hts Hs1].
  pose proof (ensure_room_fields s1 (hex_id (RoomId_0 room_id)) seed o) as (Hg & _ & Ho); cbv zeta in Hg.
  destruct (ensure_room_e2ee s1 _ seed o) as [g d] eqn:He. cbn [fst] in Hg, Ho.
  unfold has_outbound in Ho.
  destruct (outbound_megolm (ns_e2ee g) !! hex_id (RoomId_0 room_id)) as [gs|] eqn:Hgs; [|done].
  destruct (megolm_encrypt (ns_e2ee g) _ (text_json txt)) as [[ct|e] e2ee] eqn:Hm; [|done].
  cbv zeta in H. destruct (persist_e2ee _ o d) as [r1 d2]. cbn [ns_keypair with_e2ee] in H.
  rewrite Hg, Hs1 in H. cbn [ns_keypair ns_rooms ns_node ns_e2ee with_e2ee with_e2ee_rooms with_ts with_rooms with_node ns_peers] in H.
  destruct (sign_event _ _) as [signed|e] eqn:Hsig; [|done].
  destruct (commit_local _ signed) as [[b|e] node] eqn:Hc; [|done].
  injection H as <- <-. exists room_id, gs, ct, b. rewrite ?Hn. cbn [snd]. rewrite ?He. cbn [fst st_room_outbound st_event].
  split_and!; try done.
  - by rewrite Hm.
  - unfold export_room_outbound at 1 2. rewrite Hgs. cbn. eauto.
  - by rewrite <-Hts.
  - by rewrite Hm.
Qed.

(** ** Lemmas: room packages *)

Section ratchets.
Context {VL : VodozemacLaws}.

Lemma megolm_encrypt_exported d room pkg p ct : export_room_outbound d room = Ok pkg →
  (ro_message_index pkg + 1 < 2 ^ 32)%N → (megolm_encrypt d room p).1 = Ok ct →
  ∃ g, ro_session_key_b64 pkg = session_key_to_base64 (group_key g) ∧
    ro_session_id pkg = group_id g ∧
    sealed_from (group_ratchet g) (group_id g) (group_index g) p ct.
Proof.
  unfold export_room_outbound, megolm_encrypt. destruct (outbound_megolm d !! room) as [g|]; [|done].
  cbn. intros [= <-] Hn Hct. exists g. cbn in *. split_and!; [done|done|].
  pose proof (group_encrypt_spec g p) as (_ & Hid & _).
  destruct (group_encrypt g p) as [msg g'] eqn:He. cbn in *. injection Hct as <-.
  exists g. cbn. rewrite He. by split_and!.
Qed.

(** A device that accepts a package reads the session from its index on. *)
Lemma import_room_reads b pkg g sid b' :
  ro_session_key_b64 pkg = session_key_to_base64 (group_key g) →
  inbound_megolm b !! group_id g = None → import_room_outbound b pkg = (Ok sid, b') →
  reads b' (group_id g) (group_ratchet g) (group_index g).
Proof.
  intros Hk Hb Hi. pose proof (import_room_cases b pkg) as Hc. rewrite Hi in Hc. cbv zeta in Hc.
  destruct (inbound_new_spec g) as (Hr & Hf & Hid).
  assert (reads (import_group_session_key b (ro_session_key_b64 pkg)).2
    (group_id g) (group_ratchet g) (group_index g)) as Hd.
  { unfold import_group_session_key. rewrite Hk, session_key_text; cbn. rewrite Hid, Hb. cbn.
    exists (inbound_new (group_key g)). cbn. by rewrite lookup_insert_eq. }
  destruct Hc as (ses & g' & [(_ & _ & _ & -> & _)|(_ & _ & _ & _ & -> & _)]); exact Hd.
Qed.

End ratchets.

(** ** Lemmas: exchange *)

Context {NL : NodeEnvLaws}.
#[local] Existing Instance persist_voz_laws.
#[local] Existing Instance persist_hex_laws.

Lemma parse_have_ids {HL : HexLaws} (l : list EventId) :
  parse_have ((λ id, hex_id (EventId_0 id)) <$> l) = list_to_set l.
Proof.
  unfold parse_have. f_equal. etrans; [apply (list_omap_ext _ Some _ l)|].
  - induction l as [|[id] l IH]; constructor; [|exact IH]. cbn. unfold hex_id.
    by rewrite hex_decode_encode, try_into_array_bytes.
  - induction l as [|id l IH]; [done|cbn; by f_equal].
Qed.

Lemma ingest_remote_commit g ev b n : commit_remote (ns_node g) ev = (Ok b, n) →
  ∃ g', ingest_remote g ev = (Ok b, g') ∧ ns_node g' = n.
Proof. intros H. unfold ingest_remote. rewrite H. eexists. split; [done|]. by destruct (is_room_event _). Qed.

Lemma sync_ingest_commit l : ∀ g k m n, commit_all (ns_node g) l k = (Ok m, n) →
  ∃ c g', sync_ingest g l = (c, [], g') ∧ ns_node g' = n ∧ m = (k + c)%N.
Proof.
  induction l as [|ev l IH]; intros g k m n; cbn.
  - intros [= <- <-]. exists 0%N, g. split_and!; [done|done|lia].
  - destruct (commit_remote (ns_node g) ev) as [[b|e] n1] eqn:Hc; [|done].
    destruct (ingest_remote_commit _ _ _ _ Hc) as (g1 & -> & <-). intros H.
    destruct (IH g1 _ _ _ H) as (c & g' & -> & Hn & Hm). eexists _, g'.
    split; [done|]. split; [done|]. destruct b; lia.
Qed.

(** ** Lemmas: what a request leaves of the log *)

Lemma tips_known (n : DeviceNode) r p : node_wf n → p ∈ DeviceNode_tips n r →
  is_Some (events n !! p).
Proof.
  intros Hw. destruct (dag_entry_wf n r Hw) as [Hd _]. rewrite tips_dag_entry, elem_of_tips by done.
  intros [[e He] _].
  apply (nw_rooms n Hw) in He as [He _]. eauto.
Qed.

Lemma ensure_room_node s room seed o : ns_node (ensure_room_e2ee s room seed o).1 = ns_node s.1.
Proof. destruct (ensure_room_fields s room seed o) as [-> _]. done. Qed.

Lemma wrap_room_node s room their pre s1 s2 s3 o :
  ns_node (wrap_room_session s room their pre s1 s2 s3 o).2.1 = ns_node s.1.
Proof.
  unfold wrap_room_session. pose proof (ensure_room_node s room s1 o) as Hn.
  destruct (ensure_room_e2ee s room s1 o) as [g d]; cbn in Hn.
  destruct (establish_olm_outbound _ their s2) as [[u|e] e2ee]; [|exact Hn].
  destruct (match pre with Some _ => _ | None => _ end) as [pkg|e]; [|exact Hn].
  by destruct (olm_encrypt _ _ _ _) as [[ct|e] e2].
Qed.

Lemma share_node s room http pre s1 s2 s3 o :
  ns_node (share_megolm_olm_to_peer s room http pre s1 s2 s3 o).2.1 = ns_node s.1.
Proof.
  unfold share_megolm_olm_to_peer. destruct (let? k := _ in _) as [their|e]; [|done].
  pose proof (wrap_room_node s room their pre s1 s2 s3 o) as Hn.
  by destruct (wrap_room_session _ _ _ _ _ _ _ _) as [[[[[ct c] sid] dev]|e] s'].
Qed.

(** Every peer with an address is counted once, and the errors come in the order
    of the peers. *)
Lemma fan_out_spec room sent http o peers : ∀ s seeds,
  let '(n, errors, s') := fan_out s room sent peers http seeds o in
  n + length errors = length (List.filter has_rpc peers) ∧
  errors.*1 `sublist_of` (pe_name <$> List.filter has_rpc peers) ∧ ns_node s'.1 = ns_node s.1.
Proof.
  induction peers as [|ep peers IH]; intros s seeds; [done|]. cbn [fan_out List.filter].
  assert (has_rpc ep = match pe_rpc ep with Some _ => true | None => false end) as -> by done.
  destruct (pe_rpc ep) as [rpc|]; [|apply IH].
  pose proof (share_node s room (http (trim_end_matches (text "/") rpc)) (st_room_outbound sent)
    (seeds 0) (seeds 1) (seeds 2) o) as Hn.
  destruct (share_megolm_olm_to_peer _ _ _ _ _ _ _ _) as [[x|e] s1]; cbn [snd] in Hn.
  1: destruct (ph_ingest _ _) as [acc|e].
  all: specialize (IH s1 (λ k, seeds (3 + k))); destruct (fan_out s1 _ _ _ _ _ _) as [[n l] s2];
    destruct IH as (Hc & Hs & Hf); cbn; (split; [lia|split; [|congruence]]).
  all: by constructor.
Qed.

(** ** Theorems *)

(** C3: a message that the node accepts is readable where its room session was
    shared: a device without the session that accepts the package exported by the
    request shows, at whatever later moment, the text that was sent. *)
Theorem shared_message_readable (s s' : state)
    (room txt : list byte) (seed : Seed) (o : Oracle) (sent : Sent) (pkg : RoomOutboundPackage)
    (b b1 b2 : E2eeDevice) (sid : list byte) :
  send_local s room txt seed o = (Ok sent, s') →
  st_room_outbound sent = Some pkg → (ro_message_index pkg + 1 < 2 ^ 32)%N →
  inbound_megolm b !! ro_session_id pkg = None →
  import_room_outbound b pkg = (Ok sid, b1) → rtc e2ee_step b1 b2 →
  (decrypt_message_text b2 (st_event sent)).1 = txt.
Proof.
  intros H Hpkg Hn Hb Hi Hsteps.
  apply send_local_Ok in H as (room_id & gs & ct & ok & _ & _ & _ & Hct & (p & Hex & Hp) & Hs & _).
  rewrite Hpkg in Hp. injection Hp as <-.
  apply sign_event_Ok in Hs as (Hu & _). apply (f_equal ue_payload) in Hu as Hpay. cbn in Hpay.
  rewrite (decrypt_megolm_json _ _ _ Hpay).
  destruct (megolm_encrypt_exported _ _ _ _ _ Hex Hn Hct) as (g & Hk & Hid & Hseal).
  rewrite Hid in Hb. pose proof (import_room_reads _ _ _ _ _ Hk Hb Hi) as Hr.
  apply (keeps_reads _ _ (steps_keep _ _ Hsteps)) in Hr.
  rewrite (megolm_decrypt_sealed _ _ _ _ _ _ Hr Hseal). apply plain_text_json.
Qed.

(** C6: a sync over HTTP converges: a request of [g] against a peer [h] that
    answers with its own handlers, under the conditions of [converge_with], ends
    without error on either side; both then have the same events of the room,
    the union of what they had, the same tips and nothing parked. *)
Theorem sync_peer_converges (g h : NodeSession) (room : list byte) (r : RoomId) :
  parse_room_id room = Ok r →
  node_wf (ns_node g) → node_wf (ns_node h) →
  inbox_blocked (ns_node g) → inbox_blocked (ns_node h) →
  reliable (ns_node g) → reliable (ns_node h) →
  agree (events (ns_node g)) (events (ns_node h)) →
  parked_from (ns_node g) (ns_node h) r → parked_from (ns_node h) (ns_node g) r →
  let pushed := sync_ingest h (list_events (ns_node g) r) in
  let '(res, g') := sync_peer g room
    (λ have, map_err (λ _, (502%N, [])) (sync_offer h room have)) (λ l, (sync_ingest h l).1.1) in
  let h' := pushed.2 in
  (∃ k, res = Ok (k, pushed.1.1)) ∧ pushed.1.2 = [] ∧
  node_wf (ns_node g') ∧ node_wf (ns_node h') ∧
  (∀ id e, room_part (ns_node g') r !! id = Some e ↔
     room_part (ns_node g) r !! id = Some e ∨ room_part (ns_node h) r !! id = Some e) ∧
  room_part (ns_node g') r = room_part (ns_node h') r ∧
  DeviceNode_tips (ns_node g') r ≡ₚ DeviceNode_tips (ns_node h') r ∧
  inbox (ns_node g') = [] ∧ inbox (ns_node h') = [].
Proof.
  intros Hp Hg Hh Hbg Hbh Hrg Hrh Hag Hpg Hph. cbv zeta.
  assert (agree (events (ns_node h)) (events (ns_node g))) as Hag' by (intros id e e' ? ?; symmetry; eauto).
  unfold sync_peer, sync_offer. rewrite Hp. cbn [map_err].
  rewrite parse_have_ids.
  match goal with |- context [sync_ingest g ?l] => set (missing := l) end.
  destruct (commit_pulled (ns_node g) (ns_node h) r missing) as (k & n1 & Hc & Hw & He & Hi & _); try done.
  { intros e. subst missing. cbn [sr_missing respond_to_offer]. rewrite elem_of_missing by done. tauto. }
  { intros e He Hr Hn. subst missing. cbn [sr_missing respond_to_offer]. rewrite elem_of_missing by done.
    split_and!; [done..|]. cbn. rewrite elem_of_list_to_set, elem_of_set_iter, elem_of_list_to_set,
      elem_of_set_iter, elem_of_room_event_ids by done. rewrite Hn. by intros (? & ? & _). }
  destruct (commit_pulled (ns_node h) (ns_node g) r (list_events (ns_node g) r))
    as (k' & n2 & Hc' & Hw' & He' & Hi' & _); try done.
  { intros e. by rewrite elem_of_list_events. }
  { intros e ? ? _. by rewrite elem_of_list_events. }
  destruct (sync_ingest_commit _ _ _ _ _ Hc) as (c & g' & -> & <- & _).
  destruct (sync_ingest_commit _ _ _ _ _ Hc') as (c' & h' & -> & <- & _). cbn [fst snd].
  pose proof (room_part_exchanged _ _ _ _ _ Hag He He') as Heq.
  split_and!; try done; [eauto|by apply room_part_merged|by apply same_room_tips].
Qed.

(** A peer that refuses the event with an HTTP error, or accepts nothing of it, counts
    as reached. *)
Lemma fanout_counts_refusal s room_hex sent ep rpc http seeds o x s1 :
  pe_rpc ep = Some rpc →
  share_megolm_olm_to_peer s room_hex (http (trim_end_matches (text "/") rpc)) (st_room_outbound sent)
    (seeds 0) (seeds 1) (seeds 2) o = (Ok x, s1) →
  ph_ingest (http (trim_end_matches (text "/") rpc)) [st_event sent] = Ok 0%N →
  fan_out s room_hex sent [ep] http seeds o = (1, [], s1).
Proof. intros Hr Hs Hi. cbn [fan_out]. by rewrite Hr, Hs, Hi. Qed.

(** C10: sending a message, on every outcome.  A refused or failed request sends
    nothing.  An accepted one commits a verified message of this device, dated by
    the clock's next value, whose parents are the tips of the room: the log has
    it, and a new one is last in the outbox.  A fan-out accounts for every peer with
    an address exactly once, names the failed ones in order and leaves the
    log to what other requests did meanwhile. *)
Theorem send_message_exact (s : state) (room txt : list byte) (seed : Seed) (o : Oracle)
    (between : state → state) (http : option (list byte → PeerHttp)) (seeds : nat → Seed) :
  node_wf (ns_node s.1) → inbox_blocked (ns_node s.1) →
  let '(r, s') := send_message s room txt seed o between http seeds in
  let '(l, s1) := send_local s room txt seed o in
  match r with
  | Err e => l = Err e ∧ s' = s1
  | Ok resp => ∃ sent room_id, let ev := st_event sent in
      let node := ns_node s.1 in
      l = Ok sent ∧ parse_room_id room = Ok room_id ∧ message_denied s.1 room_id = None ∧
      verified ev ∧ se_room_id ev = room_id ∧ se_kind ev = Message ∧
      se_author_device ev = kp_device_id (ns_keypair s.1) ∧
      se_ts_ms ev = wrap 64 (ns_ts_counter s.1 + 1) ∧
      se_parents ev = DeviceNode_tips node room_id ∧
      events node ⊆ events (ns_node s1.1) ∧ is_Some (events (ns_node s1.1) !! se_id ev) ∧
      (events node !! se_id ev = None → events (ns_node s1.1) !! se_id ev = Some ev ∧
         outbox (ns_node s1.1) = outbox node ++ [ev]) ∧
      sd_event_id resp = hex_id (EventId_0 (se_id ev)) ∧ sd_ts_ms resp = se_ts_ms ev ∧
      (sd_fanout_ok resp + length (sd_fanout_errors resp) =
         if http then sd_fanout_peers resp else 0) ∧
      (sd_fanout_errors resp).*1 `sublist_of` (pe_name <$> List.filter has_rpc (st_peers sent)) ∧
      ns_node s'.1 = ns_node (between s1).1
  end.
Proof.
  intros Hw Hb. unfold send_message.
  destruct (send_local s room txt seed o) as [[sent|e] s1] eqn:Hl; [|done].
  assert (let '(n, errors, s2) := match http with Some http => fan_out (between s1)
        (hex_id (RoomId_0 (se_room_id (st_event sent)))) sent (st_peers sent) http seeds o
      | None => (0, [], between s1) end in
      n + length errors = (if http then length (List.filter has_rpc (st_peers sent)) else 0) ∧
      errors.*1 `sublist_of` (pe_name <$> List.filter has_rpc (st_peers sent)) ∧
      ns_node s2.1 = ns_node (between s1).1) as Hf.
  { destruct http as [http|]; [apply fan_out_spec|]. split_and!; [done|apply sublist_nil_l|done]. }
  destruct (match http with Some _ => _ | None => _ end) as [[n errors] s2].
  destruct Hf as (Hcount & Hsub & Hnode).
  apply send_local_Ok in Hl as (room_id & gs & ct & b & Hp & Hd & _ & _ & _ & Hs & Hc & _).
  pose proof (sign_event_verified _ _ _ Hs) as Hv.
  apply sign_event_Ok in Hs as (Hu & _). unfold commit_local in Hc. rewrite Hv in Hc.
  destruct (ingest_event_ok _ _ _ _ _ Hw Hb Hv Hc) as [_ C2 _ _ _ _ _ C8 _ C10].
  assert (parents_present (ns_node s.1) (st_event sent) = true) as Hpp.
  { apply parents_present_true. intros p. apply (f_equal ue_parents) in Hu; cbn in Hu.
    rewrite Hu. by apply tips_known. }
  exists sent, room_id. cbn. split_and!; try done.
  - by apply (f_equal ue_room_id) in Hu.
  - by apply (f_equal ue_kind) in Hu.
  - by apply (f_equal ue_author_device) in Hu.
  - by apply (f_equal ue_ts_ms) in Hu.
  - by apply (f_equal ue_parents) in Hu.
  - destruct b; [destruct C10 as (_ & _ & ->); by eexists|].
    destruct C10 as [-> [?|?]]; [done|congruence].
  - intros Hn. destruct b; cbn in C8; [by destruct C10 as (_ & _ & ->)|].
    destruct C10 as [_ [[x Hx]|?]]; congruence.
Qed.

End messages.
