(* ===== verification/Script.v ===== *)
(** * The scripted happy path ([crates/td-node/src/rpc.rs], [happy_path_script])

    Linking a second device, creating a room, and sending and listing one message on the
    components themselves, without HTTP: the run behind [tducks happy-path]. *)

From S2P Require Import Prelude Text Crypto Event Dag Store Room Sync Net Link Passkey E2ee Seal.
From S2P Require Import Persist Rate Access Session Peers Messages.

(** What the last line prints. *)
Record HappyPath : Type := mkHappyPath { hp_devices : nat; hp_room : RoomId; hp_msg : EventId }.

(** [br#"{"text":"hello pond"}"#] *)
Definition hello_json : list byte :=
  x7b :: x22 :: text "text" ++ [x22; x3a; x22] ++ text "hello pond" ++ [x22; x7d].

Section node.
Context {SE : StoreEnv} {HI : HashIter}.

(** ** A node without a store *)

(** A node without a store and with an empty inbox takes an event that is new and whose
    parents it has in its room. *)
Lemma commit_ready n ev : durable n = None → inbox n = [] → verified ev →
  events n !! se_id ev = None → (∀ p, p ∈ se_parents ev → is_Some (events n !! p)) →
  room_ok (dag_entry n (se_room_id ev)) ev → dag_events (dag_entry n (se_room_id ev)) = events n →
  ∃ n', commit_local n ev = (Ok true, n') ∧ durable n' = None ∧ inbox n' = [] ∧
    events n' = <[se_id ev := ev]> (events n) ∧
    dags n' = <[RoomId_0 (se_room_id ev) := insert_event (adopt (dag_entry n (se_room_id ev)) ev) ev]> (dags n).
Proof.
  intros Hd Hi Hv Hn Hp Hr He. unfold commit_local. rewrite Hv. by apply ingest_ready.
Qed.

Lemma tips_single n r d ev : dags n !! RoomId_0 r = Some d → dag_wf d →
  dag_events d = {[ se_id ev := ev ]} → se_parents ev = [] → DeviceNode_tips n r = [se_id ev].
Proof.
  intros Hd Hw He Hp. unfold DeviceNode_tips. rewrite Hd. cbn.
  apply singleton_list; [by apply list.NoDup_filter, NoDup_map_keys|].
  intros id. rewrite elem_of_tips, He by done. rewrite lookup_singleton_is_Some.
  split; [by intros [-> _]|]. intros ->. split; [done|].
  intros c e [_ <-]%lookup_singleton_Some. rewrite Hp. apply not_elem_of_nil.
Qed.

End node.

Section script.
Context {NE : NodeEnv}.
#[local] Existing Instance persist_iter.
#[local] Existing Instance link_event.

(** The errors, before they become text. *)
Inductive ScriptError : Type :=
| ScLink (e : LinkError)
| ScRoom (e : RoomError)
| ScSync (e : SyncError)
| ScEvent (e : EventError)
| NotLinked
| WrongCount (n : nat)
| WrongText.

Definition payload_text (ev : SignedEvent) : list byte := plain_text (se_payload ev).

(** The links of the script: a registry of [primary] after it linked [secondary]. *)
Definition link_both (primary secondary : DeviceKeypair) : result ScriptError LinkRegistry :=
  let link := LinkRegistry_new (kp_device_id primary) in
  let '(r, link) := trust_local link primary in
  let? _ := map_err ScLink r in
  let? req := map_err ScLink (create_link_request link secondary) in
  let? approval := map_err ScLink (approve_link link primary req) in
  let '(r, link) := apply_approval link approval in
  let? _ := map_err ScLink r in
  if negb (is_linked link (kp_device_id secondary)) then Err NotLinked else Ok link.

Definition happy_path_script (primary secondary : DeviceKeypair) : result ScriptError HappyPath :=
  let? link := link_both primary secondary in
  let node := from_crypto_device (DeviceId_0 (kp_device_id primary)) in
  let '(r, rooms) := create_room RoomRegistry_new (kp_signing primary) (kp_device_id primary) (text "pond") 1 in
  let? '(room_id, create_ev) := map_err ScRoom r in
  let '(r, node) := commit_local node create_ev in
  let? _ := map_err ScSync r in
  let parents := DeviceNode_tips node room_id in
  let? msg := map_err ScEvent (sign_event (kp_signing primary)
    (mkUnsignedEvent room_id parents Message hello_json (kp_device_id primary) 2)) in
  let '(_, rooms) := apply_event rooms msg in
  let '(r, node) := commit_local node msg in
  let? _ := map_err ScSync r in
  match list_messages node room_id with
  | [m] => if negb (bool_decide (payload_text m = text "hello pond")) then Err WrongText
           else Ok (mkHappyPath (length (linked_devices link)) room_id (se_id msg))
  | listed => Err (WrongCount (length listed))
  end.

(** ** Lemmas *)

Lemma link_both_ok `{!LinkEnvLaws} primary secondary : keypair_wf primary → keypair_wf secondary →
  ∃ link, link_both primary secondary = Ok link ∧
    length (linked_devices link) = if decide (kp_device_id primary = kp_device_id secondary) then 1 else 2.
Proof.
  intros Hp Hs. unfold link_both. cbn [trust_local map_err mbind result_bind].
  set (reg := mkLinkRegistry _).
  assert (is_linked reg (kp_device_id primary) = true) as Hr.
  { apply is_linked_true. unfold reg; cbn. rewrite lookup_insert_eq. eauto. }
  destruct (link_approved reg reg reg secondary primary Hs Hp Hr Hr) as (rq & ap & H1 & H2 & H3).
  rewrite H1. cbn [map_err mbind result_bind]. rewrite H2. cbn [map_err mbind result_bind]. rewrite H3.
  unfold is_linked at 1. cbn [map_err mbind result_bind trusted]. rewrite lookup_insert_eq. cbn [negb].
  eexists. split; [done|]. unfold linked_devices, map_keys. cbn [trusted].
  rewrite length_fmap, map_iter_perm, length_map_to_list. unfold reg, LinkRegistry_new; cbn [trusted public_bundle db_device_id].
  destruct (decide _) as [He|He].
  - by rewrite <-He, insert_insert_eq, insert_empty, map_size_singleton.
  - rewrite map_size_insert_None, insert_empty, map_size_singleton; [done|].
    by rewrite insert_empty, lookup_singleton_ne.
Qed.

(** The messages of a log of one create event and one message. *)
Lemma one_message n c m : events n = <[se_id m := m]> {[ se_id c := c ]} → se_id m ≠ se_id c →
  se_kind c = CreateRoom → se_kind m = Message → list_messages n (se_room_id m) = [m].
Proof.
  intros He Hne Hc Hm. apply Permutation_singleton_r. unfold list_messages. rewrite sort_by_perm, He.
  unfold map_values. rewrite map_iter_perm, map_to_list_insert by by rewrite lookup_singleton_ne.
  rewrite map_to_list_singleton. cbn. rewrite decide_True by done. by rewrite decide_False by (rewrite Hc; by intros [_ ?]).
Qed.

(** ** Theorems *)

(** The script succeeds: whatever keys are drawn, the links, the room, the message and
    the list come out as it expects, and it reports the linked devices, the room and the
    message; it can only fail on the text of the message, if the JSON parser does not read
    the literal it sends, or on a collision of the hash. *)
Lemma happy_path_succeeds `{!NodeEnvLaws} (sk sk' : @SigningKey (@env_crypto link_event)) :
  let primary := DeviceKeypair_generate sk in
  let secondary := DeviceKeypair_generate sk' in
  let devices := if decide (kp_device_id primary = kp_device_id secondary) then 1 else 2 in
  (∃ room msg, happy_path_script primary secondary =
     if decide (plain_text hello_json = text "hello pond")
     then Ok (mkHappyPath devices room msg) else Err WrongText) ∨
  ∃ e e' : SignedEvent, canonical_bytes e ≠ canonical_bytes e' ∧
    @blake3 (@env_crypto link_event) (canonical_bytes e) = @blake3 (@env_crypto link_event) (canonical_bytes e').
Proof.
  cbv zeta. set (p := DeviceKeypair_generate sk). set (s := DeviceKeypair_generate sk').
  destruct (link_both_ok p s) as (link & Hl & Hd); [apply generate_wf..|].
  unfold happy_path_script. rewrite Hl. cbn [mbind result_bind].
  destruct (create_room_new (RE:=node_room) RoomRegistry_new (kp_signing p) (kp_device_id p) (text "pond") 1)
    as (c & room & Hc & Hs & _); [done|apply lookup_empty|].
  set (rid := room_id_from_parts _ _ _) in *. clearbody rid.
  rewrite Hc. cbn [map_err mbind result_bind]. clear Hc.
  pose proof (sign_event_fields _ _ _ Hs) as (Hr & Hps & Hk & _). cbn in Hr, Hps, Hk.
  pose proof (sign_event_verified _ _ _ Hs) as Hv.
  destruct (commit_ready (SE:=node_store) (from_crypto_device (DeviceId_0 (kp_device_id p))) c)
    as (n1 & -> & Hd1 & Hi1 & He1 & Hg1); try done; [by rewrite Hps; intros q []%not_elem_of_nil|by right|].
  cbn [map_err mbind result_bind].
  assert (events n1 = {[se_id c := c]}) as He1' by exact (eq_trans He1 (insert_empty _ _)).
  set (d1 := insert_event (RoomDag_new rid) c).
  assert (dags n1 !! RoomId_0 rid = Some d1) as Hd1'.
  { rewrite Hg1, Hr. apply lookup_insert_eq. }
  assert (dag_wf d1) as Hw1.
  { apply insert_event_wf; [apply dag_wf_empty|done|by cbn; rewrite Hr|apply lookup_empty|by rewrite Hps]. }
  assert (dag_events d1 = {[se_id c := c]}) as Hde by apply insert_empty.
  rewrite (tips_single (SE:=node_store) n1 rid d1 c) by done.
  assert (∃ m, sign_event (kp_signing p)
    (mkUnsignedEvent rid [se_id c] Message hello_json (kp_device_id p) 2) = Ok m) as [m Hm]
    by by apply (sign_event_is_ok (RE:=node_room)).
  rewrite Hm. cbn [map_err mbind result_bind].
  pose proof (sign_event_fields (RE:=node_room) _ _ _ Hm) as (Hmr & Hmp & Hmk & Hmy & _). cbn in Hmr, Hmp, Hmk, Hmy.
  pose proof (sign_event_verified _ _ _ Hm) as Hmv.
  destruct (decide (se_id m = se_id c)) as [Hid|Hid].
  { right. destruct (content_address m c) as [->|Hcol]; [done|done|done|congruence|]. exists m, c. exact Hcol. }
  left. destruct (apply_event _ m) as [ra rooms].
  assert (dag_entry n1 rid = d1) as Hentry by (unfold dag_entry; by rewrite Hd1').
  destruct (commit_ready (SE:=node_store) n1 m) as (n2 & -> & _ & _ & He2 & _); try done.
  { rewrite He1'. by apply lookup_singleton_ne. }
  { intros q. rewrite Hmp, He1'. intros ->%list_elem_of_singleton. rewrite lookup_singleton_eq. eauto. }
  { rewrite Hmr, Hentry. right. cbn. by rewrite Hmr. }
  { by rewrite Hmr, Hentry, Hde, He1'. }
  cbn [map_err mbind result_bind]. rewrite He1' in He2.
  pose proof (one_message n2 c m He2 Hid Hk Hmk) as Hlist. rewrite Hmr in Hlist.
  rewrite Hlist. unfold payload_text. rewrite Hmy, Hd.
  exists rid, (se_id m). destruct (decide (plain_text hello_json = text "hello pond")) as [Ht|Ht].
  - by rewrite bool_decide_eq_true_2.
  - by rewrite bool_decide_eq_false_2.
Qed.

End script.
