(* ===== verification/Demos.v ===== *)
(** * The two-user demonstration ([crates/td-node/examples/two_user_p2p.rs])

    Two devices in one program: what one signs reaches the other over framed
    connections, and both end with the same room.  Binding and dialling on the
    loopback interface succeed; keys and addresses are arguments.  A connection is the
    bytes one side wrote before the other reads them: each side writes all it has to
    say before it waits for the answer. *)

From S2P Require Import Prelude Text Crypto Event Dag Store Room Sync Net Link Passkey E2ee Seal.
From S2P Require Import Persist Rate Access Session.

(** The assertions of the two programs. *)
Inductive DemoCheck : Type :=
| TwoUsers | AckIsTip | TwoReceived | SameEvents | AliceCount | BobCount | SameTips | NewestIsTip
| BobText | AliceText
| SealIsOlm | Hidden | NotYet | Behind | OnePending | OpenedId | OpenedPayload | QueueEmpty
| DiskHidden.

Inductive DemoError `{StoreEnv} : Type :=
| DmSync (e : SyncError)
| DmEvent (e : EventError)
| DmFrame (e : FrameError)
| DmE2ee (e : E2eeError)
| DmRelay (e : RelayClientError)
| DmIo
| DmNotReady
(** a [timeout] of two seconds *)
| DmElapsed
| DmAssert (c : DemoCheck).

(** [l.windows(sub.len()).any(|w| w == sub)], and [str::contains] on the bytes. *)
Fixpoint contains (l sub : list byte) : bool :=
  starts_with l sub || match l with [] => false | _ :: l => contains l sub end.

(** [{:?}] of an [EventKind] *)
Definition EventKind_debug (k : EventKind) : list byte :=
  match k with
  | CreateRoom => text "CreateRoom"
  | Membership => text "Membership"
  | Message => text "Message"
  | DeviceLink => text "DeviceLink"
  | Custom => text "Custom"
  end.

Definition quoted (s : list byte) : list byte := x22 :: s ++ [x22].
Definition text_object (s : list byte) : list byte := x7b :: quoted (text "text") ++ x3a :: quoted s ++ [x7d].

(** The hash tells the texts of these events apart. *)
Definition collision_free `{EventEnv} (l : list SignedEvent) : Prop :=
  Forall (λ e, Forall (λ e', blake3 (canonical_bytes e) = blake3 (canonical_bytes e') →
    canonical_bytes e = canonical_bytes e') l) l.

Lemma collision_free_elem `{EventEnv} l e e' : collision_free l → e ∈ l → e' ∈ l →
  blake3 (canonical_bytes e) = blake3 (canonical_bytes e') → canonical_bytes e = canonical_bytes e'.
Proof.
  intros Hl He He' Hb. pose proof (proj1 (list.Forall_forall _ _) Hl e He) as Hx.
  exact (proj1 (list.Forall_forall _ _) Hx e' He' Hb).
Qed.

Lemma collision_free_mono `{EventEnv} l l' : l ⊆ l' → collision_free l' → collision_free l.
Proof.
  intros Hs Hl. apply list.Forall_forall. intros e He. apply list.Forall_forall. intros e' He'.
  apply (collision_free_elem l'); auto.
Qed.

Section demo.
Context {NE : NodeEnv}.
#[local] Existing Instance persist_iter.
#[local] Existing Instance link_event.

(** ** The steps both programs share *)

Definition check (b : bool) (c : DemoCheck) : result DemoError unit :=
  if b then Ok tt else Err (DmAssert c).

(** [node.commit_local(ev)?] and the like *)
Definition committed {A} (p : result SyncError A * DeviceNode) : result DemoError DeviceNode :=
  match p with (Ok _, node) => Ok node | (Err e, _) => Err (DmSync e) end.

Definition signed (kp : DeviceKeypair) (ue : UnsignedEvent) : result DemoError SignedEvent :=
  map_err DmEvent (sign_event (kp_signing kp) ue).

(** [write_event(&mut sock, ev).await?] for each event: the bytes sent. *)
Definition send (l : list SignedEvent) : result DemoError (list byte) :=
  match write_events (mkWriter [] None) l with
  | (Err e, _) => Err (DmFrame e)
  | (Ok _, w) => Ok (wr_bytes w)
  end.

(** The reads of a listening task, as its dialler sees them: a panic closes the
    connection; a read beyond what was sent lasts until the dialler's timeout. *)
Fixpoint read_verified (count : nat) (r : Reader) : result DemoError (list SignedEvent) :=
  match count with
  | O => Ok []
  | S count =>
    match read_event r with
    | (Err FrameClosed, _) => Err DmElapsed
    | (Err _, _) => Err (DmFrame FrameClosed)
    | (Ok ev, r) =>
      match verify_event ev with
      | Err _ => Err (DmFrame FrameClosed)
      | Ok _ => let? l := read_verified count r in Ok (ev :: l)
      end
    end
  end.

(** A listening task: [count] events, then the last of them as the acknowledgement. *)
Definition listen (count : nat) (sent : list byte) :
    result DemoError (list SignedEvent * list byte) :=
  let? received := read_verified count (mkReader sent None) in
  match list.last received with
  | None => Err (DmFrame FrameClosed)
  | Some ev =>
    match write_event (mkWriter [] None) ev with
    | (Err _, _) => Err (DmFrame FrameClosed)
    | (Ok _, w) => Ok (received, wr_bytes w)
    end
  end.

(** One connection: the events go over, the acknowledgement comes back. *)
Definition deliver (l : list SignedEvent) (count : nat) :
    result DemoError (list SignedEvent * SignedEvent) :=
  let? sent := send l in
  let? '(received, reply) := listen count sent in
  let? ack := map_err DmFrame (read_event (mkReader reply None)).1 in
  Ok (received, ack).

(** The connection of one event, whose task returns the event. *)
Definition deliver_one (ev : SignedEvent) : result DemoError SignedEvent :=
  let? '(received, _) := deliver [ev] 1 in
  ok_or (head received) (DmFrame FrameClosed).

(** ** [two_user_p2p.rs] *)

Definition p2p_room : RoomId := mkRoomId (Array (n:=32) (repeat xa1 32) eq_refl).

(** [br#"{"name":"p2p-pond","users":["alice","bob"]}"#] *)
Definition p2p_create_json : list byte :=
  x7b :: quoted (text "name") ++ x3a :: quoted (text "p2p-pond") ++ x2c ::
  quoted (text "users") ++ x3a :: x5b :: quoted (text "alice") ++ x2c :: quoted (text "bob") ++ [x5d; x7d].

Definition p2p_create (alice : DeviceKeypair) : UnsignedEvent :=
  mkUnsignedEvent p2p_room [] CreateRoom p2p_create_json (kp_device_id alice) 1.
Definition p2p_msg (alice : DeviceKeypair) (create : SignedEvent) : UnsignedEvent :=
  mkUnsignedEvent p2p_room [se_id create] Message (text_object (text "hello-bob-via-p2p"))
    (kp_device_id alice) 2.
Definition p2p_reply (bob : DeviceKeypair) (msg : SignedEvent) : UnsignedEvent :=
  mkUnsignedEvent p2p_room [se_id msg] Message (text_object (text "hello-alice-via-p2p"))
    (kp_device_id bob) 3.

(** The two nodes at the end, and what was printed. *)
Record Demo : Type := mkDemo {
  dm_alice : DeviceNode;
  dm_bob : DeviceNode;
  dm_printed : list (list byte);
}.

Definition shipped_line (ev : SignedEvent) : list byte :=
  text "alice -> bob event kind=" ++ EventKind_debug (se_kind ev) ++ text " id=" ++
  hex_encode (array_bytes (EventId_0 (se_id ev))).

Definition two_user_p2p (alice_sk bob_sk : @SigningKey (@env_crypto link_event))
    (bob_addr alice_addr : SocketAddr) : result DemoError Demo :=
  let alice_kp := DeviceKeypair_generate alice_sk in
  let bob_kp := DeviceKeypair_generate bob_sk in
  let alice := from_crypto_device (DeviceId_0 (kp_device_id alice_kp)) in
  let bob := from_crypto_device (DeviceId_0 (kp_device_id bob_kp)) in
  let? _ := check (bool_decide (kp_device_id alice_kp ≠ kp_device_id bob_kp)) TwoUsers in
  let room := p2p_room in
  let? create := signed alice_kp (p2p_create alice_kp) in
  let? alice := committed (commit_local alice create) in
  let? msg := signed alice_kp (p2p_msg alice_kp create) in
  let? alice := committed (commit_local alice msg) in
  let listed := list_events alice room in
  let? '(received, ack) := deliver listed 2 in
  let? _ := check (bool_decide (se_id ack = se_id msg)) AckIsTip in
  let? _ := check (length received =? 2) TwoReceived in
  let? bob := committed (commit_all bob received 0) in
  let? reply := signed bob_kp (p2p_reply bob_kp msg) in
  let? bob := committed (commit_local bob reply) in
  let? got := deliver_one reply in
  let? alice := committed (commit_remote alice got) in
  let? _ := check (bool_decide (room_event_ids alice room = room_event_ids bob room)) SameEvents in
  let? _ := check (event_count alice =? 3) AliceCount in
  let? _ := check (event_count bob =? 3) BobCount in
  let? _ := check (bool_decide (tip_set alice room = tip_set bob room)) SameTips in
  let? _ := check (bool_decide (se_id reply ∈ tip_set alice room)) NewestIsTip in
  let texts := (λ e, from_utf8_lossy (se_payload e)) <$> list_messages alice room in
  let? _ := check (existsb (λ t, contains t (text "hello-bob-via-p2p")) texts) BobText in
  let? _ := check (existsb (λ t, contains t (text "hello-alice-via-p2p")) texts) AliceText in
  Ok (mkDemo alice bob
    ((text "bob listening on " ++ to_string_uri (from_tcp_addr bob_addr)) ::
     (shipped_line <$> listed) ++
     [text "alice listening on " ++ to_string_uri (from_tcp_addr alice_addr);
      text "ok two_user_p2p events=3 room=" ++ hex_encode (array_bytes (RoomId_0 room));
      text "alice_device=" ++ hex_encode (array_bytes (DeviceId_0 (device_id alice)));
      text "bob_device=" ++ hex_encode (array_bytes (DeviceId_0 (device_id bob)))])).

(** ** A connection *)

Context {NL : NodeEnvLaws}.
#[local] Instance demo_codec : @CodecLaws SignedEvent node_event_encode node_event_decode :=
  @store_codec node_store node_store_laws.

Lemma read_verified_frames l : ∀ k, Forall (λ ev, fits (to_vec ev)) l → Forall verified l →
  read_verified (length l) (mkReader (concat (Net.frame ∘ to_vec <$> l) ++ k) None) = Ok l.
Proof.
  induction l as [|ev l IH]; intros k Hf Hv; [done|]. inversion Hf; inversion Hv; subst.
  change (concat (Net.frame ∘ to_vec <$> ev :: l)) with
    (Net.frame (to_vec ev) ++ concat (Net.frame ∘ to_vec <$> l)).
  cbn [length read_verified]. rewrite <-app_assoc, read_event_frame, from_slice_to_vec by done.
  cbn [ok_or]. match goal with H : verified ev |- _ => rewrite H end. by rewrite IH.
Qed.

(** What is sent arrives, and the last event comes back. *)
Lemma deliver_ok l x : Forall (λ ev, fits (to_vec ev)) (l ++ [x]) → Forall verified (l ++ [x]) →
  deliver (l ++ [x]) (length (l ++ [x])) = Ok (l ++ [x], x).
Proof.
  intros Hf Hv. unfold deliver, send. rewrite write_events_frames by done. cbn [wr_bytes app mbind result_bind].
  unfold listen. pose proof (read_verified_frames (l ++ [x]) [] Hf Hv) as Hr. rewrite app_nil_r in Hr.
  rewrite Hr. cbn [mbind result_bind].
  rewrite last_snoc. apply Forall_app in Hf as [_ Hx%Forall_inv].
  rewrite write_event_frame by done. cbn [wr_bytes app].
  pose proof (read_event_frame (to_vec x) [] None Hx) as Ha. rewrite app_nil_r in Ha.
  cbn [mbind result_bind]. by rewrite Ha, from_slice_to_vec.
Qed.

Lemma deliver_one_ok ev : fits (to_vec ev) → verified ev → deliver_one ev = Ok ev.
Proof.
  intros Hf Hv. unfold deliver_one.
  pose proof (deliver_ok [] ev) as H. cbn [app length] in H. rewrite H by by repeat constructor. done.
Qed.

(** ** A node that holds the events of one room *)

Record holds (n : DeviceNode) (r : RoomId) (E : gmap EventId SignedEvent) : Prop := {
  ho_wf : node_wf n;
  ho_memory : durable n = None;
  ho_inbox : inbox n = [];
  ho_events : events n = E;
  ho_room : map_Forall (λ _ e, se_room_id e = r) E;
}.

Lemma holds_new d r : holds (DeviceNode_new d) r ∅.
Proof.
  split; try done. split; try done; cbn; try (by intros ? []%not_elem_of_nil).
  intros r' id ev. unfold dag_entry; cbn. rewrite !lookup_empty; cbn. rewrite lookup_empty. naive_solver.
Qed.

(** A node takes the next event of its room. *)
Lemma holds_ingest n r E ev o : holds n r E → verified ev → se_room_id ev = r → E !! se_id ev = None →
  (∀ p, p ∈ se_parents ev → is_Some (E !! p)) →
  ∃ n', ingest_event n ev o = (Ok true, n') ∧ holds n' r (<[se_id ev := ev]> E) ∧ device_id n' = device_id n.
Proof.
  intros [Hw Hd Hi <- Hr] Hv <- Hn Hp.
  assert (dag_events (dag_entry n (se_room_id ev)) = events n) as He.
  { apply map_eq. intros id. apply option_eq. intros e. rewrite (nw_rooms n Hw).
    split; [by intros [? _]|]. intros H. split; [done|]. by apply (Hr id). }
  destruct (ingest_ready n ev o) as (n' & Hn' & Hd' & Hi' & He' & _); try done.
  { right. by apply dag_entry_wf. }
  pose proof (ingest_event_wf n ev o Hw Hv) as (Hw' & _ & Hid). rewrite Hn' in Hw', Hid.
  exists n'. split_and!; [done| |done]. split; try done. by apply map_Forall_insert_2.
Qed.

Lemma holds_part n r E : holds n r E → room_part n r = E.
Proof.
  intros [_ _ _ <- Hr]. apply map_eq. intros id. apply option_eq. intros e. rewrite room_part_lookup.
  split; [by intros [? _]|]. intros H. split; [done|]. by apply (Hr id).
Qed.

(** Two nodes that hold the same agree on what the programs compare. *)
Lemma holds_ids a b r E : holds a r E → holds b r E → room_event_ids a r = room_event_ids b r.
Proof.
  intros Ha Hb. apply set_eq. intros id.
  rewrite (elem_of_room_event_ids a) by apply (ho_wf _ _ _ Ha).
  rewrite (elem_of_room_event_ids b) by apply (ho_wf _ _ _ Hb).
  by rewrite (ho_events a r E Ha), (ho_events b r E Hb).
Qed.

(** The tips of what a node holds: the events no other event names as a parent. *)
Lemma holds_tip n r E id : holds n r E →
  id ∈ tip_set n r ↔ is_Some (E !! id) ∧ ∀ k e, E !! k = Some e → id ∉ se_parents e.
Proof.
  intros Hh. pose proof (ho_wf _ _ _ Hh) as Hw. destruct (dag_entry_wf n r Hw) as [Hd _].
  unfold tip_set. rewrite elem_of_list_to_set, tips_dag_entry, elem_of_tips by done.
  assert (dag_events (dag_entry n r) = E) as ->; [|done].
  apply map_eq. intros k. apply option_eq. intros e.
  by rewrite (nw_rooms n Hw), <-room_part_lookup, (holds_part n r E).
Qed.

(** ** A chain of events, the newest first *)

Definition log (l : list SignedEvent) : gmap EventId SignedEvent :=
  foldr (λ e, <[se_id e := e]>) ∅ l.

Inductive chained (r : RoomId) : list SignedEvent → Prop :=
| chained_nil : chained r []
| chained_cons e l : verified e → se_room_id e = r → se_parents e = se_id <$> take 1 l →
    Forall (λ x, se_id x ≠ se_id e) l → chained r l → chained r (e :: l).

Lemma log_fresh l id : Forall (λ x, se_id x ≠ id) l → log l !! id = None.
Proof. induction 1 as [|x l Hx _ IH]; cbn; [apply lookup_empty|]. by rewrite lookup_insert_ne. Qed.

Lemma log_lookup r l id x : chained r l → log l !! id = Some x ↔ x ∈ l ∧ se_id x = id.
Proof.
  induction 1 as [|e l _ _ _ Hd _ IH]; cbn; [rewrite lookup_empty; set_solver|].
  rewrite lookup_insert_Some, IH, elem_of_cons. rewrite list.Forall_forall in Hd. naive_solver.
Qed.

Lemma log_size r l : chained r l → size (log l) = length l.
Proof.
  induction 1 as [|e l _ _ _ Hd _ IH]; [done|].
  change (log (e :: l)) with (<[se_id e := e]> (log l)).
  rewrite map_size_insert_None by by apply log_fresh. by rewrite IH.
Qed.

(** A node that holds the chain takes the next event, as its own or as a remote one. *)
Lemma holds_next n r l e o : holds n r (log l) → chained r (e :: l) →
  ∃ n', ingest_event n e o = (Ok true, n') ∧ holds n' r (log (e :: l)) ∧ device_id n' = device_id n.
Proof.
  intros Hh Hc. inversion Hc as [|? ? Hv Hr Hp Hd Hl]; subst.
  apply holds_ingest; [done..|by apply log_fresh|].
  rewrite Hp. destruct l as [|x l]; cbn; [by intros ? []%not_elem_of_nil|].
  intros ? ->%list_elem_of_singleton. rewrite lookup_insert_eq. eauto.
Qed.

Lemma holds_local n r l e : holds n r (log l) → chained r (e :: l) →
  ∃ n', commit_local n e = (Ok true, n') ∧ holds n' r (log (e :: l)) ∧ device_id n' = device_id n.
Proof.
  intros Hh Hc. unfold commit_local. inversion Hc as [|? ? Hv]; subst.
  pose proof (Hv : @verify_event (@store_event node_store) e = Ok tt) as ->. by apply holds_next.
Qed.
Lemma holds_remote n r l e : holds n r (log l) → chained r (e :: l) →
  ∃ n', commit_remote n e = (Ok true, n') ∧ holds n' r (log (e :: l)) ∧ device_id n' = device_id n.
Proof.
  intros Hh Hc. unfold commit_remote. inversion Hc as [|? ? Hv]; subst.
  pose proof (Hv : @verify_event (@store_event node_store) e = Ok tt) as ->. by apply holds_next.
Qed.

Lemma chained_child r e l x : chained r (e :: l) → x ∈ l → ∃ y, y ∈ e :: l ∧ se_id x ∈ se_parents y.
Proof.
  revert e. induction l as [|z l IH]; intros e Hc Hx; [by apply not_elem_of_nil in Hx|].
  inversion Hc as [|? ? _ _ Hp _ Hl]; subst. apply elem_of_cons in Hx as [->|Hx].
  - exists e. split; [left|]. rewrite Hp. left.
  - destruct (IH z Hl Hx) as (y & ? & ?). exists y. split; [by right|done].
Qed.

Lemma chained_parent r l y p : chained r l → y ∈ l → p ∈ se_parents y → ∃ x, x ∈ tail l ∧ se_id x = p.
Proof.
  induction 1 as [|e l _ _ Hp _ _ IH]; [by intros []%not_elem_of_nil|].
  intros [->|Hy]%elem_of_cons Hin.
  - rewrite Hp in Hin. destruct l as [|x l]; cbn in Hin; [by apply not_elem_of_nil in Hin|].
    apply list_elem_of_singleton in Hin as ->. exists x. split; [left|done].
  - destruct (IH Hy Hin) as (x & Hx & ?). exists x. split; [|done]. destruct l; [done|by right].
Qed.

(** Only the newest event is nobody's parent. *)
Lemma chained_top r e l id : chained r (e :: l) →
  (is_Some (log (e :: l) !! id) ∧ ∀ k x, log (e :: l) !! k = Some x → id ∉ se_parents x) ↔ id = se_id e.
Proof.
  intros Hc. split.
  - intros [[x Hx] Ht]. apply (log_lookup _ _ _ _ Hc) in Hx as [Hx <-].
    apply elem_of_cons in Hx as [->|Hx]; [done|exfalso].
    destruct (chained_child _ _ _ _ Hc Hx) as (y & Hy & Hin). apply (Ht (se_id y) y); [|done].
    by apply (log_lookup _ _ _ _ Hc).
  - intros ->. split; [cbn; rewrite lookup_insert_eq; eauto|].
    intros k y [Hy _]%(log_lookup _ _ _ _ Hc) Hin.
    destruct (chained_parent _ _ _ _ Hc Hy Hin) as (x & Hx & He).
    inversion Hc as [|? ? _ _ _ Hd _]; subst. rewrite list.Forall_forall in Hd. by apply (Hd x Hx).
Qed.

Lemma chained_tip n r e l : holds n r (log (e :: l)) → chained r (e :: l) → tip_set n r = {[se_id e]}.
Proof.
  intros Hh Hc. apply set_eq. intros id.
  by rewrite (holds_tip _ _ _ _ Hh), elem_of_singleton, (chained_top _ _ _ _ Hc).
Qed.

Lemma verified_distinct l e e' : collision_free l → e ∈ l → e' ∈ l →
  verified e → verified e' → e ≠ e' → se_id e ≠ se_id e'.
Proof.
  intros Hl He He' Hv Hv' Hne Hid. destruct (content_address e e') as [|[Hc Hb]]; [done..|].
  by apply Hc, (collision_free_elem l).
Qed.

(** What is signed is verified and has the fields asked for. *)
Lemma signed_verified kp ue ev : signed kp ue = Ok ev → verified ev ∧
  se_room_id ev = ue_room_id ue ∧ se_parents ev = ue_parents ue ∧ se_kind ev = ue_kind ue ∧
  se_payload ev = ue_payload ue ∧ se_ts_ms ev = ue_ts_ms ue.
Proof.
  intros H%map_err_ok_inv. split; [by apply sign_event_verified in H|].
  by apply (sign_event_fields (RE:=node_room)) in H as (? & ? & ? & ? & _ & ?).
Qed.

(** Three events signed on top of each other with three dates. *)
Lemma chain_signed k1 k2 k3 u1 u2 u3 e1 e2 e3 r :
  signed k1 u1 = Ok e1 → signed k2 u2 = Ok e2 → signed k3 u3 = Ok e3 →
  ue_room_id u1 = r → ue_room_id u2 = r → ue_room_id u3 = r →
  ue_parents u1 = [] → ue_parents u2 = [se_id e1] → ue_parents u3 = [se_id e2] →
  ue_ts_ms u1 = 1%N → ue_ts_ms u2 = 2%N → ue_ts_ms u3 = 3%N →
  collision_free [e1; e2; e3] → chained r [e3; e2; e1].
Proof.
  intros (V1 & R1 & P1 & _ & _ & T1)%signed_verified (V2 & R2 & P2 & _ & _ & T2)%signed_verified
    (V3 & R3 & P3 & _ & _ & T3)%signed_verified.
  intros <- Hr2 Hr3 Hp1 Hp2 Hp3 Ht1 Ht2 Ht3 Hcf.
  assert (se_id e1 ≠ se_id e2) by (eapply verified_distinct; [exact Hcf|set_solver..|done|done|congruence]).
  assert (se_id e1 ≠ se_id e3) by (eapply verified_distinct; [exact Hcf|set_solver..|done|done|congruence]).
  assert (se_id e2 ≠ se_id e3) by (eapply verified_distinct; [exact Hcf|set_solver..|done|done|congruence]).
  repeat (constructor; [done|congruence|cbn; congruence|by repeat constructor|]). constructor.
Qed.

(** ** What the first program lists *)

(** Two events in the order of a list sorted by [event_order]. *)
Lemma listed_pair l x y : l ≡ₚ [x; y] → cmp_le event_order x y = true → cmp_le event_order y x = false →
  sort_by event_order l = [x; y].
Proof.
  intros Hp Hxy Hyx. pose proof (event_order_sorted l) as Hs.
  assert (sort_by event_order l ≡ₚ [x; y]) as Hl by by rewrite sort_by_perm.
  symmetry in Hl. apply Permutation_length_2_inv in Hl as [He|He]; rewrite He in *; [done|].
  apply StronglySorted_inv in Hs as [_ Hs%Forall_inv]. congruence.
Qed.

Lemma chain_listed n r x y : holds n r (log [y; x]) → chained r [y; x] → list_events n r = [x; y].
Proof.
  intros Hh Hc. pose proof (ho_room _ _ _ Hh) as Hr.
  inversion Hc as [|? ? _ Ry Hpy Hd Hl]; inversion Hl as [|? ? _ Rx Hpx _ _]; subst.
  apply listed_pair; [|by apply event_order_le; left; rewrite Hpx, Hpy; cbn; lia|].
  - apply Forall_cons_1 in Hd as [Hd _]. unfold room_values, map_values.
    rewrite map_iter_perm, (ho_events _ _ _ Hh). cbn. rewrite insert_empty.
    rewrite map_to_list_insert, map_to_list_singleton by by rewrite lookup_singleton_ne.
    cbn. rewrite !decide_True by done. constructor.
  - apply not_true_is_false. rewrite event_order_le, Hpx, Hpy. cbn. lia.
Qed.

(** A text message of the log is listed, and reads as it was written. *)
Lemma texts_found n r E ev t : holds n r E → E !! se_id ev = Some ev → se_kind ev = Message →
  contains (from_utf8_lossy (se_payload ev)) t = true →
  existsb (λ s, contains s t) ((λ e, from_utf8_lossy (se_payload e)) <$> list_messages n r) = true.
Proof.
  intros Hh He Hk Ht. apply existsb_exists. exists (from_utf8_lossy (se_payload ev)). split; [|done].
  apply list_elem_of_In, (list_elem_of_fmap_2 (λ e, from_utf8_lossy (se_payload e))).
  unfold list_messages. rewrite elem_of_sort_by, list_elem_of_filter, elem_of_map_values.
  rewrite (ho_events _ _ _ Hh). split; [|by eexists]. split; [by apply (ho_room _ _ _ Hh (se_id ev))|done].
Qed.

(** The comparisons at the end of both programs. *)
Lemma ends_agree a b r e l : holds a r (log (e :: l)) → holds b r (log (e :: l)) → chained r (e :: l) →
  room_event_ids a r = room_event_ids b r ∧
  event_count a = length (e :: l) ∧ event_count b = length (e :: l) ∧
  tip_set a r = {[se_id e]} ∧ tip_set b r = {[se_id e]}.
Proof.
  intros Ha Hb Hc. unfold event_count. rewrite (ho_events _ _ _ Ha), (ho_events _ _ _ Hb).
  split_and!; [by eapply holds_ids|by eapply log_size..|by eapply chained_tip|by eapply chained_tip].
Qed.

(** The nodes that have taken the first two events. *)
Lemma holds_two d r x y : chained r [y; x] →
  (∃ n n', commit_local (DeviceNode_new d) x = (Ok true, n) ∧ commit_local n y = (Ok true, n') ∧
    holds n r (log [x]) ∧ holds n' r (log [y; x]) ∧ device_id n = d ∧ device_id n' = d) ∧
  (∃ n n', commit_remote (DeviceNode_new d) x = (Ok true, n) ∧ commit_remote n y = (Ok true, n') ∧
    holds n r (log [x]) ∧ holds n' r (log [y; x]) ∧ device_id n = d ∧ device_id n' = d).
Proof.
  intros H2. inversion H2 as [|? ? _ _ _ _ H1]; subst. split.
  - destruct (holds_local _ r [] x (holds_new d r) H1) as (n & Hn & Hx & Dn).
    destruct (holds_local _ r _ y Hx H2) as (n' & Hn' & Hy & Dn'). exists n, n'. by rewrite Dn', Dn.
  - destruct (holds_remote _ r [] x (holds_new d r) H1) as (n & Hn & Hx & Dn).
    destruct (holds_remote _ r _ y Hx H2) as (n' & Hn' & Hy & Dn'). exists n, n'. by rewrite Dn', Dn.
Qed.

Lemma check_true b c {A} (k : unit → result DemoError A) : b = true → mbind k (check b c) = k tt.
Proof. by intros ->. Qed.

(** ** Theorems *)

(** C12: Two users share a room without a relay: whatever keys are drawn for two different
    devices, when the three events fit a frame and their hashes do not collide, the program runs to its end, every
    assertion on the way holds, and both nodes end with exactly the room's creation,
    the message and the reply, which is the only tip. *)
Theorem two_user_p2p_shares (alice_sk bob_sk : @SigningKey (@env_crypto link_event))
    (bob_addr alice_addr : SocketAddr) (create msg reply : SignedEvent) :
  let alice := DeviceKeypair_generate alice_sk in
  let bob := DeviceKeypair_generate bob_sk in
  kp_device_id alice ≠ kp_device_id bob →
  signed alice (p2p_create alice) = Ok create → signed alice (p2p_msg alice create) = Ok msg →
  signed bob (p2p_reply bob msg) = Ok reply →
  Forall (λ e, fits (to_vec e)) [create; msg; reply] → collision_free [create; msg; reply] →
  ∃ d, two_user_p2p alice_sk bob_sk bob_addr alice_addr = Ok d ∧
    events (dm_alice d) = log [reply; msg; create] ∧ events (dm_bob d) = log [reply; msg; create] ∧
    tip_set (dm_alice d) p2p_room = {[se_id reply]} ∧ tip_set (dm_bob d) p2p_room = {[se_id reply]}.
Proof.
  cbv zeta. set (a := DeviceKeypair_generate alice_sk). set (b := DeviceKeypair_generate bob_sk).
  intros Hne Hc Hm Hr [Fc [Fm [Fr _]%Forall_cons_1]%Forall_cons_1]%Forall_cons_1 Hcf.
  assert (chained p2p_room [reply; msg; create]) as H3 by by apply (chain_signed _ _ _ _ _ _ _ _ _ p2p_room Hc Hm Hr).
  inversion H3 as [|? ? V3 _ _ _ H2]; inversion H2 as [|? ? V2 _ _ _ H1]; inversion H1; subst.
  destruct (holds_two (kp_device_id a) p2p_room create msg H2) as [(a1 & a2 & Ea1 & Ea2 & _ & Ha2 & _) _].
  destruct (holds_two (kp_device_id b) p2p_room create msg H2) as [_ (b1 & b2 & Eb1 & Eb2 & _ & Hb2 & _)].
  destruct (holds_local _ _ _ _ Hb2 H3) as (b3 & Eb3 & Hb3 & _).
  destruct (holds_remote _ _ _ _ Ha2 H3) as (a3 & Ea3 & Ha3 & _).
  destruct (ends_agree _ _ _ _ _ Ha3 Hb3 H3) as (Hids & Na & Nb & Ta & Tb).
  pose proof (signed_verified _ _ _ Hm) as (_ & _ & _ & Km & Ym & _).
  pose proof (signed_verified _ _ _ Hr) as (_ & _ & _ & Kr & Yr & _).
  unfold two_user_p2p, from_crypto_device. fold a b. destruct (kp_device_id a) as [ida] eqn:Ida, (kp_device_id b) as [idb] eqn:Idb.
  cbn [DeviceId_0]. rewrite check_true by by apply bool_decide_eq_true_2.
  rewrite Hc. cbn [mbind result_bind]. rewrite Ea1. cbn [committed mbind result_bind].
  rewrite Hm. cbn [mbind result_bind]. rewrite Ea2. cbn [committed mbind result_bind].
  rewrite (chain_listed _ _ _ _ Ha2 H2).
  pose proof (deliver_ok [create] msg) as Hd. cbn [app length] in Hd. rewrite Hd by by repeat constructor.
  cbn [mbind result_bind]. rewrite check_true by by apply bool_decide_eq_true_2. rewrite check_true by done.
  cbn [commit_all]. rewrite Eb1, Eb2. cbn [committed mbind result_bind].
  rewrite Hr. cbn [mbind result_bind]. rewrite Eb3. cbn [committed mbind result_bind].
  rewrite deliver_one_ok by done. cbn [mbind result_bind]. rewrite Ea3. cbn [committed mbind result_bind].
  rewrite Na, Nb, Ta, Tb, Hids. do 3 rewrite check_true by (by apply bool_decide_eq_true_2 || done).
  do 2 rewrite check_true by (by apply bool_decide_eq_true_2; set_solver).
  rewrite check_true.
  2: { eapply (texts_found _ _ _ msg); [exact Ha3|by apply (log_lookup _ _ _ _ H3); set_solver|done|].
       rewrite Ym. vm_compute. reflexivity. }
  rewrite check_true.
  2: { eapply (texts_found _ _ _ reply); [exact Ha3|by apply (log_lookup _ _ _ _ H3); set_solver|done|].
       rewrite Yr. vm_compute. reflexivity. }
  eexists. split; [done|]. cbn [dm_alice dm_bob].
  split_and!; [by apply (ho_events _ _ _ Ha3)|by apply (ho_events _ _ _ Hb3)|done|done].
Qed.

End demo.
