(* ===== verification/Catchup.v ===== *)
(** * The relay demonstration ([crates/td-node/examples/relay_offline_catchup.rs])

    A message for a device that is offline waits on the assist relay under an Olm seal;
    the device fetches, opens, commits and acknowledges it, and later events go over a
    direct connection.  The client, the connection loop of the relay, its store, the
    seal and the two nodes run together.  The relay's process has been started and
    accepts connections; keys, random draws, clock readings and what its file holds at
    the end are arguments. *)

From S2P Require Import Prelude Text Crypto Event Dag Store Room Sync Net Link Passkey E2ee Seal.
From S2P Require Import Persist Rate Access Session Relay Demos.

(** What the environment of the program has: that of a node, and the relay's. *)
Class DemoEnv : Type := {
  demo_node :: NodeEnv;
  demo_envelopes :: EnvelopesDb;
  demo_io_text : io_error → list byte;
  demo_serde_text : list byte;
  demo_request_decode :: Decode RelayRequest;
  demo_response_encode :: Encode RelayResponse;
}.
#[global] Instance demo_relay `{DemoEnv} : RelayEnv :=
  {| relay_crypto := @env_crypto link_event; relay_db := demo_envelopes;
     io_text := demo_io_text; serde_text := demo_serde_text;
     relay_req_encode := node_request_encode; relay_req_decode := demo_request_decode;
     relay_resp_encode := demo_response_encode; relay_resp_decode := node_response_decode |}.


Section catchup.
Context {DE : DemoEnv}.
#[local] Existing Instance persist_iter.
#[local] Existing Instance link_event.

(** ** The client and the relay *)

(** One call of the client on its connection: what it writes is served by the relay
    ([clock k] are the readings for the [k]-th request), what the relay writes is what
    it reads. *)
Definition relay_call {A} (clock : nat → N * N) (k : nat) (relay : RelayState)
    (call : TcpStream → result RelayClientError A * TcpStream) :
    result RelayClientError A * RelayState :=
  let sent := wr_bytes (ts_write (call (mkTcpStream (mkReader [] None) (mkWriter [] None))).2) in
  let '(relay, served) := handle_conn (S (length sent)) clock k relay
    (mkTcpStream (mkReader sent None) (mkWriter [] None)) in
  ((call (mkTcpStream (mkReader (wr_bytes (ts_write served)) None) (mkWriter [] None))).1, relay).

(** [PathBuf] as its components; [pop] leaves the empty path as it is. *)
Definition PathBuf : Type := list (list byte).
Definition pop (p : PathBuf) : PathBuf := removelast p.
Definition parent (p : PathBuf) : option PathBuf := match p with [] => None | _ :: _ => Some (removelast p) end.

Definition relay_bin : list byte := text "td-relay".

(** The places [resolve_td_relay_bin] looks at, in order: below the root of the
    repository, below the working directory, beside the program. *)
Definition candidates (manifest_dir : PathBuf) (current_exe : option PathBuf) : list PathBuf :=
  (pop (pop manifest_dir) ++ [text "target"; text "debug"; relay_bin]) ::
  [text "target"; text "debug"; relay_bin] ::
  [text "."; text "target"; text "debug"; relay_bin] ::
  match (exe ← current_exe; parent exe) with
  | None => []
  | Some exe_dir =>
    let p := if bool_decide (list.last exe_dir = Some (text "examples")) then pop exe_dir else exe_dir in
    [p ++ [relay_bin]; pop exe_dir ++ [relay_bin]]
  end.

Definition resolve_td_relay_bin (explicit : option PathBuf) (manifest_dir : PathBuf)
    (current_exe : option PathBuf) (is_file : PathBuf → bool) : option PathBuf :=
  match explicit with
  | Some bin => Some bin
  | None => List.find is_file (candidates manifest_dir current_exe)
  end.

(** [spawn_relay_binary] on a free port: the arguments of the process, where it will
    listen, its database. *)
Record RelayProc : Type := mkRelayProc { rp_args : list (list byte); rp_uri : PeerUri; rp_db : list byte }.

Definition spawn_relay_binary (port : N) (temp_dir : list byte) (bin : option PathBuf)
    (path_exists : PathBuf → bool) : option RelayProc :=
  let bind := text "127.0.0.1:" ++ dec port in
  let db := temp_dir ++ text "/td-p13-relay-" ++ dec port ++ text ".sqlite" in
  bin ← bin;
  if negb (path_exists bin) then None else
  Some {| rp_args := [text "--bind"; bind; text "--db"; db];
          rp_uri := mkPeerUri (text "127.0.0.1") port false false;
          rp_db := db |}.

(** [wait_relay]: [connects k] is the outcome of the [k]-th attempt. *)
Fixpoint wait_relay (attempts k : nat) (connects : nat → bool) : bool :=
  match attempts with
  | O => false
  | S attempts => connects k || wait_relay attempts (S k) connects
  end.

(** ** The program *)

Definition catchup_room : RoomId := mkRoomId (Array (n:=32) (repeat xb0 32) eq_refl).
Definition secret : list byte := text "OFFLINE_CATCHUP_SECRET_HONK".

(** [br#"{"name":"relay-pond"}"#] *)
Definition catchup_create_json : list byte :=
  x7b :: quoted (text "name") ++ x3a :: quoted (text "relay-pond") ++ [x7d].

Definition catchup_create (alice : DeviceKeypair) : UnsignedEvent :=
  mkUnsignedEvent catchup_room [] CreateRoom catchup_create_json (kp_device_id alice) 1.
Definition catchup_msg (alice : DeviceKeypair) (create : SignedEvent) : UnsignedEvent :=
  mkUnsignedEvent catchup_room [se_id create] Message secret (kp_device_id alice) 2.
Definition catchup_live (bob : DeviceKeypair) (msg : SignedEvent) : UnsignedEvent :=
  mkUnsignedEvent catchup_room [se_id msg] Message (text_object (text "now-direct-p2p"))
    (kp_device_id bob) 3.

(** The random draws: keys, Olm accounts, one-time keys, the session, its first message. *)
Record Draws : Type := mkDraws {
  dr_alice : @SigningKey (@env_crypto link_event);
  dr_bob : @SigningKey (@env_crypto link_event);
  dr_alice_olm : Seed * Seed;
  dr_bob_olm : Seed * Seed;
  dr_publish : Seed;
  dr_outbound : Seed;
  dr_seal : Seed;
}.

Record Catchup : Type := mkCatchup {
  cu_alice : DeviceNode;
  cu_bob : DeviceNode;
  cu_relay : RelayState;
}.

(** "Bob comes online": fetch, open, commit, acknowledge, fetch again. *)
Definition bob_online (clock : nat → N * N) (relay : RelayState) (bob : DeviceNode)
    (bob_e2ee : E2eeDevice) (offline_msg : SignedEvent) : result DemoError (DeviceNode * RelayState) :=
  let '(r, relay) := relay_call clock 1 relay (λ s, client_fetch s (device_id bob) 0 10) in
  let? items := map_err DmRelay r in
  let? _ := check (length items =? 1) OnePending in
  let? item := ok_or (head items) (DmAssert OnePending) in
  let '(r, bob_e2ee) := open_from_relay_auto bob_e2ee None (re_ciphertext item) in
  let? opened := map_err DmSync r in
  let? _ := map_err DmEvent (verify_event opened) in
  let? _ := check (bool_decide (se_id opened = se_id offline_msg)) OpenedId in
  let? _ := check (bool_decide (se_payload opened = secret)) OpenedPayload in
  let? bob := committed (commit_remote bob opened) in
  let '(r, relay) := relay_call clock 2 relay
    (λ s, client_ack s (device_id bob) [re_envelope_id item]) in
  let? _ := map_err DmRelay r in
  let '(r, relay) := relay_call clock 3 relay (λ s, client_fetch s (device_id bob) 0 10) in
  let? after := map_err DmRelay r in
  let? _ := check (length after =? 0) QueueEmpty in
  Ok (bob, relay).

(** "Phase 2": a new message without the relay, whose queue stays empty; [file] is what
    [std::fs::read] gives of the relay's file, if it exists. *)
Definition direct_phase (clock : nat → N * N) (relay : RelayState) (bob_kp : DeviceKeypair)
    (alice bob : DeviceNode) (offline_msg : SignedEvent)
    (file : EConnection → option (result io_error (list byte))) : result DemoError Catchup :=
  let room := catchup_room in
  let? live := signed bob_kp (catchup_live bob_kp offline_msg) in
  let? bob := committed (commit_local bob live) in
  let? got := deliver_one live in
  let? alice := committed (commit_remote alice got) in
  let? _ := check (bool_decide (tip_set alice room = tip_set bob room)) SameTips in
  let? _ := check (bool_decide (se_id live ∈ tip_set alice room)) NewestIsTip in
  let? _ := check (event_count alice =? 3) AliceCount in
  let? _ := check (event_count bob =? 3) BobCount in
  let '(r, relay) := relay_call clock 4 relay (λ s, client_fetch s (device_id alice) 0 10) in
  let? leftover := map_err DmRelay r in
  let? _ := check (length leftover =? 0) QueueEmpty in
  let '(r, relay) := relay_call clock 5 relay (λ s, client_fetch s (device_id bob) 0 10) in
  let? leftover_b := map_err DmRelay r in
  let? _ := check (length leftover_b =? 0) QueueEmpty in
  let? _ :=
    match file (es_conn (rl_store relay)) with
    | None => Ok tt
    | Some (Err _) => Err DmIo
    | Some (Ok bytes) => check (negb (contains bytes secret)) DiskHidden
    end in
  Ok (mkCatchup alice bob relay).

Definition relay_offline_catchup (connects : nat → bool) (draws : Draws) (clock : nat → N * N)
    (relay : RelayState) (file : EConnection → option (result io_error (list byte))) :
    result DemoError Catchup :=
  let? _ := if wait_relay 50 0 connects then Ok tt else Err DmNotReady in
  let alice_kp := DeviceKeypair_generate (dr_alice draws) in
  let bob_kp := DeviceKeypair_generate (dr_bob draws) in
  let alice := from_crypto_device (DeviceId_0 (kp_device_id alice_kp)) in
  let bob := from_crypto_device (DeviceId_0 (kp_device_id bob_kp)) in
  let alice_e2ee := E2eeDevice_new (dr_alice_olm draws).1 (dr_alice_olm draws).2 (kp_device_id alice_kp) in
  let bob_e2ee := E2eeDevice_new (dr_bob_olm draws).1 (dr_bob_olm draws).2 (kp_device_id bob_kp) in
  let '(r, bob_e2ee) := publish_keys bob_e2ee (dr_publish draws) in
  let? bob_keys := map_err DmE2ee r in
  let '(r, alice_e2ee) := establish_olm_outbound alice_e2ee bob_keys (dr_outbound draws) in
  let? _ := map_err DmE2ee r in
  let room := catchup_room in
  let? create := signed alice_kp (catchup_create alice_kp) in
  let? alice := committed (commit_local alice create) in
  let? bob := committed (commit_remote bob create) in
  let? offline_msg := signed alice_kp (catchup_msg alice_kp create) in
  let? alice := committed (commit_local alice offline_msg) in
  let '(r, alice_e2ee) := seal_for_relay_olm alice_e2ee (kp_device_id bob_kp) offline_msg (dr_seal draws) in
  let? ciphertext := map_err DmSync r in
  let? _ := check (bool_decide (seal_version ciphertext = Some RELAY_SEAL_V2_OLM)) SealIsOlm in
  let? _ := check (negb (contains ciphertext secret)) Hidden in
  let env := RelayEnvelope_new (device_id bob) (device_id alice) (Some room) ciphertext 2 in
  let '(r, relay) := relay_call clock 0 relay (λ s, client_put s env) in
  let? _ := map_err DmRelay r in
  let? _ := check (negb (has_event bob (se_id offline_msg))) NotYet in
  let? _ := check (bool_decide (tip_set alice room ≠ tip_set bob room)) Behind in
  let? '(bob, relay) := bob_online clock relay bob bob_e2ee offline_msg in
  let? _ := check (bool_decide (tip_set alice room = tip_set bob room)) SameTips in
  let? _ := check (bool_decide (room_event_ids alice room = room_event_ids bob room)) SameEvents in
  direct_phase clock relay bob_kp alice bob offline_msg file.

(** ** The process *)

(** The binary is the one named, or a file that exists; it is missed only if no
    candidate exists. *)
Lemma resolve_found explicit manifest exe is_file : explicit = None →
  match resolve_td_relay_bin explicit manifest exe is_file with
  | Some p => is_file p = true ∧ p ∈ candidates manifest exe
  | None => ∀ p, p ∈ candidates manifest exe → is_file p = false
  end.
Proof.
  intros ->. unfold resolve_td_relay_bin. destruct (List.find _ _) as [p|] eqn:Hf.
  - apply find_some in Hf as [Hin Hp]. by rewrite list_elem_of_In.
  - intros p Hp. apply (find_none _ _ Hf). by apply list_elem_of_In.
Qed.

(** The relay reads the address and the database the program gave it, and listens
    where the client dials: its URI is the one of the address it was told to bind. *)
Lemma spawned_relay_parses port temp_dir bin ex proc prog :
  spawn_relay_binary port temp_dir bin ex = Some proc →
  parse_args (prog :: rp_args proc) = (socket_addr (rp_uri proc), rp_db proc) ∧
  rp_uri proc = from_tcp_addr (mkSocketAddr (text "127.0.0.1") port).
Proof.
  unfold spawn_relay_binary. destruct bin as [bin|]; [|done]. cbn [mbind option_bind].
  destruct (negb (ex bin)); [done|]. intros [= <-]. split; [|done].
  unfold parse_args. cbn [tail rp_args rp_uri rp_db parse_args_loop].
  rewrite (decide_True (P:=text "--bind" = text "--bind")) by done.
  rewrite (decide_False (P:=text "--db" = text "--bind")) by done.
  by rewrite (decide_True (P:=text "--db" = text "--db")).
Qed.

(** ** A call on the wire *)

Context {RL : RelayEnvLaws}.

Lemma request_codec q : @from_slice _ demo_request_decode (@to_vec _ node_request_encode q) = Some q.
Proof. exact (@from_slice_to_vec _ _ _ relay_req_codec q). Qed.
Lemma response_codec q : @from_slice _ node_response_decode (@to_vec _ demo_response_encode q) = Some q.
Proof. exact (@from_slice_to_vec _ _ _ relay_resp_codec q). Qed.

Lemma relay_call_eq {A} (f : result RelayClientError RelayResponse → result RelayClientError A)
    clock k relay req resp relay' : respond relay (clock k) req = (resp, relay') →
  fits (to_vec req) → fits (to_vec resp) →
  relay_call clock k relay (λ s, let '(r, s) := exchange s req in (f r, s)) = (f (Ok resp), relay').
Proof.
  intros Hr Hq Hp. unfold relay_call, exchange. cbn [ts_write ts_read]. rewrite write_json_frame by done.
  cbn [app]. destruct (read_json (mkReader [] None)) as [x y]. cbn [fst snd ts_write wr_bytes].
  destruct (length (frame (to_vec req))) as [|n] eqn:Hn.
  { unfold frame in Hn. rewrite length_app, length_be_bytes in Hn. lia. }
  pose proof (@read_json_frame _ demo_request_decode (to_vec req) [] None Hq) as Hrq.
  pose proof (@read_json_frame _ node_response_decode (to_vec resp) [] None Hp) as Hrp.
  cbn [relay_req_encode relay_req_decode relay_resp_encode relay_resp_decode demo_relay] in *.
  rewrite app_nil_r in Hrq, Hrp. rewrite request_codec in Hrq. rewrite response_codec in Hrp.
  cbn [handle_conn ts_read ts_write]. cbn [relay_req_encode relay_req_decode relay_resp_encode relay_resp_decode demo_relay] in *.
  rewrite Hrq. cbn [ok_or]. rewrite Hr, write_json_frame by done. cbn [app handle_conn ts_read].
  assert (@read_json RelayRequest demo_request_decode (mkReader [] None) = (Err ProtoClosed, mkReader [] None)) as -> by done.
  cbn [ts_write wr_bytes fst]. by rewrite Hrp.
Qed.

(** ** What the relay answers *)

(** The relay takes a new envelope of a sender below the limit, or its database fails. *)
Lemma respond_put relay clock E env : mailbox (rl_store relay) E → U64 (re_ts_ms env) →
  small env → authentic env → E !! re_envelope_id env = None →
  (allow (rl_limiter relay) (re_sender_device env) clock.1 clock.2).1 = true →
  ∃ resp relay', respond relay clock (Put env) = (resp, relay') ∧
    ((resp = RespOk ∧ mailbox (rl_store relay') (<[re_envelope_id env := env]> E)) ∨
     ∃ e, resp = RespErr (edb_text e)).
Proof.
  intros HE HU Hs Ha Hn Hl. unfold respond, handle. destruct (allow _ _ _ _) as [ok lim]; cbn in Hl; subst ok.
  cbn [negb]. pose proof (EnvelopeStore_put_spec _ E env HE HU) as Hp.
  destruct (EnvelopeStore_put _ _) as [[[|]|[e|e| | | |m]] s]; cbn.
  - eexists _, _. split; [done|]. left. by destruct Hp as (_ & _ & _ & ?).
  - destruct Hp as (_ & _ & [? ?] & _). congruence.
  - done.
  - eexists _, _. split; [done|]. right. by exists e.
  - done.
  - done.
  - by destruct Hp.
  - by destruct Hp as (_ & ? & _).
Qed.

Lemma fetch_error s d since limit e : EnvelopeStore_fetch s d since limit = Err e → ∃ e', e = RelayDb e'.
Proof.
  unfold EnvelopeStore_fetch. destruct (env_select _ _ _ _) as [rows|e']; [|intros [= <-]; eauto].
  cbn. generalize (@nil RelayEnvelope). induction rows as [|[row|e'] rows IH]; intros out; cbn; [done| |intros [= <-]; eauto].
  destruct (row_envelope row); apply IH.
Qed.

(** A fetch does not change the relay; it finds the one envelope of a mailbox for its
    recipient, and nothing in a mailbox without any. *)
Lemma respond_fetch relay clock E d limit : mailbox (rl_store relay) E → (1 < limit)%N →
  ∃ resp, respond relay clock (Fetch d 0 limit) = (resp, relay) ∧
    ((∃ l, resp = Envelopes l ∧ NoDup l ∧ (∀ env, env ∈ l → E !! re_envelope_id env = Some env ∧ re_recipient_device env = d) ∧
       ∀ env, E = {[re_envelope_id env := env]} → re_recipient_device env = d → re_ts_ms env = 2%N → l = [env]) ∨
     ∃ e, resp = RespErr (edb_text e)).
Proof.
  intros HE Hlim. unfold respond, handle.
  destruct (EnvelopeStore_fetch _ d 0 limit) as [l|e] eqn:Hf; cbn.
  2: { destruct (fetch_error _ _ _ _ _ Hf) as [e' ->]. eexists. split; [done|]. right. by exists e'. }
  eexists. split; [done|]. left. exists l.
  destruct (EnvelopeStore_fetch_spec _ _ _ _ _ _ HE Hf) as (Hin & Hnd & _ & Hlen & Hall & _).
  split_and!; [done|done|intros env Hx; by destruct (Hin env Hx) as (? & ? & _)|].
  intros env -> Hr Ht. assert (∀ x, x ∈ l → x = env) as Hone.
  { intros x Hx. apply Hin in Hx as (Hx & _). by apply lookup_singleton_Some in Hx as [_ ->]. }
  assert (env ∈ l) as Henv.
  { destruct l as [|x l]; [|rewrite (Hone x (list_elem_of_here _ _)); left].
    apply Hall; [|split_and!; [apply lookup_singleton_eq|done|by rewrite Ht]].
    unfold clamp_limit, DEFAULT_FETCH_LIMIT. cbn. lia. }
  apply singleton_list; [done|]. intros x. split; [apply Hone|by intros ->].
Qed.

(** The recipient of the only envelope empties the mailbox by acknowledging it. *)
Lemma respond_ack relay clock env : mailbox (rl_store relay) {[re_envelope_id env := env]} →
  ∃ resp relay', respond relay clock (Ack (re_recipient_device env) [re_envelope_id env]) = (resp, relay') ∧
    ((resp = RespOk ∧ mailbox (rl_store relay') ∅) ∨ ∃ e, resp = RespErr (edb_text e)).
Proof.
  intros HE. unfold respond, handle, EnvelopeStore_ack. destruct (rl_store relay) as [c]; cbn [es_conn].
  pose proof (ack_loop_spec (re_recipient_device env) [re_envelope_id env] c _ 0 HE) as Ha.
  destruct (ack_loop _ _ _ _) as [r c'] eqn:Hl. destruct Ha as (E' & HE' & Hsub & _ & Hr).
  destruct r as [n|e].
  - cbn. eexists _, _. split; [done|]. left. split; [done|]. destruct Hr as [Hr _]. assert (E' = ∅) as ->; [|done].
    apply map_empty. intros id. apply eq_None_not_Some. intros [x Hx].
    pose proof (lookup_weaken _ _ _ _ Hx Hsub) as [<- <-]%lookup_singleton_Some.
    by apply (Hr _ _ Hx (list_elem_of_here _ _)).
  - cbn in Hl. destruct (env_delete _ _ _) as [[?|e'] ?]; [done|]. injection Hl as <- <-.
    cbn. eexists _, _. split; [done|]. right. by exists e'.
Qed.

(** ** Theorems *)

Context {NL : NodeEnvLaws} {OL : OlmLaws} {OS : OlmStartLaws}.
#[local] Existing Instance demo_codec.

(** The frames of the program on the connections to the relay are within the limit. *)
Record wire_fits (alice bob : DeviceId) (env : RelayEnvelope) : Prop := {
  wf_put : fits (to_vec (Put env));
  wf_fetch_alice : fits (to_vec (Fetch alice 0 10));
  wf_fetch_bob : fits (to_vec (Fetch bob 0 10));
  wf_ack : fits (to_vec (Ack bob [re_envelope_id env]));
  wf_ok : fits (to_vec RespOk);
  wf_some : fits (to_vec (Envelopes [env]));
  wf_none : fits (to_vec (Envelopes []));
  wf_error e : fits (to_vec (RespErr (edb_text e)));
}.

(** The calls of the program: the result it goes on with, or an error of the
    relay's database. *)
Definition call_failed {A} (r : result RelayClientError A) : Prop := ∃ e, r = Err (Net.Remote (edb_text e)).

Lemma call_put clock k relay alice bob env now :
  mailbox (rl_store relay) ∅ → rl_limiter relay = RateLimiter_new now DEFAULT_RATE →
  wire_fits alice bob env → small env → authentic env → U64 (re_ts_ms env) →
  ∃ r relay', relay_call clock k relay (λ s, client_put s env) = (r, relay') ∧
    ((r = Ok tt ∧ mailbox (rl_store relay') {[re_envelope_id env := env]}) ∨ call_failed r).
Proof.
  intros HE Hl Hw Hs Ha HU.
  destruct (respond_put relay (clock k) ∅ env) as (resp & relay' & Hr & Hcase); [done..| |].
  { destruct (allow_spec (rl_limiter relay) (re_sender_device env) (clock k).1 (clock k).2) as (-> & _).
    rewrite Hl. unfold rolled, count_of. by destruct (window_over _ _). }
  rewrite insert_empty in Hcase.
  assert (fits (to_vec resp)) as Hf by (destruct Hcase as [[-> _]|[e ->]]; apply Hw).
  pose proof (relay_call_eq (λ r, let? resp := r in
    match resp with RespOk => Ok tt | RespErr m => Err (Net.Remote m) | _ => Err Unexpected end)
    clock k relay (Put env) resp relay' Hr (wf_put _ _ _ Hw) Hf) as Hc.
  eexists _, relay'. split; [exact Hc|].
  destruct Hcase as [[-> Hm]|[e ->]]; [by left|right; by exists e].
Qed.

Lemma call_fetch clock k relay alice bob env d E l : wire_fits alice bob env →
  d = alice ∨ d = bob → mailbox (rl_store relay) E →
  E = ∅ ∧ l = [] ∨ E = {[re_envelope_id env := env]} ∧ l = [env] ∧ re_recipient_device env = d ∧ re_ts_ms env = 2%N →
  ∃ r, relay_call clock k relay (λ s, client_fetch s d 0 10) = (r, relay) ∧ (r = Ok l ∨ call_failed r).
Proof.
  intros Hw Hd HE HEs. destruct (respond_fetch relay (clock k) E d 10 HE) as (resp & Hr & Hcase); [lia|].
  assert (resp = Envelopes l ∨ ∃ e, resp = RespErr (edb_text e)) as Hresp.
  { destruct Hcase as [(l' & -> & _ & Hin & Hone)|[e ->]]; [left|right; by exists e].
    destruct HEs as [[-> ->]|(-> & -> & Hrec & Ht)]; [|by rewrite (Hone env)].
    destruct l' as [|x l']; [done|]. destruct (Hin x (list_elem_of_here _ _)) as [Hx _].
    by rewrite lookup_empty in Hx. }
  assert (fits (to_vec resp)) as Hf
    by (destruct Hresp as [-> |[e ->]]; [destruct HEs as [[_ ->]|(_ & -> & _)]|]; apply Hw).
  pose proof (relay_call_eq (λ r, let? resp := r in
    match resp with Envelopes l => Ok l | RespErr m => Err (Net.Remote m) | _ => Err Unexpected end)
    clock k relay (Fetch d 0 10) resp relay Hr ltac:(destruct Hd as [-> | ->]; apply Hw) Hf) as Hc.
  eexists. split; [exact Hc|]. destruct Hresp as [-> |[e ->]]; [by left|right; by exists e].
Qed.

Lemma call_ack clock k relay alice env : wire_fits alice (re_recipient_device env) env →
  mailbox (rl_store relay) {[re_envelope_id env := env]} →
  ∃ r relay', relay_call clock k relay
      (λ s, client_ack s (re_recipient_device env) [re_envelope_id env]) = (r, relay') ∧
    ((r = Ok tt ∧ mailbox (rl_store relay') ∅) ∨ call_failed r).
Proof.
  intros Hw HE. destruct (respond_ack relay (clock k) env HE) as (resp & relay' & Hr & Hcase).
  assert (fits (to_vec resp)) as Hf by (destruct Hcase as [[-> _]|[e ->]]; apply Hw).
  pose proof (relay_call_eq (λ r, let? resp := r in
    match resp with RespOk => Ok tt | RespErr m => Err (Net.Remote m) | _ => Err Unexpected end)
    clock k relay _ resp relay' Hr (wf_ack _ _ _ Hw) Hf) as Hc.
  eexists _, relay'. split; [exact Hc|].
  destruct Hcase as [[-> Hm]|[e ->]]; [by left|right; by exists e].
Qed.

(** What may go wrong: the relay's database, or the check of its file. *)
Definition catchup_error (ct : list byte) (file : EConnection → option (result io_error (list byte)))
    (e : DemoError) : Prop :=
  match e with
  | DmRelay (Net.Remote m) => ∃ e, m = edb_text e
  | DmAssert Hidden => contains ct secret = true
  | DmIo => ∃ c e, file c = Some (Err e)
  | DmAssert DiskHidden => ∃ c bytes, file c = Some (Ok bytes) ∧ contains bytes secret = true
  | _ => False
  end.

Ltac stage := cbn [mbind result_bind committed map_err].

(** Fetching, opening, committing and acknowledging the one envelope that waits. *)
Lemma bob_online_ok clock relay alice bob bob' bob_e2ee bob_e2ee' env msg ct file :
  wire_fits alice (device_id bob) env → mailbox (rl_store relay) {[re_envelope_id env := env]} →
  re_recipient_device env = device_id bob → re_ts_ms env = 2%N → se_payload msg = secret → verified msg →
  open_from_relay_auto bob_e2ee None (re_ciphertext env) = (Ok msg, bob_e2ee') →
  commit_remote bob msg = (Ok true, bob') → device_id bob' = device_id bob →
  match bob_online clock relay bob bob_e2ee msg with
  | Ok (b, relay') => b = bob' ∧ mailbox (rl_store relay') ∅
  | Err e => catchup_error ct file e
  end.
Proof.
  intros Hw HE Hrec Hts Hy Hv Ho Hb Hid. unfold bob_online.
  destruct (call_fetch clock 1 relay alice (device_id bob) env (device_id bob) _ [env] Hw (or_intror eq_refl) HE)
    as (r & -> & [-> |[e ->]]); [by right|stage|by exists e].
  rewrite check_true by done. cbn [head ok_or]. stage. rewrite Ho. stage.
  pose proof (Hv : @verify_event link_event msg = Ok tt) as ->. stage.
  do 2 rewrite check_true by by apply bool_decide_eq_true_2. rewrite Hb. stage.
  rewrite Hid, <-Hrec. rewrite <-Hrec in Hw.
  destruct (call_ack clock 2 relay alice env Hw HE) as (r & relay1 & -> & [[-> HE1]|[e ->]]); [stage|by exists e].
  destruct (call_fetch clock 3 relay1 alice _ env (re_recipient_device env) _ [] Hw (or_intror eq_refl) HE1)
    as (r & -> & [-> |[e ->]]); [by left|stage|by exists e].
  by rewrite check_true.
Qed.

(** The message of the second phase, and the last look at the relay. *)
Lemma direct_phase_ok clock relay a b a2 b2 create msg live ct env
    (file : EConnection → option (result io_error (list byte))) :
  wire_fits a (kp_device_id b) env → mailbox (rl_store relay) ∅ → fits (to_vec live) →
  holds a2 catchup_room (log [msg; create]) → device_id a2 = a →
  holds b2 catchup_room (log [msg; create]) → device_id b2 = kp_device_id b →
  chained catchup_room [live; msg; create] → signed b (catchup_live b msg) = Ok live →
  match direct_phase clock relay b a2 b2 msg file with
  | Ok d => mailbox (rl_store (cu_relay d)) ∅ ∧
      events (cu_alice d) = log [live; msg; create] ∧ events (cu_bob d) = log [live; msg; create] ∧
      tip_set (cu_alice d) catchup_room = {[se_id live]} ∧ tip_set (cu_bob d) catchup_room = {[se_id live]}
  | Err e => catchup_error ct file e
  end.
Proof.
  intros Hw HE Hf Ha2 Da2 Hb2 Db2 H3 Hl. inversion H3 as [|? ? V3]; subst.
  destruct (holds_local _ _ _ _ Hb2 H3) as (b3 & Eb3 & Hb3 & Db3).
  destruct (holds_remote _ _ _ _ Ha2 H3) as (a3 & Ea3 & Ha3 & Da3).
  destruct (ends_agree _ _ _ _ _ Ha3 Hb3 H3) as (_ & Na & Nb & Ta & Tb).
  unfold direct_phase. rewrite Hl. stage. rewrite Eb3. stage. rewrite deliver_one_ok by done. stage.
  rewrite Ea3. stage. rewrite Na, Nb, Ta, Tb. do 2 rewrite check_true by (apply bool_decide_eq_true_2; set_solver).
  do 2 rewrite check_true by done. rewrite Da3, Db3, Db2.
  destruct (call_fetch clock 4 relay _ _ env (device_id a2) _ [] Hw (or_introl eq_refl) HE)
    as (r & -> & [-> |[e ->]]); [by left|stage|by exists e]. rewrite check_true by done.
  destruct (call_fetch clock 5 relay _ _ env (kp_device_id b) _ [] Hw (or_intror eq_refl) HE)
    as (r & -> & [-> |[e ->]]); [by left|stage|by exists e]. rewrite check_true by done.
  pose proof (conj (ho_events _ _ _ Ha3) (ho_events _ _ _ Hb3)) as [Ea Eb].
  destruct (file _) as [[bytes|e]|] eqn:Hfile; stage; [|by eexists _, _|by split_and!].
  destruct (contains bytes secret) eqn:Hb; [by eexists _, _|by split_and!].
Qed.

(** C4: A message for an offline device arrives: sealed for the keys the device published,
    put on a fresh relay, fetched, opened, committed and acknowledged, it is on both
    nodes, a later event goes over without the relay, the mailbox is empty at the end,
    and no assertion of the program fails, when the hashes of the three events do not
    collide.  The run stops only on an error of the relay's database or file, or if the
    secret shows in the ciphertext or the file. *)
Theorem offline_catchup_converges (connects : nat → bool) (draws : Draws) (clock : nat → N * N)
    (relay : RelayState) (file : EConnection → option (result io_error (list byte))) (now : N)
    (create msg live : SignedEvent) (keys : OlmDeviceKeys) (bob_e2ee alice_e2ee alice_e2ee' : E2eeDevice)
    (ct : list byte) :
  let alice := DeviceKeypair_generate (dr_alice draws) in
  let bob := DeviceKeypair_generate (dr_bob draws) in
  let env := RelayEnvelope_new (kp_device_id bob) (kp_device_id alice) (Some catchup_room) ct 2 in
  wait_relay 50 0 connects = true →
  mailbox (rl_store relay) ∅ → rl_limiter relay = RateLimiter_new now DEFAULT_RATE →
  publish_keys (E2eeDevice_new (dr_bob_olm draws).1 (dr_bob_olm draws).2 (kp_device_id bob))
    (dr_publish draws) = (Ok keys, bob_e2ee) →
  establish_olm_outbound (E2eeDevice_new (dr_alice_olm draws).1 (dr_alice_olm draws).2 (kp_device_id alice))
    keys (dr_outbound draws) = (Ok tt, alice_e2ee) →
  signed alice (catchup_create alice) = Ok create → signed alice (catchup_msg alice create) = Ok msg →
  signed bob (catchup_live bob msg) = Ok live →
  seal_for_relay_olm alice_e2ee (kp_device_id bob) msg (dr_seal draws) = (Ok ct, alice_e2ee') →
  small env → wire_fits (kp_device_id alice) (kp_device_id bob) env → fits (to_vec live) →
  collision_free [create; msg; live] →
  match relay_offline_catchup connects draws clock relay file with
  | Ok d => mailbox (rl_store (cu_relay d)) ∅ ∧
      events (cu_alice d) = log [live; msg; create] ∧ events (cu_bob d) = log [live; msg; create] ∧
      tip_set (cu_alice d) catchup_room = {[se_id live]} ∧ tip_set (cu_bob d) catchup_room = {[se_id live]}
  | Err e => catchup_error ct file e
  end.
Proof.
  cbv zeta. set (a := DeviceKeypair_generate (dr_alice draws)). set (b := DeviceKeypair_generate (dr_bob draws)).
  set (env := RelayEnvelope_new _ _ _ _ _). intros Hready HE Hlim Hpub Hest Hc Hm Hl Hseal Hsmall Hw Hf Hcf.
  assert (chained catchup_room [live; msg; create]) as H3 by by apply (chain_signed _ _ _ _ _ _ _ _ _ catchup_room Hc Hm Hl).
  inversion H3 as [|? ? V3 _ _ _ H2]; inversion H2 as [|? ? V2 _ _ Hdist H1]; subst.
  destruct (open_first_olm _ _ _ _ _ _ None _ _ _ _ _ (lookup_empty _) (lookup_empty _) Hpub Hest Hseal)
    as (Hv2 & bob_e2ee' & _ & _ & Hopen & _).
  pose proof (V2 : @verify_event (@store_event node_store) msg = Ok tt) as V2'. rewrite V2' in Hopen.
  destruct (holds_two (kp_device_id a) catchup_room create msg H2) as [(a1 & a2 & Ea1 & Ea2 & _ & Ha2 & _ & Da2) _].
  destruct (holds_two (kp_device_id b) catchup_room create msg H2) as [_ (b1 & b2 & Eb1 & Eb2 & Hb1 & Hb2 & Db1 & Db2)].
  destruct (ends_agree _ _ _ _ _ Ha2 Hb2 H2) as (Hids & _ & _ & Ta2 & Tb2).
  unfold relay_offline_catchup, from_crypto_device. fold a b. rewrite Hready.
  replace (mkDeviceId (DeviceId_0 (kp_device_id a))) with (kp_device_id a) by by destruct (kp_device_id a).
  replace (mkDeviceId (DeviceId_0 (kp_device_id b))) with (kp_device_id b) by by destruct (kp_device_id b).
  stage. rewrite Hpub. stage. rewrite Hest. stage. rewrite Hc. stage. rewrite Ea1. stage. rewrite Eb1. stage.
  rewrite Hm. stage. rewrite Ea2. stage. rewrite Hseal. stage.
  rewrite check_true by by apply bool_decide_eq_true_2.
  destruct (contains ct secret) eqn:Hct; [exact Hct|]. rewrite check_true by done.
  rewrite Db1, Da2. fold env.
  destruct (call_put clock 0 relay (kp_device_id a) (kp_device_id b) env now) as (r & relay1 & -> & [[-> HE1]|[e ->]]);
    [done..|stage|by exists e].
  rewrite check_true.
  2: { unfold has_event. rewrite (ho_events _ _ _ Hb1), bool_decide_eq_false_2; [done|].
       rewrite log_fresh by done. by intros [? ?]. }
  rewrite check_true.
  2: { apply bool_decide_eq_true_2. rewrite Ta2, (chained_tip _ _ _ _ Hb1 H1). apply Forall_cons_1 in Hdist as [? _]. set_solver. }
  pose proof (signed_verified _ _ _ Hm) as (_ & _ & _ & _ & Hy & _).
  pose proof (bob_online_ok clock relay1 (kp_device_id a) b1 b2 bob_e2ee bob_e2ee' env msg ct file) as Hon.
  rewrite Db1 in Hon. specialize (Hon Hw HE1 eq_refl eq_refl Hy V2 Hopen Eb2 Db2).
  destruct (bob_online _ _ _ _ _) as [[b2' relay2]|e]; [destruct Hon as [-> HE2]; stage|exact Hon].
  rewrite Hids, Ta2, Tb2. do 2 rewrite check_true by by apply bool_decide_eq_true_2.
  by eapply direct_phase_ok.
Qed.

End catchup.
