(* ===== verification/Bench.v ===== *)
(** * The benchmark programs ([crates/td-event/examples/ingest_bench.rs],
    [crates/td-crypto/examples/e2ee_bench.rs])

    What they run, without the clocks and the rates they print: a chain of signed events
    ingested one by one, and a room key handed to two members over new Olm sessions,
    after which they read every message.  An [expect] or [unwrap] that fails is an error;
    keys, draws and the variable [TD_BENCH_N] are arguments. *)

From S2P Require Import Prelude Text Crypto Event Dag Store Sync Room Net Link E2ee Persist Session Demos.

(** [TD_BENCH_N], or the default. *)
Definition bench_n (var : option (list byte)) (dflt : N) : N :=
  default dflt (s ← var; parse_uint (2 ^ 64) s).

(** ** [ingest_bench.rs] *)

Section ingest.
Context {NE : NodeEnv} {NL : NodeEnvLaws}.
#[local] Existing Instance persist_iter.
#[local] Existing Instance link_event.

Inductive BenchPanic : Type :=
| SignPanic (e : EventError)
| IngestPanic (e : DagError).

Definition bench_room : RoomId := mkRoomId (Array (n:=32) (repeat x09 32) eq_refl).

(** The [i]-th event; the payload is [format!(r#"{{"i":{i}}}"#)]. *)
Definition bench_event (author : DeviceId) (i : N) (parents : list EventId) : UnsignedEvent :=
  mkUnsignedEvent bench_room parents (if (i =? 0)%N then CreateRoom else Message)
    (x7b :: quoted (text "i") ++ x3a :: dec i ++ [x7d]) author (i + 1).

Fixpoint bench_sign (sk : SigningKey) (author : DeviceId) (todo : nat) (i : N) (parents : list EventId) :
    result BenchPanic (list SignedEvent) :=
  match todo with
  | O => Ok []
  | S todo =>
    let? ev := map_err SignPanic (sign_event sk (bench_event author i parents)) in
    let? events := bench_sign sk author todo (i + 1) [se_id ev] in
    Ok (ev :: events)
  end.

Fixpoint bench_ingest (dag : RoomDag) (l : list SignedEvent) : result BenchPanic RoomDag :=
  match l with
  | [] => Ok dag
  | ev :: l =>
    let '(r, dag) := ingest dag ev in
    let? _ := map_err IngestPanic r in bench_ingest dag l
  end.

Definition ingest_bench (sk : SigningKey) (n : N) : result BenchPanic RoomDag :=
  let author := DeviceId_from_verifying_key (verifying_key sk) in
  let? events := bench_sign sk author (N.to_nat n) 0 [] in
  bench_ingest (RoomDag_new bench_room) events.

(** ** Lemmas *)

Lemma chained_verified r l : chained r l → Forall verified l.
Proof. induction 1; by constructor. Qed.

(** An event unlike all of a list has an id of its own. *)
Lemma distinct_from l ev : collision_free (ev :: l) → verified ev → Forall verified l →
  Forall (λ x, x ≠ ev) l → Forall (λ x, se_id x ≠ se_id ev) l.
Proof.
  intros Hcf Hv Hl Hne. rewrite !list.Forall_forall in *. intros x Hx.
  apply (verified_distinct (ev :: l)); auto; set_solver.
Qed.

(** Signing never stops the benchmark. *)
Lemma bench_sign_total sk author todo : ∀ i parents, DeviceId_from_verifying_key (verifying_key sk) = author →
  ∃ l, bench_sign sk author todo i parents = Ok l.
Proof.
  induction todo as [|todo IH]; intros i parents Ha; [by exists []|]. cbn [bench_sign].
  destruct (sign_event_is_ok (RE:=node_room) sk (bench_event author i parents)) as [ev Hev]; [by subst|].
  destruct (IH (i + 1)%N [se_id ev] Ha) as [l Hl]. exists (ev :: l).
  change (sign_event sk ?u) with (sign_event (ENV:=room_event) sk u). rewrite Hev. cbn [map_err mbind result_bind].
  by rewrite Hl.
Qed.

(** The events signed on top of [acc] continue its chain. *)
Lemma bench_sign_chained sk todo : ∀ i acc, chained bench_room acc →
  Forall (λ e, (se_ts_ms e ≤ i)%N) acc → ∀ l,
  bench_sign sk (DeviceId_from_verifying_key (verifying_key sk)) todo i (se_id <$> take 1 acc) = Ok l →
  collision_free (l ++ acc) → length l = todo ∧ chained bench_room (rev l ++ acc).
Proof.
  induction todo as [|todo IH]; intros i acc Hc Hts l Hsign Hcf; [by injection Hsign as <-|]. cbn [bench_sign] in Hsign.
  set (u := bench_event _ i _) in *.
  destruct (sign_event_is_ok (RE:=node_room) sk u eq_refl) as [ev Hev].
  pose proof (sign_event_fields (RE:=node_room) _ _ _ Hev) as (Hr & Hp & _ & _ & _ & Ht).
  pose proof (sign_event_verified _ _ _ Hev) as Hv. cbn in Hr, Hp, Ht.
  change (sign_event sk u) with (sign_event (ENV:=room_event) sk u) in Hsign. rewrite Hev in Hsign.
  cbn [map_err mbind result_bind] in Hsign. apply bind_ok_inv in Hsign as (k & Hk & [= <-]).
  assert (Forall (λ x, se_id x ≠ se_id ev) acc) as Hd.
  { apply distinct_from; [|done|by eapply chained_verified|].
    { eapply collision_free_mono; [|exact Hcf]. set_solver. }
    eapply Forall_impl; [|exact Hts]. intros x Hx ->. lia. }
  assert (chained bench_room (ev :: acc)) as Hc' by by constructor.
  destruct (IH (i + 1)%N (ev :: acc) Hc') with (l := k) as [Hlen Hch].
  { constructor; [lia|]. eapply Forall_impl; [|exact Hts]. cbn. lia. }
  { exact Hk. }
  { eapply collision_free_mono; [|exact Hcf]. set_solver. }
  cbn [length rev]. rewrite <-app_assoc. split; [by rewrite Hlen|exact Hch].
Qed.

(** Ingesting a chain in order ends with exactly its events. *)
Lemma bench_ingest_chained l : ∀ d acc, chained bench_room (rev l ++ acc) → dag_wf d →
  dag_room_id d = Some bench_room → dag_events d = log acc →
  ∃ d', bench_ingest d l = Ok d' ∧ dag_wf d' ∧ dag_events d' = log (rev l ++ acc).
Proof.
  induction l as [|ev l IH]; intros d acc Hc Hd Hroom He; [by exists d|]. cbn [bench_ingest].
  cbn [rev] in Hc. rewrite <-app_assoc in Hc. cbn [app] in Hc.
  assert (chained bench_room (ev :: acc)) as Hca.
  { clear -Hc. induction (rev l) as [|x k IHk]; [done|]. apply IHk. by inversion Hc. }
  inversion Hca as [|? ? Hv Hr Hp Hdist Hacc]; subst.
  assert (ingest d ev = (Ok true, insert_event (adopt d ev) ev)) as Hin.
  { apply ingest_new_Ok; [done|right; by rewrite Hroom, Hr|rewrite He; by apply log_fresh|].
    intros p Hpin. rewrite He. rewrite Hp in Hpin. destruct acc as [|x acc]; [by apply not_elem_of_nil in Hpin|].
    change (p ∈ [se_id x]) in Hpin. apply list_elem_of_singleton in Hpin as ->. cbn. rewrite lookup_insert_eq. eauto. }
  pose proof (ingest_preserves_wf d ev Hd) as Hd'. rewrite Hin in *. cbn [map_err mbind result_bind].
  destruct (IH (insert_event (adopt d ev) ev) (ev :: acc)) as (d' & Hd1 & Hw & Hev); [exact Hc|exact Hd'| | |].
  - unfold adopt. by rewrite Hroom.
  - cbn. by rewrite adopt_events, He.
  - exists d'. split_and!; [done|done|]. cbn [rev]. by rewrite <-app_assoc.
Qed.

(** The benchmark measures what it says: for every number of events, which it always
    signs, when their hashes do not collide, it runs to its end with that many events in
    the DAG and, if there is one, the last as the only tip. *)
Lemma ingest_bench_complete (sk : SigningKey) (n : N) :
  ∃ l, bench_sign sk (DeviceId_from_verifying_key (verifying_key sk)) (N.to_nat n) 0 [] = Ok l ∧
  (collision_free l →
   ∃ d, ingest_bench sk n = Ok d ∧ RoomDag_len d = N.to_nat n ∧ chained bench_room (rev l) ∧
     dag_events d = log (rev l) ∧ tips d = se_id <$> take 1 (rev l)).
Proof.
  unfold ingest_bench.
  destruct (bench_sign_total sk _ (N.to_nat n) 0 [] eq_refl) as [l Hl]. exists l. split; [done|]. intros Hcf.
  destruct (bench_sign_chained sk (N.to_nat n) 0 []) with (l := l) as [Hlen Hc];
    [constructor|constructor|done|by rewrite app_nil_r|].
  rewrite Hl. cbn [mbind result_bind].
  destruct (bench_ingest_chained l (RoomDag_new bench_room) [] Hc) as (d & Hd & Hw & He); [apply dag_wf_empty|done..|].
  rewrite app_nil_r in *. exists d. split_and!; [done| |done|done|].
  - unfold RoomDag_len. rewrite He, (log_size _ _ Hc), length_rev. done.
  - destruct (rev l) as [|e k].
    + unfold tips, map_keys. rewrite He. 
      assert (map_iter (log []) = []) as ->; [|done]. apply Permutation_nil.
      rewrite map_iter_perm. cbn [log foldr]. by rewrite map_to_list_empty.
    + apply singleton_list; [by apply list.NoDup_filter, NoDup_map_keys|]. intros id.
      rewrite (elem_of_tips _ _ Hw), He. by apply (chained_top bench_room).
Qed.

End ingest.

(** ** [e2ee_bench.rs] *)

Section e2ee.
Context `{VZ : Vodozemac, HX : Hex}.

Inductive MemberPanic : Type :=
| E2eePanic (e : E2eeError)
| Utf8Panic.

Definition e2ee_room : list byte := text "bench-room".
Definition honk : list byte := text_object (text "bench-honk").

(** A member opens its copy of the room key and imports it. *)
Definition take_key (member alice : E2eeDevice) (ct : OlmCiphertext) : result MemberPanic E2eeDevice :=
  let '(r, member) := olm_decrypt member (curve25519_b64 alice) ct in
  let? key := map_err E2eePanic r in
  if negb (is_utf8 key) then Err Utf8Panic else
  let '(r, member) := import_group_session_key member key in
  let? _ := map_err E2eePanic r in Ok member.

Fixpoint hand_out (alice bob carol : E2eeDevice) (fanout : list OlmCiphertext) :
    result MemberPanic (E2eeDevice * E2eeDevice) :=
  match fanout with
  | [] => Ok (bob, carol)
  | ct :: fanout =>
    if decide (oc_recipient_device ct = ed_device_id bob) then
      let? bob := take_key bob alice ct in hand_out alice bob carol fanout
    else if decide (oc_recipient_device ct = ed_device_id carol) then
      let? carol := take_key carol alice ct in hand_out alice bob carol fanout
    else hand_out alice bob carol fanout
  end.

Fixpoint honk_loop (todo : nat) (i : N) (alice bob carol : E2eeDevice) :
    result MemberPanic (E2eeDevice * E2eeDevice * E2eeDevice) :=
  match todo with
  | O => Ok (alice, bob, carol)
  | S todo =>
    let '(r, alice) := megolm_encrypt alice e2ee_room (honk ++ le_bytes 8 i) in
    let? ct := map_err E2eePanic r in
    let '(r, bob) := megolm_decrypt bob ct in
    let? _ := map_err E2eePanic r in
    let '(r, carol) := megolm_decrypt carol ct in
    let? _ := map_err E2eePanic r in
    honk_loop todo (i + 1) alice bob carol
  end.

(** The device ids of the three generated key pairs, and every draw. *)
Record BenchDraws : Type := mkBenchDraws {
  bd_alice : DeviceId * (Seed * Seed);
  bd_bob : DeviceId * (Seed * Seed);
  bd_carol : DeviceId * (Seed * Seed);
  bd_publish : Seed * Seed;
  bd_outbound : Seed * Seed;
  bd_group : Seed;
  bd_fanout : nat → Seed;
}.
Definition bench_device (x : DeviceId * (Seed * Seed)) : E2eeDevice := E2eeDevice_new x.2.1 x.2.2 x.1.

Definition e2ee_bench (x : BenchDraws) (n : N) : result MemberPanic (E2eeDevice * E2eeDevice * E2eeDevice) :=
  let alice := bench_device (bd_alice x) in
  let '(r, bob) := publish_keys (bench_device (bd_bob x)) (bd_publish x).1 in
  let? bob_keys := map_err E2eePanic r in
  let '(r, carol) := publish_keys (bench_device (bd_carol x)) (bd_publish x).2 in
  let? carol_keys := map_err E2eePanic r in
  let '(r, alice) := establish_olm_outbound alice bob_keys (bd_outbound x).1 in
  let? _ := map_err E2eePanic r in
  let '(r, alice) := establish_olm_outbound alice carol_keys (bd_outbound x).2 in
  let? _ := map_err E2eePanic r in
  let '(_, alice) := create_group_session alice e2ee_room (bd_group x) in
  let recipients := [ed_device_id alice; ed_device_id bob; ed_device_id carol] in
  let '(r, alice) := fanout_megolm_key alice e2ee_room (bd_fanout x) recipients in
  let? fanout := map_err E2eePanic r in
  let? '(bob, carol) := hand_out alice bob carol fanout in
  honk_loop (N.to_nat n) 0 alice bob carol.

(** ** Lemmas *)

Context {VL : VodozemacLaws} {OL : OlmLaws} {OS : OlmStartLaws}.

(** Whoever reads the session from the sender's index on reads the whole loop. *)
Lemma honk_loop_ok todo : ∀ i alice bob carol g k,
  outbound_megolm alice !! e2ee_room = Some g → (k ≤ group_index g)%N →
  (group_index g + N.of_nat todo < 2 ^ 32)%N →
  reads bob (group_id g) (group_ratchet g) k → reads carol (group_id g) (group_ratchet g) k →
  ∃ x, honk_loop todo i alice bob carol = Ok x.
Proof.
  induction todo as [|todo IH]; intros i alice bob carol g k Hg Hk Hn Hb Hc; [by eexists|].
  cbn [honk_loop]. unfold megolm_encrypt. rewrite Hg.
  pose proof (group_encrypt_spec g (honk ++ le_bytes 8 i)) as (Hr & Hid & Hi). specialize (Hi ltac:(lia)).
  destruct (group_encrypt g _) as [msg g'] eqn:He; cbn [snd] in *. cbn [map_err mbind result_bind].
  set (ct := mkMegolmCiphertext _ _ _).
  assert (sealed_from (group_ratchet g) (group_id g) k (honk ++ le_bytes 8 i) ct) as Hs.
  { exists g. split_and!; [done|done|lia|exact Hid|].
    exact (f_equal (λ p, megolm_to_base64 p.1) (eq_sym He)). }
  pose proof (megolm_decrypt_sealed _ _ _ _ _ _ Hb Hs) as Db.
  pose proof (megolm_decrypt_sealed _ _ _ _ _ _ Hc Hs) as Dc.
  pose proof (step_keeps _ _ (step_decrypt bob ct)) as Kb. pose proof (step_keeps _ _ (step_decrypt carol ct)) as Kc.
  destruct (megolm_decrypt bob ct) as [rb bob']. destruct (megolm_decrypt carol ct) as [rc carol'].
  cbn [fst snd] in *. subst rb rc. cbn [map_err mbind result_bind].
  eapply (IH _ _ _ _ g' k); [cbn; apply lookup_insert_eq|lia|lia|..];
    rewrite Hid, Hr; by (apply (keeps_reads _ _ Kb) || apply (keeps_reads _ _ Kc)).
Qed.

(** What an encryption and a new session leave alone. *)
Lemma olm_encrypt_frame d to p s ct d' : olm_encrypt d to p s = (Ok ct, d') →
  oc_recipient_device ct = to ∧ ed_device_id d' = ed_device_id d ∧ ed_account d' = ed_account d ∧
  outbound_megolm d' = outbound_megolm d ∧ ∀ y, y ≠ to → olm_sessions d' !! y = olm_sessions d !! y.
Proof.
  unfold olm_encrypt. destruct (olm_sessions d !! to) as [ses|]; [|done].
  destruct (session_encrypt ses p s) as [[m|e] ses']; [|done]. cbn [map_err mbind result_bind].
  destruct (olm_message_to_json m); [|done]. intros [= <- <-]. split_and!; [done..|].
  intros y Hy. cbn. by rewrite lookup_insert_ne.
Qed.

Lemma establish_frame d keys s r d' : establish_olm_outbound d keys s = (r, d') →
  ed_device_id d' = ed_device_id d ∧ ed_account d' = ed_account d ∧ outbound_megolm d' = outbound_megolm d ∧
  ∀ y, y ≠ ok_device_id keys → olm_sessions d' !! y = olm_sessions d !! y.
Proof.
  unfold establish_olm_outbound. destruct (has_olm_session _ _); [by intros [= <- <-]|].
  destruct (parse_curve (ok_curve25519_b64 keys)) as [ik|]; cbn [mbind result_bind]; [|by intros [= <- <-]].
  destruct (parse_curve _) as [ot|]; cbn [mbind result_bind]; [|by intros [= <- <-]].
  destruct (map_err _ _) as [ses|]; intros [= <- <-]; [|done]. split_and!; [done..|].
  intros y Hy. cbn. by rewrite lookup_insert_ne.
Qed.

(** A first Olm message with the key of [g], taken: the member reads from there on. *)
Lemma take_key_ok a a' b g seed ct alice :
  started a b → olm_encrypt a (ed_device_id b) (session_key_to_base64 (group_key g)) seed = (Ok ct, a') →
  is_utf8 (session_key_to_base64 (group_key g)) = true → inbound_megolm b = ∅ →
  ed_account alice = ed_account a' →
  ∃ b', take_key b alice ct = Ok b' ∧ ed_device_id b' = ed_device_id b ∧
    reads b' (group_id g) (group_ratchet g) (group_index g).
Proof.
  intros Hs He Hu Hb Ha. destruct (first_message _ _ _ _ _ _ Hs He) as (b1 & _ & _ & Hd & Hid & Hin & _).
  unfold take_key, curve25519_b64 in *. rewrite Ha, Hd. cbn [map_err mbind result_bind]. rewrite Hu. cbn [negb].
  destruct (inbound_new_spec g) as (Hr & Hf & Hi).
  unfold import_group_session_key. rewrite session_key_text. cbn [map_err]. rewrite Hin, Hb, lookup_empty.
  cbn [mbind result_bind]. eexists. split; [done|]. split; [done|].
  exists (inbound_new (group_key g)). cbn. by rewrite <-Hi, lookup_insert_eq.
Qed.

(** The room key of a device with two new Olm sessions reaches both members. *)
Lemma room_key_reaches alice2 bob carol seed seeds cts alice4 :
  let g := group_new seed in
  started alice2 bob → started alice2 carol → inbound_megolm bob = ∅ → inbound_megolm carol = ∅ →
  ed_device_id alice2 ≠ ed_device_id bob → ed_device_id alice2 ≠ ed_device_id carol →
  ed_device_id bob ≠ ed_device_id carol → outbound_megolm alice2 = ∅ →
  is_utf8 (session_key_to_base64 (group_key g)) = true →
  let alice3 := (create_group_session alice2 e2ee_room seed).2 in
  fanout_megolm_key alice3 e2ee_room seeds [ed_device_id alice3; ed_device_id bob; ed_device_id carol] = (Ok cts, alice4) →
  outbound_megolm alice4 !! e2ee_room = Some g ∧
  ∃ bob' carol', hand_out alice4 bob carol cts = Ok (bob', carol') ∧
    reads bob' (group_id g) (group_ratchet g) (group_index g) ∧
    reads carol' (group_id g) (group_ratchet g) (group_index g).
Proof.
  cbv zeta. set (g := group_new seed). intros Sb Sc Ib Ic Nab Nac Nbc Ho Hu.
  unfold create_group_session, group_session_id. rewrite Ho, lookup_empty. cbn [fmap option_fmap option_map].
  cbn [set_outbound outbound_megolm]. rewrite lookup_insert_eq. cbn [snd].
  set (alice3 := set_inbound _ _). unfold fanout_megolm_key, export_group_session_key.
  replace (outbound_megolm alice3 !! e2ee_room) with (Some g) by (symmetry; apply lookup_insert_eq).
  cbn [ok_or mbind result_bind fanout_loop]. rewrite decide_True by done.
  rewrite decide_False by by apply not_eq_sym.
  destruct (olm_encrypt alice3 (ed_device_id bob) _ _) as [[cb|e] alice3'] eqn:Eb; [|done].
  destruct (olm_encrypt_frame _ _ _ _ _ _ Eb) as (Rb & Ida & Aa & Oa & Sa).
  rewrite Ida, decide_False by by apply not_eq_sym.
  destruct (olm_encrypt alice3' (ed_device_id carol) _ _) as [[cc|e] alice3''] eqn:Ec; [|done].
  destruct (olm_encrypt_frame _ _ _ _ _ _ Ec) as (Rc & Idc & Ac & Oc & _).
  intros [= <- <-]. split; [rewrite Oc, Oa; apply lookup_insert_eq|].
  assert (started alice3 bob) as Sb3 by by apply (started_kept alice2).
  assert (started alice3' carol) as Sc3.
  { apply (started_kept alice3); [by apply (started_kept alice2)|done|done|]. apply Sa. by apply not_eq_sym. }
  destruct (take_key_ok _ _ _ g _ _ alice3'' Sb3 Eb Hu Ib Ac) as (bob' & Hb & Hidb & Hrb).
  destruct (take_key_ok _ _ _ g _ _ alice3'' Sc3 Ec Hu Ic eq_refl) as (carol' & Hc & _ & Hrc).
  exists bob', carol'. split; [|done]. cbn [app hand_out]. rewrite decide_True by done. rewrite Hb.
  cbn [mbind result_bind hand_out]. rewrite Rc, Hidb. rewrite decide_False by by apply not_eq_sym.
  rewrite decide_True by done. by rewrite Hc.
Qed.

(** The benchmark runs to its end: for three different devices, when the ratchet library
    makes the two sessions and encrypts the key for both, every message of the loop is
    read by both members. *)
Lemma e2ee_bench_reads (x : BenchDraws) (n : N) kb kc bob carol alice1 alice2 cts alice4 :
  let alice := bench_device (bd_alice x) in
  let alice3 := (create_group_session alice2 e2ee_room (bd_group x)).2 in
  let g := group_new (bd_group x) in
  (bd_alice x).1 ≠ (bd_bob x).1 → (bd_alice x).1 ≠ (bd_carol x).1 → (bd_bob x).1 ≠ (bd_carol x).1 →
  publish_keys (bench_device (bd_bob x)) (bd_publish x).1 = (Ok kb, bob) →
  publish_keys (bench_device (bd_carol x)) (bd_publish x).2 = (Ok kc, carol) →
  establish_olm_outbound alice kb (bd_outbound x).1 = (Ok tt, alice1) →
  establish_olm_outbound alice1 kc (bd_outbound x).2 = (Ok tt, alice2) →
  fanout_megolm_key alice3 e2ee_room (bd_fanout x)
    [ed_device_id alice3; ed_device_id bob; ed_device_id carol] = (Ok cts, alice4) →
  is_utf8 (session_key_to_base64 (group_key g)) = true → (group_index g + n < 2 ^ 32)%N →
  ∃ y, e2ee_bench x n = Ok y.
Proof.
  cbv zeta. intros Nab Nac Nbc Pb Pc E1 E2 Hf Hu Hn.
  destruct (publish_keys_ok _ _ _ _ Pb) as (accb & otkb & _ & Hbob & Hkb).
  destruct (publish_keys_ok _ _ _ _ Pc) as (accc & otkc & _ & Hcarol & Hkc).
  destruct (establish_frame _ _ _ _ _ E1) as (I1 & A1 & O1 & S1).
  destruct (establish_frame _ _ _ _ _ E2) as (I2 & A2 & O2 & S2).
  destruct (establish_starts _ alice1 _ _ _ _ _ (lookup_empty _) (lookup_empty _) Pb E1) as (Sb & _ & _).
  assert (olm_sessions alice1 !! ed_device_id (bench_device (bd_carol x)) = None) as Hnone.
  { rewrite S1; [apply lookup_empty|]. rewrite Hkb. cbn. by apply not_eq_sym. }
  destruct (establish_starts alice1 alice2 (bench_device (bd_carol x)) carol kc _ _ Hnone (lookup_empty _) Pc E2) as (Sc & _ & _).
  assert (started alice2 bob) as Sb2.
  { apply (started_kept alice1); [done..|]. rewrite S2; [done|]. rewrite Hkc, Hbob. cbn. done. }
  destruct (room_key_reaches alice2 bob carol (bd_group x) (bd_fanout x) cts alice4) as (Hout & bob' & carol' & Hh & Rb & Rc);
    rewrite ?Hbob, ?Hcarol, ?I2, ?I1, ?O2, ?O1; try done; [by rewrite <-Hbob|by rewrite <-Hcarol|by rewrite <-Hbob, <-Hcarol|].
  unfold e2ee_bench. rewrite Pb. cbn [map_err mbind result_bind]. rewrite Pc. cbn [map_err mbind result_bind].
  rewrite E1. cbn [map_err mbind result_bind]. rewrite E2. cbn [map_err mbind result_bind].
  destruct (create_group_session alice2 e2ee_room (bd_group x)) as [sid alice3]; cbn [snd] in Hf.
  rewrite Hf. cbn [map_err mbind result_bind]. rewrite Hcarol, Hbob in *. rewrite Hh. cbn [mbind result_bind].
  eapply honk_loop_ok; [exact Hout|reflexivity| |exact Rb|exact Rc]. rewrite N2Nat.id. exact Hn.
Qed.

End e2ee.
