(* ===== verification/Assist.v ===== *)
(** * The relay assist of a node ([crates/td-node/src/rpc.rs], [poll_relay_once] and
    [push_outbox_to_relay])

    Fetching, opening, ingesting and acknowledging what others left on the relay,
    and sealing the outbox for every recipient.  The lock is released between the
    steps on an envelope: [others] is what other requests do there, step by step. *)

From S2P Require Import Prelude Text Crypto Event Dag Store Room Sync Net Link Passkey E2ee Seal.
From S2P Require Import Persist Rate Access Session Peers.

Section assist.
Context {NE : NodeEnv}.
#[local] Existing Instance persist_iter.
#[local] Existing Instance link_event.

(** ** Fetching *)

Definition set_last_error (g : NodeSession) (e : option Fault) : NodeSession :=
  with_relay g (mkRelayStatus (rl_last_fetch_ms (ns_relay g)) e (rl_last_fetched (ns_relay g))).

(** One envelope: the event it opens to, if any, whether it was new, the session. *)
Definition poll_item (g : NodeSession) (env : RelayEnvelope) (others : NodeSession → NodeSession) :
    option (SignedEvent * bool) * NodeSession :=
  let '(opened, e2ee) :=
    open_from_relay_auto (ns_e2ee g) (Some (rm_relay_key (ns_remote g))) (re_ciphertext env) in
  let g := others (with_e2ee g e2ee) in
  match opened with
  | Ok ev =>
    let '(r, g) := ingest_remote g ev in
    (Some (ev, match r with Ok b => b | Err _ => false end), g)
  | Err e => (None, set_last_error g (Some (FSync e)))
  end.

(** The ids to acknowledge, how many events were new, the session. *)
Fixpoint poll_items (g : NodeSession) (items : list RelayEnvelope)
    (others : nat → NodeSession → NodeSession) : list bytes32 * N * NodeSession :=
  match items with
  | [] => ([], 0%N, g)
  | env :: items =>
    let '(r, g) := poll_item g env (others 0) in
    let '(acked, inserted, g) := poll_items (others 1 g) items (λ k, others (2 + k)) in
    match r with
    | Some (_, fresh) =>
      (re_envelope_id env :: acked, (if fresh then inserted + 1 else inserted)%N, g)
    | None => (acked, inserted, g)
    end
  end.

Definition FETCH_LIMIT : N := 64.

(** [connect] is the outcome of dialling the relay, [now] the wall clock. *)
Definition poll_relay_once (g : NodeSession)
    (connect : PeerUri → result RelayClientError TcpStream)
    (others : nat → NodeSession → NodeSession) (now : N) :
    result Fault N * NodeSession :=
  match (let? relay_uri := ok_or (rm_relay_uri (ns_remote g)) (FText (text "no relay configured")) in
         let? peer := map_err FPeer (PeerUri_parse relay_uri) in
         map_err FRelay (connect peer)) with
  | Err e => (Err e, g)
  | Ok client =>
    let device := kp_device_id (ns_keypair g) in
    match client_fetch client device 0 FETCH_LIMIT with
    | (Err e, _) => (Err (FRelay e), g)
    | (Ok items, client) =>
      let '(acked, inserted, g) := poll_items g items others in
      let _ := match acked with [] => client | _ :: _ => (client_ack client device acked).2 end in
      let last_error := if (0 <? inserted)%N then None else rl_last_error (ns_relay g) in
      (Ok inserted, with_relay g (mkRelayStatus (Some now) last_error inserted))
    end
  end.

(** One round of [spawn_relay_poller]. *)
Definition relay_tick (g : NodeSession)
    (connect : PeerUri → result RelayClientError TcpStream)
    (others : nat → NodeSession → NodeSession) (now : N) : NodeSession :=
  match rm_relay_uri (ns_remote g) with
  | None => g
  | Some _ =>
    match poll_relay_once g connect others now with
    | (Ok _, g) => g
    | (Err e, g) => with_relay g (mkRelayStatus (Some now) (Some e) (rl_last_fetched (ns_relay g)))
    end
  end.

(** ** Pushing *)

Definition PUSH_LIMIT : nat := 16.

(** [for _ in 0..n { match pop_outbox() { Some(ev) => events.push(ev), None => break } }] *)
Fixpoint drain_outbox (n : nat) (node : DeviceNode) : list SignedEvent * DeviceNode :=
  match n with
  | O => ([], node)
  | S n =>
    match pop_outbox node with
    | (None, node) => ([], node)
    | (Some ev, node) => let '(l, node) := drain_outbox n node in (ev :: l, node)
    end
  end.

Definition Draws : Type := nat → Seed * Seed * array 12.

(** The loop over the recipients of one event. *)
Fixpoint seal_each (g : NodeSession) (ev : SignedEvent) (recipients : list DeviceId) (draws : Draws) :
    result Fault (list (DeviceId * SignedEvent * list byte)) * NodeSession :=
  match recipients with
  | [] => (Ok [], g)
  | recip :: recipients =>
    let '(seed, seed', nonce) := draws 0 in
    match seal_event_for_recipient g ev recip seed seed' nonce with
    | (Err e, g) => (Err e, g)
    | (Ok (ct, _), g) =>
      match seal_each g ev recipients (λ k, draws (S k)) with
      | (Err e, g) => (Err e, g)
      | (Ok l, g) => (Ok ((recip, ev, ct) :: l), g)
      end
    end
  end.

Fixpoint seal_outbox (g : NodeSession) (events : list SignedEvent) (recipients : list DeviceId)
    (draws : Draws) : result Fault (list (DeviceId * SignedEvent * list byte)) * NodeSession :=
  match events with
  | [] => (Ok [], g)
  | ev :: events =>
    match seal_each g ev recipients draws with
    | (Err e, g) => (Err e, g)
    | (Ok l, g) =>
      match seal_outbox g events recipients (λ k, draws (length recipients + k)) with
      | (Err e, g) => (Err e, g)
      | (Ok l', g) => (Ok (l ++ l'), g)
      end
    end
  end.

Definition envelope_for (sender : DeviceId) (x : DeviceId * SignedEvent * list byte) : RelayEnvelope :=
  let '(recip, ev, ct) := x in
  @RelayEnvelope_new (@env_crypto link_event) recip sender (Some (se_room_id ev)) ct (se_ts_ms ev).

Fixpoint put_all (client : TcpStream) (l : list RelayEnvelope) (n : N) : result RelayClientError N :=
  match l with
  | [] => Ok n
  | env :: l =>
    match client_put client env with
    | (Err e, _) => Err e
    | (Ok _, client) => put_all client l (n + 1)
    end
  end.

Definition push_outbox_to_relay (g : NodeSession)
    (connect : PeerUri → result RelayClientError TcpStream) (draws : Draws) :
    result Fault N * NodeSession :=
  match rm_relay_uri (ns_remote g) with
  | None => (Err (FText (text "no relay configured")), g)
  | Some relay_uri =>
    let sender := kp_device_id (ns_keypair g) in
    let recipients := relay_recipients g in
    let '(events, node) := drain_outbox PUSH_LIMIT (ns_node g) in
    let g := with_node g node in
    if bool_decide (events = []) || bool_decide (recipients = []) then (Ok 0%N, g) else
    match seal_outbox g events recipients draws with
    | (Err e, g) => (Err e, g)
    | (Ok sealed, g) =>
      if bool_decide (sealed = []) then (Ok 0%N, g) else
      (let? peer := map_err FPeer (PeerUri_parse relay_uri) in
       let? client := map_err FRelay (connect peer) in
       map_err FRelay (put_all client (envelope_for sender <$> sealed) 0), g)
    end
  end.

(** ** Lemmas *)

Lemma pop_outbox_eq node : pop_outbox node =
  match outbox node with [] => (None, node) | ev :: l => (Some ev, set_outbox node l) end.
Proof. done. Qed.

Lemma drain_outbox_spec n : ∀ node,
  drain_outbox n node = (take n (outbox node), set_outbox node (drop n (outbox node))).
Proof.
  induction n as [|n IH]; intros node; cbn [drain_outbox]; [by destruct node|].
  rewrite pop_outbox_eq. destruct (outbox node) as [|ev l] eqn:Ho.
  - destruct node; cbn in *; by subst.
  - rewrite IH. cbn. done.
Qed.

(** What sealing leaves of a session: everything but the ratchets. *)
Definition seal_frame (g g' : NodeSession) : Prop :=
  ns_keypair g' = ns_keypair g ∧ ns_node g' = ns_node g ∧ ns_remote g' = ns_remote g ∧
  ns_peer_olm_keys g' = ns_peer_olm_keys g ∧ ns_rooms g' = ns_rooms g.
#[global] Instance seal_frame_preorder : PreOrder seal_frame.
Proof.
  unfold seal_frame. split; [intros a; by split_and!|].
  intros a b c (?&?&?&?&?) (?&?&?&?&?). split_and!; congruence.
Qed.

Lemma ensure_olm_frame g peer s : seal_frame g (ensure_olm_to g peer s).2.
Proof.
  unfold ensure_olm_to. destruct (has_olm_session _ _); [done|].
  destruct (_ !! _) as [keys|]; [|done]. by destruct (establish_olm_outbound _ _ _).
Qed.

Lemma seal_event_frame g ev recip s s' n : seal_frame g (seal_event_for_recipient g ev recip s s' n).2.
Proof.
  unfold seal_event_for_recipient. pose proof (ensure_olm_frame g recip s) as Hf.
  destruct (ensure_olm_to g recip s) as [[u|e] g1]; cbn [snd] in *; [|done].
  destruct (seal_for_relay_olm _ _ _ _) as [r e2ee]. cbn. etrans; [exact Hf|].
  unfold seal_frame. by split_and!.
Qed.

Lemma put_all_Ok l : ∀ client k n, put_all client l k = Ok n → n = (k + N.of_nat (length l))%N.
Proof.
  induction l as [|env l IH]; intros client k n; cbn [put_all length].
  - intros [= <-]. lia.
  - destruct (client_put client env) as [[b|e] c]; [|done]. intros ->%IH. lia.
Qed.

(** What a round of fetching leaves of a session that other requests leave alone. *)
Lemma ingest_remote_frame g ev : let g' := (ingest_remote g ev).2 in
  ns_e2ee g' = ns_e2ee g ∧ ns_remote g' = ns_remote g ∧ ns_keypair g' = ns_keypair g.
Proof.
  unfold ingest_remote. destruct (commit_remote _ _) as [[b|e] n]; cbn; [|done].
  by destruct (is_room_event _).
Qed.

Context {NL : NodeEnvLaws}.

Lemma poll_item_verified g env others ev b g' :
  poll_item g env others = (Some (ev, b), g') → verified ev.
Proof.
  unfold poll_item. pose proof (open_auto_verified (ns_e2ee g) (Some (rm_relay_key (ns_remote g)))
    (re_ciphertext env)) as Hv.
  destruct (open_from_relay_auto _ _ _) as [[x|e] e2ee]; cbn in *; [|done].
  destruct (ingest_remote _ _). intros [= <- _ _]. by apply Hv.
Qed.

Lemma poll_items_spec items : ∀ g others, let '(acked, inserted, g') := poll_items g items others in
  acked `sublist_of` (re_envelope_id <$> items) ∧ (inserted ≤ N.of_nat (length acked))%N.
Proof.
  induction items as [|env items IH]; intros g others; cbn [poll_items]; [done|].
  destruct (poll_item g env (others 0)) as [[[ev b]|] g1];
    specialize (IH (others 1 g1) (λ k, others (2 + k)));
    destruct (poll_items _ _ _) as [[acked n] g2]; destruct IH as [Hs Hn]; cbn.
  - split; [by constructor|]. destruct b; lia.
  - split; [by constructor|done].
Qed.

(** An envelope whose event the node fails to save is acknowledged all the same. *)
Lemma poll_acks_unsaved g env ev e2ee e g' :
  open_from_relay_auto (ns_e2ee g) (Some (rm_relay_key (ns_remote g))) (re_ciphertext env) =
    (Ok ev, e2ee) →
  ingest_remote (with_e2ee g e2ee) ev = (Err e, g') →
  poll_items g [env] (λ _ x, x) = ([re_envelope_id env], 0%N, g').
Proof. intros Ho Hi. cbn. unfold poll_item. by rewrite Ho, Hi. Qed.

(** An envelope that does not open is kept on the relay, at the head of the next
    fetch, which starts from the first instant again. *)
Lemma poll_keeps_unopened g env e e2ee :
  open_from_relay_auto (ns_e2ee g) (Some (rm_relay_key (ns_remote g))) (re_ciphertext env) =
    (Err e, e2ee) →
  (poll_items g [env] (λ _ x, x)).1 = ([], 0%N).
Proof. intros Ho. cbn. unfold poll_item. by rewrite Ho. Qed.

(** ** What sealing promises *)

Context {OL : OlmLaws}.

(** The recipient can open what [g] seals for it: it has the same key, or the other end
    of the Olm session. *)
Definition in_step (g : NodeSession) (recip : DeviceId) (seed : Seed) (m : SealMode)
    (gB : NodeSession) : Prop :=
  match m with
  | AeadV1 => rm_relay_key (ns_remote g) = rm_relay_key (ns_remote gB)
  | OlmV2 => let a := ns_e2ee (ensure_olm_to g recip seed).2 in ∃ x y,
      olm_sessions a !! recip = Some x ∧
      olm_sessions (ns_e2ee gB) !! ed_device_id a = Some y ∧ paired x y
  end.

Definition opens_to (gB : NodeSession) (ct : list byte) (ev : SignedEvent) : Prop :=
  ∃ e2ee, open_from_relay_auto (ns_e2ee gB) (Some (rm_relay_key (ns_remote gB))) ct = (Ok ev, e2ee).

Lemma sealed_opens gA gA' gB ev recip seed seed' nonce ct m : verified ev →
  ed_device_id (ns_e2ee gB) = recip →
  seal_event_for_recipient gA ev recip seed seed' nonce = (Ok (ct, m), gA') →
  in_step gA recip seed m gB → opens_to gB ct ev.
Proof.
  intros Hv <- Hs Hm. pose proof (Hv : @verify_event (@store_event node_store) ev = Ok tt) as Hv'.
  unfold opens_to. unfold seal_event_for_recipient in Hs.
  pose proof (ensure_olm_frame gA (ed_device_id (ns_e2ee gB)) seed) as (_ & _ & Hr & _ & _).
  unfold in_step in Hm. destruct (ensure_olm_to gA _ seed) as [[u|e] g1]; cbn [snd] in *.
  - destruct (seal_for_relay_olm _ _ _ _) as [[c|e] a'] eqn:Hseal; [|done].
    injection Hs as <- <- <-. destruct Hm as (x & y & Hx & Hy & Hp).
    destruct (open_sealed_olm _ _ _ (Some (rm_relay_key (ns_remote gB))) _ _ _ _ _ Hx Hy Hp Hseal)
      as [(b' & -> & _) _].
    rewrite Hv'. by exists b'.
  - rewrite Hr in Hs. destruct (seal_for_relay _ _ _) as [c|] eqn:Hseal; [|done].
    injection Hs as <- <- <-. rewrite Hm in Hseal.
    destruct (open_sealed_aead (ns_e2ee gB) _ _ _ _ Hseal) as [_ ->]. rewrite Hv'. by eexists.
Qed.

(** The ciphertexts are sealed one after the other from [g], each with random draws of its
    own (the [i]-th with the [i]-th), and each opens to its event at its recipient. *)
Inductive seals (draws : Draws) : nat → NodeSession → list (DeviceId * SignedEvent * list byte) →
    NodeSession → Prop :=
| seals_nil i g : seals draws i g [] g
| seals_cons i g g1 g2 recip ev ct m l seed seed' nonce :
    draws i = (seed, seed', nonce) →
    seal_event_for_recipient g ev recip seed seed' nonce = (Ok (ct, m), g1) →
    (verified ev → ∀ gB, ed_device_id (ns_e2ee gB) = recip → in_step g recip seed m gB →
      opens_to gB ct ev) →
    seals draws (S i) g1 l g2 → seals draws i g ((recip, ev, ct) :: l) g2.

Lemma seals_app draws i g l g1 l' g2 : seals draws i g l g1 → seals draws (i + length l) g1 l' g2 →
  seals draws i g (l ++ l') g2.
Proof.
  intros H. revert l' g2. induction H as [i g|i g g1 g2 recip ev ct m l s s' n Hd Hs Ho Hl IH]; intros l' g3 H'.
  - by rewrite Nat.add_0_r in H'.
  - eapply (seals_cons draws i); [done..|]. apply IH. by rewrite Nat.add_succ_comm.
Qed.

Lemma seal_each_spec draws ev recipients : ∀ i g d, (∀ k, d k = draws (i + k)) →
  let '(r, g') := seal_each g ev recipients d in
  seal_frame g g' ∧ ∀ l, r = Ok l → l.*1 = (λ d, (d, ev)) <$> recipients ∧ seals draws i g l g'.
Proof.
  induction recipients as [|recip rs IH]; intros i g d Hd; cbn [seal_each].
  - split; [done|]. intros l [= <-]. split; [done|constructor].
  - pose proof (Hd 0) as H0. rewrite Nat.add_0_r in H0.
    destruct (d 0) as [[s s'] nonce]. pose proof (seal_event_frame g ev recip s s' nonce) as Hf.
    destruct (seal_event_for_recipient g ev recip s s' nonce) as [[[ct m]|e] g1] eqn:Hs; cbn [snd] in Hf.
    2: { split; [done|]. done. }
    specialize (IH (S i) g1 (λ k, d (S k))). destruct (seal_each g1 ev rs _) as [[l|e] g2];
      destruct IH as [Hf2 IH]; try (intros k; by rewrite Hd, Nat.add_succ_comm);
      (split; [by etrans|]); [|done].
    intros l' [= <-]. destruct (IH l eq_refl) as [Hl Hss]. cbn. split; [by rewrite Hl|].
    eapply (seals_cons draws i); [by rewrite <-H0|exact Hs| |exact Hss].
    intros Hv gB Hid Hin. by eapply sealed_opens.
Qed.

Lemma seal_outbox_spec draws events recipients : ∀ i g d, (∀ k, d k = draws (i + k)) →
  let '(r, g') := seal_outbox g events recipients d in
  seal_frame g g' ∧ ∀ l, r = Ok l →
    l.*1 = (events ≫= λ ev, (λ d, (d, ev)) <$> recipients) ∧ seals draws i g l g'.
Proof.
  induction events as [|ev evs IH]; intros i g d Hd; cbn [seal_outbox].
  - split; [done|]. intros l [= <-]. split; [done|constructor].
  - pose proof (seal_each_spec draws ev recipients i g d Hd) as He.
    destruct (seal_each g ev recipients d) as [[l|e] g1]; destruct He as [Hf He].
    2: { split; [done|]. done. }
    specialize (He l eq_refl) as [Hl Hss].
    specialize (IH (i + length recipients) g1 (λ k, d (length recipients + k))).
    destruct (seal_outbox g1 evs recipients _) as [[l'|e] g2]; destruct IH as [Hf2 IH];
      try (intros k; rewrite Hd; f_equal; lia); (split; [by etrans|]); [|done].
    intros l'' [= <-]. destruct (IH l' eq_refl) as [Hl' Hss']. split.
    + by rewrite fmap_app, Hl, Hl'.
    + eapply seals_app; [exact Hss|].
      by rewrite <-(length_fmap fst l), Hl, length_fmap.
Qed.

(** ** Theorems *)

(** C27: pushing the outbox, on every outcome: without a relay nothing happens;
    otherwise the sixteen oldest events leave the outbox, whatever becomes of
    them, and the rest of the node stays.  Success means that there was nothing to
    send or nobody to send to, or that the relay accepted one envelope per event and
    recipient, in this order, and counts them; each envelope was sealed by this node
    for its recipient with random draws of its own, and opens there to the event. *)
Theorem push_outbox_exact (g : NodeSession)
    (connect : PeerUri → result RelayClientError TcpStream) (draws : Draws) :
  let '(r, g') := push_outbox_to_relay g connect draws in
  let node := ns_node g in
  let batch := take PUSH_LIMIT (outbox node) in
  match rm_relay_uri (ns_remote g) with
  | None => is_ok r = false ∧ g' = g
  | Some uri =>
    ns_node g' = set_outbox node (drop PUSH_LIMIT (outbox node)) ∧
    ns_keypair g' = ns_keypair g ∧ ns_rooms g' = ns_rooms g ∧
    ∀ n, r = Ok n →
      n = 0%N ∧ (batch = [] ∨ relay_recipients g = []) ∨
      ∃ peer client sealed, PeerUri_parse uri = Ok peer ∧ connect peer = Ok client ∧
        sealed.*1 = (batch ≫= λ ev, (λ d, (d, ev)) <$> relay_recipients g) ∧
        seals draws 0 (with_node g (set_outbox node (drop PUSH_LIMIT (outbox node)))) sealed g' ∧
        put_all client (envelope_for (kp_device_id (ns_keypair g)) <$> sealed) 0 = Ok n ∧
        n = N.of_nat (length batch * length (relay_recipients g))
  end.
Proof.
  unfold push_outbox_to_relay. destruct (rm_relay_uri (ns_remote g)) as [uri|]; [|done].
  rewrite drain_outbox_spec. cbv zeta beta iota.
  set (batch := take PUSH_LIMIT _). set (g1 := with_node g _).
  assert (seal_frame g1 g1) as Hf1 by done.
  destruct (bool_decide (batch = []) || bool_decide (relay_recipients g = [])) eqn:He.
  { split_and!; [done..|]. intros n [= <-]. left. split; [done|].
    apply orb_true_iff in He as [H|H]; apply bool_decide_eq_true in H; auto. }
  pose proof (seal_outbox_spec draws batch (relay_recipients g) 0 g1 draws ltac:(done)) as Hs.
  destruct (seal_outbox g1 batch _ draws) as [[sealed|e] g2]; destruct Hs as [(H1&H2&H3&H4&H5) Hs].
  2: { by split_and!. }
  specialize (Hs sealed eq_refl) as [Hs Hss].
  assert (length sealed = length batch * length (relay_recipients g)) as Hlen.
  { rewrite <-(length_fmap fst), Hs. clear. induction batch as [|ev l IH]; [done|]. cbn.
    rewrite length_app, length_fmap. f_equal. exact IH. }
  apply orb_false_iff in He as [Hb Hr]. apply bool_decide_eq_false in Hb, Hr.
  rewrite bool_decide_eq_false_2.
  2: { intros ->. cbn in Hlen. symmetry in Hlen. apply Nat.eq_mul_0 in Hlen.
       destruct Hlen as [?%nil_length_inv|?%nil_length_inv]; done. }
  split_and!; [done..|]. intros n Hn. right.
  apply bind_ok_inv in Hn as (peer & Hp%map_err_ok_inv & Hn).
  apply bind_ok_inv in Hn as (client & Hc%map_err_ok_inv & Hn%map_err_ok_inv).
  exists peer, client, sealed. split_and!; try done.
  apply put_all_Ok in Hn as ->. rewrite length_fmap. lia.
Qed.

(** C18: what one device seals for another arrives: a verified event sealed by
    either method for [gB] (under the key both have, or over an Olm session whose
    ends are in step) is opened by [gB]'s poll, whatever other requests do before
    it is ingested, to the same event, and goes through the checks of every remote
    event. *)
Theorem relay_delivers (gA gA' gB : NodeSession) (ev : SignedEvent)
    (recip : DeviceId) (seed seed' : Seed) (nonce : array 12) (ct : list byte) (m : SealMode)
    (others : NodeSession → NodeSession) :
  verified ev → ed_device_id (ns_e2ee gB) = recip →
  seal_event_for_recipient gA ev recip seed seed' nonce = (Ok (ct, m), gA') →
  match m with
  | AeadV1 => rm_relay_key (ns_remote gA) = rm_relay_key (ns_remote gB)
  | OlmV2 => let a := ns_e2ee (ensure_olm_to gA recip seed).2 in ∃ x y,
      olm_sessions a !! recip = Some x ∧
      olm_sessions (ns_e2ee gB) !! ed_device_id a = Some y ∧ paired x y
  end →
  ∃ e2ee, poll_item gB (envelope_for (kp_device_id (ns_keypair gA)) (recip, ev, ct)) others =
    let '(r, g) := ingest_remote (others (with_e2ee gB e2ee)) ev in
    (Some (ev, match r with Ok b => b | Err _ => false end), g).
Proof.
  intros Hv Hid Hs Hm.
  destruct (sealed_opens gA gA' gB ev recip seed seed' nonce ct m Hv Hid Hs Hm) as [e2ee Ho].
  exists e2ee. unfold poll_item. cbn [envelope_for RelayEnvelope_new re_ciphertext].
  rewrite Ho. by destruct (ingest_remote _ _).
Qed.

End assist.
