(* ===== verification/Notify.v ===== *)
(** * Waiting for messages ([crates/td-node/src/rpc.rs], [RoomNotify], [wait_messages]
    and [stream_messages])

    A long poll and a stream of server-sent events run beside the handlers that change
    the node.  Each is a machine whose steps hold the lock at most once; between two
    of its steps anything else may happen. *)

From S2P Require Import Prelude Text Crypto Event Dag Store Room Sync Net Link Passkey E2ee Seal.
From S2P Require Import Persist Rate Access Session Peers Messages.

(** ** [tokio::sync] *)

Record RoomChange : Type := mkRoomChange { rc_room_hex : list byte; rc_count : nat }.

Inductive Recv : Type :=
| RecvOk (change : RoomChange)
| RecvLagged
| RecvClosed.

(** [broadcast] and [Notify].  [recv] is [None] when it would wait. *)
Class Signals : Type := {
  Sender : Type;
  Receiver : Type;
  channel : N → Sender;
  send : Sender → RoomChange → Sender;
  subscribe : Sender → Receiver;
  recv : Sender → Receiver → option (Recv * Receiver);
  Notifier : Type;
  Notified : Type;
  notifier_new : Notifier;
  notify_waiters : Notifier → Notifier;
  notified : Notifier → Notified;
  notified_ready : Notifier → Notified → bool;
}.

(** [attached tx rx]: the receiver subscribed to this channel; [unread tx rx]: the values
    it gets next, [None] once it missed some.  A receiver gets what is sent after it
    subscribed, or learns that it lagged.  [registered n f]: [f] came from this notifier
    and is woken by its later [notify_waiters]. *)
Class SignalsLaws `{!Signals} : Type := {
  attached : Sender → Receiver → Prop;
  unread : Sender → Receiver → option (list RoomChange);
  attached_subscribe tx : attached tx (subscribe tx);
  attached_send tx rx c : attached tx rx → attached (send tx c) rx;
  attached_recv tx rx r rx' : attached tx rx → recv tx rx = Some (r, rx') → attached tx rx';
  unread_subscribe tx : unread tx (subscribe tx) = Some [];
  unread_send tx rx c : attached tx rx → unread (send tx c) rx = None ∨
    ∃ l, unread tx rx = Some l ∧ unread (send tx c) rx = Some (l ++ [c]);
  recv_empty tx rx : unread tx rx = Some [] → recv tx rx = None;
  recv_next tx rx c l : unread tx rx = Some (c :: l) →
    ∃ rx', recv tx rx = Some (RecvOk c, rx') ∧ unread tx rx' = Some l;
  recv_lagged tx rx : unread tx rx = None →
    ∃ rx' l, recv tx rx = Some (RecvLagged, rx') ∧ unread tx rx' = Some l;
  notified_fresh n : notified_ready n (notified n) = false;
  registered : Notifier → Notified → Prop;
  registered_notified n : registered n (notified n);
  registered_notify n f : registered n f → registered (notify_waiters n) f;
  notify_wakes n f : registered n f → notified_ready (notify_waiters n) f = true;
}.

Section notify.
Context {NE : NodeEnv} {SG : Signals}.

Record RoomNotify : Type := mkRoomNotify { rn_tx : Sender; rn_tick : Notifier }.

Definition RoomNotify_new : RoomNotify := mkRoomNotify (channel 256) notifier_new.

Definition notify (self : RoomNotify) (room_hex : list byte) (count : nat) : RoomNotify :=
  mkRoomNotify (send (rn_tx self) (mkRoomChange room_hex count)) (notify_waiters (rn_tick self)).

(** The node and its hub, and the clock in nanoseconds. *)
Record World : Type := mkWorld { wo_session : NodeSession; wo_notify : RoomNotify; wo_now : N }.

Definition set_session (w : World) (g : NodeSession) : World := mkWorld g (wo_notify w) (wo_now w).
Definition set_notify (w : World) (h : RoomNotify) : World := mkWorld (wo_session w) h (wo_now w).
Definition set_now (w : World) (t : N) : World := mkWorld (wo_session w) (wo_notify w) t.

Definition room_count (g : NodeSession) (room_id : RoomId) : nat :=
  length (list_messages (ns_node g) room_id).

Definition room_hex (room_id : RoomId) : list byte := hex_id (RoomId_0 room_id).

(** The count is read, the lock released, the count announced. *)
Definition notify_room_from_id (w : World) (room_id : RoomId) (others : World → World) : World :=
  let count := room_count (wo_session w) room_id in
  let w := others w in
  set_notify w (notify (wo_notify w) (room_hex room_id) count).

(** ** The long poll *)

Record WaitMessagesRequest : Type := mkWaitMessagesRequest {
  wm_room_id : list byte; wm_since_count : nat; wm_timeout_ms : option N }.

Record WaitReply : Type := mkWaitReply {
  wr_room_id : list byte; wr_messages : list MessageView; wr_count : nat;
  wr_changed : bool; wr_timed_out : bool }.

(** Where the loop is: before the snapshot, before the clock is read, before
    [notified()], in the [select], or answered. *)
Inductive WaitPhase : Type :=
| WtLook
| WtCheck (messages : list MessageView)
| WtRegister (remaining : N)
| WtSleep (f : Notified) (until : N)
| WtDone (r : WaitReply).

Record Waiter : Type := mkWaiter {
  wt_request : WaitMessagesRequest; wt_room : RoomId; wt_deadline : N; wt_phase : WaitPhase }.

Definition millis (n : N) : N := n * 1000000.
Definition wait_timeout (req : WaitMessagesRequest) : N :=
  millis (N.min (N.max (default 15000%N (wm_timeout_ms req)) 250) 30000).

Definition wait_messages (req : WaitMessagesRequest) (now : N) : Response Waiter :=
  match parse_room_id (wm_room_id req) with
  | Err e => Err (400%N, e)
  | Ok room_id => Ok (mkWaiter req room_id (now + wait_timeout req) WtLook)
  end.

Definition wt_set (x : Waiter) (p : WaitPhase) : Waiter :=
  mkWaiter (wt_request x) (wt_room x) (wt_deadline x) p.

(** One step; [None] when it waits or has answered. *)
Definition wait_next (x : Waiter) (w : World) : option (Waiter * World) :=
  let since := wm_since_count (wt_request x) in
  let reply messages count changed :=
    mkWaitReply (wm_room_id (wt_request x)) messages count changed (negb changed) in
  match wt_phase x with
  | WtLook =>
    let '(count, messages, g) := snapshot_messages (wo_session w) (wt_room x) in
    let w := set_session w g in
    Some (if decide (count ≠ since) then (wt_set x (WtDone (reply messages count true)), w)
          else (wt_set x (WtCheck messages), w))
  | WtCheck messages =>
    let now := wo_now w in
    Some (if (wt_deadline x <=? now)%N then (wt_set x (WtDone (reply messages since false)), w)
          else (wt_set x (WtRegister (wt_deadline x - now)), w))
  | WtRegister remaining =>
    Some (wt_set x (WtSleep (notified (rn_tick (wo_notify w))) (wo_now w + remaining)), w)
  | WtSleep f until =>
    if notified_ready (rn_tick (wo_notify w)) f || (until <=? wo_now w)%N
    then Some (wt_set x WtLook, w) else None
  | WtDone _ => None
  end.

(** ** The stream *)

Record StreamMessage : Type := mkStreamMessage {
  sm_event : list byte; sm_room : list byte; sm_messages : list MessageView; sm_count : nat;
  sm_changed : bool; sm_lagged : bool }.

(** Before [rx.recv()], after it and before the snapshot, or ended. *)
Inductive StreamPhase : Type :=
| SrReceive
| SrSnapshot (lagged : bool)
| SrEnd.

Record Stream : Type := mkStream {
  sr_room_hex : list byte;
  sr_room : RoomId;
  sr_rx : Receiver;
  sr_last_count : nat;
  sr_phase : StreamPhase;
  (** what was yielded *)
  sr_sent : list StreamMessage;
}.

(** [others]: between [subscribe] and the first snapshot. *)
Definition stream_messages (room : list byte) (w : World) (others : World → World) :
    Response Stream * World :=
  match parse_room_id room with
  | Err e => (Err (400%N, e), w)
  | Ok room_id =>
    let rx := subscribe (rn_tx (wo_notify w)) in
    let w := others w in
    let '(init_count, init_msgs, g) := snapshot_messages (wo_session w) room_id in
    (Ok {| sr_room_hex := room; sr_room := room_id; sr_rx := rx; sr_last_count := init_count;
           sr_phase := SrReceive;
           sr_sent := [mkStreamMessage (text "snapshot") room init_msgs init_count false false] |},
     set_session w g)
  end.

Definition stream_next (s : Stream) (w : World) : option (Stream * World) :=
  let go rx last phase sent :=
    mkStream (sr_room_hex s) (sr_room s) rx last phase sent in
  match sr_phase s with
  | SrReceive =>
    match recv (rn_tx (wo_notify w)) (sr_rx s) with
    | None => None
    | Some (RecvOk change, rx) =>
      Some (if decide (rc_room_hex change ≠ sr_room_hex s)
            then (go rx (sr_last_count s) SrReceive (sr_sent s), w)
            else (go rx (sr_last_count s) (SrSnapshot false) (sr_sent s), w))
    | Some (RecvLagged, rx) => Some (go rx (sr_last_count s) (SrSnapshot true) (sr_sent s), w)
    | Some (RecvClosed, rx) => Some (go rx (sr_last_count s) SrEnd (sr_sent s), w)
    end
  | SrSnapshot lagged =>
    let '(count, messages, g) := snapshot_messages (wo_session w) (sr_room s) in
    let w := set_session w g in
    Some (if decide (lagged = false ∧ count = sr_last_count s)
          then (go (sr_rx s) (sr_last_count s) SrReceive (sr_sent s), w)
          else (go (sr_rx s) count SrReceive (sr_sent s ++
                 [mkStreamMessage (text "messages") (sr_room_hex s) messages count true lagged]), w))
  | SrEnd => None
  end.

(** ** Snapshots *)

Lemma view_length l : ∀ d, length (view_messages d l).1 = length l.
Proof.
  induction l as [|ev l IH]; intros d; [done|]. cbn. destruct (decrypt_message_text d ev) as [t d1].
  specialize (IH d1). destruct (view_messages d1 l). cbn in *. by rewrite IH.
Qed.

(** A snapshot counts the messages of the room and moves only the ratchets. *)
Lemma snapshot_spec g room : let '(count, messages, g') := snapshot_messages g room in
  count = room_count g room ∧ length messages = count ∧ ns_node g' = ns_node g.
Proof.
  unfold snapshot_messages, room_count.
  pose proof (view_length (list_messages (ns_node g) room) (ns_e2ee g)) as H.
  destruct (view_messages _ _) as [msgs e]. cbn in H. by split_and!.
Qed.

(** ** Runs of the stream *)

(** Another request, an announcement, the clock; the flag says that the room changed
    and no announcement of it followed yet. *)
Inductive world_step (room : RoomId) : World * bool → World * bool → Prop :=
| ws_request w owed g : world_step room (w, owed)
    (set_session w g, owed || bool_decide (room_count g room ≠ room_count (wo_session w) room))
| ws_announce w owed count : world_step room (w, owed)
    (set_notify w (notify (wo_notify w) (room_hex room) count), false)
| ws_announce_other w owed hex count : hex ≠ room_hex room → world_step room (w, owed)
    (set_notify w (notify (wo_notify w) hex count), owed)
| ws_time w owed t : world_step room (w, owed) (set_now w t, owed).

Inductive stream_run (room : RoomId) : Stream * World * bool → Stream * World * bool → Prop :=
| run_world s w owed w' owed' : world_step room (w, owed) (w', owed') →
    stream_run room (s, w, owed) (s, w', owed')
| run_stream s w owed s' w' : stream_next s w = Some (s', w') →
    stream_run room (s, w, owed) (s', w', owed).

(** The stream alone. *)
Definition alone (x y : Stream * World) : Prop := stream_next x.1 x.2 = Some y.

Section laws.
Context {SL : SignalsLaws}.

(** The receiver will learn of a change of the room. *)
Definition pending (s : Stream) (w : World) : Prop :=
  match unread (rn_tx (wo_notify w)) (sr_rx s) with
  | Some l => ∃ c, c ∈ l ∧ rc_room_hex c = sr_room_hex s
  | None => True
  end.

Record stream_inv (room : RoomId) (s : Stream) (w : World) (owed : bool) : Prop := {
  si_hex : sr_room_hex s = room_hex room;
  si_room : sr_room s = room;
  si_open : sr_phase s ≠ SrEnd;
  si_attached : attached (rn_tx (wo_notify w)) (sr_rx s);
  si_last : ∃ pre m, sr_sent s = pre ++ [m] ∧ sm_count m = sr_last_count s ∧
    length (sm_messages m) = sm_count m;
  si_fresh : (∃ b, sr_phase s = SrSnapshot b) ∨ pending s w ∨ owed = true ∨
    sr_last_count s = room_count (wo_session w) room;
}.

(** An announcement keeps what was pending. *)
Lemma pending_send s w hex count : attached (rn_tx (wo_notify w)) (sr_rx s) → pending s w →
  pending s (set_notify w (notify (wo_notify w) hex count)).
Proof.
  unfold pending; cbn. intros Ha H.
  destruct (unread_send (rn_tx (wo_notify w)) (sr_rx s) (mkRoomChange hex count) Ha) as [->|(l & Hl & ->)]; [done|].
  rewrite Hl in H. destruct H as (c & Hc & Hx). exists c. split; [apply elem_of_app; by left|done].
Qed.
Lemma pending_announce s w room count : attached (rn_tx (wo_notify w)) (sr_rx s) →
  sr_room_hex s = room_hex room →
  pending s (set_notify w (notify (wo_notify w) (room_hex room) count)).
Proof.
  unfold pending; cbn. intros Ha H.
  destruct (unread_send (rn_tx (wo_notify w)) (sr_rx s) (mkRoomChange (room_hex room) count) Ha) as [->|(l & Hl & ->)]; [done|].
  exists (mkRoomChange (room_hex room) count). split; [|done]. apply elem_of_app. right. by left.
Qed.

Lemma world_step_inv room s w owed w' owed' :
  stream_inv room s w owed → world_step room (w, owed) (w', owed') → stream_inv room s w' owed'.
Proof.
  intros [Hh Hr Ho Hat Hl Hf] Hs. split; [done..| |done|].
  { inversion Hs; subst; [done|by apply attached_send..|done]. }
  inversion Hs as [w0 o g|w0 o c|w0 o x c Hx|w0 o t]; subst.
  - destruct Hf as [H|[H|[->|H]]]; [by left|by right; left|by right; right; left|].
    right; right. rewrite orb_true_iff, bool_decide_eq_true. destruct (decide (room_count g (sr_room s) =
      room_count (wo_session w) (sr_room s))) as [Heq|Hne]; [right; cbn; congruence|left; by right].
  - right; left. by apply pending_announce.
  - destruct Hf as [H|[H|[H|H]]]; [by left|right; left; by apply pending_send|by right; right; left|].
    by right; right; right.
  - exact Hf.
Qed.

(** What a receiving stream gets. *)
Lemma recv_cases tx rx :
  match unread tx rx with
  | None => ∃ rx' l, recv tx rx = Some (RecvLagged, rx') ∧ unread tx rx' = Some l
  | Some [] => recv tx rx = None
  | Some (c :: l) => ∃ rx', recv tx rx = Some (RecvOk c, rx') ∧ unread tx rx' = Some l
  end.
Proof.
  destruct (unread tx rx) as [[|c l]|] eqn:H;
    [by apply recv_empty|by apply recv_next|by apply recv_lagged].
Qed.

(** The passes left before the stream waits. *)
Definition backlog (s : Stream) (w : World) : nat :=
  match unread (rn_tx (wo_notify w)) (sr_rx s) with Some l => 2 * length l | None => 0 end +
  match sr_phase s with SrSnapshot _ => 1 | _ => 0 end.

Lemma stream_next_inv room s w owed s' w' :
  stream_inv room s w owed → stream_next s w = Some (s', w') →
  stream_inv room s' w' owed ∧ room_count (wo_session w') room = room_count (wo_session w) room.
Proof.
  intros [Hh Hr Ho Hat Hl Hf] Hn. unfold stream_next in Hn.
  destruct (sr_phase s) as [|lagged|] eqn:Hp; [| |done].
  - pose proof (recv_cases (rn_tx (wo_notify w)) (sr_rx s)) as Hc. unfold pending in Hf.
    destruct (unread _ _) as [[|c l]|] eqn:Hu.
    + rewrite Hc in Hn. done.
    + destruct Hc as (rx' & Hc & Hu'). rewrite Hc in Hn.
      pose proof (attached_recv _ _ _ _ Hat Hc) as Hat'.
      destruct (decide (rc_room_hex c ≠ sr_room_hex s)) as [Hx|Hx]; injection Hn as <- <-.
      * split; [|done]. split; cbn; [done|done|done|done|done|].
        destruct Hf as [[b Hb]|[Hf|Hf]]; [done| |by right; right]. right; left.
        unfold pending; cbn. rewrite Hu'. destruct Hf as (c' & [->|Hin]%elem_of_cons & Hc'); [done|by exists c'].
      * split; [|done]. split; cbn; [done..|]. left; eauto.
    + destruct Hc as (rx' & l & Hc & Hu'). rewrite Hc in Hn.
      pose proof (attached_recv _ _ _ _ Hat Hc) as Hat'. injection Hn as <- <-.
      split; [|done]. split; cbn; [done..|]. left; eauto.
  - pose proof (snapshot_spec (wo_session w) (sr_room s)) as Hs.
    destruct (snapshot_messages _ _) as [[count msgs] g]. destruct Hs as (-> & Hm & Hg).
    assert (room_count g room = room_count (wo_session w) room) as Hc by (unfold room_count; by rewrite Hg).
    rewrite Hr in *. destruct (decide _) as [[-> Hd]|Hd]; injection Hn as <- <-; cbn.
    + split; [|done]. split; cbn; [done..|]. right; right; right. by rewrite Hc.
    + split; [|done]. split; cbn; [done|done|done|done| |right; right; right; by rewrite Hc].
      eexists _, _. split; [done|]. cbn. by rewrite Hm.
Qed.

Lemma stream_next_less s w s' w' : unread (rn_tx (wo_notify w)) (sr_rx s) ≠ None →
  stream_next s w = Some (s', w') →
  unread (rn_tx (wo_notify w')) (sr_rx s') ≠ None ∧ backlog s' w' < backlog s w.
Proof.
  intros Hu Hn. unfold stream_next in Hn. unfold backlog. destruct (sr_phase s) as [|lagged|] eqn:Hp; [| |done].
  - pose proof (recv_cases (rn_tx (wo_notify w)) (sr_rx s)) as Hc.
    destruct (unread _ (sr_rx s)) as [[|c l]|]; [by rewrite Hc in Hn| |done].
    destruct Hc as (rx' & Hc & Hu'). rewrite Hc in Hn.
    destruct (decide _); injection Hn as <- <-; cbn; rewrite Hu'; (split; [done|lia]).
  - destruct (snapshot_messages _ _) as [[count msgs] g].
    destruct (decide _); injection Hn as <- <-; cbn; (split; [done|]);
      destruct (unread _ (sr_rx s)); try done; lia.
Qed.

(** The stream alone comes to wait. *)
Definition settles (s : Stream) (w : World) : Prop :=
  ∃ s' w', rtc alone (s, w) (s', w') ∧ stream_next s' w' = None.

Lemma settles_step s w s' w' : stream_next s w = Some (s', w') → settles s' w' → settles s w.
Proof. intros Hn (s2 & w2 & H & Hb). exists s2, w2. split; [|done]. by apply rtc_l with (s', w'). Qed.

Lemma settles_reading n : ∀ s w, backlog s w < n →
  unread (rn_tx (wo_notify w)) (sr_rx s) ≠ None → settles s w.
Proof.
  induction n as [|n IH]; intros s w Hb Hu; [lia|].
  destruct (stream_next s w) as [[s' w']|] eqn:Hn; [|by exists s, w].
  destruct (stream_next_less s w s' w' Hu Hn) as [Hu' Hl].
  apply (settles_step s w s' w' Hn). apply IH; [lia|done].
Qed.

(** After it lagged, a receive makes the channel readable again. *)
Lemma settles_receiving s w : sr_phase s = SrReceive → settles s w.
Proof.
  intros Hp. destruct (unread (rn_tx (wo_notify w)) (sr_rx s)) as [l|] eqn:Hu.
  { apply (settles_reading (S (backlog s w))); [lia|congruence]. }
  destruct (recv_lagged _ _ Hu) as (rx' & l & Hr & Hu').
  eapply settles_step; [unfold stream_next; by rewrite Hp, Hr|].
  eapply settles_reading; [apply Nat.lt_succ_diag_r|]. cbn. by rewrite Hu'.
Qed.

Lemma stream_settles s w : settles s w.
Proof.
  destruct (sr_phase s) as [|lagged|] eqn:Hp.
  - by apply settles_receiving.
  - destruct (stream_next s w) as [[s' w']|] eqn:Hn; [|by exists s, w].
    apply (settles_step s w s' w' Hn), settles_receiving. unfold stream_next in Hn. rewrite Hp in Hn.
    destruct (snapshot_messages _ _) as [[count msgs] g]. by destruct (decide _); injection Hn as <- <-.
  - exists s, w. split; [done|]. unfold stream_next. by rewrite Hp.
Qed.

Lemma alone_inv room owed x y : rtc alone x y → stream_inv room x.1 x.2 owed →
  stream_inv room y.1 y.2 owed ∧ room_count (wo_session y.2) room = room_count (wo_session x.2) room.
Proof.
  induction 1 as [|x y z Hxy _ IH]; [done|]. intros Hi.
  unfold alone in Hxy. destruct y as [s' w'], (stream_next_inv room _ _ owed s' w' Hi Hxy) as [Hi' Hc].
  destruct (IH Hi') as [? Hc']. split; [done|]. by rewrite Hc', <-Hc.
Qed.

Lemma steps_attached room x y rx : rtc (world_step room) x y →
  attached (rn_tx (wo_notify x.1)) rx → attached (rn_tx (wo_notify y.1)) rx.
Proof.
  induction 1 as [|x y z Hxy _ IH]; [done|]. intros Ha. apply IH.
  inversion Hxy; subst; cbn; [done|by apply attached_send..|done].
Qed.

Lemma stream_start room hex w others owed s w' : rtc (world_step room) (w, false) (others w, owed) →
  stream_messages hex w others = (Ok s, w') → parse_room_id hex = Ok room → hex = room_hex room →
  stream_inv room s w' false.
Proof.
  unfold stream_messages. intros Hsteps H Hp ->. rewrite Hp in H.
  pose proof (steps_attached room _ _ _ Hsteps (attached_subscribe _)) as Hat. cbn in Hat.
  pose proof (snapshot_spec (wo_session (others w)) room) as Hs.
  destruct (snapshot_messages _ _) as [[count msgs] g]. destruct Hs as (-> & Hm & Hg).
  injection H as <- <-. split; cbn; [done|done|done|done| |].
  - exists [], (mkStreamMessage (text "snapshot") (room_hex room) msgs (room_count (wo_session (others w)) room) false false).
    done.
  - right; right; right. unfold room_count. by rewrite Hg.
Qed.

Lemma run_inv room x y : rtc (stream_run room) x y →
  stream_inv room x.1.1 x.1.2 x.2 → stream_inv room y.1.1 y.1.2 y.2.
Proof.
  induction 1 as [|x y z Hxy _ IH]; [done|]. intros Hi. apply IH.
  inversion Hxy as [s w o w' o' Hw|s w o s' w' Hn]; subst; cbn in *.
  - by apply world_step_inv with w o.
  - by apply (stream_next_inv room s w o s' w').
Qed.

(** ** Theorems *)

(** C22: A message stream converges: whatever other requests, announcements and lags
    happen while and after it is opened, once every change of the room is announced the stream,
    left alone, comes to wait, and then the last payload it sent shows as many
    messages as the room has. *)
Theorem stream_converges (room : RoomId) (w0 : World) (others : World → World) owed s0 w1 s w :
  parse_room_id (room_hex room) = Ok room →
  rtc (world_step room) (w0, false) (others w0, owed) →
  stream_messages (room_hex room) w0 others = (Ok s0, w1) →
  rtc (stream_run room) (s0, w1, false) (s, w, false) →
  ∃ s' w' pre m, rtc alone (s, w) (s', w') ∧ stream_next s' w' = None ∧
    sr_sent s' = pre ++ [m] ∧ length (sm_messages m) = sm_count m ∧
    sm_count m = room_count (wo_session w') room ∧
    room_count (wo_session w') room = room_count (wo_session w) room.
Proof.
  intros Hp Ho Hs Hrun. pose proof (stream_start room _ _ _ _ _ _ Ho Hs Hp eq_refl) as Hi.
  apply (run_inv room _ _ Hrun) in Hi. destruct (stream_settles s w) as (s' & w' & Ha & Hb).
  destruct (alone_inv room false _ _ Ha Hi) as [Hi' Hc]. cbn in *.
  destruct Hi' as [Hh Hr Hopen Hat (pre & m & Hm & Hcm & Hlm) Hf]. exists s', w', pre, m.
  split_and!; [done..| |done]. rewrite Hcm. unfold stream_next in Hb. destruct (sr_phase s') as [|b|] eqn:Hph.
  - pose proof (recv_cases (rn_tx (wo_notify w')) (sr_rx s')) as Hrc. unfold pending in Hf.
    destruct (unread _ _) as [[|c l]|].
    + destruct Hf as [[b Hb']|[(c & Hc' & _)|[H|H]]]; [done|by apply elem_of_nil in Hc'|done|done].
    + destruct Hrc as (rx' & Hrc & _). rewrite Hrc in Hb. by destruct (decide _).
    + destruct Hrc as (rx' & l & Hrc & _). by rewrite Hrc in Hb.
  - destruct (snapshot_messages _ _) as [[count msgs] g]. by destruct (decide _).
  - done.
Qed.

(** ** Runs of the long poll *)

Inductive wait_run : Waiter * World → Waiter * World → Prop :=
| wait_world x w w' : (wo_now w ≤ wo_now w')%N → wait_run (x, w) (x, w')
| wait_own x w x' w' : wait_next x w = Some (x', w') → wait_run (x, w) (x', w').

(** What each place of the loop knows, for a request that came at [t0]. *)
Definition wait_inv (t0 : N) (x : Waiter) (w : World) : Prop :=
  (t0 ≤ wo_now w)%N ∧ wt_deadline x = (t0 + wait_timeout (wt_request x))%N ∧
  match wt_phase x with
  | WtLook | WtDone _ => True
  | WtCheck messages => length messages = wm_since_count (wt_request x)
  | WtRegister remaining => (wt_deadline x ≤ wo_now w + remaining)%N ∧ (remaining ≤ wait_timeout (wt_request x))%N
  | WtSleep _ until => (wt_deadline x ≤ until ≤ wo_now w + wait_timeout (wt_request x))%N
  end.

(** An answer given with the session [g] of its snapshot. *)
Record wait_answer (t0 : N) (x : Waiter) (w : World) (r : WaitReply) : Prop := {
  wa_room : wr_room_id r = wm_room_id (wt_request x);
  wa_messages : length (wr_messages r) = wr_count r;
  wa_changed : wr_changed r = true ↔ wr_count r ≠ wm_since_count (wt_request x);
  wa_timed_out : wr_timed_out r = negb (wr_changed r);
  wa_current : wr_changed r = true → wr_count r = room_count (wo_session w) (wt_room x);
  wa_waited : wr_timed_out r = true → (t0 + wait_timeout (wt_request x) ≤ wo_now w)%N;
}.

Lemma wait_next_inv t0 x w x' w' : wait_inv t0 x w → wait_next x w = Some (x', w') →
  wt_request x' = wt_request x ∧ wt_room x' = wt_room x ∧ wo_now w' = wo_now w ∧
  wo_notify w' = wo_notify w ∧
  room_count (wo_session w') (wt_room x) = room_count (wo_session w) (wt_room x) ∧
  wait_inv t0 x' w' ∧ (∀ r, wt_phase x' = WtDone r → wait_answer t0 x' w' r).
Proof.
  intros (H0 & Hd & Hp) Hn. unfold wait_next in Hn. destruct (wt_phase x) as [|msgs|rem|f until|r] eqn:Hph.
  - pose proof (snapshot_spec (wo_session w) (wt_room x)) as Hs.
    destruct (snapshot_messages _ _) as [[count msgs] g]. destruct Hs as (-> & Hm & Hg).
    assert (room_count g (wt_room x) = room_count (wo_session w) (wt_room x)) as Hc
      by (unfold room_count; by rewrite Hg).
    destruct (decide _) as [Hne|Heq]; injection Hn as <- <-; cbn; (split_and!; [done..| |]).
    + by split_and!.
    + intros r [= <-]. by split; cbn.
    + split_and!; cbn; [done..|]. apply dec_stable in Heq. congruence.
    + done.
  - destruct (N.leb_spec (wt_deadline x) (wo_now w)) as [Hle|Hlt]; injection Hn as <- <-; cbn;
      (split_and!; [done..| |]).
    + by split_and!.
    + intros r [= <-]. split; cbn; [done..|split; [done|congruence]|done|done|lia].
    + split_and!; cbn; [done..|lia|lia].
    + done.
  - injection Hn as <- <-; cbn. split_and!; [done..| |done]. split_and!; cbn; [done..|lia|lia].
  - destruct (_ || _); [|done]. injection Hn as <- <-; cbn. split_and!; [done..| |done]. by split_and!.
  - done.
Qed.

Lemma wait_run_inv t0 y z : rtc wait_run y z → wait_inv t0 y.1 y.2 →
  wait_inv t0 z.1 z.2 ∧ wt_request z.1 = wt_request y.1.
Proof.
  induction 1 as [|y y' z Hy _ IH]; [done|]. intros Hi.
  assert (wait_inv t0 y'.1 y'.2 ∧ wt_request y'.1 = wt_request y.1) as [Hi' <-]; [|by apply IH].
  inversion Hy as [x w w' Ht|x w x' w' Hn]; subst; cbn in *;
    [|by destruct (wait_next_inv t0 x w x' w' Hi Hn) as (? & _ & _ & _ & _ & ? & _)].
  split; [|done]. destruct Hi as (H0 & Hd & Hp). split_and!; [lia|done|]. destruct (wt_phase x); try done; lia.
Qed.

(** The loop left to itself: when it sleeps, the clock moves to the end of the sleep. *)
Definition wait_drive1 (y : Waiter * World) : Waiter * World :=
  match wait_next y.1 y.2 with
  | Some y' => y'
  | None =>
    match wt_phase y.1 with
    | WtSleep _ until => (y.1, set_now y.2 (N.max (wo_now y.2) until))
    | _ => y
    end
  end.
Fixpoint wait_drive (n : nat) (y : Waiter * World) : Waiter * World :=
  match n with O => y | S n => wait_drive n (wait_drive1 y) end.

(** Within [n] of its steps and by the time [b] the loop answers, with a count in [P]. *)
Definition answers (t0 b : N) (n : nat) (P : nat → Prop) (x : Waiter) (w : World) : Prop :=
  ∃ r, wt_phase (wait_drive n (x, w)).1 = WtDone r ∧
    wait_answer t0 (wait_drive n (x, w)).1 (wait_drive n (x, w)).2 r ∧
    (wo_now (wait_drive n (x, w)).2 ≤ b)%N ∧ P (wr_count r).

Lemma wait_drive_done n y r : wt_phase y.1 = WtDone r → wait_drive n y = y.
Proof.
  induction n as [|n IH]; intros H; [done|]. cbn. replace (wait_drive1 y) with y; [by apply IH|].
  unfold wait_drive1, wait_next. by rewrite H.
Qed.

Lemma answers_done t0 b n (P : nat → Prop) x w r : wt_phase x = WtDone r → wait_answer t0 x w r →
  (wo_now w ≤ b)%N → P (wr_count r) → answers t0 b n P x w.
Proof. intros H ? ? ?. exists r. by rewrite (wait_drive_done n (x, w) r H). Qed.

Lemma answers_step t0 b n P x w x' w' : wait_next x w = Some (x', w') →
  answers t0 b n P x' w' → answers t0 b (S n) P x w.
Proof. intros Hn (r & H). exists r. cbn [wait_drive]. unfold wait_drive1. cbn. by rewrite Hn. Qed.

Lemma answers_sleep t0 b n P x w f until : wait_next x w = None → wt_phase x = WtSleep f until →
  answers t0 b n P x (set_now w (N.max (wo_now w) until)) → answers t0 b (S n) P x w.
Proof. intros Hn Hp (r & H). exists r. cbn [wait_drive]. unfold wait_drive1. cbn. by rewrite Hn, Hp. Qed.

Lemma answers_weaken t0 b b' n n' (P Q : nat → Prop) x w : answers t0 b n P x w → n ≤ n' →
  (b ≤ b')%N → (∀ c, P c → Q c) → answers t0 b' n' Q x w.
Proof.
  intros (r & Hd & Ha & Hb & HP) Hn Hbb HQ. exists r.
  assert (wait_drive n' (x, w) = wait_drive n (x, w)) as ->.
  { replace n' with (n + (n' - n)) by lia. generalize (n' - n) as k. intros k. clear -Hd.
    revert Hd. generalize (x, w). induction n as [|n IH]; intros y Hd; cbn; [by apply wait_drive_done with r|].
    by apply IH. }
  split_and!; [done|done|lia|auto].
Qed.

Section phases.
Context (t0 : N) (x : Waiter).
Let room := wt_room x.

Lemma check_late w msgs : wait_inv t0 x w → wt_phase x = WtCheck msgs → (wt_deadline x ≤ wo_now w)%N →
  answers t0 (wo_now w) 1 (λ c, c = wm_since_count (wt_request x)) x w.
Proof.
  intros Hi Hp Hl. destruct (wait_next x w) as [[x' w']|] eqn:Hn;
    [|unfold wait_next in Hn; rewrite Hp in Hn; done].
  destruct (wait_next_inv t0 x w x' w' Hi Hn) as (_ & _ & Ht & _ & _ & _ & Ha).
  apply (answers_step _ _ _ _ _ _ _ _ Hn). unfold wait_next in Hn. rewrite Hp in Hn.
  rewrite (proj2 (N.leb_le _ _)) in Hn by done. injection Hn as <- <-.
  eapply answers_done; [done|by apply Ha|lia|done].
Qed.
End phases.

Lemma look_late t0 x w : wait_inv t0 x w → wt_phase x = WtLook → (wt_deadline x ≤ wo_now w)%N →
  answers t0 (wo_now w) 2 (λ c, c = room_count (wo_session w) (wt_room x)) x w.
Proof.
  intros Hi Hp Hl. pose proof (snapshot_spec (wo_session w) (wt_room x)) as Hs.
  destruct (wait_next x w) as [[x' w']|] eqn:Hn; [|unfold wait_next in Hn; rewrite Hp in Hn;
    by destruct (snapshot_messages _ _) as [[]]; destruct (decide _)].
  destruct (wait_next_inv t0 x w x' w' Hi Hn) as (Hrq & _ & Ht & _ & _ & Hi' & Ha).
  apply (answers_step _ _ _ _ _ _ _ _ Hn). unfold wait_next in Hn. rewrite Hp in Hn.
  destruct (snapshot_messages _ _) as [[count msgs] g]. destruct Hs as (-> & Hm & Hg).
  destruct (decide _) as [Hne|Heq]; injection Hn as <- <-.
  - eapply answers_done; [done|by apply Ha|cbn in *; lia|done].
  - apply dec_stable in Heq. rewrite Heq.
    exact (check_late t0 (wt_set x (WtCheck msgs)) _ msgs Hi' eq_refl Hl).
Qed.

Lemma sleep_late t0 x w f until : wait_inv t0 x w → wt_phase x = WtSleep f until → (until ≤ wo_now w)%N →
  answers t0 (wo_now w) 3 (λ c, c = room_count (wo_session w) (wt_room x)) x w.
Proof.
  intros Hi Hp Hl. assert (wait_next x w = Some (wt_set x WtLook, w)) as Hn.
  { unfold wait_next. by rewrite Hp, (proj2 (N.leb_le _ _)), orb_true_r. }
  destruct (wait_next_inv t0 x w _ _ Hi Hn) as (_ & _ & _ & _ & _ & Hi' & _).
  apply (answers_step _ _ _ _ _ _ _ _ Hn), (look_late t0 (wt_set x WtLook) w Hi'); [done|].
  destruct Hi as (_ & _ & H). rewrite Hp in H. cbn. lia.
Qed.

Lemma sleep_time t0 x w f until : wait_inv t0 x w → wt_phase x = WtSleep f until →
  notified_ready (rn_tick (wo_notify w)) f = false →
  answers t0 (N.max (wo_now w) until) 4 (λ c, c = room_count (wo_session w) (wt_room x)) x w.
Proof.
  intros Hi Hp Hf. destruct (N.leb_spec until (wo_now w)) as [Hl|Hl].
  { eapply answers_weaken; [by apply (sleep_late t0 x w f until)|lia|apply N.le_max_l|done]. }
  apply (answers_sleep _ _ _ _ _ _ f until).
  - unfold wait_next. rewrite Hp, Hf, (proj2 (N.leb_gt _ _)); done.
  - done.
  - apply (sleep_late t0 x (set_now w (N.max (wo_now w) until)) f until); [|done|apply N.le_max_r].
    destruct Hi as (H1 & H2 & H3). rewrite Hp in H3. unfold wait_inv. rewrite Hp. cbn [set_now wo_now].
    split_and!; [lia|done|lia|lia].
Qed.

Lemma register_answers t0 x w rem : wait_inv t0 x w → wt_phase x = WtRegister rem →
  answers t0 (wo_now w + rem) 5 (λ c, c = room_count (wo_session w) (wt_room x)) x w.
Proof.
  intros Hi Hp. set (f := notified (rn_tick (wo_notify w))).
  assert (wait_next x w = Some (wt_set x (WtSleep f (wo_now w + rem)), w)) as Hn
    by (unfold wait_next; by rewrite Hp).
  destruct (wait_next_inv t0 x w _ _ Hi Hn) as (_ & _ & _ & _ & _ & Hi' & _).
  apply (answers_step _ _ _ _ _ _ _ _ Hn).
  eapply answers_weaken; [apply (sleep_time t0 _ w f (wo_now w + rem) Hi' eq_refl)|lia|lia|done].
  apply notified_fresh.
Qed.

Lemma check_answers t0 x w msgs : wait_inv t0 x w → wt_phase x = WtCheck msgs →
  answers t0 (wo_now w + wait_timeout (wt_request x)) 6
    (λ c, c = room_count (wo_session w) (wt_room x) ∨ c = wm_since_count (wt_request x)) x w.
Proof.
  intros Hi Hp. destruct (N.leb_spec (wt_deadline x) (wo_now w)) as [Hl|Hl].
  { eapply answers_weaken; [by apply (check_late t0 x w msgs)|lia|lia|by right]. }
  assert (wait_next x w = Some (wt_set x (WtRegister (wt_deadline x - wo_now w)), w)) as Hn
    by (unfold wait_next; rewrite Hp, (proj2 (N.leb_gt _ _)); done).
  destruct (wait_next_inv t0 x w _ _ Hi Hn) as (_ & _ & _ & _ & _ & Hi' & _).
  apply (answers_step _ _ _ _ _ _ _ _ Hn).
  destruct Hi as (H1 & H2 & _).
  eapply answers_weaken; [by apply (register_answers t0 _ w _ Hi' eq_refl)|lia|lia|by left].
Qed.

Lemma look_answers t0 x w : wait_inv t0 x w → wt_phase x = WtLook →
  answers t0 (wo_now w + wait_timeout (wt_request x)) 7
    (λ c, c = room_count (wo_session w) (wt_room x)) x w.
Proof.
  intros Hi Hp. pose proof (snapshot_spec (wo_session w) (wt_room x)) as Hs.
  destruct (wait_next x w) as [[x' w']|] eqn:Hn; [|unfold wait_next in Hn; rewrite Hp in Hn;
    by destruct (snapshot_messages _ _) as [[]]; destruct (decide _)].
  destruct (wait_next_inv t0 x w x' w' Hi Hn) as (Hrq & _ & Ht & _ & Hc & Hi' & Ha).
  apply (answers_step _ _ _ _ _ _ _ _ Hn). unfold wait_next in Hn. rewrite Hp in Hn.
  destruct (snapshot_messages _ _) as [[count msgs] g]. destruct Hs as (-> & Hm & Hg).
  destruct (decide _) as [Hne|Heq]; injection Hn as <- <-.
  - eapply answers_done; [done|by apply Ha|cbn in *; lia|done].
  - apply dec_stable in Heq. cbn in Hc.
    eapply answers_weaken; [by apply (check_answers t0 _ _ msgs Hi' eq_refl)|lia|cbn; lia|].
    cbn. intros c [->| ->]; congruence.
Qed.

(** C28: A long poll always answers, and truthfully: it says that the room changed
    exactly when the count it reports is not the one the caller had, says that it
    timed out only after the whole timeout (between 250 ms and 30 s), and, whatever
    happened before, left alone it answers within eight steps and one timeout, with
    the current count unless it was about to time out. *)
Theorem wait_messages_answers (req : WaitMessagesRequest) (w0 : World) x0 x w :
  wait_messages req (wo_now w0) = Ok x0 → rtc wait_run (x0, w0) (x, w) →
  (millis 250 ≤ wait_timeout req ≤ millis 30000)%N ∧
  (∀ x' w' r, wait_next x w = Some (x', w') → wt_phase x' = WtDone r → wait_answer (wo_now w0) x' w' r) ∧
  ((∀ r, wt_phase x ≠ WtDone r) →
   answers (wo_now w0) (wo_now w + wait_timeout req) 8
     (λ c, c = room_count (wo_session w) (wt_room x) ∨
       (∃ m, wt_phase x = WtCheck m) ∧ c = wm_since_count req) x w).
Proof.
  intros Hs Hrun. unfold wait_messages in Hs.
  destruct (parse_room_id (wm_room_id req)) as [room|e]; [|done]. injection Hs as <-.
  apply (wait_run_inv (wo_now w0)) in Hrun; [|by split_and!]. destruct Hrun as [Hi Hq]. cbn in Hi, Hq.
  split; [unfold wait_timeout, millis; lia|]. split.
  { intros x' w' r Hn. by apply (wait_next_inv (wo_now w0) x w x' w' Hi Hn). }
  intros Hd. rewrite <-Hq. destruct (wt_phase x) as [|msgs|rem|f until|r] eqn:Hp.
  - eapply answers_weaken; [by apply look_answers|lia|lia|by left].
  - eapply answers_weaken; [by apply (check_answers (wo_now w0) x w msgs)|lia|lia|].
    intros c [H|H]; [by left|right; eauto].
  - eapply answers_weaken; [by apply (register_answers (wo_now w0) x w rem)|lia| |by left].
    destruct Hi as (_ & _ & H). rewrite Hp in H. lia.
  - destruct (notified_ready (rn_tick (wo_notify w)) f) eqn:Hf.
    + assert (wait_next x w = Some (wt_set x WtLook, w)) as Hn by (unfold wait_next; by rewrite Hp, Hf).
      destruct (wait_next_inv (wo_now w0) x w _ _ Hi Hn) as (_ & _ & _ & _ & _ & Hi' & _).
      apply (answers_step _ _ _ _ _ _ _ _ Hn).
      eapply answers_weaken; [by apply (look_answers _ _ _ Hi' eq_refl)|lia|cbn; lia|by left].
    + eapply answers_weaken; [by apply (sleep_time (wo_now w0) x w f until)|lia| |by left].
      destruct Hi as (_ & _ & H). rewrite Hp in H. lia.
  - by destruct (Hd r).
Qed.

(** A wake-up that comes between the snapshot and [notified()] is lost: the poll then
    sleeps through its whole timeout although the room has changed. *)
Lemma wait_wakeup_lost (x : Waiter) (w : World) (g : NodeSession) (remaining : N) :
  wt_phase x = WtRegister remaining → (0 < remaining)%N →
  let w' := notify_room_from_id (set_session w g) (wt_room x) id in
  ∃ x', wait_next x w' = Some (x', w') ∧ wait_next x' w' = None ∧
    ∀ t, (t < wo_now w + remaining)%N → wait_next x' (set_now w' t) = None.
Proof.
  intros Hp Hr w'. unfold wait_next at 1. rewrite Hp. eexists. split; [done|].
  assert (∀ t, (t < wo_now w + remaining)%N → wait_next (wt_set x (WtSleep
    (notified (rn_tick (wo_notify w'))) (wo_now w' + remaining))) (set_now w' t) = None) as H.
  { intros t Ht. unfold wait_next. cbn [wt_set wt_phase set_now wo_notify wo_now].
    rewrite notified_fresh. by rewrite (proj2 (N.leb_gt _ _)). }
  split; [|exact H]. specialize (H (wo_now w) ltac:(lia)). exact H.
Qed.

(** An announcement wakes every poll that registered before it. *)
Lemma wait_wakeup (x : Waiter) (w : World) f until hex count : wt_phase x = WtSleep f until →
  registered (rn_tick (wo_notify w)) f →
  wait_next x (set_notify w (notify (wo_notify w) hex count)) =
    Some (wt_set x WtLook, set_notify w (notify (wo_notify w) hex count)).
Proof. intros Hp Hf. unfold wait_next. rewrite Hp. cbn. by rewrite notify_wakes. Qed.

(** The stream compares spellings: an announcement under another spelling of the room
    (upper case, as [parse_room_id] accepts) is skipped. *)
Lemma stream_skips_spelling (s : Stream) (w : World) c l :
  sr_phase s = SrReceive → unread (rn_tx (wo_notify w)) (sr_rx s) = Some (c :: l) →
  rc_room_hex c ≠ sr_room_hex s →
  ∃ s', stream_next s w = Some (s', w) ∧ sr_sent s' = sr_sent s ∧ sr_phase s' = SrReceive.
Proof.
  intros Hp Hu Hx. destruct (recv_next _ _ _ _ Hu) as (rx' & Hr & _).
  unfold stream_next. rewrite Hp, Hr, decide_True by done. eauto.
Qed.

End laws.

End notify.
