(* ===== verification/Serve.v ===== *)
(** * Serving a node ([crates/td-node/src/rpc.rs], from the router to [prepare_serve])

    How a node starts: options to state, TLS policy, the P2P listener and what it does
    with the events peers send, the HTTP routes, the handlers that trigger the relay.
    Sockets, [rustls] and files named by the operator are arguments. *)

From S2P Require Import Prelude Text Ip Crypto Event Dag Store Room Sync Net Noise Link Passkey E2ee Seal.
From S2P Require Import Persist Quic Rate Access Session Peers Messages Assist Notify.

Section serve.
Context {NE : NodeEnv} {SG : Signals} {TL : Tls}.
#[local] Existing Instance persist_iter.
#[local] Existing Instance link_event.

Inductive ServeError : Type :=
| SvSession (e : Fault)
| SvQuic (e : QuicError)
| SvText (s : list byte)
| SvIo (e : io_error).

(** ** Addresses *)

Definition is_loopback_bind (bind : list byte) : bool :=
  let host := match rsplit_once x3a bind with Some (h, _) => h | None => bind end in
  let host := trim_end_matches (text "]") (trim_start_matches (text "[") (trim host)) in
  bool_decide (host ∈ [text "127.0.0.1"; text "localhost"; text "::1"]) ||
  match parse_ip host with Some ip => is_loopback ip | None => false end.

(** ** QUIC policy *)

Definition QUIC_CERT : list byte := text "quic-cert.pem".
Definition QUIC_KEY : list byte := text "quic-key.pem".

(** [from_pem_files], then [with_mtls] when asked for. *)
Definition quic_from_files (cert_pem key_pem : result io_error (list byte)) (pins : list bytes32)
    (mtls : bool) : result ServeError (option QuicTlsConfig) :=
  let? cfg := map_err SvQuic (from_pem_files cert_pem key_pem pins mtls) in
  Ok (Some (if mtls then with_mtls cfg true else cfg)).

Definition fs_read_pem (p : list byte) (o : Oracle) (d : Disk) : result io_error (list byte) * Disk :=
  let '(r, d) := fs_read p o d in
  (map_err (λ e, match e with PersistIo e => e | _ => OtherIo end) r, d).

(** [c.is_file() && k.is_file()] *)
Definition identity_on_disk (o : Oracle) (d : Disk) : bool * Disk :=
  match fs_exists QUIC_CERT o d with
  | (Ok true, d) => match fs_exists QUIC_KEY o d with (Ok b, d) => (b, d) | (Err _, d) => (false, d) end
  | (_, d) => (false, d)
  end.

(** [read_pem] reads a file the operator names; [generated] is what [self_signed_cert]
    would make. *)
Definition build_quic_tls_config (opts : ServeOptions) (data_dir : bool)
    (read_pem : list byte → result io_error (list byte)) (generated : Generated)
    (o : Oracle) (d : Disk) : result ServeError (option QuicTlsConfig) * Disk :=
  if negb (so_p2p_quic opts) then (Ok None, d) else
  match (match so_quic_pins opts with Some s => map_err SvQuic (parse_pin_list s) | None => Ok [] end) with
  | Err e => (Err e, d)
  | Ok pins =>
    let mtls := default (negb (bool_decide (pins = []))) (so_quic_mtls opts) in
    match so_quic_cert opts, so_quic_key opts with
    | Some c, Some k => (quic_from_files (read_pem c) (read_pem k) pins mtls, d)
    | None, None =>
      if data_dir then
        let '(there, d) := identity_on_disk o d in
        if there : bool then
          let '(cert, d) := fs_read_pem QUIC_CERT o d in
          let '(key, d) := fs_read_pem QUIC_KEY o d in
          (quic_from_files cert key pins mtls, d)
        else
          match write_self_signed_pem generated QUIC_CERT QUIC_KEY o d with
          | (Err e, d) => (Err (SvQuic e), d)
          | (Ok cfg, d) => (Ok (Some (with_mtls (with_pins cfg pins) mtls)), d)
          end
      else
        (let? cfg := map_err SvQuic (insecure_ephemeral generated) in
         Ok (Some (if bool_decide (pins = []) then cfg else with_mtls (with_pins cfg pins) mtls)), d)
    | _, _ => (Err (SvText (text "both TD_QUIC_CERT and TD_QUIC_KEY required (or neither)")), d)
    end
  end.

(** ** State *)

(** [RpcState], with the fields of [NodeSession] that only serving uses. *)
Record Node : Type := mkNode {
  nd_session : NodeSession;
  nd_notify : RoomNotify;
  nd_require_owner : bool;
  nd_rate_limits : RateLimitBook;
  nd_rate_limit_enabled : bool;
  nd_quic_tls : option QuicTlsConfig;
  nd_quic_pin : option (list byte);
  nd_rpc_tls : bool;
}.

(** The state of the gate. *)
Definition nd_rpc (n : Node) : RpcState :=
  mkRpcState (ns_access (nd_session n)) (nd_require_owner n) (nd_rate_limits n) (nd_rate_limit_enabled n).

(** The draws of a start, and what the system answers. *)
Record Start : Type := mkStart {
  sa_signing : @SigningKey (@env_crypto link_event);
  sa_seed : Seed;
  sa_seed' : Seed;
  sa_events_db : FsPath;
  sa_read_pem : list byte → result io_error (list byte);
  sa_generated : Generated;
  sa_ephemeral : Generated;
  (** [RustlsConfig::from_pem_file]; [generate_self_signed_rpc_cert], and [from_der] on it *)
  sa_tls_files : list byte → list byte → result (list byte) unit;
  sa_tls_self_signed : result (list byte) (result (list byte) unit);
  sa_listen_quic : list byte → QuicTlsConfig → result QuicError SocketAddr;
  sa_listen : list byte → result io_error SocketAddr;
}.

Definition new_state_with_options (x : Start) (opts : ServeOptions) (o : Oracle) (d : Disk) :
    result Fault Node * Disk :=
  let node session := mkNode session RoomNotify_new false (mkRateLimitBook ∅) (so_rate_limit opts)
    None None false in
  match so_data_dir opts with
  | Some _ =>
    match load_from_data_dir (sa_signing x) (sa_seed x) (sa_seed' x) (sa_events_db x) o d with
    | (Err e, d) => (Err e, d)
    | (Ok session, d) => (Ok (node (apply_remote_opts session opts)), d)
    end
  | None => (Ok (node (apply_remote_opts (NodeSession_new (sa_signing x) (sa_seed x) (sa_seed' x)) opts)), d)
  end.

Definition set_p2p_uri (g : NodeSession) (uri : list byte) : NodeSession :=
  let a := ns_access g in
  with_access g (mkAccess (ac_device_id a) (ac_claim a) (ac_pair_tokens a) (ac_owner_sessions a)
    (ac_recovery_failures a) (ac_recovery_lock_until a) (ac_link a) (ac_data_dir a) (ac_rpc_base a) (Some uri)).
Definition set_rpc_base (g : NodeSession) (base : list byte) : NodeSession :=
  let a := ns_access g in
  with_access g (mkAccess (ac_device_id a) (ac_claim a) (ac_pair_tokens a) (ac_owner_sessions a)
    (ac_recovery_failures a) (ac_recovery_lock_until a) (ac_link a) (ac_data_dir a) (Some base) (ac_p2p_uri a)).

(** Whether there is TLS for RPC. *)
Definition load_tls_config (x : Start) (cert key : option (list byte)) (self_signed : bool) :
    result ServeError bool :=
  match cert, key with
  | Some c, Some k => let? _ := map_err (λ e, SvText (text "tls cert/key: " ++ e)) (sa_tls_files x c k) in Ok true
  | None, None =>
    if self_signed
    then
      let? r := map_err (λ e, SvText (text "self-signed tls: " ++ e)) (sa_tls_self_signed x) in
      let? _ := map_err (λ e, SvText (text "tls der: " ++ e)) r in Ok true
    else Ok false
  | _, _ => Err (SvText (text "both TD_TLS_CERT and TD_TLS_KEY required (or TD_TLS_SELF_SIGNED=true)"))
  end.

(** [start_p2p_listener] up to the accept loop: the URI it advertises. *)
Definition start_p2p_listener (x : Start) (n : Node) (p2p_bind : list byte)
    (advertise_host : option (list byte)) : result ServeError (list byte) :=
  if rm_p2p_quic (ns_remote (nd_session n)) then
    let? qcfg := match nd_quic_tls n with
                 | Some c => Ok c
                 | None => map_err SvQuic (insecure_ephemeral (sa_ephemeral x))
                 end in
    let? addr := map_err SvQuic (sa_listen_quic x p2p_bind qcfg) in
    Ok (advertise_p2p_uri addr advertise_host false true)
  else
    let? addr := map_err SvIo (sa_listen x p2p_bind) in
    Ok (advertise_p2p_uri addr advertise_host (rm_p2p_noise (ns_remote (nd_session n))) false).

Definition with_session (n : Node) (g : NodeSession) : Node :=
  mkNode g (nd_notify n) (nd_require_owner n) (nd_rate_limits n) (nd_rate_limit_enabled n)
    (nd_quic_tls n) (nd_quic_pin n) (nd_rpc_tls n).

Record PreparedServe : Type := mkPreparedServe {
  ps_node : Node;
  ps_p2p : list byte;
  ps_addr : SocketAddr;
  ps_tls : bool;
}.

Definition prepare_serve (x : Start) (bind : list byte) (opts : ServeOptions) (o : Oracle) (d : Disk) :
    result ServeError PreparedServe * Disk :=
  let require_owner := so_require_owner_non_loopback opts && negb (is_loopback_bind bind) in
  let p2p_bind := default (text "127.0.0.1:0") (so_p2p_bind opts) in
  match new_state_with_options x opts o d with
  | (Err e, d) => (Err (SvSession e), d)
  | (Ok n, d) =>
    match load_tls_config x (so_tls_cert opts) (so_tls_key opts) (so_tls_self_signed opts) with
    | Err e => (Err e, d)
    | Ok https =>
      match build_quic_tls_config opts (ac_data_dir (ns_access (nd_session n))) (sa_read_pem x)
              (sa_generated x) o d with
      | (Err e, d) => (Err e, d)
      | (Ok qcfg, d) =>
        let n := mkNode (nd_session n) (nd_notify n) require_owner (nd_rate_limits n)
          (nd_rate_limit_enabled n) qcfg (c ← qcfg; local_pin_hex c) https in
        (let? p2p := start_p2p_listener x n p2p_bind (so_advertise_host opts) in
         let n := with_session n (set_p2p_uri (nd_session n) p2p) in
         let? addr := map_err SvIo (sa_listen x bind) in
         let base := advertise_http_base addr (so_advertise_host opts) https in
         let n := with_session n (set_rpc_base (nd_session n) base) in
         Ok (mkPreparedServe n p2p addr https), d)
      end
    end
  end.

(** ** The entry points *)

Definition new_state (sk : @SigningKey (@env_crypto link_event)) (s s' : Seed) : Node :=
  mkNode (NodeSession_new sk s s') RoomNotify_new false (mkRateLimitBook ∅) true None None false.

(** [ServeOptions { data_dir: Some(data_dir.into()), ..Default::default() }] *)
Definition default_with_data_dir (data_dir : list byte) : ServeOptions :=
  let o := ServeOptions_default in
  mkServeOptions (Some data_dir) (so_p2p_bind o) (so_advertise_host o) (so_relay_uri o) (so_relay_key o)
    (so_require_owner_non_loopback o) (so_rate_limit o) (so_p2p_noise o) (so_p2p_quic o) (so_tls_cert o)
    (so_tls_key o) (so_tls_self_signed o) (so_quic_cert o) (so_quic_key o) (so_quic_pins o) (so_quic_mtls o).

Definition new_state_with_data_dir (x : Start) (data_dir : list byte) : Oracle → Disk → result Fault Node * Disk :=
  new_state_with_options x (default_with_data_dir data_dir).

(** [Display] of a socket address: brackets around an IPv6 address *)
Definition addr_text (a : SocketAddr) : list byte :=
  (if contains_byte x3a (sa_ip a) then x5b :: sa_ip a ++ [x5d] else sa_ip a) ++ x3a :: dec (sa_port a).

(** The line both entry points print; [notes] is empty for the first. *)
Definition listening_line (p : PreparedServe) (notes : list byte) : list byte :=
  let scheme := if ps_tls p then text "https" else text "http" in
  text "td-node rpc listening on " ++ scheme ++ text "://" ++ addr_text (ps_addr p) ++
  text " p2p=" ++ ps_p2p p ++ notes.

(** The address, the node that serves it, and the line. *)
Definition serve_with_options (x : Start) (bind : list byte) (opts : ServeOptions) (o : Oracle) (d : Disk) :
    result ServeError (SocketAddr * Node * list byte) * Disk :=
  let '(r, d) := prepare_serve x bind opts o d in
  (let? p := r in Ok (ps_addr p, ps_node p, listening_line p []), d).

Definition serve (x : Start) (bind : list byte) : Oracle → Disk → result ServeError (SocketAddr * Node * list byte) * Disk :=
  serve_with_options x bind ServeOptions_default.
Definition serve_with_data_dir (x : Start) (bind data_dir : list byte) :
    Oracle → Disk → result ServeError (SocketAddr * Node * list byte) * Disk :=
  serve_with_options x bind (default_with_data_dir data_dir).

(** What [serve_blocking_with_options] adds; the root of the data directory is the one
    of the options. *)
Definition serve_notes (opts : ServeOptions) (n : Node) : list byte :=
  let rm := ns_remote (nd_session n) in
  let data := default [] ((λ root, text " data=" ++ root) <$> so_data_dir opts) in
  let relay := default [] ((λ r, text " relay=" ++ r) <$> rm_relay_uri rm) in
  let adv := default [] ((λ h, text " advertise=" ++ h) <$> rm_advertise_host rm) in
  let own := if nd_require_owner n then text " owner_gate=on" else text " owner_gate=off" in
  let tls := if nd_rpc_tls n then text " tls=on" else text " tls=off" in
  let p2p_mode := if rm_p2p_quic rm then text " p2p=quic" else if rm_p2p_noise rm then text " p2p=noise"
    else text " p2p=tcp" in
  data ++ relay ++ adv ++ own ++ tls ++ p2p_mode.

Definition serve_blocking_with_options (x : Start) (bind : list byte) (opts : ServeOptions) (o : Oracle)
    (d : Disk) : result ServeError (SocketAddr * Node * list byte) * Disk :=
  let '(r, d) := prepare_serve x bind opts o d in
  (let? p := r in Ok (ps_addr p, ps_node p, listening_line p (serve_notes opts (ps_node p))), d).

Definition serve_blocking (x : Start) (bind : list byte) :
    Oracle → Disk → result ServeError (SocketAddr * Node * list byte) * Disk :=
  serve_blocking_with_options x bind ServeOptions_default.
Definition serve_blocking_with_data_dir (x : Start) (bind data_dir : list byte) :
    Oracle → Disk → result ServeError (SocketAddr * Node * list byte) * Disk :=
  serve_blocking_with_options x bind (default_with_data_dir data_dir).

(** ** Events from peers *)

(** The body of the listener's [while let Ok(ev)]: what others do before the lock is
    taken, and while it is released to announce. *)
Definition ingest_announce (w : World) (ev : SignedEvent) (before during : World → World) : World :=
  let w := before w in
  let '(r, g) := ingest_remote (wo_session w) ev in
  let w := set_session w g in
  if match r with Ok inserted => inserted | Err _ => false end
  then notify_room_from_id w (se_room_id ev) during else w.

(** The loop on any reader of events, until its first error. *)
Fixpoint serve_stream {S E} (read : S → result E SignedEvent * S) (fuel : nat) (s : S) (w : World)
    (others : nat → World → World) : World * S :=
  match fuel with
  | O => (w, s)
  | S fuel =>
    match read s with
    | (Err _, s) => (w, s)
    | (Ok ev, s) =>
      serve_stream read fuel s (ingest_announce w ev (others 0) (others 1)) (λ k, others (2 + k))
    end
  end.

(** A plain TCP peer; a frame takes four bytes at least. *)
Definition serve_tcp (sock : TcpStream) (w : World) (others : nat → World → World) : World :=
  (serve_stream read_event (S (length (rd_bytes (ts_read sock)))) (ts_read sock) w others).1.

(** A QUIC peer. *)
Definition serve_quic (stream : QuicStream) (w : World) (others : nat → World → World) : World :=
  (serve_stream quic_read_event (S (length (rd_bytes (qs_recv stream)))) stream w others).1.

(** A Noise peer; [fuel] bounds the events. *)
Definition serve_noise `{Snow} (fuel : nat) (sock : TcpStream) (key : result snow_error (list byte))
    (w : World) (others : nat → World → World) : World :=
  match handshake_responder sock key with
  | (Err _, _) => w
  | (Ok ns, _) => (serve_stream noise_read_event fuel ns w others).1
  end.

(** ** Handlers around the relay and sessions *)

(** [relay_poll_now] and [relay_push_now] up to the call: the owner check under the
    gate's flag, and the relay. *)
Definition relay_guard (need : bool) (g : NodeSession) (h : Headers) (t t' : N) :
    Response unit * NodeSession :=
  match require_owner_if_remote need g h t t' with
  | (Err e, g) => (Err e, g)
  | (Ok _, g) =>
    match rm_relay_uri (ns_remote g) with
    | None => (Err (409%N, FText (text "no relay configured (TD_RELAY_URI)")), g)
    | Some _ => (Ok tt, g)
    end
  end.

(** The lock is released before the call: [between]. *)
Definition relay_poll_now (need : bool) (g : NodeSession) (h : Headers) (t t' : N)
    (between : NodeSession → NodeSession)
    (connect : PeerUri → result RelayClientError TcpStream)
    (others : nat → NodeSession → NodeSession) (now : N) : Response N * NodeSession :=
  match relay_guard need g h t t' with
  | (Err e, g) => (Err e, g)
  | (Ok _, g) =>
    let '(r, g) := poll_relay_once (between g) connect others now in (with_status 502 r, g)
  end.

Definition relay_push_now (need : bool) (g : NodeSession) (h : Headers) (t t' : N)
    (between : NodeSession → NodeSession)
    (connect : PeerUri → result RelayClientError TcpStream) (draws : Draws) : Response N * NodeSession :=
  match relay_guard need g h t t' with
  | (Err e, g) => (Err e, g)
  | (Ok _, g) =>
    let '(r, g) := push_outbox_to_relay (between g) connect draws in (with_status 502 r, g)
  end.

(** [http] is the peer at the trimmed base, or the error of building the client. *)
Definition share_session_with_peer (s : state) (room peer_rpc : list byte)
    (http : result (list byte) (list byte → PeerHttp)) (seed seed' seed'' : Seed) (o : Oracle) :
    Response (list byte * list byte) * state :=
  let peer_base := trim_end_matches (text "/") peer_rpc in
  match http with
  | Err e => (Err (500%N, FText e), s)
  | Ok http =>
    let '(r, s) := share_megolm_olm_to_peer s room (http peer_base) None seed seed' seed'' o in
    (with_status 502 r, s)
  end.

(** The best-effort push of [send_message]: which bytes a connection to each peer's
    P2P address gets; a peer's [noise] flag is not looked at. *)
Definition p2p_push (ev : SignedEvent) (peers : list PeerEndpoint) (quic_tls : option QuicTlsConfig) :
    list (PeerUri * list byte) :=
  omap (λ ep,
    uri ← pe_p2p ep;
    match PeerUri_parse uri with
    | Err _ => None
    | Ok peer =>
      if pu_quic peer && bool_decide (quic_tls = None) then None
      else Some (peer, wr_bytes (write_event (mkWriter [] None) ev).2)
    end) peers.

(** [send_message] to its end: the pushes it spawns and the announcement.  [others]:
    between reading the count and announcing it. *)
Definition send_and_announce (w : World) (d : Disk) (quic_tls : option QuicTlsConfig) (room txt : list byte)
    (seed : Seed) (o : Oracle) (between : state → state) (http : option (list byte → PeerHttp))
    (seeds : nat → Seed) (others : World → World) :
    Response SendResponse * list (PeerUri * list byte) * World * Disk :=
  let '(r, (g, d')) := send_message (wo_session w, d) room txt seed o between http seeds in
  match r, (send_local (wo_session w, d) room txt seed o).1 with
  | Ok resp, Ok sent =>
    (Ok resp, p2p_push (st_event sent) (st_peers sent) quic_tls,
     notify_room_from_id (set_session w g) (se_room_id (st_event sent)) others, d')
  | _, _ => (r, [], set_session w g, d')
  end.

(** ** Routes *)

Definition routes : list (list byte * list (list byte)) :=
  (λ x : string * list string, (text x.1, text <$> x.2)) <$>
  [("/health", ["GET"]); ("/v1/status", ["GET"]); ("/v1/claim", ["GET"; "POST"]);
   ("/v1/recovery/login", ["POST"]); ("/v1/owner/session", ["GET"; "DELETE"]);
   ("/v1/pair", ["GET"; "POST"]); ("/v1/pair/redeem", ["POST"]); ("/v1/devices", ["GET"]);
   ("/v1/devices/link-secondary", ["POST"]); ("/v1/passkeys/register/begin", ["POST"]);
   ("/v1/passkeys/register/finish", ["POST"]); ("/v1/passkeys/auth/begin", ["POST"]);
   ("/v1/passkeys/auth/finish", ["POST"]); ("/v1/passkeys", ["GET"]); ("/v1/peers", ["POST"]);
   ("/v1/rooms", ["POST"]); ("/v1/messages", ["POST"]); ("/v1/messages/list", ["POST"]);
   ("/v1/messages/wait", ["POST"]); ("/v1/messages/stream", ["GET"]); ("/v1/sync/offer", ["POST"]);
   ("/v1/sync/ingest", ["POST"]); ("/v1/sync/peer", ["POST"]); ("/v1/e2ee/olm-keys", ["GET"]);
   ("/v1/e2ee/trust-keys", ["POST"]); ("/v1/e2ee/export-session", ["POST"]);
   ("/v1/e2ee/import-session", ["POST"]); ("/v1/e2ee/import-olm", ["POST"]);
   ("/v1/e2ee/share-session", ["POST"]); ("/v1/p2p", ["GET"]); ("/v1/remote", ["GET"]);
   ("/v1/relay/poll", ["POST"]); ("/v1/relay/push", ["POST"]); ("/v1/wifi", ["GET"]);
   ("/v1/wifi/scan", ["POST"]); ("/v1/wifi/apply", ["POST"]); ("/v1/ota", ["GET"]);
   ("/v1/ota/check", ["POST"]); ("/v1/ota/apply", ["POST"]); ("/v1/ota/rollback", ["POST"])]%string.

(** A method and a path the router has a handler for. *)
Definition routed (method path : list byte) : bool :=
  existsb (λ r, bool_decide (r.1 = path) && bool_decide (method ∈ r.2)) routes.

(** ** Events from peers: lemmas *)

(** The events of a connection, one after the other. *)
Fixpoint ingest_events (w : World) (l : list SignedEvent) (others : nat → World → World) : World :=
  match l with
  | [] => w
  | ev :: l => ingest_events (ingest_announce w ev (others 0) (others 1)) l (λ k, others (2 + k))
  end.

(** A reader that gives [l] and then an error. *)
Inductive gives {S E} (read : S → result E SignedEvent * S) : S → list SignedEvent → Prop :=
| gives_end s e s' : read s = (Err e, s') → gives read s []
| gives_next s ev s' l : read s = (Ok ev, s') → gives read s' l → gives read s (ev :: l).

Lemma serve_stream_gives {S E} (read : S → result E SignedEvent * S) s l : gives read s l →
  ∀ fuel w others, length l < fuel → (serve_stream read fuel s w others).1 = ingest_events w l others.
Proof.
  induction 1 as [s e s' Hr|s ev s' l Hr _ IH]; intros fuel w others Hf;
    (destruct fuel as [|fuel]; [lia|]); cbn [serve_stream]; rewrite Hr; [done|].
  apply IH. cbn in Hf. lia.
Qed.

(** The stream of events ends, however it is fuelled above that. *)
Lemma serve_stream_fuel {S E} (read : S → result E SignedEvent * S) (left : S → nat) fuel :
  (∀ s ev s', read s = (Ok ev, s') → left s' < left s) →
  ∀ s w others, left s < fuel →
  ∃ l, gives read s l ∧ serve_stream read fuel s w others = serve_stream read (1 + length l) s w others.
Proof.
  intros Hleft. induction fuel as [|fuel IH]; intros s w others Hf; [lia|].
  destruct (read s) as [[ev|e] s'] eqn:Hr.
  - pose proof (Hleft _ _ _ Hr). destruct (IH s' (ingest_announce w ev (others 0) (others 1))
      (λ k, others (2 + k))) as (l & Hl & Heq); [lia|].
    exists (ev :: l). split; [by apply gives_next with s'|].
    cbn [serve_stream length Nat.add]. rewrite Hr. exact Heq.
  - exists []. split; [by apply gives_end with e s'|]. cbn. by rewrite Hr.
Qed.

#[local] Existing Instance node_event_encode.
#[local] Existing Instance node_event_decode.

Lemma read_event_takes r ev r' : read_event r = (Ok ev, r') →
  length (rd_bytes r') < length (rd_bytes r).
Proof.
  unfold read_event, read_u32, Net.read_exact at 1.
  destruct (Nat.leb_spec 4 (length (rd_bytes r))) as [H4|H4]; cbn [fmap result_fmap];
    [|by destruct (rd_end r)].
  destruct (_ <? _)%N; [done|]. unfold Net.read_exact; cbn [rd_bytes rd_error].
  destruct (_ <=? _); [|done]. destruct (from_slice _); [|done]. intros [= _ <-]. cbn.
  rewrite !length_drop. lia.
Qed.

(** Any bytes a TCP peer sends are some events, and no more than that is ingested. *)
Lemma serve_tcp_events sock w others : ∃ l, gives read_event (ts_read sock) l ∧
  serve_tcp sock w others = ingest_events w l others.
Proof.
  unfold serve_tcp. destruct (serve_stream_fuel read_event (λ r, length (rd_bytes r))
    (S (length (rd_bytes (ts_read sock)))) read_event_takes (ts_read sock) w others) as (l & Hl & ->); [lia|].
  exists l. split; [done|]. apply serve_stream_gives; [done|lia].
Qed.

Lemma read_event_gives `{HC : !CodecLaws SignedEvent} l : Forall (λ ev, fits (to_vec ev)) l →
  gives read_event (mkReader (frames l) None) l.
Proof.
  induction 1 as [|ev l Hev _ IH]; [by eapply gives_end|].
  eapply gives_next; [|exact IH]. rewrite frames_cons, read_event_frame by done. by rewrite from_slice_to_vec.
Qed.

Lemma noise_read_gives `{SW : Snow, HC : !CodecLaws SignedEvent} l : Forall (λ ev, fits (to_vec ev)) l →
  ∀ s, carries s (frames l) → gives noise_read_event s l.
Proof.
  induction 1 as [|ev l Hev _ IH]; intros s Hc.
  - destruct (noise_read_json_end (T:=SignedEvent) s Hc) as [s' Hr]. by eapply gives_end.
  - rewrite frames_cons in Hc. destruct (noise_read_json_carries (T:=SignedEvent) s _ _ Hc) as (s1 & Hr & Hc1); [done|].
    rewrite from_slice_to_vec in Hr. eapply gives_next; [exact Hr|by apply IH].
Qed.

Lemma gives_quic r l : gives read_event r l → ∀ w, gives quic_read_event (mkQuicStream w r) l.
Proof.
  induction 1 as [r e r' Hr|r ev r' l Hr _ IH]; intros w.
  - eapply gives_end. unfold quic_read_event. cbn. by rewrite Hr.
  - eapply gives_next; [|apply IH]. unfold quic_read_event. cbn. by rewrite Hr.
Qed.

Lemma frames_length `{!Encode SignedEvent} l : length l ≤ length (frames l).
Proof.
  induction l as [|ev l IH]; [done|]. rewrite frames_cons, length_app. cbn [length].
  unfold frame. rewrite length_app, length_be_bytes. lia.
Qed.

(** Left alone, a connection does to the session what the HTTP handler does. *)
Lemma ingest_events_alone l : ∀ w,
  wo_session (ingest_events w l (λ _, id)) = (sync_ingest (wo_session w) l).2.
Proof.
  induction l as [|ev l IH]; intros w; [done|]. cbn [ingest_events sync_ingest].
  rewrite IH. unfold ingest_announce. cbn [id]. destruct (ingest_remote (wo_session w) ev) as [[[]|e] g];
    cbn; by destruct (sync_ingest g l) as [[? ?] ?].
Qed.

(** ** Sending and waiting *)

(** An accepted message wakes the polls that sleep and reaches the streams of its room,
    whatever other requests do before it is announced. *)
Lemma send_wakes {SL : SignalsLaws} w d qt room txt seed o between http seeds others resp pushes w' d' :
  send_and_announce w d qt room txt seed o between http seeds others = (Ok resp, pushes, w', d') →
  (∀ v f, registered (rn_tick (wo_notify v)) f → registered (rn_tick (wo_notify (others v))) f) →
  (∀ v rx, attached (rn_tx (wo_notify v)) rx → attached (rn_tx (wo_notify (others v))) rx) →
  (∀ x f until, wt_phase x = WtSleep f until → registered (rn_tick (wo_notify w)) f →
     wait_next x w' = Some (wt_set x WtLook, w')) ∧
  ∃ room_id, parse_room_id room = Ok room_id ∧
    ∀ s, sr_room_hex s = room_hex room_id → attached (rn_tx (wo_notify w)) (sr_rx s) → pending s w'.
Proof.
  unfold send_and_announce, send_message. intros H Hf Hx.
  destruct (send_local (wo_session w, d) room txt seed o) as [[sent|e] s1] eqn:Hl; [|by destruct s1].
  assert (∃ room_id, parse_room_id room = Ok room_id ∧ se_room_id (st_event sent) = room_id) as (r & Hr & He).
  { destruct (send_local_Ok _ _ _ _ _ _ _ Hl) as (r & gs & ct & b & Hp & _ & _ & _ & _ & Hs & _).
    apply sign_event_Ok in Hs as [Hu _]. apply (f_equal ue_room_id) in Hu. by exists r. }
  destruct (match http with Some _ => _ | None => _ end) as [[n errors] [g d1]].
  cbn [fst] in H. injection H as _ _ <- _. rewrite He. unfold notify_room_from_id. split.
  - intros x f until Hp Hreg. apply (wait_wakeup x _ f until); [done|]. by apply (Hf (set_session w g)).
  - exists r. split; [done|]. intros s Hh Ha. apply pending_announce; [|done]. by apply (Hx (set_session w g)).
Qed.

(** ** QUIC policy: lemmas *)

(** The pins of the options. *)
Definition option_pins (opts : ServeOptions) : result QuicError (list bytes32) :=
  match so_quic_pins opts with Some s => parse_pin_list s | None => Ok [] end.

Lemma from_files_policy cert key pins mtls cfg :
  quic_from_files cert key pins mtls = Ok (Some cfg) →
  qc_peer_pins cfg = pins ∧ qc_require_client_auth cfg = mtls ∧
  qc_insecure_skip_verify cfg = bool_decide (pins = []) && negb mtls.
Proof.
  unfold quic_from_files, from_pem_files.
  destruct (load_pem_identity cert key) as [[certs k]|e]; [|done].
  cbn [mbind result_bind map_err]. intros [= <-]. destruct mtls; cbn; [|done].
  by rewrite andb_false_r.
Qed.

(** What a built configuration asks of peers. *)
Lemma build_quic_policy opts dd rp gen o d cfg d' :
  build_quic_tls_config opts dd rp gen o d = (Ok (Some cfg), d') →
  option_pins opts = Ok (qc_peer_pins cfg) ∧
  (qc_peer_pins cfg ≠ [] → qc_insecure_skip_verify cfg = false ∧
     qc_require_client_auth cfg = default true (so_quic_mtls opts)) ∧
  (qc_peer_pins cfg = [] → dd = false → so_quic_cert opts = None →
     qc_insecure_skip_verify cfg = true ∧ qc_require_client_auth cfg = false).
Proof.
  unfold build_quic_tls_config, option_pins. destruct (negb _); [done|]. cbv zeta.
  assert (∀ e : result ServeError (list bytes32), (match so_quic_pins opts with
    | Some s => map_err SvQuic (parse_pin_list s) | None => Ok [] end) = e →
    match e with Ok p => match so_quic_pins opts with Some s => parse_pin_list s | None => Ok [] end = Ok p
    | Err _ => True end) as Hp.
  { intros e <-. destruct (so_quic_pins opts) as [s|]; [|done]. by destruct (parse_pin_list s). }
  specialize (Hp _ eq_refl). destruct (match so_quic_pins opts with Some s => map_err SvQuic _ | None => _ end)
    as [pins|e]; [|done]. rewrite Hp. clear Hp.
  set (mtls := default (negb (bool_decide (pins = []))) (so_quic_mtls opts)).
  assert (pins ≠ [] → mtls = default true (so_quic_mtls opts)) as Hm.
  { intros Hne. unfold mtls. by rewrite bool_decide_eq_false_2. }
  assert (∀ cert key, quic_from_files cert key pins mtls = Ok (Some cfg) →
    (Ok pins : result QuicError _) = Ok (qc_peer_pins cfg) ∧ (qc_peer_pins cfg ≠ [] →
      qc_insecure_skip_verify cfg = false ∧ qc_require_client_auth cfg = default true (so_quic_mtls opts))) as Hfile.
  { intros cert key (-> & -> & ->)%from_files_policy. split; [done|]. intros Hne.
    rewrite bool_decide_eq_false_2 by done. auto. }
  destruct (so_quic_cert opts) as [c|], (so_quic_key opts) as [k|]; try done.
  - intros [= H ->]. destruct (Hfile _ _ H) as [? ?]. split_and!; [done|done|]. intros _ _ [=].
  - destruct dd.
    + destruct (identity_on_disk o d) as [[] d1].
      * destruct (fs_read_pem QUIC_CERT o d1) as [cert d2], (fs_read_pem QUIC_KEY o d2) as [key d3].
        intros [= H ->]. destruct (Hfile _ _ H) as [? ?]. by split_and!.
      * destruct (write_self_signed_pem gen QUIC_CERT QUIC_KEY o d1) as [[c|e] d2]; [|done].
        intros [= <- ->]. cbn. split_and!; [done| |done]. intros Hne. rewrite Hm by done.
        destruct pins; [done|]. by destruct (default true _).
    + unfold insecure_ephemeral. destruct gen as [[certs k]|e]; [|done].
      cbn [mbind result_bind map_err]. intros [= <- ->]. case_bool_decide as Hb.
      * subst pins. by split_and!.
      * cbn. split_and!; [done| |by intros]. intros _. rewrite Hm by done.
        destruct pins; [done|]. by destruct (default true _).
Qed.

(** Pins with mutual TLS switched off bind only the outgoing side: such a node takes
    any dialler. *)
Lemma pins_ignored_inbound opts dd rp gen o d cfg d' sc :
  build_quic_tls_config opts dd rp gen o d = (Ok (Some cfg), d') →
  so_quic_mtls opts = Some false → qc_peer_pins cfg ≠ [] →
  server_config cfg = Ok sc → sc_client_verifier sc = None.
Proof.
  intros H Hm Hp. destruct (build_quic_policy _ _ _ _ _ _ _ _ H) as (_ & H1 & _).
  destruct (H1 Hp) as [_ Ha]. rewrite Hm in Ha. unfold server_config. rewrite Ha.
  destruct (single_cert _ _); [|done]. by intros [= <-].
Qed.

(** A node without a data directory and without pins drops a request for mutual TLS. *)
Lemma mtls_dropped opts rp gen o d cfg d' sc :
  build_quic_tls_config opts false rp gen o d = (Ok (Some cfg), d') →
  so_quic_mtls opts = Some true → so_quic_pins opts = None → so_quic_cert opts = None →
  server_config cfg = Ok sc → sc_client_verifier sc = None.
Proof.
  intros H _ Hp Hc. destruct (build_quic_policy _ _ _ _ _ _ _ _ H) as (H0 & _ & H2).
  unfold option_pins in H0. rewrite Hp in H0. injection H0 as H0.
  destruct (H2 (eq_sym H0) eq_refl Hc) as [_ Ha]. unfold server_config. rewrite Ha.
  destruct (single_cert _ _); [|done]. by intros [= <-].
Qed.

(** Mutual TLS without pins: no server is accepted, every client certificate is. *)
Lemma mtls_without_pins cfg cert : qc_peer_pins cfg = [] → qc_require_client_auth cfg = true →
  qc_insecure_skip_verify cfg = false →
  (∀ cc, client_config cfg = Ok cc → verify_server_cert (cc_verifier cc) cert = Err ApplicationVerificationFailure) ∧
  (∀ sc v, server_config cfg = Ok sc → sc_client_verifier sc = Some v → verify_client_cert v cert = Ok tt).
Proof.
  intros Hp Ha Hs. split.
  - unfold client_config. rewrite Hp, Ha, Hs. cbn [orb]. intros cc.
    destruct (single_cert _ _); [|done]. by intros [= <-].
  - unfold server_config. rewrite Hp, Ha. intros sc v.
    destruct (single_cert _ _); [|done]. intros [= <-] [= <-]. done.
Qed.

(** ** The start of a node: lemmas *)

Lemma new_state_sessions x opts o d n d' : new_state_with_options x opts o d = (Ok n, d') →
  ac_owner_sessions (ns_access (nd_session n)) = ∅.
Proof.
  unfold new_state_with_options. destruct (so_data_dir opts); [|by intros [= <- _]].
  unfold load_from_data_dir. intros Hn.
  repeat match type of Hn with context [match ?f with _ => _ end] =>
    lazymatch f with
    | load_or_create_identity _ _ _ => destruct f as [[?|?] ?]
    | load_claim _ _ => destruct f as [[?|?] ?]
    | load_meta _ _ => destruct f as [[?|?] ?]
    | with_sqlite _ _ => destruct f as [?|?]
    | load_e2ee _ _ _ _ _ => destruct f as [[?|?] ?]
    end; try discriminate Hn end.
  by injection Hn as <- _.
Qed.

(** A prepared node: its gate, its addresses, and the state it was made from. *)
Lemma prepare_serve_spec x bind opts o d p d' : prepare_serve x bind opts o d = (Ok p, d') →
  let n := ps_node p in
  nd_require_owner n = so_require_owner_non_loopback opts && negb (is_loopback_bind bind) ∧
  ac_owner_sessions (ns_access (nd_session n)) = ∅ ∧
  ac_p2p_uri (ns_access (nd_session n)) = Some (ps_p2p p) ∧ nd_rpc_tls n = ps_tls p ∧
  ∃ n0 d0 base, new_state_with_options x opts o d = (Ok n0, d0) ∧
    nd_session n = set_rpc_base (set_p2p_uri (nd_session n0) (ps_p2p p)) base.
Proof.
  unfold prepare_serve. destruct (new_state_with_options x opts o d) as [[n0|e] d0] eqn:Hn; [|done].
  pose proof (new_state_sessions _ _ _ _ _ _ Hn) as H0.
  destruct (load_tls_config _ _ _ _) as [https|e]; [|done].
  destruct (build_quic_tls_config _ _ _ _ o d0) as [[qcfg|e] d1]; [|done].
  destruct (start_p2p_listener _ _ _ _) as [uri|e]; [|done]. cbn [mbind result_bind].
  destruct (map_err SvIo (sa_listen x bind)) as [addr|e]; [|done]. cbn [mbind result_bind].
  intros [= <- _]. split_and!; [done..|]. by eexists n0, d0, _.
Qed.

(** The routes that answer without an owner session on an exposed node. *)
Lemma public_surface :
  List.filter (λ r, is_public_path r.1 r.2) (routes ≫= λ r, (λ m, (m, r.1)) <$> r.2) =
  (λ x : string * string, (text x.1, text x.2)) <$>
  [("GET", "/health"); ("GET", "/v1/status"); ("GET", "/v1/claim"); ("POST", "/v1/claim");
   ("POST", "/v1/recovery/login"); ("GET", "/v1/owner/session"); ("DELETE", "/v1/owner/session");
   ("POST", "/v1/pair/redeem"); ("GET", "/v1/p2p"); ("GET", "/v1/remote")]%string.
Proof. vm_compute. reflexivity. Qed.

(** The requests a node makes of its peers carry no token, so an exposed peer with the
    owner gate refuses them. *)
Lemma gate_refuses_peers (st : RpcState) (ip : list byte) (method path : list byte) (now t t' : N) :
  rs_require_owner st = true →
  (method, path) ∈ [(text "POST", text "/v1/sync/ingest"); (text "POST", text "/v1/sync/offer");
    (text "GET", text "/v1/e2ee/olm-keys"); (text "POST", text "/v1/e2ee/import-olm")] →
  routed method path = true ∧
  ∃ e, (authn_rate_middleware st (mkHttpRequest ip method path None (mkHeaders None None)) now t t').1 = Err e.
Proof.
  intros Hr Hin. assert (is_public_path method path = false ∧ routed method path = true) as [Hp Hrt].
  { repeat (apply elem_of_cons in Hin as [[= -> ->]|Hin]; [split; vm_compute; reflexivity|]).
    by apply elem_of_nil in Hin. }
  split; [done|].
  destruct (authn_rate_middleware st (mkHttpRequest ip method path None (mkHeaders None None)) now t t').1
    as [[]|e] eqn:H; [|eauto].
  apply gate_passed in H as (tok & Ht & _); done.
Qed.

(** The length of a short frame starts with two zero bytes. *)
Lemma short_length n : (n < 2 ^ 16)%N → be_bytes 4 n = be_bytes 2 0 ++ be_bytes 2 n.
Proof.
  intros Hn. unfold be_bytes. cbn [le_bytes rev app].
  replace (n / 256 / 256)%N with 0%N; [done|].
  rewrite N.Div0.div_div. symmetry. by apply N.div_small.
Qed.

(** A peer that pushes over plain TCP, as [send_message] does whatever the URI says,
    reaches nothing behind a Noise listener. *)
Lemma noise_peer_unreachable `{SW : Snow} (fuel : nat) (body k : list byte) e wr key w others :
  (∀ st cap, ∃ err st', hs_read_message st [] cap = (Err err, st')) →
  (N.of_nat (length body) < 2 ^ 16)%N →
  serve_noise fuel (mkTcpStream (mkReader (frame body ++ k) e) wr) key w others = w.
Proof.
  intros Hempty Hb. unfold serve_noise, handshake_responder, handshake.
  destruct (map_snow key) as [private|err]; [|done]. cbn [mbind result_bind].
  destruct (map_snow (snow_build false private)) as [st|err]; [|done].
  unfold frame. rewrite short_length by done. rewrite <-!app_assoc.
  change (be_bytes 2 0) with (record []). unfold run_xx_handshake. unfold hs_receive at 1.
  destruct (Hempty st MAX_NOISE_MSG) as (err & st' & He). by rewrite read_raw_record, He.
Qed.

(** ** Theorems *)

(** C23: Pins bind peers: of two nodes with QUIC policies built from their options,
    a connection that completes has shown the dialler, if it has pins, a certificate
    with one of them, and the listener, if it has pins and mutual TLS is not switched
    off, likewise.  [rustls] completes a connection only after the verifiers of both
    configurations accepted. *)
Theorem quic_peers_pinned (establishes : ClientConfig → ServerConfig → bool)
    (opts opts' : ServeOptions) dd dd' rp rp' gen gen' o o' d d' d1 d1' (c s : QuicTlsConfig) cc sc
    (pins pins' : list bytes32) :
  rustls_checks establishes →
  build_quic_tls_config opts dd rp gen o d = (Ok (Some c), d1) → option_pins opts = Ok pins →
  build_quic_tls_config opts' dd' rp' gen' o' d' = (Ok (Some s), d1') → option_pins opts' = Ok pins' →
  client_config c = Ok cc → server_config s = Ok sc → establishes cc sc = true →
  (pins ≠ [] → ∃ leaf, head (qc_certs s) = Some leaf ∧ cert_pin_blake3 leaf ∈ pins) ∧
  (pins' ≠ [] → so_quic_mtls opts' ≠ Some false →
     ∃ leaf, head (qc_certs c) = Some leaf ∧ cert_pin_blake3 leaf ∈ pins').
Proof.
  intros Hr Hc Hp Hs Hp' Hcc Hsc He.
  destruct (quic_admission establishes c s cc sc Hr Hcc Hsc He) as [(leaf & Hl & Hserver) Hclient].
  destruct (build_quic_policy _ _ _ _ _ _ _ _ Hc) as (Hpc & Hskip & _).
  destruct (build_quic_policy _ _ _ _ _ _ _ _ Hs) as (Hps & Hauth & _).
  rewrite Hp in Hpc. injection Hpc as ->. rewrite Hp' in Hps. injection Hps as ->. split.
  - intros Hne. exists leaf. split; [done|]. destruct Hserver as [H|[H _]]; [exact H|by destruct Hne].
  - intros Hne Hm. destruct (Hauth Hne) as [_ Ha].
    destruct Hclient as (l & Hcl & [H|H]); [|by exists l|by destruct Hne].
    rewrite Ha. by destruct (so_quic_mtls opts') as [[]|].
Qed.

(** C8: An exposed node answers to its owner only: once a node has started on an
    address that is not loopback with the owner gate left on, a request for anything
    but the ten public routes passes the gate, at any later moment, only with a token
    that a claim of the unclaimed node or a login with its recovery code handed out. *)
Theorem exposed_node_gated (x : Start) (bind : list byte) (opts : ServeOptions) (o : Oracle)
    (d d' : Disk) (p : PreparedServe) (l : list action) (book : RateLimitBook)
    (req : HttpRequest) (now t t' : N) :
  prepare_serve x bind opts o d = (Ok p, d') →
  so_require_owner_non_loopback opts = true → is_loopback_bind bind = false →
  let n := ps_node p in
  let s := (ns_access (nd_session n), d') in
  (authn_rate_middleware (mkRpcState (run s l).1 (nd_require_owner n) book (nd_rate_limit_enabled n))
     req now t t').1 = Ok tt →
  is_public_path (hq_method req) (hq_path req) = false →
  ∃ tok, extract_owner_token_flexible (hq_headers req) (q ← hq_query req; query_owner_token q) = Some tok ∧
    ∃ l1 a l2, l = l1 ++ a :: l2 ∧ grants (run s l1) a tok.
Proof.
  intros Hs Ho Hb n s Hg Hp. apply prepare_serve_spec in Hs as (Hr & H0 & _). fold n in Hr, H0.
  rewrite Ho, Hb in Hr. destruct (gate_passed _ _ _ _ _ Hg Hr Hp) as (tok & Ht & Hin).
  exists tok. split; [exact Ht|]. by apply session_granted.
Qed.

(** C17: The listener ingests what peers send, over every transport: on a connection
    that carries the events [l], framed over TCP or QUIC or behind a Noise handshake,
    the loop ingests each, in order, announces the new ones, and ends; without other
    requests the session is the one the HTTP handler would have left. *)
Theorem p2p_listener_exact `{SW : Snow, SNL : !SnowLaws, HC : !CodecLaws SignedEvent}
    (l : list SignedEvent) (wr : Writer) (w : World) (others : nat → World → World)
    (ki kr : list byte) (i r : HandshakeState) :
  Forall (λ ev, fits (to_vec ev)) l → (len (frames l) < 2 ^ 64)%N →
  snow_build true ki = Ok i → snow_build false kr = Ok r →
  serve_tcp (mkTcpStream (mkReader (frames l) None) wr) w others = ingest_events w l others ∧
  serve_quic (mkQuicStream wr (mkReader (frames l) None)) w others = ingest_events w l others ∧
  (∃ bi br ns ns', (handshake_initiator (mkTcpStream (mkReader br None) (mkWriter [] None)) (Ok ki)).1 = Ok ns ∧
     noise_write_events ns l = (Ok tt, ns') ∧ wr_bytes (ts_write (nt_tcp ns')) = bi ∧
     ∀ fuel, length l < fuel →
       serve_noise fuel (mkTcpStream (mkReader bi None) (mkWriter [] None)) (Ok kr) w others =
         ingest_events w l others) ∧
  wo_session (ingest_events w l (λ _, id)) = (sync_ingest (wo_session w) l).2.
Proof.
  intros Hl Hb Hi Hr. pose proof (read_event_gives l Hl) as Hg. pose proof (frames_length l) as Hlen.
  split_and!.
  - apply serve_stream_gives; [done|cbn; lia].
  - apply serve_stream_gives; [by apply gives_quic|cbn; lia].
  - destruct (noise_delivery ki kr i r l Hi Hr Hl Hb) as (bi & br & ns & ns' & H1 & H2 & H3 & H4).
    exists bi, br, ns, ns'. split_and!; [done..|]. intros fuel Hf.
    destruct (H4 []) as (t & Ht & Hc). unfold serve_noise.
    destruct (handshake_responder _ _) as [hs ?]. cbn [fst] in Ht. subst hs.
    apply serve_stream_gives; [by apply noise_read_gives|done].
  - apply ingest_events_alone.
Qed.

End serve.
