(* ===== verification/Status.v ===== *)
(** * Status and passkey requests ([crates/td-node/src/rpc.rs])

    The handlers that report the node's state, and those of the passkey ceremonies.
    Fields that always say [ok: true] are left out.  Random draws and the readings of the
    clock are arguments; the iteration order of a [HashMap] is that of [HashIter]. *)

From S2P Require Import Prelude Text Crypto Event Room Sync Link Base64 Passkey E2ee Seal Persist.
From S2P Require Import Rate Access Session Peers Messages Quic Notify Serve.

Section status.
Context {NE : NodeEnv} {TL : Tls} {PE : PasskeyEnv} {SG : Signals}.
#[local] Existing Instance persist_iter.
#[local] Existing Instance link_event.

(** ** The node *)

Record PeerInfo : Type := mkPeerInfo {
  pi_name : list byte; pi_uri : list byte; pi_rpc : option (list byte); pi_p2p : option (list byte) }.

Record StatusResponse : Type := mkStatusResponse {
  sr_device_id : list byte; sr_verifying_key : list byte; sr_event_count : nat;
  sr_rooms : list (list byte); sr_linked_devices : list (list byte); sr_peers : list PeerInfo;
  sr_passkey_credentials : nat; sr_e2ee_default : bool; sr_p2p_uri : option (list byte); sr_rpc_base : option (list byte);
  sr_advertise_host : option (list byte); sr_relay_uri : option (list byte); sr_require_owner : bool;
  sr_rate_limit : bool; sr_claimed : bool; sr_display_name : option (list byte);
  sr_claimed_at_ms : option N; sr_pair_tokens_active : nat }.

Definition peer_info (ep : PeerEndpoint) : PeerInfo :=
  mkPeerInfo (pe_name ep)
    (default [] (match pe_rpc ep with Some u => Some u | None => pe_p2p ep end)) (pe_rpc ep) (pe_p2p ep).

Definition unredeemed (g : Access) : nat :=
  length (List.filter (λ t, bool_decide (pt_redeemed_by t = None)) (map_values (ac_pair_tokens g))).

(** [t] is the reading of the purge. *)
Definition status (n : Node) (t : N) : StatusResponse * Node :=
  let g := nd_session n in
  let a := ns_access g in
  let rooms := (λ r, hex_id (RoomId_0 r)) <$> room_ids (ns_node g) in
  let linked := hex32 <$> linked_devices (ac_link a) in
  let peers := peer_info <$> map_values (ns_peers g) in
  let a := purge_expired_pair_tokens a t in
  ({| sr_device_id := hex32 (kp_device_id (ns_keypair g));
      sr_verifying_key := hex_encode (array_bytes (vk_as_bytes (kp_verifying_key (ns_keypair g))));
      sr_event_count := event_count (ns_node g);
      sr_rooms := rooms;
      sr_linked_devices := linked;
      sr_peers := peers;
      sr_passkey_credentials := credential_count (ns_passkeys g);
      sr_e2ee_default := true;
      sr_p2p_uri := ac_p2p_uri a;
      sr_rpc_base := ac_rpc_base a;
      sr_advertise_host := rm_advertise_host (ns_remote g);
      sr_relay_uri := rm_relay_uri (ns_remote g);
      sr_require_owner := nd_require_owner n;
      sr_rate_limit := nd_rate_limit_enabled n;
      sr_claimed := cs_claimed (ac_claim a);
      sr_display_name := cs_display_name (ac_claim a);
      sr_claimed_at_ms := cs_claimed_at_ms (ac_claim a);
      sr_pair_tokens_active := unredeemed a |}, with_session n (with_access g a)).

Definition list_devices (g : NodeSession) : list (list byte) :=
  hex32 <$> linked_devices (ac_link (ns_access g)).

Record P2pStatus : Type := mkP2pStatus {
  ps_p2p_uri : option (list byte); ps_rpc_base : option (list byte);
  ps_advertise_host : option (list byte); ps_relay_uri : option (list byte);
  ps_relay_last_fetch_ms : option N; ps_relay_last_error : option Fault; ps_relay_last_fetched : N;
  ps_require_owner : bool; ps_rate_limit : bool; ps_p2p_noise : bool; ps_p2p_quic : bool;
  ps_quic_pin : option (list byte); ps_quic_mtls : bool; ps_quic_pins : nat; ps_rpc_tls : bool;
  ps_relay_seal : list byte; ps_peers : list PeerEndpoint }.

(** [remote_status] is the same. *)
Definition p2p_status (n : Node) : P2pStatus :=
  let g := nd_session n in
  {| ps_p2p_uri := ac_p2p_uri (ns_access g);
     ps_rpc_base := ac_rpc_base (ns_access g);
     ps_advertise_host := rm_advertise_host (ns_remote g);
     ps_relay_uri := rm_relay_uri (ns_remote g);
     ps_relay_last_fetch_ms := rl_last_fetch_ms (ns_relay g);
     ps_relay_last_error := rl_last_error (ns_relay g);
     ps_relay_last_fetched := rl_last_fetched (ns_relay g);
     ps_require_owner := nd_require_owner n;
     ps_rate_limit := nd_rate_limit_enabled n;
     ps_p2p_noise := rm_p2p_noise (ns_remote g);
     ps_p2p_quic := rm_p2p_quic (ns_remote g);
     ps_quic_pin := nd_quic_pin n;
     ps_quic_mtls := match nd_quic_tls n with Some c => qc_require_client_auth c | None => false end;
     ps_quic_pins := match nd_quic_tls n with Some c => length (qc_peer_pins c) | None => 0 end;
     ps_rpc_tls := nd_rpc_tls n;
     ps_relay_seal := text "olm-v2+aead-v1";
     ps_peers := map_values (ns_peers g) |}.

(** ** Claim, sessions and pairing *)

Record ClaimStatusResponse : Type := mkClaimStatusResponse {
  ct_claimed : bool; ct_display_name : option (list byte); ct_claimed_at_ms : option N;
  ct_device_id : list byte; ct_rpc_base : option (list byte); ct_p2p_uri : option (list byte);
  ct_recovery_login : bool }.

Definition claim_status (g : Access) : ClaimStatusResponse :=
  mkClaimStatusResponse (cs_claimed (ac_claim g)) (cs_display_name (ac_claim g))
    (cs_claimed_at_ms (ac_claim g)) (hex32 (ac_device_id g)) (ac_rpc_base g) (ac_p2p_uri g)
    (cs_claimed (ac_claim g) && bool_decide (is_Some (cs_recovery_hash (ac_claim g)))).

Record OwnerSessionStatus : Type := mkOwnerSessionStatus {
  ow_authenticated : bool; ow_source : option (list byte); ow_expires_in_secs : option N;
  ow_claimed : bool; ow_display_name : option (list byte) }.

(** [t], [t'] are the readings of the check, [t2] the one after it. *)
Definition owner_session_status (g : Access) (h : Headers) (t t' t2 : N) : OwnerSessionStatus * Access :=
  let answer (ok : bool) (m : option OwnerSession) g :=
    mkOwnerSessionStatus ok (os_source <$> m) ((λ m, (os_expires_at m - t2) / secs 1)%N <$> m)
      (cs_claimed (ac_claim g)) (cs_display_name (ac_claim g)) in
  match extract_owner_token h with
  | Some tok =>
    let '(ok, g) := owner_session_valid g tok t t' in
    (if ok : bool then answer true (ac_owner_sessions g !! tok) g else answer false None g, g)
  | None => (answer false None g, g)
  end.

Record PairItem : Type := mkPairItem {
  pm_token_prefix : list byte; pm_label : list byte; pm_expires_in_secs : N; pm_redeemed : bool;
  pm_created_ms : N }.

Definition pair_item (now : N) (p : list byte * PairToken) : PairItem :=
  mkPairItem (take_chars 8 p.1) (pt_label p.2) ((pt_expires_at p.2 - now) / secs 1)%N
    (bool_decide (is_Some (pt_redeemed_by p.2))) (pt_created_ms p.2).

Definition pair_list (g : Access) (t now : N) : (bool * list PairItem) * Access :=
  let g := purge_expired_pair_tokens g t in
  ((cs_claimed (ac_claim g), pair_item now <$> map_iter (ac_pair_tokens g)), g).

(** ** Passkeys *)

Definition PasskeyError_to_string (e : PasskeyError) : list byte :=
  match e with
  | UnknownChallenge => text "unknown challenge"
  | ChallengeMismatch => text "challenge mismatch"
  | ErrClientData s => text "invalid client data: " ++ s
  | ErrAuthData s => text "invalid authenticator data: " ++ s
  | UnknownCredential => text "unknown credential"
  | ErrSignature s => text "bad signature: " ++ s
  | ErrCodec s => text "codec: " ++ s
  | UnsupportedKey => text "unsupported cose key"
  end.

Definition with_passkeys (g : NodeSession) (x : PasskeyRegistry) : NodeSession :=
  mkNodeSession (ns_keypair g) (ns_node g) (ns_rooms g) (ns_peers g) (ns_access g) x (ns_e2ee g)
    (ns_e2ee_rooms g) (ns_peer_olm_keys g) (ns_ts_counter g) (ns_remote g) (ns_relay g).

Definition default_user : list byte := text "thunderducks-user".
Definition default_display : list byte := text "Thunderducks User".
Definition default_label : list byte := text "primary".

(** Absent fields take their defaults. *)
Definition passkey_register_begin (g : NodeSession) (user_name display_name : option (list byte))
    (handle : array 16) (raw : bytes32) : PublicKeyCredentialCreationOptions * NodeSession :=
  let '(opts, p) := begin_registration (ns_passkeys g) handle raw (default default_user user_name)
    (default default_display display_name) in
  (opts, with_passkeys g p).

Record PasskeyRegistered : Type := mkPasskeyRegistered {
  kr_credential_id : list byte; kr_label : list byte; kr_count : nat }.

Definition passkey_register_finish (g : NodeSession)
    (challenge credential_id client_data_json authenticator_data public_key_spki : list byte)
    (label : option (list byte)) : Reply PasskeyRegistered * NodeSession :=
  let '(r, p) := finish_registration (ns_passkeys g) challenge credential_id client_data_json
    authenticator_data public_key_spki (default default_label label) in
  (match r with
   | Ok stored => Json (mkPasskeyRegistered (b64url (sc_credential_id stored)) (sc_label stored) (credential_count p))
   | Err e => Refuse 400 (PasskeyError_to_string e) None
   end, with_passkeys g p).

Definition passkey_auth_begin (g : NodeSession) (raw : bytes32) :
    PublicKeyCredentialRequestOptions * NodeSession :=
  let '(opts, p) := begin_authentication (ns_passkeys g) raw in (opts, with_passkeys g p).

Definition passkey_auth_finish (g : NodeSession)
    (challenge credential_id client_data_json authenticator_data signature : list byte) :
    Reply (list byte) * NodeSession :=
  let '(r, p) := finish_authentication (ns_passkeys g) challenge credential_id client_data_json
    authenticator_data signature in
  (match r with
   | Ok cred => Json cred
   | Err e => Refuse 401 (PasskeyError_to_string e) None
   end, with_passkeys g p).

(** The identifier, label and counter of each credential. *)
Definition passkey_list (g : NodeSession) : list (list byte * list byte * N) :=
  (λ c, (b64url (sc_credential_id c), sc_label c, sc_sign_count c)) <$> list_credentials (ns_passkeys g).

(** ** Lemmas *)

(** The tokens a status counts. *)
Definition open_tokens (g : Access) (t : N) : gset (list byte) :=
  dom (filter (λ p, (t < pt_expires_at p.2)%N ∧ pt_redeemed_by p.2 = None) (ac_pair_tokens g)).

Lemma elem_of_open_tokens g t tok : tok ∈ open_tokens g t ↔
  ∃ e, ac_pair_tokens g !! tok = Some e ∧ (t < pt_expires_at e)%N ∧ pt_redeemed_by e = None.
Proof.
  unfold open_tokens. rewrite elem_of_dom. split.
  - intros [e [He [Ht Hr]]%map_lookup_filter_Some]. eauto.
  - intros (e & He & Ht & Hr). exists e. by apply map_lookup_filter_Some.
Qed.

(** Counting the values that pass a test, in any order of iteration. *)
Lemma filter_values_size {V} (P : V → Prop) `{∀ v, Decision (P v)} (m : gmap (list byte) V) :
  length (List.filter (λ v, bool_decide (P v)) (map_values m)) = size (filter (λ p, P p.2) m).
Proof.
  assert (∀ l : list (list byte * V),
    length (List.filter (λ v, bool_decide (P v)) l.*2) = length (filter (λ p, P p.2) l)) as Hl.
  { induction l as [|[k v] l IH]; [done|].
    rewrite fmap_cons, filter_cons. cbn [List.filter snd].
    case_bool_decide; [rewrite decide_True by done|rewrite decide_False by done]; cbn; auto. }
  unfold map_values. rewrite Hl, map_iter_perm, <-length_map_to_list. apply Permutation_length, NoDup_Permutation.
  - apply list.NoDup_filter, NoDup_map_to_list.
  - apply NoDup_map_to_list.
  - intros [k v]. rewrite list_elem_of_filter, !elem_of_map_to_list, map_lookup_filter_Some. tauto.
Qed.

Lemma unredeemed_open g t : unredeemed (purge_expired_pair_tokens g t) = size (open_tokens g t).
Proof.
  unfold unredeemed, open_tokens. cbn [ac_pair_tokens purge_expired_pair_tokens set_pair_tokens].
  rewrite (filter_values_size (λ e, pt_redeemed_by e = None)), size_dom. f_equal.
  apply map_eq. intros k. apply option_eq. intros e. rewrite !map_lookup_filter_Some. cbn. tauto.
Qed.

(** Redeeming at the instant of a status. *)
Lemma redeem_open g tok l kp t : trim tok ≠ [] → cs_claimed (ac_claim g) = true →
  accepted (pair_redeem g tok l kp t t).1 = bool_decide (trim tok ∈ open_tokens g t).
Proof.
  intros Hne Hc. unfold pair_redeem. rewrite bool_decide_eq_false_2 by done. rewrite Hc. cbn [negb].
  cbn [ac_pair_tokens purge_expired_pair_tokens set_pair_tokens].
  destruct (filter _ (ac_pair_tokens g) !! trim tok) as [e|] eqn:He; cbn [fst accepted].
  - apply map_lookup_filter_Some in He as [He Ht]. cbn in Ht.
    destruct (N.leb_spec (pt_expires_at e) t) as [|_]; [lia|].
    destruct (pt_redeemed_by e) eqn:Hr; cbn [fst accepted]; symmetry.
    + apply bool_decide_eq_false_2. rewrite elem_of_open_tokens. intros (e' & He' & _ & Hr'). congruence.
    + apply bool_decide_eq_true_2. rewrite elem_of_open_tokens. eauto.
  - symmetry. apply bool_decide_eq_false_2. rewrite elem_of_open_tokens. intros (e & He' & Ht & _).
    apply map_lookup_filter_None in He as [He|He]; [congruence|]. by apply (He e).
Qed.

(** A finished passkey ceremony changes the registry alone: it opens no owner session. *)
Lemma passkey_auth_no_session g ch i c a s :
  let g' := (passkey_auth_finish g ch i c a s).2 in
  ns_access g' = ns_access g ∧ creds (ns_passkeys g') = creds (finish_authentication (ns_passkeys g) ch i c a s).2.
Proof. cbv zeta. unfold passkey_auth_finish. by destruct (finish_authentication _ _ _ _ _ _) as [[c'|e] p]. Qed.

(** ** Theorems *)

(** The status requests tell the truth: the number of active pairing tokens of
    [status] is the size of the set of tokens that [pair_redeem] accepts at that
    instant on a claimed node; [owner_session_status] says authenticated exactly when
    [require_owner] lets the same headers through, and leaves the same state;
    [claim_status] offers a recovery login exactly when [recovery_login] does not refuse a
    long enough code, outside a lock, for want of a claim or a hash. *)
Lemma status_truthful (n : Node) (h : Headers) (t t' t2 : N) :
  let g := ns_access (nd_session n) in
  (∃ tokens : gset (list byte), sr_pair_tokens_active (status n t).1 = size tokens ∧
     ∀ tok label kp, trim tok = tok → tok ≠ [] → cs_claimed (ac_claim g) = true →
       (tok ∈ tokens ↔ accepted (pair_redeem g tok label kp t t).1 = true)) ∧
  ow_authenticated (owner_session_status g h t t' t2).1 = is_ok (require_owner g h t t').1 ∧
  (owner_session_status g h t t' t2).2 = (require_owner g h t t').2 ∧
  ∀ code dr, 8 ≤ length (trim code) → recovery_locked g t = None →
    (ct_recovery_login (claim_status g) = false ↔
     ∃ e, (recovery_login g code t t' dr).1 = Refuse 409 e None).
Proof.
  cbv zeta. split_and!.
  - exists (open_tokens (ns_access (nd_session n)) t). split; [apply unredeemed_open|].
    intros tok label kp Ht Hne Hc. rewrite <-Ht in Hne. rewrite redeem_open, Ht, bool_decide_eq_true by done. done.
  - unfold owner_session_status, require_owner, require_owner_token.
    destruct (extract_owner_token h) as [tok|]; [|done].
    by destruct (owner_session_valid _ tok t t') as [[] g1].
  - unfold owner_session_status, require_owner, require_owner_token.
    destruct (extract_owner_token h) as [tok|]; [|done].
    by destruct (owner_session_valid _ tok t t') as [[] g1].
  - intros code dr Hl Hlock. unfold recovery_login, claim_status. cbn [ct_recovery_login].
    rewrite (proj2 (Nat.ltb_ge _ _) Hl), Hlock.
    destruct (cs_claimed _); cbn [negb andb]; [|split; eauto].
    destruct (cs_recovery_hash _) as [x|]; [|split; [eauto|done]].
    rewrite bool_decide_eq_true_2 by done. split; [done|]. intros [e He].
    destruct (same_hex _ _); [|done]. cbn [negb] in He.
    by destruct (mint_owner_session _ _ _ _ _ _) as [[x1 x2] x3].
Qed.

End status.
