(* ===== verification/Cli.v ===== *)
(** * The command line ([crates/td-cli/src/main.rs])

    The options a [serve] command starts a node with, the requests of the other commands
    and what is made of their answers, and the smoke run.  The parsing of arguments is
    [clap]'s: a command comes parsed, with the values of its environment variables. *)

From S2P Require Import Prelude Text Json Crypto Event Link E2ee Seal Persist Rate Access Session.
From S2P Require Import Peers Messages Quic Notify Serve.

(** ** Commands *)

Record ServeArgs : Type := mkServeArgs {
  sg_bind : list byte; sg_data_dir : option (list byte); sg_p2p_bind : option (list byte);
  sg_advertise_host : option (list byte); sg_relay_uri : option (list byte);
  sg_relay_key : option (list byte); sg_p2p_noise : bool; sg_p2p_quic : bool;
  sg_tls_cert : option (list byte); sg_tls_key : option (list byte); sg_tls_self_signed : bool;
  sg_quic_cert : option (list byte); sg_quic_key : option (list byte);
  sg_quic_pins : option (list byte); sg_quic_mtls : option bool; sg_require_owner : bool;
  sg_rate_limit : bool }.

Inductive Commands : Type :=
| CmdVersion
| CmdHappyPath
| CmdServe (args : ServeArgs)
| CmdStatus
| CmdLinkDevice
| CmdDevices
| CmdAddPeer (name uri : list byte)
| CmdCreateRoom (name : list byte)
| CmdSend (room_id txt : list byte)
| CmdRecv (room_id : list byte)
| CmdSmoke.

(** A request: GET without a body, POST with one. *)
Record Call : Type := mkCall { ca_path : list byte; ca_body : option Jv }.
Definition ca_method (c : Call) : list byte := match ca_body c with None => text "GET" | Some _ => text "POST" end.

(** What the client gets back: no answer, an error status with its body, a parsed body. *)
Inductive Answer : Type :=
| AnFailed (e : list byte)
| AnStatus (status : list byte) (body : result (list byte) (list byte))
| AnBody (body : result (list byte) Jv).

Definition link_call : Call := mkCall (text "/v1/devices/link-secondary") (Some (jobj [])).
Definition devices_call : Call := mkCall (text "/v1/devices") None.
Definition add_peer_call (name uri : list byte) : Call :=
  mkCall (text "/v1/peers") (Some (jobj [(text "name", VString name); (text "uri", VString uri)])).
Definition create_room_call (name : list byte) : Call :=
  mkCall (text "/v1/rooms") (Some (jobj [(text "name", VString name)])).
Definition send_call (room_id txt : list byte) : Call :=
  mkCall (text "/v1/messages") (Some (jobj [(text "room_id", VString room_id); (text "text", VString txt)])).
Definition recv_call (room_id : list byte) : Call :=
  mkCall (text "/v1/messages/list") (Some (jobj [(text "room_id", VString room_id)])).

(** The request of a command that is one request. *)
Definition request_of (c : Commands) : option Call :=
  match c with
  | CmdStatus => Some (mkCall (text "/v1/status") None)
  | CmdLinkDevice => Some link_call
  | CmdDevices => Some devices_call
  | CmdAddPeer name uri => Some (add_peer_call name uri)
  | CmdCreateRoom name => Some (create_room_call name)
  | CmdSend room_id txt => Some (send_call room_id txt)
  | CmdRecv room_id => Some (recv_call room_id)
  | _ => None
  end.

Section cli.
Context {NE : NodeEnv} {JT : JvText}.
#[local] Existing Instance link_event.
(** [to_string] of a value; the text after "tducks "; building the HTTP client *)
Context (jv_to_string : Jv → list byte) (package_version : list byte) (client : result (list byte) unit).

(** ** Serving *)

(** The options: [from_env] overridden by the arguments. *)
Definition serve_options (env : ServeOptions) (a : ServeArgs) : ServeOptions :=
  let over {A} (x y : option A) := match x with Some _ => x | None => y end in
  {| so_data_dir := over (sg_data_dir a) (so_data_dir env);
     so_p2p_bind := over (sg_p2p_bind a) (so_p2p_bind env);
     so_advertise_host := over (sg_advertise_host a) (so_advertise_host env);
     so_relay_uri := over (sg_relay_uri a) (so_relay_uri env);
     so_relay_key := match sg_relay_key a with
                     | Some k => derive_relay_key (parse_relay_key_material k)
                     | None => so_relay_key env
                     end;
     so_require_owner_non_loopback := sg_require_owner a;
     so_rate_limit := sg_rate_limit a;
     so_p2p_noise := sg_p2p_noise a;
     so_p2p_quic := sg_p2p_quic a;
     so_tls_cert := over (sg_tls_cert a) (so_tls_cert env);
     so_tls_key := over (sg_tls_key a) (so_tls_key env);
     so_tls_self_signed := sg_tls_self_signed a;
     so_quic_cert := over (sg_quic_cert a) (so_quic_cert env);
     so_quic_key := over (sg_quic_key a) (so_quic_key env);
     so_quic_pins := over (sg_quic_pins a) (so_quic_pins env);
     so_quic_mtls := over (sg_quic_mtls a) (so_quic_mtls env) |}.

(** ** Requests *)

Definition url (base path : list byte) : list byte := trim_end_matches (text "/") base ++ path.

(** [get_json] and [post_json]: they differ in the text of an error status. *)
Definition call_json (http : list byte → Call → Answer) (base : list byte) (c : Call) : result (list byte) Jv :=
  let? _ := client in
  match http (url base (ca_path c)) c with
  | AnFailed e => Err e
  | AnStatus status body =>
    Err (match ca_body c with
         | None => text "HTTP " ++ status
         | Some _ => text "HTTP " ++ status ++ text ": " ++
             match body with Ok t => t | Err _ => [] end
         end)
  | AnBody r => r
  end.

(** [v[k]], null when it is absent *)
Definition jv_index (v : Jv) (k : list byte) : Jv := default VNull (jv_get v k).
Definition jv_at (v : Jv) (i : nat) : Jv := match v with VArray l => default VNull (l !! i) | _ => VNull end.

(** The smoke run on a server at [addr]; [http k] answers the [k]-th request. *)
Definition run_smoke (served : result (list byte) (list byte)) (http : nat → list byte → Call → Answer) :
    result (list byte) (list byte) :=
  let? addr := served in
  let base := text "http://" ++ addr in
  let? link := call_json (http 0) base link_call in
  if negb (match jv_index link (text "linked") with VBool b => b | _ => false end)
  then Err (text "link failed: " ++ jv_to_string link) else
  let? _ := call_json (http 1) base (add_peer_call (text "alice") (text "td://127.0.0.1:1")) in
  let? room := call_json (http 2) base (create_room_call (text "smoke")) in
  let? room_id := ok_or (as_str (jv_index room (text "room_id"))) (text "no room_id") in
  let? sent := call_json (http 3) base (send_call room_id (text "cli-smoke")) in
  match jv_get sent (text "event_id") with
  | None => Err (text "send failed: " ++ jv_to_string sent)
  | Some _ =>
    let? msgs := call_json (http 4) base (recv_call room_id) in
    let txt := default [] (as_str (jv_index (jv_at (jv_index msgs (text "messages")) 0) (text "text"))) in
    if negb (bool_decide (txt = text "cli-smoke")) then Err (text "recv mismatch: " ++ jv_to_string msgs) else
    let? devices := call_json (http 5) base devices_call in
    let count := match jv_index devices (text "devices") with VArray l => length l | _ => 0 end in
    Ok (text "smoke ok room=" ++ room_id ++ text " devices=" ++ dec (N.of_nat count) ++ text " msg=" ++
        jv_to_string (jv_index sent (text "event_id")))
  end.

(** What is printed, or the error.  [happy] is [happy_path_script], [serve] blocks and
    returns with an error or at the end. *)
Definition run (rpc : list byte) (c : Commands) (env : ServeOptions)
    (happy : result (list byte) (list byte)) (serve : list byte → ServeOptions → result (list byte) unit)
    (served : result (list byte) (list byte)) (http : nat → list byte → Call → Answer) :
    result (list byte) (list byte) :=
  match c with
  | CmdVersion => Ok (text "tducks " ++ package_version)
  | CmdHappyPath => happy
  | CmdServe args => let? _ := serve (sg_bind args) (serve_options env args) in Ok []
  | CmdSmoke => run_smoke served http
  | _ =>
    match request_of c with
    | Some r => let? v := call_json (http 0) rpc r in Ok (jv_pretty v)
    | None => Ok []
    end
  end.

(** ** Lemmas *)

(** Every request of the client has a route of the node. *)
Lemma requests_routed c r : request_of c = Some r → routed (ca_method r) (ca_path r) = true.
Proof. destruct c; intros [= <-]; reflexivity. Qed.

(** Arguments are taken as they come, where [from_env] drops blank values: with an empty
    [TD_RELAY_URI], which the argument picks up too, a node started by the client has a
    relay, and a node started by [from_env] has none. *)
Lemma blank_relay_kept var_os a : var_os (text "TD_RELAY_URI") = Some [] → sg_relay_uri a = Some [] →
  so_relay_uri (from_env var_os) = None ∧ so_relay_uri (serve_options (from_env var_os) a) = Some [].
Proof.
  intros Hv Ha. split.
  - unfold from_env, env_var. cbn [so_relay_uri]. rewrite Hv. reflexivity.
  - unfold serve_options. cbn [so_relay_uri]. by rewrite Ha.
Qed.

End cli.
