(* ===== verification/Integrity.v ===== *)
(** * The invariant of a node session

    What holds of every session between two requests, from the start of the node
    on: the parts speak for one device, each part meets its own invariant, the
    maps are keyed by their values, the clock fits its type, and a room is marked
    ready only when it has an outbound session. *)

From S2P Require Import Prelude Text Crypto Event Dag Store Room Sync Net Link Passkey E2ee Seal.
From S2P Require Import Persist Quic Rate Access Session Peers Messages Assist Notify Serve Status.

Section integrity.
Context {NE : NodeEnv} {NL : NodeEnvLaws} {PE : PasskeyEnv}.
#[local] Existing Instance persist_iter.
#[local] Existing Instance link_event.
#[local] Existing Instance persist_voz_laws.

(** ** The invariant *)

Record access_wf (self : DeviceId) (a : Access) : Prop := {
  aw_self : ac_device_id a = self;
  aw_capped : sessions_capped a;
  aw_link : registry_ok (ac_link a);
}.

Record session_wf (g : NodeSession) : Prop := {
  sw_keypair : keypair_wf (ns_keypair g);
  sw_device : device_id (ns_node g) = kp_device_id (ns_keypair g);
  sw_node : node_wf (ns_node g);
  sw_rooms : registry_wf (ns_rooms g);
  sw_access : access_wf (kp_device_id (ns_keypair g)) (ns_access g);
  sw_e2ee : ed_device_id (ns_e2ee g) = kp_device_id (ns_keypair g);
  sw_ready : ∀ room, ns_e2ee_rooms g !! room = Some true → has_outbound (ns_e2ee g) room = true;
  sw_peers : map_Forall (λ k ep, pe_name ep = k) (ns_peers g);
  sw_olm : map_Forall (λ k x, ok_device_id x = k) (ns_peer_olm_keys g);
  sw_passkeys : creds_keyed (ns_passkeys g);
  sw_clock : (ns_ts_counter g < 2 ^ 64)%N;
}.

(** ** Steps: each handler, with any arguments and any outcome *)

(** A device drawn or read by a handler is one that the constructors make. *)
Definition action_wf (a : action) : Prop :=
  match a with ActPairRedeem _ _ secondary _ _ => keypair_wf secondary | _ => True end.

Inductive session_step : state → state → Prop :=
| st_access g d a : action_wf a →
    session_step (g, d) (with_access g (act (ns_access g, d) a).2.1, (act (ns_access g, d) a).2.2)
| st_create_room s name o : session_step s (rpc_create_room s name o).2
| st_send s room txt seed o : session_step s (send_local s room txt seed o).2
| st_list g d room : session_step (g, d) ((rpc_list_messages g room).2, d)
| st_snapshot g d r : session_step (g, d) ((snapshot_messages g r).2, d)
| st_export s room seed o : session_step s (export_session s room seed o).2
| st_olm_keys g d seed : session_step (g, d) ((olm_keys_get g seed).2, d)
| st_import g d key : session_step (g, d) ((import_session g key).2, d)
| st_import_olm g d k ct : session_step (g, d) ((import_session_olm g k ct).2, d)
| st_ingest g d l : session_step (g, d) ((sync_ingest g l).2, d)
| st_sync g d room pull push : session_step (g, d) ((sync_peer g room pull push).2, d)
| st_share s room http pre s1 s2 s3 o :
    session_step s (share_megolm_olm_to_peer s room http pre s1 s2 s3 o).2
| st_add_peer g d need h req t t' : session_step (g, d) ((add_peer need g h req t t').2, d)
| st_link g d need h kp t t' : keypair_wf kp →
    session_step (g, d) ((link_secondary need g h kp t t').2, d)
| st_trust g d need h req seed t t' :
    session_step (g, d) ((trust_olm_keys need g h req seed t t').2, d)
| st_open g d k ct :
    session_step (g, d) (with_e2ee g (open_from_relay_auto (ns_e2ee g) k ct).2, d)
| st_relay_ingest g d ev : session_step (g, d) ((ingest_remote g ev).2, d)
| st_relay_status g d x : session_step (g, d) (with_relay g x, d)
| st_push g d connect draws : session_step (g, d) ((push_outbox_to_relay g connect draws).2, d)
| st_passkey g d c : session_step (g, d) (with_passkeys g (Passkey.step (ns_passkeys g) c).2, d)
| st_pair_list g d t now : session_step (g, d) (with_access g (pair_list (ns_access g) t now).2, d)
| st_owner_status g d h t t' t2 :
    session_step (g, d) (with_access g (owner_session_status (ns_access g) h t t' t2).2, d)
| st_p2p_uri g d uri : session_step (g, d) (set_p2p_uri g uri, d)
| st_rpc_base g d base : session_step (g, d) (set_rpc_base g base, d).

(** ** Lemmas: ratchets *)

(** A step of the ratchets that keeps the device and its rooms. *)
Definition readies (d d' : E2eeDevice) : Prop :=
  ed_device_id d' = ed_device_id d ∧ ∀ room, has_outbound d room = true → has_outbound d' room = true.
#[local] Instance readies_preorder : PreOrder readies.
Proof. split; [by split|]. intros a b c [? ?] [? ?]. split; [congruence|auto]. Qed.

Lemma has_outbound_id d room : has_outbound d room = true ↔ is_Some (group_session_id d room).
Proof.
  unfold has_outbound, group_session_id. destruct (outbound_megolm d !! room); cbn; naive_solver.
Qed.

Lemma keeps_readies d d' : keeps d d' → readies d d'.
Proof.
  intros [Hi _ _ Hr]. split; [done|]. intros room. rewrite !has_outbound_id. intros [sid H]. eauto.
Qed.

Lemma step_readies d d' : e2ee_step d d' → readies d d'.
Proof. intros H. by apply keeps_readies, step_keeps. Qed.

Lemma create_readies d room s : readies d (create_group_session d room s).2.
Proof.
  unfold create_group_session. destruct (group_session_id d room) eqn:Hr; [done|]. cbn.
  rewrite lookup_insert_eq. split; [done|]. intros r. unfold has_outbound; cbn.
  destruct (decide (room = r)) as [->|]; [by rewrite lookup_insert_eq|by rewrite lookup_insert_ne].
Qed.

Lemma open_readies d k ct : readies d (open_from_relay_auto d k ct).2.
Proof.
  unfold open_from_relay_auto, open_bytes_auto. destruct ct as [|v l]; [done|].
  case_decide; [|by case_decide]. unfold open_bytes_olm.
  case_decide; [done|]. destruct (seal_wire_decode _) as [wire|]; [|done]. cbn.
  case_decide; [done|].
  pose proof (step_readies _ _ (step_olm_decrypt d (rw_sender_curve25519_b64 wire) (rw_olm wire))).
  by destruct (olm_decrypt _ _ _).
Qed.

Lemma view_readies l : ∀ d, readies d (view_messages d l).2.
Proof.
  induction l as [|ev l IH]; intros d; [done|]. cbn.
  assert (readies d (decrypt_message_text d ev).2) as Hd.
  { unfold decrypt_message_text. destruct (value_from_slice _) as [v|]; [|done].
    case_decide; [|done]. cbv zeta.
    match goal with |- context [megolm_decrypt d ?ct] =>
      pose proof (step_readies _ _ (step_decrypt d ct)); by destruct (megolm_decrypt d ct) as [[]] end. }
  destruct (decrypt_message_text d ev) as [t d1]. specialize (IH d1).
  destruct (view_messages d1 l). by etrans.
Qed.

(** ** Lemmas: access *)

Lemma capped_mono g g' : ac_owner_sessions g' ⊆ ac_owner_sessions g →
  sessions_capped g → sessions_capped g'.
Proof. intros Hs H. unfold sessions_capped in *. apply map_subseteq_size in Hs. lia. Qed.

Lemma access_wf_smaller self g g' : ac_device_id g' = ac_device_id g →
  ac_owner_sessions g' ⊆ ac_owner_sessions g → ac_link g' = ac_link g →
  access_wf self g → access_wf self g'.
Proof. intros Hd Hs Hl []. split; [congruence|by eapply capped_mono|by rewrite Hl]. Qed.

Lemma mint_wf self g source tok t t' ms : access_wf self g →
  access_wf self (mint_owner_session g source tok t t' ms).2.
Proof.
  intros [Hd Hc Hl]. rewrite mint_evicted. cbn [snd].
  assert (ac_device_id (evicted g t) = ac_device_id g ∧ ac_link (evicted g t) = ac_link g) as [E1 E2].
  { unfold evicted. destruct (_ <=? _); [|done]. by destruct (min_by_key _ _) as [[]|]. }
  destruct (evicted_spec g t Hc) as (Hs & _).
  split; cbn; [by rewrite E1| |by rewrite E2]. unfold sessions_capped; cbn.
  rewrite map_size_insert. destruct (_ !! tok); cbn; lia.
Qed.

Lemma require_owner_wf self g tok t t' : access_wf self g →
  access_wf self (require_owner_token g tok t t').2.
Proof.
  destruct tok as [tok|]; [|done]. cbn. apply access_wf_smaller; [done| |done]. apply map_filter_subseteq.
Qed.

Lemma trust_local_ok reg kp : keypair_wf kp → registry_ok reg → registry_ok (trust_local reg kp).2.
Proof.
  intros Hk Hr. unfold trust_local, registry_ok; cbn. apply map_Forall_insert_2; [|done].
  split; [done|by apply public_bundle_ok].
Qed.

Lemma apply_approval_ok reg a : registry_ok reg → registry_ok (apply_approval reg a).2.
Proof.
  intros Hr. destruct (apply_approval_cases reg a) as [(e & -> & _)|(b & -> & _ & _ & _ & Hb & _)]; [done|].
  unfold registry_ok; cbn. by apply map_Forall_insert_2.
Qed.

Lemma act_wf self s a : action_wf a → access_wf self s.1 → access_wf self (act s a).2.1.
Proof.
  destruct s as [g d]. cbn [fst]. intros Ha Hw.
  assert (∀ c, access_wf self (set_claim g c)) as Hclaim by (intros c; by destruct Hw).
  destruct a as [req fresh at_ dr o|code tl tf dr|h|tok t t'|h l ttl tok t t' tp tn ms|tok l kp tp tn];
    cbn [act].
  - destruct (claim_node_cases g req fresh at_ dr o d) as
      [(st & e & x & d' & -> & _)|(_ & name & code & [(e & d' & _ & ->)|(body & d' & _ & _ & _ & ->)])];
      cbn [fst snd]; [done|apply Hclaim|apply mint_wf, Hclaim].
  - destruct (recovery_login_cases g code tl tf dr) as
      [(st & e & x & -> & _)|(_ & _ & exp & _ & [(_ & ->)|(_ & body & _ & ->)])]; cbn [fst snd]; [done| |].
    + eapply access_wf_smaller; [..|exact Hw]; unfold note_recovery_failure; by destruct (5 <=? _)%N.
    + apply mint_wf. eapply access_wf_smaller; [..|exact Hw]; done.
  - unfold owner_logout. destruct (extract_owner_token h); cbn; [|done].
    eapply access_wf_smaller; [..|exact Hw]; [done|apply delete_subseteq|done].
  - pose proof (require_owner_wf self g tok t t' Hw). by destruct (require_owner_token g tok t t').
  - unfold pair_create. destruct (negb _); [done|].
    pose proof (require_owner_wf self g (extract_owner_token h) t t' Hw) as Hr. unfold require_owner.
    destruct (require_owner_token _ _ t t') as [[[]|e] g1]; cbn in *; [|done]. by destruct Hr.
  - unfold pair_redeem. destruct (bool_decide _); [done|]. destruct (negb _); [done|].
    destruct Hw as [H1 H2 H3]. destruct (ac_pair_tokens _ !! _) as [e|]; [|done].
    destruct (_ <=? _)%N; [done|]. destruct (pt_redeemed_by e); [done|].
    split; [done|done|]. by apply trust_local_ok.
Qed.

(** ** Lemmas: the parts of a session *)

Lemma wf_e2ee g e : readies (ns_e2ee g) e → session_wf g → session_wf (with_e2ee g e).
Proof. intros [Hi Hr] []. split; cbn; auto. congruence. Qed.

Lemma wf_node g n : device_id n = device_id (ns_node g) → node_wf n →
  session_wf g → session_wf (with_node g n).
Proof. intros Hd Hn []. split; cbn; auto. congruence. Qed.

Lemma wf_rooms g r : registry_wf r → session_wf g → session_wf (with_rooms g r).
Proof. intros Hr []. split; cbn; auto. Qed.

Lemma wf_apply_event g ev : session_wf g → session_wf (with_rooms g (apply_event (ns_rooms g) ev).2).
Proof. intros Hg. apply wf_rooms; [|done]. apply apply_event_preserves_wf, Hg. Qed.

Lemma wf_access g a : access_wf (kp_device_id (ns_keypair g)) a → session_wf g → session_wf (with_access g a).
Proof. intros Ha []. split; cbn; auto. Qed.

Lemma wf_olm_key g keys : session_wf g → session_wf (remember_peer_olm g keys).
Proof. intros []. split; cbn; auto. by apply map_Forall_insert_2. Qed.

Lemma wf_ts g n : (n < 2 ^ 64)%N → session_wf g → session_wf (with_ts g n).
Proof. intros Hn []. split; cbn; auto. Qed.

Lemma wf_relay g x : session_wf g → session_wf (with_relay g x).
Proof. intros []. split; cbn; auto. Qed.

Lemma wf_peer g name ep : pe_name ep = name → session_wf g →
  session_wf (with_peers g (<[name := ep]> (ns_peers g))).
Proof. intros Hn []. split; cbn; auto. by apply map_Forall_insert_2. Qed.

Lemma wf_ready g room : has_outbound (ns_e2ee g) room = true → session_wf g →
  session_wf (with_e2ee_rooms g (<[room := true]> (ns_e2ee_rooms g))).
Proof. intros Hr []. split; cbn; auto. intros x [[<- _]|[_ Hx]]%lookup_insert_Some; auto. Qed.

Lemma wf_passkeys g x : creds_keyed x → session_wf g → session_wf (with_passkeys g x).
Proof. intros Hx []. split; cbn; auto. Qed.

Lemma wf_commit_local g ev : session_wf g → session_wf (with_node g (commit_local (ns_node g) ev).2).
Proof.
  intros Hg. unfold commit_local. destruct (verify_event ev) eqn:Hv; [|by destruct g].
  apply verify_event_Ok in Hv. destruct (ingest_event_wf (ns_node g) ev true (sw_node _ Hg) Hv) as (?&_&?).
  by apply wf_node.
Qed.

Lemma wf_ingest_remote g ev : session_wf g → session_wf (ingest_remote g ev).2.
Proof.
  intros Hg. unfold ingest_remote, commit_remote.
  destruct (verify_event ev) as [u|e] eqn:Hv; [|by destruct g].
  apply verify_event_Ok in Hv. destruct (ingest_event_wf (ns_node g) ev false (sw_node _ Hg) Hv) as (Hw&_&Hd).
  assert (session_wf (with_node g (ingest_event (ns_node g) ev false).2)) as Hn by by apply wf_node.
  destruct (ingest_event _ _ _) as [[b|e] n]; cbn in *; [|done].
  destruct (is_room_event _); [|done]. by apply (wf_apply_event (with_node g n)).
Qed.

(** ** Lemmas: the handlers *)

Lemma wf_next_ts s o : session_wf s.1 → session_wf (next_ts s o).2.1.
Proof.
  intros Hs. pose proof (next_ts_fields s o) as Hn. destruct (next_ts s o) as [ts s'].
  destruct Hn as [-> Hn]. cbn [snd]. rewrite Hn. apply wf_ts; [|done]. apply wrap_lt.
Qed.

Lemma wf_ensure_room s room seed o : session_wf s.1 → session_wf (ensure_room_e2ee s room seed o).1.
Proof.
  intros Hs. destruct (ensure_room_fields s room seed o) as (Hg & He & Ho). rewrite Hg. clear Hg.
  apply (wf_ready (with_e2ee s.1 _)); [done|]. apply wf_e2ee; [|done]. rewrite He.
  destruct (has_outbound _ _); [done|apply create_readies].
Qed.

Lemma wf_create_room s name o : session_wf s.1 → session_wf (rpc_create_room s name o).2.1.
Proof.
  intros Hs%(wf_next_ts s o). unfold rpc_create_room. destruct (next_ts s o) as [ts [g d]].
  cbn [fst snd] in Hs.
  match goal with |- context [create_room ?r ?sk ?c ?n ?t] => assert (registry_wf (create_room r sk c n t).2) as Hr end.
  { unfold create_room. destruct (sign_event _ _) as [ev|e]; [|apply Hs].
    pose proof (apply_event_preserves_wf _ ev (sw_rooms _ Hs)) as H.
    by destruct (apply_event _ ev) as [[|] ?]. }
  destruct (create_room _ _ _ _ _) as [[[r ev]|e] rooms]; cbn [snd] in Hr; [|by apply wf_rooms].
  apply (wf_rooms g _ Hr) in Hs. apply (wf_commit_local _ ev) in Hs. cbv zeta.
  by destruct (commit_local _ _) as [[b|e] n].
Qed.

Lemma wf_send s room txt seed o : session_wf s.1 → session_wf (send_local s room txt seed o).2.1.
Proof.
  intros Hs. unfold send_local. destruct (parse_room_id room) as [r|e]; [|done].
  destruct (message_denied s.1 r); [done|]. cbv zeta.
  apply (wf_next_ts s o) in Hs. destruct (next_ts s o) as [ts s1].
  apply (wf_ensure_room s1 (hex_id (RoomId_0 r)) seed o) in Hs.
  destruct (ensure_room_e2ee s1 _ seed o) as [g d]; cbn [fst snd] in Hs.
  pose proof (step_readies _ _ (step_encrypt (ns_e2ee g) (hex_id (RoomId_0 r)) (text_json txt))) as Hr.
  destruct (megolm_encrypt _ _ _) as [[ct|e] e2ee]; cbn [snd] in Hr; apply (wf_e2ee g _ Hr) in Hs; [|done].
  destruct (persist_e2ee _ o d) as [r1 d1]. destruct (sign_event _ _) as [ev|e]; [|done].
  apply (wf_apply_event _ ev), (wf_commit_local _ ev) in Hs.
  by destruct (commit_local _ _) as [[b|e] n].
Qed.

Lemma wf_views g l : session_wf g → session_wf (with_e2ee g (view_messages (ns_e2ee g) l).2).
Proof. apply wf_e2ee, view_readies. Qed.

Lemma wf_import_olm g k ct : session_wf g → session_wf (import_session_olm g k ct).2.
Proof.
  intros Hg. unfold import_session_olm.
  pose proof (step_readies _ _ (step_olm_decrypt (ns_e2ee g) k ct)) as Hr.
  destruct (olm_decrypt _ _ _) as [[plain|e] e1]; cbn [snd] in Hr; apply (wf_e2ee g _ Hr) in Hg; [|done].
  cbn [ns_e2ee with_e2ee]. destruct (from_slice plain) as [pkg|].
  - pose proof (step_readies _ _ (step_import_room e1 pkg)) as Hr1.
    pose proof (import_room_cases e1 pkg) as Hc.
    destruct (import_room_outbound e1 pkg) as [[sid|e] e2]; cbn [snd] in Hr1;
      apply (wf_e2ee (with_e2ee g e1) _ Hr1) in Hg; [|done].
    apply (wf_ready (with_e2ee g e2)); [|done]. cbn. unfold has_outbound.
    destruct Hc as (ses & gs & [(_ & _ & _ & -> & Hl & _)|(_ & _ & _ & _ & -> & _)]).
    + destruct (import_key_outbound e1 (ro_session_key_b64 pkg)) as (-> & _). by rewrite Hl.
    + cbn. by rewrite lookup_insert_eq.
  - destruct (negb _); [done|].
    pose proof (step_readies _ _ (step_import_key e1 plain)) as Hr1.
    destruct (import_group_session_key e1 plain) as [r e2]; cbn [snd] in Hr1.
    by apply (wf_e2ee (with_e2ee g e1)).
Qed.

Lemma wf_sync_ingest l : ∀ g, session_wf g → session_wf (sync_ingest g l).2.
Proof.
  induction l as [|ev l IH]; intros g Hg; [done|]. cbn.
  apply (wf_ingest_remote g ev) in Hg. destruct (ingest_remote g ev) as [[b|e] g1];
    apply IH in Hg; cbn [snd] in Hg; by destruct (sync_ingest g1 l) as [[]].
Qed.

Lemma wf_share s room http pre s1 s2 s3 o : session_wf s.1 →
  session_wf (share_megolm_olm_to_peer s room http pre s1 s2 s3 o).2.1.
Proof.
  intros Hs. unfold share_megolm_olm_to_peer. destruct (let? k := _ in _) as [their|e]; [|done].
  assert (session_wf (wrap_room_session s room their pre s1 s2 s3 o).2.1) as Hw.
  { unfold wrap_room_session. apply (wf_ensure_room s room s1 o) in Hs.
    destruct (ensure_room_e2ee s room s1 o) as [g d]. apply (wf_olm_key _ their) in Hs. cbn [fst] in Hs.
    set (g1 := remember_peer_olm g their) in *. cbv zeta.
    pose proof (step_readies _ _ (step_establish (ns_e2ee g1) their s2)) as Hr.
    destruct (establish_olm_outbound _ _ _) as [[u|e] e1]; cbn [snd] in Hr; apply (wf_e2ee _ _ Hr) in Hs; [|done].
    destruct (match pre with Some _ => _ | None => _ end) as [pkg|e]; [|done].
    pose proof (step_readies _ _ (step_olm_encrypt (ns_e2ee (with_e2ee g1 e1)) (ok_device_id their) (to_vec pkg) s3)) as Hr1.
    by destruct (olm_encrypt _ _ _ _) as [[ct|e] e2]; cbn [snd] in Hr1; apply (wf_e2ee _ _ Hr1) in Hs. }
  by destruct (wrap_room_session _ _ _ _ _ _ _ _) as [[[[[ct c] sid] dev]|e] s'].
Qed.

Lemma wf_require need g h t t' : session_wf g → session_wf (require_owner_if_remote need g h t t').2.
Proof.
  intros Hg. unfold require_owner_if_remote. destruct need; [|done].
  pose proof (require_owner_wf _ _ (extract_owner_token h) t t' (sw_access _ Hg)) as Ha.
  unfold require_owner. destruct (require_owner_token _ _ t t') as [r a]. by apply wf_access.
Qed.

Lemma classify_name ep uri : pe_name (classify_uri ep uri) = pe_name ep.
Proof. unfold classify_uri. by repeat case_match. Qed.
Lemma set_rpc_name ep r : pe_name (set_rpc ep r) = pe_name ep.
Proof. unfold set_rpc. by repeat case_match. Qed.
Lemma set_p2p_name ep p : pe_name (set_p2p ep p) = pe_name ep.
Proof. unfold set_p2p. by repeat case_match. Qed.

Lemma wf_upsert g name uri rpc p2p : session_wf g → session_wf (upsert_peer g name uri rpc p2p).
Proof.
  intros Hg. apply wf_peer; [|done].
  assert (pe_name (default (mkPeerEndpoint name None None None) (ns_peers g !! name)) = name) as Hn.
  { destruct (ns_peers g !! name) as [ep|] eqn:Hl; [|done]. by apply (sw_peers _ Hg) in Hl. }
  destruct rpc, p2p; by rewrite ?set_p2p_name, ?set_rpc_name, classify_name.
Qed.

Lemma wf_stamp g name did : session_wf g → session_wf (stamp_device g name did).
Proof.
  intros Hg. unfold stamp_device. destruct (ns_peers g !! name) as [ep|] eqn:Hl; [|done].
  apply wf_peer; [|done]. cbn. by apply (sw_peers _ Hg) in Hl.
Qed.

Lemma wf_link g need h kp t t' : session_wf g → session_wf (link_secondary need g h kp t t').2.
Proof.
  intros Hg%(wf_require need g h t t'). unfold link_secondary.
  destruct (require_owner_if_remote _ _ _ _ _) as [[u|e] g1]; [|done]. cbv zeta.
  destruct (let? request := _ in _) as [a|e]; [|done].
  pose proof (apply_approval_ok _ a (aw_link _ _ (sw_access _ Hg))) as Ha. cbn [snd] in *.
  destruct (apply_approval _ a) as [r link]. apply wf_access; [|done].
  by destruct (sw_access _ Hg).
Qed.

Lemma wf_trust need g h req seed t t' : session_wf g →
  session_wf (trust_olm_keys need g h req seed t t').2.
Proof.
  intros Hg%(wf_require need g h t t'). unfold trust_olm_keys.
  destruct (require_owner_if_remote _ _ _ _ _) as [[u|e] g1]; [|done].
  destruct (parse_crypto_device_id _) as [dev|e]; [|done]. cbv zeta. cbn [snd] in Hg.
  set (keys := mkOlmDeviceKeys dev _ _).
  pose proof (step_readies _ _ (step_establish (ns_e2ee g1) keys seed)) as Hr.
  destruct (establish_olm_outbound _ _ _) as [[u'|e] e1]; cbn [snd] in Hr; apply (wf_e2ee _ _ Hr) in Hg;
    [|done].
  apply (wf_olm_key _ keys) in Hg. destruct (tk_peer_name req); [|done]. by apply wf_stamp.
Qed.

Lemma wf_seal g ev recip s s' n : session_wf g →
  session_wf (seal_event_for_recipient g ev recip s s' n).2.
Proof.
  intros Hg. unfold seal_event_for_recipient.
  assert (session_wf (ensure_olm_to g recip s).2) as He.
  { unfold ensure_olm_to. destruct (has_olm_session _ _); [done|].
    destruct (_ !! recip) as [keys|]; [|done].
    pose proof (step_readies _ _ (step_establish (ns_e2ee g) keys s)) as Hr.
    destruct (establish_olm_outbound _ _ _). by apply wf_e2ee. }
  destruct (ensure_olm_to g recip s) as [[u|e] g1]; cbn [snd] in He; [|done].
  unfold seal_for_relay_olm, seal_bytes_olm.
  pose proof (step_readies _ _ (step_olm_encrypt (ns_e2ee g1) recip (to_vec ev) s')) as Hr.
  destruct (olm_encrypt _ _ _ _) as [[ct|e] e1]; cbn [snd] in Hr; by apply wf_e2ee.
Qed.

Lemma wf_seal_each ev recipients : ∀ g draws, session_wf g →
  session_wf (seal_each g ev recipients draws).2.
Proof.
  induction recipients as [|r rs IH]; intros g draws Hg; cbn [seal_each]; [done|].
  destruct (draws 0) as [[s s'] n]. apply (wf_seal g ev r s s' n) in Hg.
  destruct (seal_event_for_recipient g ev r s s' n) as [[[ct m]|e] g1]; [|done].
  apply (IH g1 (λ k, draws (S k))) in Hg. by destruct (seal_each g1 ev rs _) as [[l|e] g2].
Qed.

Lemma wf_seal_outbox recipients l : ∀ g draws, session_wf g →
  session_wf (seal_outbox g l recipients draws).2.
Proof.
  induction l as [|ev l IH]; intros g draws Hg; cbn [seal_outbox]; [done|].
  apply (wf_seal_each ev recipients g draws) in Hg.
  destruct (seal_each g ev recipients draws) as [[x|e] g1]; [|done].
  apply (IH g1 (λ k, draws (length recipients + k))) in Hg.
  by destruct (seal_outbox g1 l recipients _) as [[x'|e] g2].
Qed.

Lemma wf_push g connect draws : session_wf g → session_wf (push_outbox_to_relay g connect draws).2.
Proof.
  intros Hg. unfold push_outbox_to_relay. destruct (rm_relay_uri _) as [uri|]; [|done].
  rewrite drain_outbox_spec. cbv zeta beta iota.
  assert (session_wf (with_node g (set_outbox (ns_node g) (drop PUSH_LIMIT (outbox (ns_node g)))))) as Hn.
  { apply wf_node; [done| |done]. by destruct (sw_node _ Hg). }
  destruct (_ || _); [done|].
  apply (wf_seal_outbox (relay_recipients g) (take PUSH_LIMIT (outbox (ns_node g))) _ draws) in Hn.
  destruct (seal_outbox _ _ _ _) as [[x|e] g1]; [|done]. by destruct (bool_decide _).
Qed.

Lemma session_step_wf s s' : session_step s s' → session_wf s.1 → session_wf s'.1.
Proof.
  destruct 1; cbn [fst]; intros Hg.
  - apply wf_access; [|done]. apply act_wf; [done|]. apply Hg.
  - by apply wf_create_room.
  - by apply wf_send.
  - unfold rpc_list_messages. destruct (parse_room_id room) as [r|e]; [|done].
    pose proof (wf_views g (list_messages (ns_node g) r) Hg).
    by destruct (view_messages _ _).
  - unfold snapshot_messages. pose proof (wf_views g (list_messages (ns_node g) r) Hg).
    by destruct (view_messages _ _).
  - unfold export_session. apply (wf_ensure_room s room seed o) in Hg. by destruct (ensure_room_e2ee _ _ _ _).
  - unfold olm_keys_get. pose proof (step_readies _ _ (step_publish (ns_e2ee g) seed)).
    destruct (publish_keys _ _). by apply wf_e2ee.
  - unfold import_session. destruct key as [k|]; [|done].
    pose proof (step_readies _ _ (step_import_key (ns_e2ee g) k)).
    destruct (import_group_session_key _ _). by apply wf_e2ee.
  - by apply wf_import_olm.
  - by apply wf_sync_ingest.
  - unfold sync_peer. destruct (parse_room_id room) as [r|e]; [|done]. cbv zeta.
    destruct (pull _) as [l|[st e]]; [|done]. apply (wf_sync_ingest l) in Hg.
    by destruct (sync_ingest g l) as [[n errors] g'].
  - by apply wf_share.
  - apply (wf_require need g h t t') in Hg. unfold add_peer.
    destruct (require_owner_if_remote _ _ _ _ _) as [[u|e] g1]; [|done]. cbn [snd] in *.
    apply (wf_upsert _ (ap_name req) (default [] (ap_uri req)) (ap_rpc req) (ap_p2p req)) in Hg.
    destruct (d ← _; _) as [did|]; [|done]. by apply wf_stamp.
  - by apply wf_link.
  - by apply wf_trust.
  - apply wf_e2ee; [|done]. apply open_readies.
  - by apply wf_ingest_remote.
  - by apply wf_relay.
  - by apply wf_push.
  - apply wf_passkeys; [apply step_keyed, (sw_passkeys _ Hg)|done].
  - apply wf_access; [|done]. by destruct (sw_access _ Hg).
  - apply wf_access; [|done]. unfold owner_session_status.
    destruct (extract_owner_token h) as [tok|]; [|apply Hg].
    assert (access_wf (kp_device_id (ns_keypair g)) (owner_session_valid (ns_access g) tok t t').2) as Ha.
    { eapply access_wf_smaller; [..|apply Hg]; [done|apply map_filter_subseteq|done]. }
    by destruct (owner_session_valid _ _ _ _) as [[] a].
  - apply wf_access; [|done]. by destruct (sw_access _ Hg).
  - apply wf_access; [|done]. by destruct (sw_access _ Hg).
Qed.

(** ** Lemmas: the machines that run beside the handlers *)

Section machines.
Context {SG : Signals}.

Lemma wf_snapshot g r : session_wf g → session_wf (snapshot_messages g r).2.
Proof. intros Hg. exact (session_step_wf (g, mkDisk ∅ ∅ false false 0) _ (st_snapshot g _ r) Hg). Qed.

(** A long poll, a stream and the listener change the session only by steps above. *)
Lemma wf_wait_next x w x' w' : wait_next x w = Some (x', w') →
  session_wf (wo_session w) → session_wf (wo_session w').
Proof.
  unfold wait_next. intros Hn Hg. destruct (wt_phase x) as [|msgs|rem|f until|r].
  - apply (wf_snapshot _ (wt_room x)) in Hg. destruct (snapshot_messages _ _) as [[count msgs] g].
    by destruct (decide _); injection Hn as <- <-.
  - by destruct (_ <=? _)%N; injection Hn as <- <-.
  - by injection Hn as <- <-.
  - destruct (_ || _); [|done]. by injection Hn as <- <-.
  - done.
Qed.

Lemma wf_stream_next x w x' w' : stream_next x w = Some (x', w') →
  session_wf (wo_session w) → session_wf (wo_session w').
Proof.
  unfold stream_next. intros Hn Hg. destruct (sr_phase x) as [|lagged|]; [| |done].
  - destruct (recv _ _) as [[[c| |] rx]|]; [|by injection Hn as <- <-..|done].
    by destruct (decide _); injection Hn as <- <-.
  - apply (wf_snapshot _ (sr_room x)) in Hg. destruct (snapshot_messages _ _) as [[count msgs] g].
    by destruct (decide _); injection Hn as <- <-.
Qed.

Lemma wf_ingest_events l : ∀ w others,
  (∀ k v, session_wf (wo_session v) → session_wf (wo_session (others k v))) →
  session_wf (wo_session w) → session_wf (wo_session (ingest_events w l others)).
Proof.
  induction l as [|ev l IH]; intros w others Ho Hw; [done|]. cbn [ingest_events].
  apply IH; [auto|]. unfold ingest_announce.
  assert (session_wf (ingest_remote (wo_session (others 0 w)) ev).2) as Hi by by apply wf_ingest_remote, Ho.
  destruct (ingest_remote _ ev) as [r g]. cbn [snd] in Hi.
  destruct (match r with Ok _ => _ | Err _ => _ end); [|done]. unfold notify_room_from_id. cbn.
  by apply Ho.
Qed.

End machines.

Lemma from_parts_wf kp c dir node e2ee rooms ts : keypair_wf kp →
  device_id node = kp_device_id kp → node_wf node → ed_device_id e2ee = kp_device_id kp →
  registry_wf rooms → (ts < 2 ^ 64)%N → session_wf (from_parts kp c dir node e2ee rooms ts).
Proof.
  intros Hk Hd Hn He Hr Ht. assert (N.max ts 1 < 2 ^ 64)%N as Hmax by lia.
  split; try done; cbn.
  - split; cbn; [done|unfold sessions_capped, MAX_OWNER_SESSIONS; cbn; rewrite map_size_empty; lia|].
    apply map_Forall_insert_2; [|apply map_Forall_empty]. split; [done|by apply public_bundle_ok].
  - unfold ready_rooms. cut (∀ l m, (∀ room : list byte, m !! room = Some true → has_outbound e2ee room = true) →
      ∀ room, foldl (λ (m : gmap (list byte) bool) rid, let hex := hex_encode (array_bytes (RoomId_0 rid)) in
        if has_outbound e2ee hex then <[hex := true]> m else m) m l !! room = Some true →
      has_outbound e2ee room = true).
    { intros H. by apply H. }
    induction l as [|rid l IH]; intros m Hm; [done|]. cbn. apply IH.
    destruct (has_outbound e2ee (hex_encode _)) eqn:Ho; [|done].
    intros room [[<- _]|[_ ?]]%lookup_insert_Some; auto.
Qed.

(** ** Lemmas: starting from a data directory *)

Lemma fs_bind_Ok {E A B} (m : Fs E A) (k : A → Fs E B) o d x d' :
  fs_bind m k o d = (Ok x, d') → ∃ a d1, m o d = (Ok a, d1) ∧ k a o d1 = (Ok x, d').
Proof. unfold fs_bind. destruct (m o d) as [[a|e] d1]; [eauto|done]. Qed.

Lemma load_identity_wf sk o d kp d' : load_or_create_identity sk o d = (Ok kp, d') → keypair_wf kp.
Proof.
  intros (u & d1 & _ & (e & d2 & _ & H)%fs_bind_Ok)%fs_bind_Ok. destruct e.
  - apply fs_bind_Ok in H as (raw & d3 & _ & (seed & d4 & _ & H)%fs_bind_Ok). by injection H as <-.
  - apply fs_bind_Ok in H as (v & d3 & _ & H). by injection H as <-.
Qed.

Lemma import_durable_id id pkg e : import_durable id pkg = Ok e → ed_device_id e = id.
Proof.
  unfold import_durable. case_decide; [done|]. cbv zeta. case_decide; [done|].
  intros (a & _ & (b & _ & (c & _ & (f & _ & He)%bind_ok_inv)%bind_ok_inv)%bind_ok_inv)%bind_ok_inv.
  by injection He as <-.
Qed.

Lemma load_e2ee_id s s' id o d e d' : load_e2ee s s' id o d = (Ok e, d') → ed_device_id e = id.
Proof.
  intros (x & d1 & _ & H)%fs_bind_Ok. destruct x; cbn [negb] in H; [|by injection H as <-].
  apply fs_bind_Ok in H as (t & d2 & _ & (pkg & d3 & _ & H)%fs_bind_Ok).
  unfold fs_lift in H. injection H as H _. apply map_err_ok_inv in H. by apply import_durable_id in H.
Qed.

Lemma clock_after_ahead l : ∀ c, (∀ ev, ev ∈ l → (se_ts_ms ev + 1 < 2 ^ 64)%N) →
  (c ≤ clock_after c l)%N ∧ ∀ ev, ev ∈ l → (se_ts_ms ev < clock_after c l)%N.
Proof.
  induction l as [|ev l IH]; intros c Hl; [split; [done|by intros ? []%not_elem_of_nil]|].
  set (c1 := if (c <=? se_ts_ms ev)%N then wrap 64 (se_ts_ms ev + 1) else c).
  change (clock_after c (ev :: l)) with (clock_after c1 l).
  assert (c ≤ c1 ∧ se_ts_ms ev < c1)%N as [H1 H2].
  { subst c1. rewrite wrap_small by (apply Hl; by left). destruct (N.leb_spec c (se_ts_ms ev)); lia. }
  destruct (IH c1) as [Hc He]; [intros e He; apply Hl; by right|].
  split; [lia|]. intros e [->|?]%elem_of_cons; [lia|auto].
Qed.

(** An event dated at the last instant turns the clock back to its start. *)
Lemma clock_poisoned c ev : (c < 2 ^ 64)%N → se_ts_ms ev = (2 ^ 64 - 1)%N →
  clock_after c [ev] = 0%N.
Proof.
  intros Hc Ht. unfold clock_after; cbn [foldl]. rewrite Ht, (proj2 (N.leb_le _ _)); [done|lia].
Qed.

Lemma elem_of_loaded n id ev : node_wf n → events n !! id = Some ev → ev ∈ loaded_events n.
Proof.
  intros Hw He. unfold loaded_events. apply list_elem_of_bind. exists (se_room_id ev).
  destruct (nw_log n Hw _ _ He) as [Hid _]. subst id. split; [by apply elem_of_list_events|].
  unfold room_ids. apply list_elem_of_fmap. exists (RoomId_0 (se_room_id ev)). split; [by destruct (se_room_id ev)|].
  apply elem_of_map_keys.
  assert (dag_events (dag_entry n (se_room_id ev)) !! se_id ev = Some ev) as Hd by by apply (nw_rooms n Hw).
  unfold dag_entry in Hd. destruct (dags n !! _); [by eexists|done].
Qed.

Lemma rebuild_rooms_wf l : registry_wf (rebuild_rooms l).
Proof.
  unfold rebuild_rooms. assert (registry_wf RoomRegistry_new) as Hnew by done.
  revert Hnew. generalize RoomRegistry_new. induction l as [|ev l IH]; intros r Hr; [done|]. cbn.
  by apply IH, apply_event_preserves_wf.
Qed.

Lemma load_Ok sk s s' db o d g d' : load_from_data_dir sk s s' db o d = (Ok g, d') →
  ∃ kp claim meta node e2ee, keypair_wf kp ∧ with_sqlite (kp_device_id kp) db = Ok node ∧
    ed_device_id e2ee = kp_device_id kp ∧
    g = from_parts kp claim true node e2ee (rebuild_rooms (loaded_events node))
      (clock_after (N.max (nm_ts_counter meta) 1) (loaded_events node)).
Proof.
  unfold load_from_data_dir. intros H.
  destruct (load_or_create_identity sk o d) as [[kp|e] d1] eqn:Hk; [|done].
  destruct (load_claim o d1) as [[claim|e] d2]; [|done].
  destruct (load_meta o d2) as [[meta|e] d3]; [|done].
  destruct (with_sqlite _ _) as [node|e] eqn:Hn; [|done].
  destruct (load_e2ee s s' _ o d3) as [[e2ee|e] d4] eqn:He; [|done].
  injection H as <- _. exists kp, claim, meta, node, e2ee. split_and!; [|done| |done].
  - by eapply load_identity_wf.
  - by eapply load_e2ee_id.
Qed.

Lemma new_session_wf (sk : @SigningKey (@env_crypto link_event)) seed seed' :
  session_wf (NodeSession_new sk seed seed').
Proof.
  apply from_parts_wf; try done. split; try done; cbn; try (by intros ? []%not_elem_of_nil).
  intros r id ev. unfold dag_entry; cbn. rewrite !lookup_empty. naive_solver.
Qed.

(** What a data directory gives, when no date of the log is at the end of its type. *)
Lemma load_session_wf sk seed seed' db o d d' g :
  (∀ store, SqliteStore_open db = Ok store → ∃ M, sqlite_represents store M) →
  load_from_data_dir sk seed seed' db o d = (Ok g, d') →
  (ns_ts_counter g + 1 < 2 ^ 64)%N →
  (∀ id ev, events (ns_node g) !! id = Some ev → (se_ts_ms ev + 1 < 2 ^ 64)%N) →
  session_wf g ∧ ∀ id ev, events (ns_node g) !! id = Some ev → (se_ts_ms ev < ns_ts_counter g)%N.
Proof.
  intros Hopen Hload Hc Hts. apply load_Ok in Hload as (kp & claim & meta & node & e2ee & Hk & Hn & He & ->).
  cbn [ns_node from_parts] in Hts.
  unfold with_sqlite in Hn. apply bind_ok_inv in Hn as (store & Hs%map_err_ok_inv & Hn).
  destruct (Hopen _ Hs) as [M HM]. destruct (with_store_wf _ _ _ _ HM Hn) as [Hw Hd].
  set (l := loaded_events node) in *. set (c0 := N.max (nm_ts_counter meta) 1) in *.
  assert (∀ ev, ev ∈ l → (se_ts_ms ev + 1 < 2 ^ 64)%N) as Hl.
  { intros ev (r & Hev & _)%list_elem_of_bind. apply elem_of_list_events in Hev as [Hev _]; [|done].
    by eapply Hts. }
  destruct (clock_after_ahead l c0 Hl) as [H1 H2]. cbn [ns_ts_counter from_parts] in Hc.
  split; [apply from_parts_wf; try done; [apply rebuild_rooms_wf|lia]|].
  intros id ev Hev. apply (elem_of_loaded node id ev Hw), H2 in Hev.
  cbn [ns_ts_counter from_parts]. lia.
Qed.

(** Options and addresses are no part of the invariant. *)
Lemma wf_remote g x : session_wf g → session_wf (with_remote g x).
Proof. intros []. by split. Qed.
Lemma wf_addresses g p2p base : session_wf g → session_wf (set_rpc_base (set_p2p_uri g p2p) base).
Proof. intros Hw. pose proof (sw_access _ Hw) as []. apply wf_access; [by split|]. by apply wf_access. Qed.

(** ** Theorems *)

(** Every session that the steps of the handlers reach from a well-formed one. *)
Lemma steps_wf (s0 s : state) : rtc session_step s0 s → session_wf s0.1 → session_wf s.1.
Proof. induction 1 as [|a b c Hab _ IH]; [done|]. intros Ha. apply IH. by eapply session_step_wf. Qed.

(** A new session, and what is reached from it. *)
Lemma session_integrity (sk : @SigningKey (@env_crypto link_event)) (seed seed' : Seed)
    (d : Disk) (s : state) :
  rtc session_step (NodeSession_new sk seed seed', d) s → session_wf s.1.
Proof. intros Hs. eapply steps_wf; [exact Hs|]. apply new_session_wf. Qed.

(** C2: Every session a served node can reach is well formed: a node started from any
    options, in memory or from its data directory, with any disk failures on the way,
    starts well formed, and every step of every handler, with any arguments, draws,
    answers of other nodes and disk failures, whatever its outcome, keeps it so. *)
Theorem served_node_integrity {SG : Signals} {TL : Tls} (x : Start) (bind : list byte)
    (opts : ServeOptions) (o : Oracle) (d d' : Disk) (p : PreparedServe) (s : state) :
  let g := nd_session (ps_node p) in
  (∀ store, SqliteStore_open (sa_events_db x) = Ok store → ∃ M, sqlite_represents store M) →
  prepare_serve x bind opts o d = (Ok p, d') →
  (ns_ts_counter g + 1 < 2 ^ 64)%N →
  (∀ id ev, events (ns_node g) !! id = Some ev → (se_ts_ms ev + 1 < 2 ^ 64)%N) →
  rtc session_step (g, d') s → session_wf s.1.
Proof.
  intros g Hopen Hp Hc Hts Hs. eapply steps_wf; [exact Hs|]. unfold g in *. clear Hs.
  apply prepare_serve_spec in Hp as (_ & _ & _ & _ & n0 & d0 & base & Hn & Hg). rewrite Hg in *.
  apply wf_addresses. revert Hn. unfold new_state_with_options. destruct (so_data_dir opts).
  - destruct (load_from_data_dir _ _ _ _ o d) as [[g0|e] d1] eqn:Hl; [|done].
    intros [= <- _]. apply wf_remote. by eapply load_session_wf.
  - intros [= <- _]. apply wf_remote, new_session_wf.
Qed.

(** C19: A node that starts from its data directory, with any disk failures on the
    way, is well formed, and its clock is ahead of every event of its log, so that
    the next event it authors is dated after all it knows. *)
Theorem restart_session (sk : @SigningKey (@env_crypto link_event)) (seed seed' : Seed)
    (db : FsPath) (o o' : Oracle) (d d' : Disk) (g : NodeSession) :
  (∀ store, SqliteStore_open db = Ok store → ∃ M, sqlite_represents store M) →
  load_from_data_dir sk seed seed' db o d = (Ok g, d') →
  (ns_ts_counter g + 1 < 2 ^ 64)%N →
  (∀ id ev, events (ns_node g) !! id = Some ev → (se_ts_ms ev + 1 < 2 ^ 64)%N) →
  session_wf g ∧
  ∀ id ev, events (ns_node g) !! id = Some ev →
    (se_ts_ms ev < ns_ts_counter g)%N ∧ (se_ts_ms ev < (next_ts (g, d') o').1)%N.
Proof.
  intros Hopen Hload Hc Hts. destruct (load_session_wf _ _ _ _ _ _ _ _ Hopen Hload Hc Hts) as [Hw Hlt].
  split; [done|]. intros id ev Hev. specialize (Hlt id ev Hev). split; [done|].
  pose proof (next_ts_fields (g, d') o') as Hx. destruct (next_ts _ o') as [ts s1].
  destruct Hx as [-> _]. cbn. rewrite wrap_small by done. lia.
Qed.

End integrity.
