(* ===== verification/Concrete.v ===== *)
(** * Concrete instances of the external interfaces

    Executable stand-ins for the third-party crates, with their laws, on which
    the witnesses evaluate: a prefix-free byte codec for the [serde_json] types,
    a polynomial hash, a keyed-hash signature, a database that is a finite map.
    Nothing else in the development depends on them. *)

From S2P Require Import Prelude Crypto Event Dag Store Room.

(** ** A self-delimiting codec *)

Class Ser (A : Type) : Type := {
  ser : A → list byte;
  de : list byte → option (A * list byte);
  de_ser a l : de (ser a ++ l) = Some (a, l);
}.

#[export] Instance byte_ser : Ser byte.
Proof.
  refine {| ser := λ b, [b]; de := λ l, match l with b :: l => Some (b, l) | [] => None end |}.
  done.
Defined.

#[export] Instance bool_ser : Ser bool.
Proof.
  refine {| ser := λ b : bool, [if b then x01 else x00];
    de := λ l, match l with
               | x00 :: l => Some (false, l) | x01 :: l => Some (true, l) | _ => None end |}.
  by intros [] l.
Defined.

#[export] Instance prod_ser `{Ser A, Ser B} : Ser (A * B).
Proof.
  refine {| ser := λ '(a, b), ser a ++ ser b;
    de := λ l, match de l with
               | Some (a, l) => match de l with Some (b, l) => Some ((a, b), l) | None => None end
               | None => None
               end |}.
  intros [a b] l. by rewrite <-app_assoc, !de_ser.
Defined.

(** Lists: a [1] before each element, a [0] at the end. *)
Fixpoint de_list `{Ser A} (fuel : nat) (l : list byte) : option (list A * list byte) :=
  match fuel, l with
  | S fuel, x01 :: l =>
    match de l with
    | Some (a, l) => match de_list fuel l with Some (k, l) => Some (a :: k, l) | None => None end
    | None => None
    end
  | _, x00 :: l => Some ([], l)
  | _, _ => None
  end.

Fixpoint ser_list `{Ser A} (k : list A) : list byte :=
  match k with [] => [x00] | a :: k => x01 :: ser a ++ ser_list k end.

Lemma de_ser_list `{Ser A} (k : list A) : ∀ fuel l, length k ≤ fuel →
  de_list fuel (ser_list k ++ l) = Some (k, l).
Proof.
  induction k as [|a k IH]; intros fuel l Hf; cbn in *; [by destruct fuel|].
  destruct fuel as [|fuel]; [lia|]. cbn. rewrite <-app_assoc, de_ser, IH by lia. done.
Qed.

Lemma length_ser_list `{Ser A} (k : list A) : length k ≤ length (ser_list k).
Proof. induction k; cbn; [lia|]. rewrite length_app. lia. Qed.

#[export] Instance list_ser `{Ser A} : Ser (list A).
Proof.
  refine {| ser := ser_list; de := λ l, de_list (length l) l |}.
  intros k l. apply de_ser_list. rewrite length_app. pose proof (length_ser_list k). lia.
Defined.

(** Types isomorphic to a serialisable one. *)
Definition iso_ser {A B} `{Ser B} (f : A → B) (g : B → option A)
    (Hg : ∀ a, g (f a) = Some a) : Ser A.
Proof.
  refine {| ser := λ a, ser (f a);
    de := λ l, match de l with
               | Some (b, l) => match g b with Some a => Some (a, l) | None => None end
               | None => None
               end |}.
  intros a l. by rewrite de_ser, Hg.
Defined.

(** Numbers by their bits, least significant first. *)
Fixpoint pos_bits (p : positive) : list bool :=
  match p with xH => [] | xO p => false :: pos_bits p | xI p => true :: pos_bits p end.
Fixpoint bits_pos (l : list bool) : positive :=
  match l with [] => xH | false :: l => xO (bits_pos l) | true :: l => xI (bits_pos l) end.
Lemma bits_pos_bits p : bits_pos (pos_bits p) = p.
Proof. by induction p; cbn; f_equal. Qed.

#[export] Instance N_ser : Ser N.
Proof.
  refine (iso_ser (λ n, pos_bits (N.succ_pos n)) (λ l, Some (Pos.pred_N (bits_pos l))) _).
  intros n. rewrite bits_pos_bits, N.pos_pred_succ. done.
Defined.

(** Arrays: their bytes, without markers. *)
#[export] Instance array_ser n : Ser (array n).
Proof.
  refine {| ser := array_bytes;
    de := λ l, match try_into_array n (take n l) with
               | Some a => Some (a, drop n l) | None => None end |}.
  intros a l. rewrite take_app_length', try_into_array_bytes, drop_app_length' by (by rewrite length_array).
  done.
Defined.

#[export] Instance EventId_ser : Ser EventId.
Proof. by refine (iso_ser EventId_0 (λ b, Some (mkEventId b)) _); intros []. Defined.
#[export] Instance RoomId_ser : Ser RoomId.
Proof. by refine (iso_ser RoomId_0 (λ b, Some (mkRoomId b)) _); intros []. Defined.
#[export] Instance DeviceId_ser : Ser DeviceId.
Proof. by refine (iso_ser DeviceId_0 (λ b, Some (mkDeviceId b)) _); intros []. Defined.

#[export] Instance EventKind_ser : Ser EventKind.
Proof.
  by refine (iso_ser
    (λ k, match k with CreateRoom => x00 | Membership => x01 | Message => x02
                     | DeviceLink => x03 | Custom => x04 end)
    (λ b, match b with x00 => Some CreateRoom | x01 => Some Membership | x02 => Some Message
                     | x03 => Some DeviceLink | x04 => Some Custom | _ => None end) _); intros [].
Defined.

#[export] Instance MembershipAction_ser : Ser MembershipAction.
Proof.
  by refine (iso_ser
    (λ k, match k with Join => x00 | Invite => x01 | Leave => x02 | Ban => x03 end)
    (λ b, match b with x00 => Some Join | x01 => Some Invite | x02 => Some Leave
                     | x03 => Some Ban | _ => None end) _); intros [].
Defined.

#[export] Instance Body_ser : Ser Body.
Proof.
  by refine (iso_ser
    (λ e, (body_room_id e, body_parents e, body_kind e, body_payload e,
           body_author_device e, body_ts_ms e, body_author_vk e))
    (λ '(a, b, c, d, e, f, g), Some (mkBody a b c d e f g)) _); intros [].
Defined.
#[export] Instance Canon_ser : Ser Canon.
Proof.
  by refine (iso_ser
    (λ e, (canon_room_id e, canon_parents e, canon_kind e, canon_payload e,
           canon_author_device e, canon_ts_ms e, canon_author_vk e, canon_signature e))
    (λ '(a, b, c, d, e, f, g, h), Some (mkCanon a b c d e f g h)) _); intros [].
Defined.
#[export] Instance SignedEvent_ser : Ser SignedEvent.
Proof.
  by refine (iso_ser
    (λ e, (se_id e, se_room_id e, se_parents e, se_kind e, se_payload e,
           se_author_device e, se_ts_ms e, se_author_vk e, se_signature e))
    (λ '(a, b, c, d, e, f, g, h, i), Some (mkSignedEvent a b c d e f g h i)) _); intros [].
Defined.
#[export] Instance CreateRoomPayload_ser : Ser CreateRoomPayload.
Proof.
  by refine (iso_ser (λ p, (cp_creator p, cp_name p))
    (λ '(a, b), Some (mkCreateRoomPayload a b)) _); intros [].
Defined.
#[export] Instance MembershipPayload_ser : Ser MembershipPayload.
Proof.
  by refine (iso_ser (λ p, (mp_target p, mp_action p, mp_actor p))
    (λ '(a, b, c), Some (mkMembershipPayload a b c)) _); intros [].
Defined.

Definition ser_encode `{Ser A} : Encode A := ser.
Definition ser_decode `{Ser A} : Decode A :=
  λ l, match de l with Some (a, []) => Some a | _ => None end.

Lemma ser_codec `{Ser A} : @CodecLaws A ser_encode ser_decode.
Proof.
  intros a. unfold from_slice, to_vec, ser_decode, ser_encode.
  pose proof (de_ser a []) as Ha. rewrite app_nil_r in Ha. by rewrite Ha.
Qed.

(** ** A toy signature scheme *)

Definition toy_mix (l : list byte) : N :=
  foldl (λ h b, N.land (h * 31 + Byte.to_N b + 1) 0xFFFFFF) 7%N l.

Program Definition toy_hash (l : list byte) : bytes32 := Array (le_bytes 32 (toy_mix l)) _.
Next Obligation. intros l. by rewrite length_le_bytes. Qed.

Program Definition toy_sign (k : bytes32) (m : list byte) : bytes64 :=
  Array (array_bytes (toy_hash (array_bytes k ++ m)) ++
         array_bytes (toy_hash (m ++ array_bytes k))) _.
Next Obligation. intros k m. by rewrite length_app, !length_array. Qed.

#[export] Instance toy_crypto : Crypto := {|
  blake3 := toy_hash;
  SigningKey := bytes32;
  VerifyingKey := bytes32;
  verifying_key k := k;
  vk_as_bytes k := k;
  vk_from_bytes b := Some b;
  ed_sign := toy_sign;
  ed_verify k m s := bool_decide (array_bytes s = array_bytes (toy_sign k m));
|}.

#[export] Instance toy_crypto_laws : @CryptoLaws toy_crypto.
Proof. split; cbn; [done|congruence|]. intros sk m. by apply bool_decide_eq_true. Qed.

#[export] Instance toy_event_env : EventEnv :=
  {| env_crypto := toy_crypto; env_body := ser_encode; env_canon := ser_encode |}.
#[export] Instance toy_event_laws : @EventEnvLaws toy_event_env.
Proof.
  split; cbn; [apply toy_crypto_laws|..].
  - exact (@codec_inj Body ser_encode ser_decode ser_codec).
  - exact (@codec_inj Canon ser_encode ser_decode ser_codec).
Qed.

#[export] Program Instance toy_iter : HashIter := {|
  map_iter K V HK CK m := map_to_list m;
  set_iter K HK CK s := elements s |}.
Next Obligation. done. Qed.
Next Obligation. done. Qed.

(** ** A database *)

Abbreviation toy_table := (gmap (list byte) (list byte * list byte)).

#[export] Instance toy_db : EventsDb := {|
  Connection := toy_table;
  DbError := unit;
  IoError := unit;
  FsPath := toy_table;
  path_parent p := None;
  create_dir_all p := Ok tt;
  connection_open p := Ok p;
  connection_open_in_memory := Ok ∅;
  execute_schema c := Ok c;
  insert_or_ignore c id room body :=
    match c !! id with
    | Some _ => (Ok 0%N, c)
    | None => (Ok 1%N, <[id := (room, body)]> c)
    end;
  select_bodies c := Ok (Ok <$> (map_to_list c).*2.*2);
  select_body c id := Ok (snd <$> c !! id);
  select_count c := Ok (Z.of_nat (size c));
|}.

#[export] Instance toy_db_laws : @EventsDbLaws toy_db.
Proof.
  refine {| db_rows := λ c : @Connection toy_db, c |}; cbn.
  - intros c id room body. by destruct (c !! id) eqn:Hc; rewrite ?Hc.
  - congruence.
  - intros c rs l [= <-] H. apply list_fmap_eq_inj in H; [by subst|]. by intros a b [= ->].
  - congruence.
  - congruence.
  - congruence.
Defined.

#[export] Instance toy_store_env : StoreEnv :=
  {| store_event := toy_event_env; store_db := toy_db;
     store_encode := ser_encode; store_decode := ser_decode |}.
#[export] Instance toy_store_laws : @StoreEnvLaws toy_store_env :=
  {| store_db_laws := toy_db_laws; store_codec := ser_codec |}.

#[export] Instance toy_room_env : RoomEnv := {|
  room_event := toy_event_env; room_iter := toy_iter;
  room_create_encode := ser_encode; room_create_decode := ser_decode;
  room_member_encode := ser_encode; room_member_decode := ser_decode |}.
#[export] Instance toy_room_laws : @RoomEnvLaws toy_room_env.
Proof. split; [apply toy_event_laws|apply ser_codec..]. Qed.

Lemma toy_reliable (s : SqliteStore) ev : verified ev → is_ok (put s ev).1 = true.
Proof.
  apply (put_reliable (SE:=toy_store_env)). intros c id room body. cbn. by case_match.
Qed.
