(* ===== verification/Witness.v ===== *)
(** * Witnesses

    A small room on the instances of [Concrete.v]: alice creates it, invites
    bob, both post.  Each lemma applies a theorem of the development to that
    room, which shows that its hypotheses can hold. *)

From S2P Require Import Prelude Crypto Event Dag Store Room Sync Concrete.

(** Closed decidable facts by evaluation. *)
Ltac dec := apply (bool_decide_unpack _); vm_compute; exact I.

(** Results whose error type is not worth evaluating. *)
Lemma ok_is {E A} `{EqDecision A} (r : result E A) (a : A) :
  match r with Ok b => bool_decide (b = a) | Err _ => false end = true → r = Ok a.
Proof. destruct r; [|done]. by intros ->%bool_decide_eq_true. Qed.
Ltac ok := apply ok_is; vm_compute; reflexivity.

(** ** The scenario *)

Definition alice_sk : bytes32 := repeat_array 32 x01.
Definition bob_sk : bytes32 := repeat_array 32 x02.
Definition device_of (sk : bytes32) : DeviceId :=
  DeviceId_from_verifying_key (ENV:=toy_event_env) sk.
Definition alice : DeviceId := Eval vm_compute in device_of alice_sk.
Definition bob : DeviceId := Eval vm_compute in device_of bob_sk.
Definition den : RoomId := Eval vm_compute in room_id_from_parts (RE:=toy_room_env) alice [x64] 5.

Definition no_event : SignedEvent :=
  mkSignedEvent (mkEventId (repeat_array 32 x00)) den [] Custom [] alice 0
    (repeat_array 32 x00) [].
Definition signed (sk : bytes32) (u : UnsignedEvent) : SignedEvent :=
  match sign_event (ENV:=toy_event_env) sk u with Ok e => e | Err _ => no_event end.
Definition post (sk : bytes32) (parents : list EventId) (ts : N) : SignedEvent :=
  signed sk (mkUnsignedEvent den parents Message [x68; x69] (device_of sk) ts).
Definition change (sk : bytes32) (parents : list EventId) (target : DeviceId)
    (action : MembershipAction) (ts : N) : SignedEvent :=
  signed sk (mkUnsignedEvent den parents Membership
    (ser (mkMembershipPayload target action (device_of sk))) (device_of sk) ts).

Definition root : SignedEvent := Eval vm_compute in signed alice_sk (create_unsigned (RE:=toy_room_env) den alice [x64] 5).
Definition m1 : SignedEvent := Eval vm_compute in post alice_sk [se_id root] 6.
Definition m2 : SignedEvent := Eval vm_compute in post bob_sk [se_id root] 7.
Definition merge : SignedEvent := Eval vm_compute in post bob_sk [se_id m1; se_id m2] 8.
Definition reply : SignedEvent := Eval vm_compute in post alice_sk [se_id merge] 9.

(** ** Events *)

Lemma sign_event_correct_witness :
  ∃ e, sign_event (ENV:=toy_event_env) alice_sk (unsigned_of m1) = Ok e ∧ verify_event e = Ok tt.
Proof.
  destruct (sign_event_correct (ENV:=toy_event_env) alice_sk (unsigned_of m1))
    as [[Hne _]|(e & ? & ? & _)]; [|eauto].
  exfalso. apply Hne. dec.
Defined.

Lemma event_id_content_address_witness :
  m1 = m1 ∨ (canonical_bytes (ENV:=toy_event_env) m1 ≠ canonical_bytes m1 ∧
    blake3 (canonical_bytes m1) = blake3 (canonical_bytes m1)).
Proof.
  apply (event_id_content_address (ENV:=toy_event_env)
    (EI:=env_canon_laws (EventEnvLaws:=toy_event_laws))); [dec..|done].
Defined.

Lemma verify_event_binds_witness :
  m1 = m1 ∨ (∃ vk sig body body', body ≠ body' ∧
    vk_from_bytes (se_author_vk m1) = Some vk ∧ array_bytes sig = se_signature m1 ∧
    ed_verify vk body sig = true ∧ ed_verify vk body' sig = true).
Proof.
  apply (verify_event_binds (ENV:=toy_event_env)
    (EI:=env_body_laws (EventEnvLaws:=toy_event_laws))); [dec..|done|done].
Defined.

(** ** DAGs *)

Definition ingest_ (d : RoomDag) (ev : SignedEvent) : RoomDag :=
  (ingest (ENV:=toy_event_env) d ev).2.
Definition dag1 : RoomDag := ingest_ (RoomDag_new den) root.

Lemma ingest_pair d ev r : (ingest (ENV:=toy_event_env) d ev).1 = r →
  ingest (ENV:=toy_event_env) d ev = (r, ingest_ d ev).
Proof. unfold ingest_. destruct (ingest d ev). by intros <-. Qed.

Lemma dag1_wf : dag_wf (ENV:=toy_event_env) dag1.
Proof. apply ingest_preserves_wf, dag_wf_empty. Qed.

Lemma ingest_invariant_witness : dag_wf (ingest (ENV:=toy_event_env) dag1 m1).2.
Proof. apply (ingest_invariant (ENV:=toy_event_env)), dag1_wf. Defined.

Lemma ingest_idempotent_witness :
  ingest (ENV:=toy_event_env) (ingest_ dag1 m1) m1 = (Ok false, ingest_ dag1 m1).
Proof.
  apply (ingest_idempotent (ENV:=toy_event_env) dag1 m1 true).
  apply ingest_pair. dec.
Defined.

Lemma tips_maximal_witness :
  NoDup (tips (HI:=toy_iter) dag1) ∧
  ∃ t, t ∈ tips (HI:=toy_iter) dag1 ∧ rtc (parent_of dag1) (se_id root) t.
Proof.
  destruct (tips_maximal (ENV:=toy_event_env) (HI:=toy_iter) dag1 dag1_wf) as (? & _ & Ht).
  split; [done|]. apply Ht. dec.
Defined.

Lemma ingest_tips_witness : se_id root ∉ tips (HI:=toy_iter) (ingest_ dag1 m1).
Proof.
  rewrite (ingest_tips (ENV:=toy_event_env) dag1 m1 (ingest_ dag1 m1) (se_id root) dag1_wf).
  - intros [Heq|[_ Hn]]; [revert Heq; dec|]. apply Hn. dec.
  - apply ingest_pair. dec.
Defined.

(** Two events that a list of closed events cannot confuse. *)
Lemma no_collision_list (l : list SignedEvent) :
  Forall (λ e, Forall (λ e', se_id e = se_id e' → e = e') l) l →
  no_collision (λ e, e ∈ l ∨ ∃ id, (∅ : gmap EventId SignedEvent) !! id = Some e).
Proof.
  intros Hl e e' [He|[? He]] [He'|[? He']]; try by rewrite lookup_empty in *.
  rewrite list.Forall_forall in Hl. specialize (Hl e He).
  rewrite list.Forall_forall in Hl. by apply Hl.
Qed.

Definition dag_of (l : list SignedEvent) : RoomDag :=
  default (RoomDag_new den) (ingest_all (ENV:=toy_event_env) (RoomDag_new den) l).

Lemma dag_of_all l : is_Some (ingest_all (ENV:=toy_event_env) (RoomDag_new den) l) →
  ingest_all (ENV:=toy_event_env) (RoomDag_new den) l = Some (dag_of l).
Proof. intros [d Hd]. unfold dag_of. by rewrite Hd. Qed.

(** Whether a list of events goes through. *)
Definition all_in (l : list SignedEvent) : bool :=
  match ingest_all (ENV:=toy_event_env) (RoomDag_new den) l with Some _ => true | None => false end.
Lemma all_in_Some l : all_in l = true →
  ingest_all (ENV:=toy_event_env) (RoomDag_new den) l = Some (dag_of l).
Proof. intros H. apply dag_of_all. unfold all_in in H. by destruct (ingest_all _ _). Qed.

Lemma ingest_order_independent_witness :
  tips (HI:=toy_iter) (dag_of [root; m1; m2; merge]) ≡ₚ
  tips (HI:=toy_iter) (dag_of [root; m2; m1; merge]).
Proof.
  apply (ingest_order_independent (ENV:=toy_event_env) (HI:=toy_iter) (RoomDag_new den)
    [root; m1; m2; merge] [root; m2; m1; merge]).
  - apply dag_wf_empty.
  - apply perm_skip, Permutation_swap.
  - apply no_collision_list. dec.
  - apply all_in_Some. vm_compute. reflexivity.
  - apply all_in_Some. vm_compute. reflexivity.
Defined.

(** ** Stores *)

Definition store0 : SqliteStore (SE:=toy_store_env) := mkSqliteStore (SE:=toy_store_env) ∅.
Definition store1 : SqliteStore (SE:=toy_store_env) := (SqliteStore_put (SE:=toy_store_env) store0 root).2.
Definition log1 : gmap EventId SignedEvent := <[se_id root := root]> ∅.

Lemma store0_represents : sqlite_represents (SL:=toy_store_laws) store0 ∅.
Proof. split; [apply log_wf_empty|]. unfold table_of. by rewrite fmap_empty, kmap_empty. Qed.

Lemma store1_represents : sqlite_represents (SL:=toy_store_laws) store1 log1.
Proof.
  pose proof (put_spec (EventStoreLaws:=SqliteStore_laws (SL:=toy_store_laws))
    store0 ∅ root store0_represents) as H.
  assert ((SqliteStore_put (SE:=toy_store_env) store0 root).1 = Ok true) as Hok by ok.
  unfold store1. unfold put, SqliteStore_EventStore in H.
  destruct (SqliteStore_put (SE:=toy_store_env) store0 root) as [r s]. cbn [fst] in Hok. subst.
  by destruct H as (_ & _ & ?).
Qed.

Lemma sqlite_refines_memory_witness :
  SqliteStore_get (SE:=toy_store_env) store1 (se_id root) = MemoryStore_get (SE:=toy_store_env) (mkMemoryStore log1) (se_id root) ∨
  ∃ e, SqliteStore_get (SE:=toy_store_env) store1 (se_id root) = Err (StoreDb e).
Proof.
  pose proof (sqlite_refines_memory (SL:=toy_store_laws) store1 (mkMemoryStore log1) m1
    (se_id root) store1_represents) as H.
  destruct (SqliteStore_put (SE:=toy_store_env) store1 m1), (MemoryStore_put (SE:=toy_store_env) (mkMemoryStore log1) m1).
  destruct H as [_ [?|?]]; auto.
Defined.

Definition from_ok {E A} (d : A) (r : result E A) : A := match r with Ok a => a | Err _ => d end.
Lemma from_ok_eq {E A} (d : A) (r : result E A) : is_ok r = true → r = Ok (from_ok d r).
Proof. by destruct r. Qed.

Lemma Ok_from_ok {E A} (r : result E A) (a d : A) : r = Ok a → a = from_ok d r.
Proof. by intros ->. Qed.

Definition rows1 : list SignedEvent :=
  from_ok [] (SqliteStore_list_all (SE:=toy_store_env) store1).

Lemma list_all_correct_witness : Forall verified rows1 ∧ 1%N = N.of_nat (length rows1).
Proof.
  destruct (list_all_correct (SL:=toy_store_laws) store1 log1 rows1 1) as (_ & _ & Hv & _ & Hn).
  - apply store1_represents.
  - apply from_ok_eq. vm_compute. reflexivity.
  - ok.
  - vm_compute. reflexivity.
  - exact (conj Hv Hn).
Defined.

(** ** Rooms *)

Definition apply_ (reg : RoomRegistry) (ev : SignedEvent) : RoomRegistry :=
  (apply_event (RE:=toy_room_env) reg ev).2.
Definition no_room : RoomState := mkRoomState den [] alice ∅ RoomDag_default [].
Definition room_of (reg : RoomRegistry) : RoomState := default no_room (reg !! RoomId_0 den).
Lemma room_of_eq (reg : RoomRegistry) : is_Some (reg !! RoomId_0 den) →
  reg !! RoomId_0 den = Some (room_of reg).
Proof. intros [r Hr]. unfold room_of. by rewrite Hr. Qed.

Definition reg1 : RoomRegistry := apply_ RoomRegistry_new root.
Definition invite : SignedEvent := Eval vm_compute in change alice_sk [se_id root] bob Invite 6.
Definition ban : SignedEvent := Eval vm_compute in change alice_sk [se_id root] bob Ban 6.
Definition leave : SignedEvent := Eval vm_compute in change alice_sk [se_id ban] bob Leave 7.
Definition join : SignedEvent := Eval vm_compute in change bob_sk [se_id leave] bob Join 8.
Definition reg2 : RoomRegistry := apply_ reg1 ban.

Lemma reg1_wf : registry_wf (RE:=toy_room_env) reg1.
Proof. apply apply_event_preserves_wf, map_Forall_empty. Qed.
Lemma reg1_fresh : registry_fresh (RE:=toy_room_env) reg1.
Proof. apply apply_event_preserves_fresh; [apply map_Forall_empty|dec]. Qed.
Lemma reg1_room : reg1 !! RoomId_0 den = Some (room_of reg1).
Proof. apply room_of_eq. dec. Qed.
Lemma reg2_wf : registry_wf (RE:=toy_room_env) reg2.
Proof. apply apply_event_preserves_wf, reg1_wf. Qed.
Lemma reg2_room : reg2 !! RoomId_0 den = Some (room_of reg2).
Proof. apply room_of_eq. dec. Qed.

Lemma apply_event_invariant_witness : registry_wf (RE:=toy_room_env) (apply_ reg1 invite).
Proof. apply (apply_event_invariant (RE:=toy_room_env) reg1 invite reg1_wf). Defined.

Lemma joined_accounted_witness : ∃ ev, ev ∈ [root; invite] ∧ RoomId_0 (se_room_id ev) = RoomId_0 den.
Proof.
  destruct (joined_accounted (RE:=toy_room_env) [root; invite] (RoomId_0 den)
    (room_of (apply_all (RE:=toy_room_env) [root; invite])) alice) as (ev & ? & _ & ? & _);
    [apply room_of_eq; dec|dec|]. exists ev. split; assumption.
Defined.

Definition invite_payload : MembershipPayload := mkMembershipPayload bob Invite alice.

Lemma elem_dec {A} (l : list A) (P : A → Prop) : Forall P l → ∀ x, x ∈ l → P x.
Proof. intros Hl. by apply list.Forall_forall. Qed.

Lemma membership_transition_witness :
  (∃ room', (apply_event (RE:=toy_room_env) reg1 invite).2 !! RoomId_0 den = Some room') ∧
  (apply_event (RE:=toy_room_env) reg1 invite).1 = Ok true.
Proof.
  destruct (membership_transition (RE:=toy_room_env) reg1 (room_of reg1) invite invite_payload)
    as (room' & H & _ & [(_ & He & _)|(_ & He & _)]).
  - apply reg1_wf.
  - apply reg1_room.
  - dec.
  - split; dec.
  - dec.
  - apply elem_dec. dec.
  - exfalso. revert He. dec.
  - split; [exists room'; exact H|exact He].
Defined.

Lemma message_gate_witness : is_Some (reg1 !! RoomId_0 den).
Proof.
  pose proof (message_gate (RE:=toy_room_env) reg1 m1 ltac:(dec) ltac:(dec) ltac:(dec)) as H.
  destruct (assert_can_message _ _ _); [destruct H as (room & H & _); exists room; exact H|].
  dec.
Defined.

Lemma create_room_correct_witness :
  ∃ ev room, create_room (RE:=toy_room_env) RoomRegistry_new alice_sk alice [x64] 5 =
    (Ok (den, ev), <[RoomId_0 den := room]> ∅) ∧ joined_devices (RE:=toy_room_env) room = [alice].
Proof.
  destruct (create_room_correct (RE:=toy_room_env) (RL:=toy_room_laws) RoomRegistry_new
    alice_sk alice [x64] 5) as [[Hne _]|(ev & room & Hc & _ & _ & _ & _ & _ & Hj & _)].
  - apply lookup_empty.
  - exfalso. apply Hne. dec.
  - exists ev, room. exact (conj Hc Hj).
Defined.

Lemma reg1_no_clash ev :
  map_Forall (λ _ e, blake3 (canonical_bytes (ENV:=toy_event_env) ev) ≠
    blake3 (canonical_bytes e)) (dag_events (rs_dag (room_of reg1))) →
  no_clash (RE:=toy_room_env) (room_of reg1) ev.
Proof. intros Hf id e He Hb. destruct (Hf id e He Hb). Qed.

Lemma membership_event_correct_witness :
  membership_allowed (room_of reg1) alice bob Invite.
Proof.
  pose proof (membership_event_correct (RE:=toy_room_env) (RL:=toy_room_laws) reg1 alice_sk den
    (room_of reg1) alice bob Invite 6 reg1_wf reg1_fresh reg1_room ltac:(dec)) as H.
  destruct (membership_event _ _ _ _ _ _ _) as [[e|e] reg'].
  - apply H. intros s Hs. apply reg1_no_clash.
    apply (Ok_from_ok _ _ no_event) in Hs as ->.
    dec.
  - change (rs_members (room_of reg1) !! alice = Some Joined). dec.
Defined.

Lemma ban_is_cleared_by_leave_witness :
  ∃ room', apply_event (RE:=toy_room_env) (apply_ reg2 leave) join =
      (Ok true, <[RoomId_0 den := room']> (apply_ reg2 leave)) ∧
    is_joined room' bob = true.
Proof.
  apply (ban_is_cleared_by_leave (RE:=toy_room_env) reg2 (room_of reg2) bob leave join
    (mkMembershipPayload bob Leave alice) (mkMembershipPayload bob Join bob)).
  - apply reg2_wf.
  - apply reg2_room.
  - dec.
  - dec.
  - split; dec.
  - done.
  - done.
  - dec.
  - split; dec.
  - done.
  - done.
  - dec.
  - dec.
  - dec.
  - dec.
  - dec.
  - dec.
Defined.

(** ** Sync *)

Abbreviation tnode := (DeviceNode (H:=toy_store_env)).

Definition commit_ (n : tnode) (ev : SignedEvent) : tnode :=
  (ingest_event (SE:=toy_store_env) n ev true).2.
Definition start (d : DeviceId) : tnode :=
  set_durable (DeviceNode_new d) (Some store0).

Record good (n : tnode) : Prop := {
  g_wf : node_wf (SL:=toy_store_laws) n;
  g_blocked : inbox_blocked n;
  g_synced : synced (SL:=toy_store_laws) ∅ n;
}.

Lemma start_good d : good (start d).
Proof.
  split.
  - eapply fresh_node_wf, store0_represents.
  - by intros e []%not_elem_of_nil.
  - intros s [= <-]. cbn. rewrite (left_id_L ∅ (∪)). apply store0_represents.
Qed.

Lemma commit_good n ev : good n → verified (ENV:=store_event) ev →
  is_ok (ingest_event (SE:=toy_store_env) n ev true).1 = true → good (commit_ n ev).
Proof.
  intros [Hw Hb Hs] Hv Hok. unfold commit_.
  destruct (ingest_event (SE:=toy_store_env) n ev true) as [[b|e] n'] eqn:Hi; [|discriminate Hok].
  pose proof (ingest_event_ok (SL:=toy_store_laws) n ev true b n' Hw Hb Hv Hi) as Hc.
  split; [apply Hc..|]. apply (co_synced _ _ _ _ _ Hc); [|assumption].
  intros e _ e' He'. by rewrite lookup_empty in He'.
Qed.

(** Alice has the root and her post, bob the root, his post and, parked, the
    reply he cannot place yet. *)
Definition node_a : tnode := commit_ (commit_ (start alice) root) m1.
Definition node_b : tnode := commit_ (commit_ (start bob) root) m2.

Lemma node_a_good : good node_a.
Proof.
  apply commit_good; [apply commit_good; [apply start_good|..]|..]; try dec.
  all: vm_compute; reflexivity.
Qed.
Lemma node_b_good : good node_b.
Proof.
  apply commit_good; [apply commit_good; [apply start_good|..]|..]; try dec.
  all: vm_compute; reflexivity.
Qed.

Lemma agree_list (E E' : gmap EventId SignedEvent) :
  Forall (λ p, Forall (λ q, p.1 = q.1 → p.2 = q.2) (map_to_list E')) (map_to_list E) → agree E E'.
Proof.
  intros Hf id e e' He He'. apply elem_of_map_to_list in He, He'.
  rewrite list.Forall_forall in Hf. specialize (Hf _ He).
  rewrite list.Forall_forall in Hf. by apply (Hf _ He').
Qed.

Lemma no_parked (n : tnode) b r : inbox n = [] → parked_from n b r.
Proof. intros Hn e. rewrite Hn. by intros []%not_elem_of_nil. Qed.

Lemma converge_with_converges_witness :
  ∃ a' b', converge_with (HI:=toy_iter) node_a node_b den = (Ok tt, (a', b')) ∧
    DeviceNode_tips (HI:=toy_iter) a' den ≡ₚ DeviceNode_tips (HI:=toy_iter) b' den.
Proof.
  destruct node_a_good as [Ha Hba _], node_b_good as [Hb Hbb _].
  destruct (converge_with_converges (HI:=toy_iter) (SL:=toy_store_laws) node_a node_b den)
    as (a' & b' & Hc & _ & _ & _ & _ & Ht & _).
  - exact Ha.
  - exact Hb.
  - exact Hba.
  - exact Hbb.
  - right. apply toy_reliable.
  - right. apply toy_reliable.
  - apply agree_list. dec.
  - apply no_parked. dec.
  - apply no_parked. dec.
  - exists a', b'. exact (conj Hc Ht).
Defined.

Lemma default_eq {A} (o : option A) (d : A) :
  match o with Some _ => true | None => false end = true → o = Some (default d o).
Proof. by destruct o. Qed.

Definition store_a : SqliteStore (SE:=toy_store_env) := default store0 (durable node_a).

Lemma restart_recovers_witness :
  ∃ n', with_store (SE:=toy_store_env) alice store_a = Ok n' ∧ events n' = events node_a.
Proof.
  destruct node_a_good as [Ha _ Hsa].
  destruct (restart_recovers (HI:=toy_iter) (SL:=toy_store_laws) node_a store_a
    (from_ok [] (SqliteStore_list_all store_a)) alice) as (n' & Hn & _ & He & _).
  - exact Ha.
  - exact Hsa.
  - apply default_eq. vm_compute. reflexivity.
  - apply from_ok_eq. vm_compute. reflexivity.
  - apply toy_reliable.
  - exists n'. exact (conj Hn He).
Defined.

Lemma commit_invariant_witness : node_wf (SL:=toy_store_laws) (commit_local node_a m2).2.
Proof. exact (proj1 (commit_invariant (SL:=toy_store_laws) node_a m2 (g_wf _ node_a_good))). Defined.

Lemma commit_local_outcome_witness :
  outbox (commit_local node_a m2).2 = outbox node_a ++ [m2].
Proof.
  destruct node_a_good as [Ha Hba _].
  pose proof (commit_local_outcome (SL:=toy_store_laws) node_a m2 Ha Hba) as H.
  assert ((commit_local (SE:=toy_store_env) node_a m2).1 = Ok true) as Hr by ok.
  destruct (commit_local node_a m2) as [r n']. cbn [fst] in Hr. subst r.
  exact (proj1 (proj2 (proj2 (proj2 (proj2 H))))).
Defined.

Lemma fst_pair {A B} (p : A * B) a : p.1 = a → p = (a, p.2).
Proof. destruct p. by intros <-. Qed.

Lemma drain_inbox_complete_witness :
  ∃ n', drain_inbox (SE:=toy_store_env) node_a = (Ok tt, n') ∧ inbox_blocked n'.
Proof.
  assert ((drain_inbox (SE:=toy_store_env) node_a).1 = Ok tt) as Hr by ok.
  apply fst_pair in Hr. eexists. split; [exact Hr|].
  exact (proj1 (proj2 (drain_inbox_complete (SL:=toy_store_laws) node_a) (g_wf _ node_a_good) _ Hr)).
Defined.

Lemma response_exact_witness :
  StronglySorted (λ x y, cmp_le event_order x y = true)
    (sr_missing (respond_to_offer (HI:=toy_iter) node_b (build_offer (HI:=toy_iter) node_a den))).
Proof.
  exact (proj2 (response_exact (HI:=toy_iter) (SL:=toy_store_laws) node_a node_b den m2
    (g_wf _ node_a_good) (g_wf _ node_b_good))).
Defined.

Lemma relay_xor_roundtrip_witness :
  open_from_relay_xor (SE:=toy_store_env) (from_ok [] (seal_for_relay_xor (SE:=toy_store_env) m1 x2a)) x2a =
    (let? _ := map_err SyncEvent (verify_event m1) in Ok m1).
Proof.
  exact (proj1 (relay_xor_roundtrip (SL:=toy_store_laws) m1 x2a _ eq_refl)).
Defined.

(** The reply has one parent, which has two. *)
Definition node_c : tnode :=
  commit_ (commit_ (commit_ (commit_ (commit_ (start bob) root) m1) m2) merge) reply.
Definition response_c : list SignedEvent := missing_for_peer (HI:=toy_iter) node_c den ∅.
Definition before_merge : list SignedEvent := take 4 response_c.

Lemma node_c_good : good node_c.
Proof.
  do 5 (apply commit_good; [|dec|vm_compute; reflexivity]). apply start_good.
Qed.

Lemma missing_not_causal_witness : reply ∈ before_merge.
Proof.
  apply (missing_not_causal (HI:=toy_iter) (SL:=toy_store_laws) node_c den ∅ reply merge
    before_merge []).
  - apply node_c_good.
  - dec.
  - dec.
  - dec.
  - change (response_c = before_merge ++ [merge]). dec.
Defined.
