(* ===== verification/ConcreteNet.v ===== *)
(** * Concrete instances of the relay's interfaces

    The codec of the relay messages and a table of envelopes that is a finite
    map, with their laws. *)

From S2P Require Import Prelude Crypto Event Net Relay Concrete.

(** ** Codecs *)

#[export] Instance option_ser `{Ser A} : Ser (option A).
Proof.
  refine {| ser := λ o, match o with None => [x00] | Some a => x01 :: ser a end;
    de := λ l, match l with
               | x00 :: l => Some (None, l)
               | x01 :: l => match de l with Some (a, l) => Some (Some a, l) | None => None end
               | _ => None
               end |}.
  intros [a|] l; cbn; by rewrite ?de_ser.
Defined.

#[export] Instance RelayEnvelope_ser : Ser RelayEnvelope.
Proof.
  by refine (iso_ser
    (λ e, (re_envelope_id e, re_recipient_device e, re_sender_device e, re_room_id e,
           re_ciphertext e, re_ts_ms e))
    (λ '(a, b, c, d, e, f), Some (mkRelayEnvelope a b c d e f)) _); intros [].
Defined.

#[export] Instance RelayRequest_ser : Ser RelayRequest.
Proof.
  refine {| ser := λ r, match r with
                        | Put e => x00 :: ser e
                        | Fetch d s n => x01 :: ser (d, s, n)
                        | Ack d ids => x02 :: ser (d, ids)
                        end;
    de := λ l, match l with
               | x00 :: l => match de l with Some (e, l) => Some (Put e, l) | None => None end
               | x01 :: l => match de l with
                             | Some ((d, s, n), l) => Some (Fetch d s n, l) | None => None end
               | x02 :: l => match de l with
                             | Some ((d, ids), l) => Some (Ack d ids, l) | None => None end
               | _ => None
               end |}.
  intros [e|d s n|d ids] l; cbn -[de ser]; by rewrite de_ser.
Defined.

#[export] Instance RelayResponse_ser : Ser RelayResponse.
Proof.
  refine {| ser := λ r, match r with
                        | RespOk => [x00]
                        | Envelopes k => x01 :: ser k
                        | RespErr m => x02 :: ser m
                        end;
    de := λ l, match l with
               | x00 :: l => Some (RespOk, l)
               | x01 :: l => match de l with
                             | Some (k, l) => Some (Envelopes k, l) | None => None end
               | x02 :: l => match de l with Some (m, l) => Some (RespErr m, l) | None => None end
               | _ => None
               end |}.
  intros [|k|m] l; cbn -[de ser]; rewrite ?de_ser; done.
Defined.

(** ** The table of envelopes *)

Definition ts_order (p q : list byte * EnvRow) : comparison := Z.compare (er_ts p.2) (er_ts q.2).

Lemma ts_order_le p q : cmp_le ts_order p q = true ↔ (er_ts p.2 ≤ er_ts q.2)%Z.
Proof.
  unfold cmp_le, ts_order. by destruct (Z.compare_spec (er_ts p.2) (er_ts q.2)); split; (done || lia).
Qed.
Lemma ts_order_total p q : cmp_le ts_order p q = false → cmp_le ts_order q p = true.
Proof. intros H. apply ts_order_le. apply not_true_iff_false in H. rewrite ts_order_le in H. lia. Qed.
Lemma ts_order_trans p q r :
  cmp_le ts_order p q = true → cmp_le ts_order q r = true → cmp_le ts_order p r = true.
Proof. rewrite !ts_order_le. lia. Qed.

#[export] Instance EnvRow_eq_dec : EqDecision EnvRow.
Proof. solve_decision. Defined.

Definition toy_due (recipient : list byte) (since : Z) (p : list byte * EnvRow) : bool :=
  bool_decide (er_recipient p.2 = recipient) && (since <=? er_ts p.2)%Z.

#[export] Instance toy_envelopes : EnvelopesDb := {|
  EConnection := gmap (list byte) EnvRow;
  EDbError := unit;
  edb_text e := [];
  env_open p := Ok ∅;
  env_schema c := Ok c;
  env_insert c id row :=
    match c !! id with Some _ => (Ok 0%N, c) | None => (Ok 1%N, <[id := row]> c) end;
  env_select c recipient since limit :=
    Ok (Ok <$> take (Z.to_nat limit)
      (sort_by ts_order (List.filter (toy_due recipient since) (map_to_list c))));
  env_delete c id recipient :=
    if decide (er_recipient <$> c !! id = Some recipient) then (Ok 1%N, delete id c)
    else (Ok 0%N, c);
|}.

Lemma list_filter_perm {A} (f : A → bool) (P : A → Prop) `{∀ x, Decision (P x)} l :
  (∀ x, f x = true ↔ P x) → List.filter f l = filter P l.
Proof.
  intros Hf. induction l as [|x l IH]; [done|]. cbn [List.filter]. rewrite filter_cons, IH.
  specialize (Hf x). destruct (f x); case_decide; naive_solver.
Qed.

#[export] Instance toy_envelopes_laws : @EnvelopesDbLaws toy_envelopes.
Proof.
  refine {| env_rows := λ c : @EConnection toy_envelopes, c |}; cbn.
  - intros c id row. by destruct (c !! id) eqn:Hc; rewrite ?Hc.
  - intros c recipient since limit rs l [= <-] H.
    apply list_fmap_eq_inj in H; [|by intros a b [= ->]]. subst l.
    eexists. split; [|split; [|done]].
    + rewrite sort_by_perm. rewrite (list_filter_perm _ (λ p,
        er_recipient p.2 = recipient ∧ (since ≤ er_ts p.2)%Z)); [done|].
      intros p. unfold toy_due. rewrite andb_true_iff, bool_decide_eq_true, Z.leb_le. done.
    + eapply StronglySorted_weaken;
        [|apply sort_by_sorted; [apply ts_order_total|apply ts_order_trans]].
      intros p q. by rewrite ts_order_le.
  - intros c id recipient. by case_decide.
Defined.

#[export] Instance toy_relay : RelayEnv := {|
  relay_crypto := toy_crypto; relay_db := toy_envelopes;
  io_text e := []; serde_text := [];
  relay_req_encode := ser_encode; relay_req_decode := ser_decode;
  relay_resp_encode := ser_encode; relay_resp_decode := ser_decode |}.
#[export] Instance toy_relay_laws : @RelayEnvLaws toy_relay :=
  {| relay_db_laws := toy_envelopes_laws; relay_req_codec := ser_codec;
     relay_resp_codec := ser_codec |}.
