(* ===== verification/WitnessNet.v ===== *)
(** * Witnesses for the wire protocols and the relay

    Alice leaves two envelopes for bob on the relay of [ConcreteNet.v]. *)

From S2P Require Import Prelude Text Crypto Event Net Relay Concrete Witness ConcreteNet.

#[local] Instance fits_dec l : Decision (fits l) := decide_rel N.le _ _.

#[local] Instance RelayEnvelope_eq_dec : EqDecision RelayEnvelope.
Proof. solve_decision. Defined.

(** ** Frames *)

Lemma frame_stream_roundtrip_witness :
  (write_events (H:=ser_encode) (mkWriter [] None) [root; m1]).1 = Ok tt.
Proof.
  pose proof (frame_stream_roundtrip (HE:=ser_encode) (HD:=ser_decode) (HC:=ser_codec) [root; m1])
    as H.
  assert (Forall (λ ev, fits (ser ev)) [root; m1]) as Hf by dec.
  specialize (H Hf). destruct (write_events _ _). exact (proj1 H).
Defined.

Definition uri : PeerUri := mkPeerUri (text "10.0.0.7") 7400 false true.

Lemma peer_uri_roundtrip_witness : PeerUri_parse (text "td-quic://10.0.0.7:7400") = Ok uri.
Proof. exact (peer_uri_roundtrip uri ltac:(dec) eq_refl). Defined.

(** ** The relay *)

Definition env1 : RelayEnvelope :=
  Eval vm_compute in RelayEnvelope_new bob alice (Some den) [x61; x62] 5.
Definition env2 : RelayEnvelope :=
  Eval vm_compute in RelayEnvelope_new bob alice None [x63] 3.
Definition late : RelayEnvelope :=
  Eval vm_compute in RelayEnvelope_new bob alice None [x63] (2 ^ 63).

Definition relay0 : EnvelopeStore (LE:=toy_relay) := mkEnvelopeStore (LE:=toy_relay) ∅.
Definition box1 : gmap bytes32 RelayEnvelope := <[re_envelope_id env1 := env1]> ∅.
Definition box2 : gmap bytes32 RelayEnvelope := <[re_envelope_id env2 := env2]> box1.
Definition table (E : gmap bytes32 RelayEnvelope) : EnvelopeStore (LE:=toy_relay) :=
  mkEnvelopeStore (LE:=toy_relay) (kmap array_bytes (env_row <$> E)).

(** The table of authentic small envelopes represents them. *)
Lemma table_mailbox (E : gmap bytes32 RelayEnvelope) :
  bool_decide (Forall (λ p, re_envelope_id p.2 = p.1 ∧
    re_envelope_id (RelayEnvelope_new (re_recipient_device p.2) (re_sender_device p.2)
      (re_room_id p.2) (re_ciphertext p.2) (re_ts_ms p.2)) = re_envelope_id p.2 ∧
    (N.of_nat (length (re_ciphertext p.2)) ≤ MAX_CIPHERTEXT)%N ∧
    (re_ts_ms p.2 < 2 ^ 64)%N) (map_to_list E)) = true →
  mailbox (LL:=toy_relay_laws) (table E) E.
Proof.
  rewrite bool_decide_eq_true, list.Forall_forall. intros H. split; [|done].
  intros id e He. apply elem_of_map_to_list in He. exact (H _ He).
Qed.

Lemma box1_mailbox : mailbox (LL:=toy_relay_laws) (table box1) box1.
Proof. apply table_mailbox. vm_compute. reflexivity. Qed.
Lemma box2_mailbox : mailbox (LL:=toy_relay_laws) (table box2) box2.
Proof. apply table_mailbox. vm_compute. reflexivity. Qed.

Definition limiter2 : RateLimiter := RateLimiter_new 0 2.
Lemma limiter2_wf : limiter_wf limiter2.
Proof. intros d. unfold count_of. cbn. rewrite lookup_empty. cbn. lia. Qed.

Definition burst : list (DeviceId * (N * N)) :=
  [(alice, (10, 11)); (bob, (12, 12)); (alice, (13, 14)); (alice, (15, 15))]%N.

Lemma rate_limit_bound_witness : (accepted_of alice burst (allow_all limiter2 burst).1 ≤ 4)%N.
Proof.
  apply (rate_limit_bound limiter2 alice burst 0 20 limiter2_wf); cbn; [|dec].
  repeat split; dec.
Defined.

Lemma relay_put_refines_witness :
  mailbox (LL:=toy_relay_laws) (EnvelopeStore_put (LE:=toy_relay) (table box1) env2).2 box2.
Proof.
  pose proof (relay_put_refines (LL:=toy_relay_laws) (table box1) box1 env2 box1_mailbox ltac:(dec))
    as H.
  assert ((EnvelopeStore_put (LE:=toy_relay) (table box1) env2).1 = Ok true) as Hr by ok.
  destruct (EnvelopeStore_put (table box1) env2) as [r s]. cbn [fst] in Hr. subst r.
  exact (proj2 (proj2 (proj2 H))).
Defined.

Lemma relay_fetch_exact_witness :
  ∃ l, EnvelopeStore_fetch (LE:=toy_relay) (table box2) bob 4 0 = Ok l ∧
    (∀ env, env ∈ l → due box2 bob 4 env ∧ (re_ts_ms env < 2 ^ 63)%N).
Proof.
  exists [env1]. assert (EnvelopeStore_fetch (LE:=toy_relay) (table box2) bob 4 0 = Ok [env1]) as Hf by ok.
  split; [exact Hf|].
  exact (proj1 (relay_fetch_exact (LL:=toy_relay_laws) (table box2) box2 bob 4 0 _ box2_mailbox ltac:(dec) Hf)).
Defined.

Lemma relay_ack_exact_witness :
  ∃ E' : gmap bytes32 RelayEnvelope, E' ⊆ box2 ∧ E' !! re_envelope_id env2 = Some env2.
Proof.
  pose proof (relay_ack_exact (LL:=toy_relay_laws) (table box2) box2 bob [re_envelope_id env1]
    box2_mailbox) as H.
  destruct (EnvelopeStore_ack _ _ _) as [r s]. destruct H as (E' & _ & Hsub & Hkeep & _).
  exists E'. split; [exact Hsub|]. apply Hkeep; [dec|]. left. dec.
Defined.

Definition relay2 : RelayState (LE:=toy_relay) := mkRelayState (table box2) limiter2.
Definition traffic : list ((N * N) * RelayRequest) :=
  [((5, 5)%N, Put env1); ((6, 6)%N, Fetch bob 0 10);
   ((7, 7)%N, Ack alice [re_envelope_id env1]); ((8, 8)%N, Ack bob [re_envelope_id env2])].

Lemma relay_keeps_envelopes_witness :
  ∃ E' : gmap bytes32 RelayEnvelope, E' !! re_envelope_id env1 = Some env1.
Proof.
  destruct (relay_keeps_envelopes (LL:=toy_relay_laws) relay2 traffic box2 env1) as (E' & _ & H & _).
  - exact box2_mailbox.
  - exact limiter2_wf.
  - repeat constructor.
  - dec.
  - repeat (constructor; [cbn|]); [tauto|tauto| | |constructor].
    + intros [He _]. revert He. dec.
    + intros [_ He]. revert He. dec.
  - exists E'. exact H.
Defined.

Definition session : list RelayRequest := [Put env2; Fetch bob 0 10; Ack bob [re_envelope_id env1]].
Definition session_bytes : list byte := concat (frame ∘ ser <$> session).

Lemma relay_session_witness : ∃ st sock,
  handle_conn (LE:=toy_relay) (S (length session_bytes)) (λ k, (N.of_nat k, N.of_nat k)) 0
    (mkRelayState (table box1) limiter2)
    (mkTcpStream (mkReader session_bytes None) (mkWriter [] None)) = (st, sock).
Proof.
  eexists. eexists.
  refine (relay_session (LL:=toy_relay_laws) (mkRelayState (table box1) limiter2)
    (λ k, (N.of_nat k, N.of_nat k)) session _ _).
  - change (Forall (λ q, fits (ser q)) session). dec.
  - change (Forall (λ r, fits (ser r)) (respond_all (LE:=toy_relay)
      (mkRelayState (table box1) limiter2) (λ k, (N.of_nat k, N.of_nat k)) 0 session).1). dec.
Defined.

Lemma late_timestamp_unreachable_witness : late ∉ @nil RelayEnvelope.
Proof.
  apply (late_timestamp_unreachable (LL:=toy_relay_laws)
    (table {[re_envelope_id late := late]}) {[re_envelope_id late := late]} bob 0 64).
  - apply table_mailbox. vm_compute. reflexivity.
  - dec.
  - dec.
  - dec.
  - ok.
Defined.

(** A response codec that pads with trailing blanks, longer than a frame. *)
Definition padding : nat := N.to_nat (MAX_FRAME + 1).
Definition padded_encode : Encode RelayResponse := λ r, ser r ++ repeat x20 padding.
Definition padded_decode : Decode RelayResponse :=
  λ l, match de l with Some (r, _) => Some r | None => None end.

#[local] Instance padded_relay : RelayEnv := {|
  relay_crypto := toy_crypto; relay_db := toy_envelopes;
  io_text e := []; serde_text := [];
  relay_req_encode := ser_encode; relay_req_decode := ser_decode;
  relay_resp_encode := padded_encode; relay_resp_decode := padded_decode |}.
#[local] Instance padded_relay_laws : @RelayEnvLaws padded_relay.
Proof.
  refine {| relay_db_laws := toy_envelopes_laws; relay_req_codec := ser_codec |}.
  intros r. change (padded_decode (ser r ++ repeat x20 padding) = Some r).
  unfold padded_decode. by rewrite de_ser.
Defined.

Lemma padded_length (r : RelayResponse) :
  N.of_nat (length (padded_encode r)) = (N.of_nat (length (ser r)) + (MAX_FRAME + 1))%N.
Proof.
  unfold padded_encode, padding. rewrite length_app, repeat_length, Nat2N.inj_add, N2Nat.id. done.
Qed.

Definition empty_relay : RelayState (LE:=padded_relay) :=
  mkRelayState (mkEnvelopeStore (LE:=padded_relay) ∅) limiter2.

Lemma oversized_response_closes_witness : ∃ st,
  handle_conn (LE:=padded_relay) 1 (λ _, (0, 0)%N) 0 empty_relay
    (mkTcpStream (mkReader (frame (ser (Fetch bob 0 10)) ++ [x01]) None) (mkWriter [] None)) =
  (st, mkTcpStream (mkReader [x01] None) (mkWriter [] None)).
Proof.
  eexists. refine (oversized_response_closes (LL:=padded_relay_laws) empty_relay
    (λ _, (0, 0)%N) 0 (Fetch bob 0 10) [x01] _ _).
  - change (fits (ser (Fetch bob 0 10))). dec.
  - change (to_vec ?r) with (padded_encode r).
    assert ((respond empty_relay (0, 0)%N (Fetch bob 0 10)).1 = Envelopes []) as Hr.
    { vm_compute. reflexivity. }
    rewrite padded_length. rewrite Hr.
    change (N.of_nat (length (ser (Envelopes [])))) with 2%N. split; dec.
Defined.
