(* ===== verification/ConcreteNode.v ===== *)
(** * Concrete instances of the interfaces of a node's services

    Executable stand-ins, with their laws, for the hex text of bytes, the keys of
    linking, the ratchets of [vodozemac], the AEAD, the JSON files of the data
    directory, WebAuthn keys and the texts of errors. *)

From S2P Require Import Prelude Text Crypto Event Store Sync Link Passkey E2ee Seal Persist Access.
From S2P Require Import Concrete ConcreteNet.

(** ** Hexadecimal *)

Definition hex_digit (n : N) : byte := byte_of_N (if (n <? 10)%N then 48 + n else 87 + n).
Definition hex_pair (b : byte) : list byte :=
  [hex_digit (Byte.to_N b / 16); hex_digit (Byte.to_N b mod 16)].
Definition toy_hex_encode (l : list byte) : list byte := l ≫= hex_pair.

Fixpoint toy_hex_decode (l : list byte) : option (list byte) :=
  match l with
  | [] => Some []
  | a :: b :: l =>
    x ← hex_val a; y ← hex_val b; r ← toy_hex_decode l; Some (byte_of_N (16 * x + y) :: r)
  | _ => None
  end.

Lemma toy_hex_pair b l : toy_hex_decode (hex_pair b ++ l) =
  (r ← toy_hex_decode l; Some (b :: r)).
Proof. by destruct b. Qed.

Lemma toy_hex_roundtrip l : toy_hex_decode (toy_hex_encode l) = Some l.
Proof.
  induction l as [|b l IH]; [done|]. unfold toy_hex_encode in *. cbn [mbind list_bind].
  by rewrite toy_hex_pair, IH.
Qed.

Lemma toy_hex_utf8 l t : is_utf8 (toy_hex_encode l ++ t) = is_utf8 t.
Proof.
  induction l as [|b l IH]; [done|]. unfold toy_hex_encode in *. cbn [mbind list_bind].
  rewrite <-app_assoc, <-IH. generalize ((l ≫= hex_pair) ++ t). by destruct b.
Qed.

#[export] Instance toy_hex : Hex := {|
  hex_encode := toy_hex_encode;
  hex_decode l := ok_or (toy_hex_decode l) (text "invalid hex") |}.
#[export] Instance toy_hex_laws : @HexLaws toy_hex.
Proof. split. intros b. cbn. by rewrite toy_hex_roundtrip. Qed.

(** ** Keys *)

#[export] Instance toy_keys : @KeyBytes toy_crypto :=
  @Build_KeyBytes toy_crypto (λ b : bytes32, b) (λ b : bytes32, b).
#[export] Instance toy_keys_laws : @KeyBytesLaws toy_crypto toy_keys.
Proof. by split. Qed.

#[export] Instance DeviceBundle_ser : Ser DeviceBundle.
Proof.
  by refine (iso_ser (λ b, (db_device_id b, db_verifying_key b))
    (λ '(a, b), Some (mkDeviceBundle a b)) _); intros [].
Defined.
#[export] Instance DeviceLinkPayload_ser : Ser DeviceLinkPayload.
Proof.
  by refine (iso_ser (λ b, (lp_new_device b, lp_requested_at_ms b))
    (λ '(a, b), Some (mkDeviceLinkPayload a b)) _); intros [].
Defined.

#[export] Instance toy_link : LinkEnv :=
  {| link_event := toy_event_env; link_keys := toy_keys; link_payload := ser_encode |}.
#[export] Instance toy_link_laws : @LinkEnvLaws toy_link.
Proof.
  split; [exact toy_crypto_laws|exact toy_keys_laws|].
  exact (@codec_inj DeviceLinkPayload ser_encode ser_decode ser_codec).
Qed.

(** ** Ratchets

    An Olm session is a number the ends advance together; a Megolm session is a
    ratchet and the index of its next message. *)

Definition toy_text {A} `{Ser A} (l : list byte) : result (list byte) A :=
  ok_or (ser_decode l) (text "parse").
Lemma toy_text_ser {A} `{Ser A} (a : A) : toy_text (ser a) = Ok a.
Proof.
  unfold toy_text. assert (ser_decode (ser a) = Some a) as -> by exact (ser_codec a). done.
Qed.

Definition toy_pickle {A} `{Ser A} (a : A) (k : bytes32) : list byte := array_bytes k ++ ser a.
Definition toy_unpickle {A} `{Ser A} (l : list byte) (k : bytes32) : result (list byte) A :=
  if decide (take 32 l = array_bytes k) then toy_text (drop 32 l) else Err (text "key").
Lemma toy_pickled {A} `{Ser A} (a : A) k : toy_unpickle (toy_pickle a k) k = Ok a.
Proof.
  unfold toy_unpickle, toy_pickle.
  rewrite take_app_length', drop_app_length' by (by rewrite length_array).
  rewrite decide_True by done. apply toy_text_ser.
Qed.

#[export] Instance toy_voz_types : VodozemacTypes := {|
  Seed := N; Account := N * list N; Curve25519PublicKey := N; OlmSession := N;
  PreKeyMessage := N * list byte; NormalMessage := N * list byte;
  GroupSession := N * N; InboundGroupSession := N * N; SessionKey := N * N;
  MegolmMessage := N * N * list byte |}.

Definition toy_session_decrypt (s : N) (m : @OlmMessage toy_voz_types) :
    result (list byte) (list byte) * N :=
  let '(n, p) := match m with PreKey m => m | Normal m => m end in
  if (n =? s)%N then (Ok p, (s + 1)%N) else (Err (text "order"), s).

Definition toy_inbound_decrypt (i : N * N) (m : N * N * list byte) :
    result (list byte) (list byte) * (N * N) :=
  (if ((m.1.1 =? i.1) && (i.2 <=? m.1.2))%N then Ok m.2 else Err (text "index"), i).

#[export] Instance OlmMessage_ser : Ser (@OlmMessage toy_voz_types).
Proof.
  refine (iso_ser (λ m : @OlmMessage toy_voz_types,
      match m with PreKey m => (true, m) | Normal m => (false, m) end : bool * (N * list byte))
    (λ '(b, m), Some (if b : bool then @PreKey toy_voz_types m else @Normal toy_voz_types m)) _).
  by intros [].
Defined.

#[export] Instance toy_voz : Vodozemac := {|
  voz_types := toy_voz_types;
  account_new s := (s, []);
  generate_one_time_keys a n s := (a.1, ((λ i, (s + N.of_nat i)%N) <$> seq 0 n) ++ a.2);
  one_time_keys a := a.2;
  mark_keys_as_published a := (a.1, []);
  curve25519_key a := a.1;
  curve_to_base64 k := ser k;
  curve_from_base64 l := ser_decode l;
  create_outbound_session a id otk s := Ok s;
  create_inbound_session a id m := (Ok ((m.1 + 1)%N, m.2), a);
  session_encrypt s p seed := (Ok (PreKey (s, p)), (s + 1)%N);
  session_decrypt := toy_session_decrypt;
  olm_message_to_json m := Ok (ser m);
  olm_message_from_json := toy_text;
  group_new s := (s, 0%N);
  group_id g := ser g.1;
  group_index g := g.2;
  group_key g := g;
  group_encrypt g p := ((g.1, g.2, p), (g.1, (g.2 + 1)%N));
  session_key_to_base64 k := ser k;
  session_key_from_base64 := toy_text;
  inbound_new k := k;
  inbound_id i := ser i.1;
  inbound_decrypt := toy_inbound_decrypt;
  megolm_to_base64 m := ser m;
  megolm_from_base64 := toy_text;
  account_pickle := toy_pickle; account_unpickle := toy_unpickle;
  session_pickle := toy_pickle; session_unpickle := toy_unpickle;
  group_pickle := toy_pickle; group_unpickle := toy_unpickle;
  inbound_pickle := toy_pickle; inbound_unpickle := toy_unpickle;
|}.

#[export] Instance toy_voz_laws : @VodozemacLaws toy_voz.
Proof.
  refine {| Ratchet := N; group_ratchet := fst : @GroupSession toy_voz_types → N;
    inbound_ratchet := fst : @InboundGroupSession toy_voz_types → N;
    inbound_first := snd : @InboundGroupSession toy_voz_types → N |};
    cbn -[toy_text ser]; try (intros; apply toy_pickled); try (intros; apply toy_text_ser); try done.
  intros [r f] [r' n] p; cbn -[N.eqb N.leb]. intros -> Hf _.
  by rewrite N.eqb_refl, (proj2 (N.leb_le _ _)).
Defined.

#[export] Instance toy_olm_laws : @OlmLaws toy_voz.
Proof.
  refine (@Build_OlmLaws toy_voz (λ s s', s = s') _ _).
  - intros s s' p seed m -> [= <-]. cbn. by rewrite N.eqb_refl.
  - intros m j Hj. change (@Ok (list byte) _ (ser m) = Ok j) in Hj.
    assert (ser m = j) as <- by (revert Hj; generalize (ser m); congruence). apply toy_text_ser.
Defined.

#[export] Instance toy_olm_start : @OlmStartLaws toy_voz toy_olm_laws.
Proof.
  split.
  - intros k. apply ser_codec.
  - done.
  - intros a b otk s seed p seed' m _ [= <-] Hm.
    assert (m = @PreKey toy_voz_types (seed, p)) as -> by by injection Hm.
    exists (seed, p), (seed + 1)%N. by split_and!.
Qed.

(** ** Seals *)

Definition toy_tag (k : bytes32) (n : array 12) (p : list byte) : list byte :=
  take 16 (array_bytes (toy_hash (array_bytes k ++ array_bytes n ++ p))).

#[export] Instance toy_aead : Aead := {|
  aead_encrypt k n p := Some (p ++ toy_tag k n p);
  aead_decrypt k n c :=
    let p := take (length c - 16) c in
    if decide (c = p ++ toy_tag k n p) then Some p else None |}.
#[export] Instance toy_aead_laws : @AeadLaws toy_aead.
Proof.
  assert (∀ k n p, length (toy_tag k n p) = 16) as Ht.
  { intros. unfold toy_tag. by rewrite length_take, length_array. }
  split; cbn -[toy_tag]; intros k n p c [= <-]; rewrite length_app, Ht; [|done].
  rewrite Nat.add_sub, take_app_length. by rewrite decide_True.
Qed.

#[export] Instance OlmCiphertext_ser : Ser OlmCiphertext.
Proof.
  by refine (iso_ser (λ c, (oc_sender_device c, oc_recipient_device c, oc_message_json c))
    (λ '(a, b, c), Some (mkOlmCiphertext a b c)) _); intros [].
Defined.
#[export] Instance RelayOlmWire_ser : Ser RelayOlmWire.
Proof.
  by refine (iso_ser (λ w, (rw_v w, rw_sender_curve25519_b64 w, rw_olm w))
    (λ '(a, b, c), Some (mkRelayOlmWire a b c)) _); intros [].
Defined.

#[export] Instance toy_seal : SealEnv := {|
  seal_crypto := toy_crypto; seal_aead := toy_aead; seal_voz := toy_voz; seal_hex := toy_hex;
  seal_wire_encode := ser_encode; seal_wire_decode := toy_text; e2ee_serde_text := [] |}.
#[export] Instance toy_seal_laws : @SealEnvLaws toy_seal.
Proof. split; [exact toy_aead_laws|]. intros w. apply toy_text_ser. Qed.

(** ** Files: the hexadecimal text of the codec *)

Definition toy_from_str {A} `{Ser A} (l : list byte) : option A :=
  let l := match list.last l with Some x0a => take (length l - 1) l | _ => l end in
  b ← toy_hex_decode l; ser_decode b.

Definition toy_file {A} `{Ser A} : JsonFile A :=
  {| to_vec_pretty a := toy_hex_encode (ser a); from_str := toy_from_str |}.

Lemma toy_hex_last l : list.last (toy_hex_encode l) ≠ Some x0a.
Proof.
  destruct l as [|b l _] using rev_ind; [done|].
  unfold toy_hex_encode. rewrite bind_app, last_app. by destruct b.
Qed.

Lemma toy_file_laws {A} `{Ser A} : @JsonFileLaws A toy_file.
Proof.
  assert (∀ a : A, (b ← toy_hex_decode (toy_hex_encode (ser a)); ser_decode b) = Some a) as Hr.
  { intros a. rewrite toy_hex_roundtrip. exact (ser_codec a). }
  split; cbn; intros a.
  - unfold toy_from_str. pose proof (toy_hex_last (ser a)).
    destruct (list.last _) as [[]|]; try exact (Hr a); done.
  - unfold toy_from_str. rewrite last_snoc, length_app. cbn [length].
    rewrite Nat.add_sub, take_app_length. exact (Hr a).
  - rewrite <-(app_nil_r (toy_hex_encode (ser a))) at 1. by rewrite !toy_hex_utf8.
Qed.

#[export] Instance ClaimDisk_ser : Ser ClaimDisk.
Proof.
  by refine (iso_ser
    (λ c, (cd_claimed c, cd_display_name c, cd_recovery_hash c, cd_claimed_at_ms c))
    (λ '(a, b, c, d), Some (mkClaimDisk a b c d)) _); intros [].
Defined.
#[export] Instance NodeMetaDisk_ser : Ser NodeMetaDisk.
Proof. by refine (iso_ser nm_ts_counter (λ n, Some (mkNodeMetaDisk n)) _); intros []. Defined.
#[export] Instance OlmSessionDurable_ser : Ser OlmSessionDurable.
Proof.
  by refine (iso_ser (λ d, (od_peer_device d, od_pickle_b64 d))
    (λ '(a, b), Some (mkOlmSessionDurable a b)) _); intros [].
Defined.
#[export] Instance MegolmOutboundDurable_ser : Ser MegolmOutboundDurable.
Proof.
  by refine (iso_ser (λ d, (mo_room_id d, mo_session_id d, mo_pickle_b64 d))
    (λ '(a, b, c), Some (mkMegolmOutboundDurable a b c)) _); intros [].
Defined.
#[export] Instance MegolmInboundDurable_ser : Ser MegolmInboundDurable.
Proof.
  by refine (iso_ser (λ d, (mi_session_id d, mi_pickle_b64 d))
    (λ '(a, b), Some (mkMegolmInboundDurable a b)) _); intros [].
Defined.
#[export] Instance E2eeDurablePackage_ser : Ser E2eeDurablePackage.
Proof.
  by refine (iso_ser (λ p, (dp_v p, dp_device_id p, dp_account_b64 p, dp_olm p, dp_outbound p,
      dp_inbound p))
    (λ '(a, b, c, d, e, f), Some (mkE2eeDurablePackage a b c d e f)) _); intros [].
Defined.

#[export] Instance toy_persist : PersistEnv := {|
  persist_link := toy_link; persist_seal := toy_seal; persist_iter := toy_iter;
  claim_json := toy_file; meta_json := toy_file; e2ee_json := toy_file |}.
#[export] Instance toy_persist_laws : @PersistEnvLaws toy_persist.
Proof.
  refine {| persist_key_laws := toy_keys_laws; persist_voz_laws := toy_voz_laws;
    persist_hex_laws := toy_hex_laws |}; exact toy_file_laws.
Defined.

#[export] Instance toy_access : AccessEnv := {|
  access_persist := toy_persist; to_uppercase := to_ascii_uppercase;
  io_error_text e := text "failed"; json_error_text := text "bad json" |}.

(** ** WebAuthn *)

#[export] Instance ClientData_ser : Ser ClientData.
Proof.
  by refine (iso_ser (λ c, (cd_type c, cd_challenge c, cd_origin c))
    (λ '(a, b, c), Some (mkClientData a b c)) _); intros [].
Defined.

#[export] Instance toy_passkey : PasskeyEnv := {|
  sha256 l := array_bytes (toy_hash l);
  P256Key := list byte;
  P256Signature := list byte;
  p256_from_der := Ok;
  sig_from_der := Ok;
  sig_from_slice := Ok;
  p256_verify k m s :=
    if decide (s = array_bytes (toy_hash (k ++ m))) then Ok tt else Err (text "signature");
  client_data_from_slice := toy_text |}.
