(* ===== verification/WitnessNode.v ===== *)
(** * Witnesses for the services of a node

    Keys, linking, passkeys, end-to-end encryption, relay seals, the data
    directory, rate limits and access, on the instances of [ConcreteNode.v]. *)

From S2P Require Import Prelude Text Crypto Event Store Sync Link Base64 Passkey E2ee Seal Persist.
From S2P Require Import Rate Access Concrete Witness ConcreteNet ConcreteNode.

#[local] Existing Instance toy_iter.

(** ** Linking *)

Definition alice_kp : DeviceKeypair (KE:=toy_link) := DeviceKeypair_generate (KE:=toy_link) alice_sk.
Definition bob_kp : DeviceKeypair (KE:=toy_link) := DeviceKeypair_generate (KE:=toy_link) bob_sk.
Definition reg0 : LinkRegistry := (trust_local (KE:=toy_link) (LinkRegistry_new alice) alice_kp).2.
Definition no_approval : LinkApproval :=
  mkLinkApproval (mkDeviceLinkPayload (mkDeviceBundle alice alice_sk) 0) alice alice_sk [].
Definition no_request : LinkRequest :=
  mkLinkRequest (mkDeviceLinkPayload (mkDeviceBundle alice alice_sk) 0) [].
Definition approval : LinkApproval := Eval vm_compute in
  from_ok no_approval (approve_link (KE:=toy_link) reg0 alice_kp
    (from_ok no_request (create_link_request (KE:=toy_link) reg0 bob_kp))).

Lemma linked_devices_vouched_witness : vouched (KE:=toy_link) reg0 [approval] bob.
Proof. apply (linked_devices_vouched (KE:=toy_link)). vm_compute. reflexivity. Defined.

Lemma linking_completes_witness :
  ∃ a, (apply_approval (KE:=toy_link) reg0 a).1 = Ok tt.
Proof.
  destruct (linking_completes (KE:=toy_link) reg0 reg0 reg0 bob_kp alice_kp)
    as (q & a & _ & _ & H & _).
  - exact eq_refl.
  - exact eq_refl.
  - vm_compute. reflexivity.
  - vm_compute. reflexivity.
  - exists a. exact H.
Defined.

(** ** Passkeys *)

Definition draw32 : bytes32 := repeat_array 32 x2a.
Definition draw_text : list byte := Eval vm_compute in b64url (array_bytes draw32).
Definition site : PasskeyRegistry := localhost_default.
Definition client_b64 : list byte := Eval vm_compute in
  b64url (ser (mkClientData (text "webauthn.create") draw_text (text "http://localhost:8788"))).
Definition auth_b64 : list byte := Eval vm_compute in
  b64url (array_bytes (toy_hash (text "localhost")) ++ [x01; x00; x00; x00; x00]).
Definition enroll : call := FinishReg draw_text (b64url [x07]) client_b64 auth_b64 (b64url [x09]) [].
Definition enrolment : list call := [BeginReg (repeat_array 16 x01) draw32 [] []; enroll; enroll].

(** The second use of the challenge is refused. *)
Lemma challenge_single_use_witness :
  uses (PE:=toy_passkey) Register draw_text site enrolment = 1 ∧
  uses (PE:=toy_passkey) Register draw_text site enrolment ≤ 1.
Proof.
  split; [vm_compute; reflexivity|].
  exact (challenge_single_use (PE:=toy_passkey) site enrolment Register draw_text eq_refl).
Defined.

(** ** End-to-end encryption *)

Abbreviation device := (E2eeDevice (VZ:=toy_voz)).

Definition den_key : list byte := text "den".
Definition alice0 : device := E2eeDevice_new (VZ:=toy_voz) 7%N 8%N alice.
Definition bob0 : device := E2eeDevice_new (VZ:=toy_voz) 9%N 10%N bob.
Definition alice1 : device := (create_group_session (VZ:=toy_voz) alice0 den_key 77%N).2.
Definition den_session_key : list byte :=
  from_ok [] (export_group_session_key (VZ:=toy_voz) alice1 den_key).
Definition bob1 : device := (import_group_session_key (VZ:=toy_voz) bob0 den_session_key).2.
(** Bob also makes a session of his own. *)
Definition bob2 : device := (create_group_session (VZ:=toy_voz) bob1 (text "pond") 5%N).2.

Lemma bob_steps : rtc (e2ee_step (VZ:=toy_voz)) bob1 bob2.
Proof.
  apply rtc_once. refine (step_create (VZ:=toy_voz) bob1 (text "pond") 5%N _).
  vm_compute. reflexivity.
Qed.

Lemma room_messages_decrypt_witness :
  ∃ cts d', megolm_encrypt_all (VZ:=toy_voz) alice1 den_key [text "quack"; []] = (Ok cts, d') ∧
    Forall2 (λ p ct, (megolm_decrypt (VZ:=toy_voz) bob2 ct).1 = Ok p) [text "quack"; []] cts.
Proof.
  refine (room_messages_decrypt (VZ:=toy_voz) (VL:=toy_voz_laws) alice1 bob0 bob2 den_key
    den_session_key (77, 0)%N [text "quack"; []] _ _ _ _ bob_steps).
  - vm_compute. reflexivity.
  - vm_compute. reflexivity.
  - vm_compute. reflexivity.
  - vm_compute. reflexivity.
Defined.

Lemma e2ee_state_monotone_witness : ed_device_id bob2 = ed_device_id bob1.
Proof. exact (proj1 (e2ee_state_monotone (VZ:=toy_voz) (VL:=toy_voz_laws) _ _ bob_steps)). Defined.

(** A package that claims a later index than its pickle holds. *)
Definition alice2 : device := set_outbound (VZ:=toy_voz) alice1 {[den_key := (77, 3)%N]}.
Definition behind : RoomOutboundPackage :=
  mkRoomOutboundPackage 1 den_key (ser 77%N) 5 (toy_pickle (77, 1)%N ROOM_PICKLE_KEY)
    (ser (77, 1)%N) alice.

Lemma room_import_rolls_back_witness :
  group_message_index (VZ:=toy_voz) (import_room_outbound (VZ:=toy_voz) alice2 behind).2 den_key =
    Some 1%N.
Proof.
  refine (proj2 (room_import_rolls_back (VZ:=toy_voz) alice2 behind (77, 1)%N
    (77, 3)%N (77, 1)%N _ _ _ _ _ _ _)); try (vm_compute; reflexivity).
  cbn. lia.
Defined.

(** ** Relay seals *)

Definition nonce0 : array 12 := repeat_array 12 x03.
Definition sealed1 : list byte :=
  from_ok [] (seal_bytes (SN:=toy_seal) draw32 nonce0 (text "quack")).

Lemma seal_bytes_roundtrip_witness : open_bytes (SN:=toy_seal) draw32 sealed1 = Ok (text "quack").
Proof.
  exact (proj1 (seal_bytes_roundtrip (SN:=toy_seal) draw32 nonce0 (text "quack") sealed1 eq_refl)).
Defined.

Definition relayed1 : list byte :=
  from_ok [] (seal_for_relay (SN:=toy_seal) (SE:=toy_store_env) m1 draw32 nonce0).

Lemma relay_seal_verified_witness :
  open_from_relay (SN:=toy_seal) (SE:=toy_store_env) relayed1 draw32 =
    (let? _ := map_err SyncEvent (verify_event m1) in Ok m1).
Proof.
  exact (proj1 (relay_seal_verified (SN:=toy_seal) (SE:=toy_store_env) alice0 m1 draw32 nonce0
    relayed1 eq_refl)).
Defined.

Definition alice3 : device := set_olm (VZ:=toy_voz) alice0 {[bob := 40%N]}.
Definition bob3 : device := set_olm (VZ:=toy_voz) bob0 {[alice := 40%N]}.
Definition to_bob : result SyncError (list byte) * device :=
  seal_for_relay_olm (SN:=toy_seal) (SE:=toy_store_env) alice3 bob m1 0%N.

Lemma relay_olm_addressed_witness :
  open_from_relay_auto (SN:=toy_seal) (SE:=toy_store_env) alice0 None (from_ok [] to_bob.1) =
    (Err SyncRelaySeal, alice0).
Proof.
  refine (proj2 (relay_olm_addressed (SN:=toy_seal) (SE:=toy_store_env) alice3 to_bob.2 bob3 None
    40%N 40%N m1 0%N (from_ok [] to_bob.1) _ _ _ _) alice0 _).
  - vm_compute. reflexivity.
  - vm_compute. reflexivity.
  - exact eq_refl.
  - exact eq_refl.
  - dec.
Defined.

(** ** The data directory *)

Definition disk0 : Disk := mkDisk ∅ ∅ false false 0.
Definition claimed0 : ClaimState :=
  mkClaimState true (Some (text "pond")) (Some (text "00")) (Some 5%N).
(** The fifth call fails. *)
Definition fifth : Oracle := λ k, if decide (k = 4) then Some 1 else None.

Lemma disk0_wf : disk_wf disk0.
Proof. done. Qed.

Lemma claim_save_atomic_witness :
  (load_claim (PV:=toy_persist) never (save_claim (PV:=toy_persist) claimed0 fifth disk0).2).1 =
    Ok ClaimState_default.
Proof.
  pose proof (claim_save_atomic (PV:=toy_persist) (PL:=toy_persist_laws) disk0 claimed0 fifth disk0_wf) as H.
  assert (is_ok (save_claim (PV:=toy_persist) claimed0 fifth disk0).1 = false) as Hr
    by (vm_compute; reflexivity).
  destruct (save_claim (PV:=toy_persist) claimed0 fifth disk0) as [[|e] d1]; [discriminate Hr|].
  exact (proj1 H).
Defined.

(** A start on the empty disk stores a key; the next one, by another draw, has it. *)
Abbreviation first_start := (load_or_create_identity (PV:=toy_persist) alice_sk never disk0).
Lemma identity_durable_witness :
  ∃ kp, first_start.1 = Ok kp ∧
    (load_or_create_identity (PV:=toy_persist) bob_sk never first_start.2).1 = Ok kp.
Proof.
  pose proof (identity_durable (PV:=toy_persist) (PL:=toy_persist_laws) disk0 never alice_sk disk0_wf)
    as H.
  assert (is_ok first_start.1 = true) as Hr by (vm_compute; reflexivity).
  destruct first_start as [[kp|e] d1]; [|discriminate Hr].
  exists kp. split; [reflexivity|]. exact (proj2 (proj1 H kp eq_refl) bob_sk).
Defined.

Lemma e2ee_restart_witness :
  (load_e2ee (PV:=toy_persist) 1%N 2%N alice never
     (save_e2ee (PV:=toy_persist) alice1 never disk0).2).1 = Ok alice1.
Proof.
  pose proof (e2ee_restart (PV:=toy_persist) (PL:=toy_persist_laws) disk0 never alice1 alice 1%N 2%N disk0_wf) as H.
  assert (is_ok (save_e2ee (PV:=toy_persist) alice1 never disk0).1 = true) as Hok
    by (vm_compute; reflexivity).
  destruct (save_e2ee (PV:=toy_persist) alice1 never disk0) as [[u|e] d1]; [|discriminate Hok].
  exact (proj1 H).
Defined.

(** ** Rate limits *)

Definition redeem_rule : RateRule := rate_rule_for (text "/v1/pair/redeem") (text "POST").
Definition redeem_call (now : N) : RateCall :=
  mkRateCall (text "10.0.0.9") (text "/v1/pair/redeem") redeem_rule now.
Definition flood : list RateCall := repeat (redeem_call 5) 30.

Lemma flood_all (P : RateCall → Prop) : P (redeem_call 5) → Forall P flood.
Proof. intros HP. by apply list.Forall_forall; intros c Hc%list_elem_of_In%repeat_spec; subst. Qed.

Lemma rate_book_bound_witness :
  (let_through (text "10.0.0.9|/v1/pair/redeem") (mkRateLimitBook ∅) flood ≤ 20)%N.
Proof.
  refine (proj2 (rate_book_bound (mkRateLimitBook ∅) flood (text "10.0.0.9")
    (text "/v1/pair/redeem") 20 0 6 _ _ _ _ _) eq_refl).
  - apply flood_all. exists (text "POST"). reflexivity.
  - apply flood_all. intros _. dec.
  - exact I.
  - cbn. repeat split; dec.
  - dec.
Defined.

(** ** Access *)

Abbreviation node := Access.

Definition fresh_node : node :=
  mkAccess alice ClaimState_default ∅ ∅ 0 None reg0 true None None.
Definition token1 : list byte := text "token-1".
Definition draw1 : Draw := mkDraw token1 10 11 1000.
Definition claim_req : ClaimRequest := mkClaimRequest (text " pond ") (Some (text "quack-quack")).
Definition claim_act : action (AV:=toy_access) := ActClaim claim_req [] 900 draw1 never.

Lemma mint_owner_session_exact_witness :
  sessions_capped (mint_owner_session (AV:=toy_access) fresh_node (text "claim") token1 10 11 1000).2.
Proof.
  pose proof (mint_owner_session_exact (AV:=toy_access) fresh_node (text "claim") token1 10 11 1000)
    as H. assert (sessions_capped fresh_node) as Hc by (vm_compute; lia). specialize (H Hc).
  destruct (mint_owner_session _ _ _ _ _ _) as [[tok ttl] g]. exact (proj1 (proj2 (proj2 H))).
Defined.

Lemma owner_tokens_earned_witness :
  ∃ l1 a l2, [claim_act; ActLogout (mkHeaders None None)] = l1 ++ a :: l2 ∧
    grants (AV:=toy_access) (run (AV:=toy_access) (fresh_node, disk0) l1) a token1.
Proof.
  refine (owner_tokens_earned (AV:=toy_access) (fresh_node, disk0) _ token1 20 21 eq_refl _).
  apply ok_is. vm_compute. reflexivity.
Defined.

Lemma claim_node_durable_witness :
  ac_claim (claim_node (AV:=toy_access) fresh_node claim_req [] 900 draw1 fifth disk0).1.2 =
    ClaimState_default.
Proof.
  pose proof (claim_node_durable (AV:=toy_access) (PL:=toy_persist_laws) fresh_node claim_req [] 900
    draw1 fifth disk0 eq_refl disk0_wf eq_refl (λ _, eq_refl)) as H.
  assert (accepted (claim_node (AV:=toy_access) fresh_node claim_req [] 900 draw1 fifth disk0).1.1 =
    false) as Hr by (vm_compute; reflexivity).
  destruct (claim_node (AV:=toy_access) fresh_node claim_req [] 900 draw1 fifth disk0)
    as [[[|st e x] g] d1]; [discriminate Hr|]. exact (proj1 (proj2 (proj2 H))).
Defined.

Definition claimed_node : node := (run (AV:=toy_access) (fresh_node, disk0) [claim_act]).1.
Definition guesses : list (list byte * N * N * Draw) :=
  repeat (text "password", 100%N, 101%N, draw1) 1 ++ repeat (text "12345678", 101%N, 101%N, draw1) 20.

(** Five of the guesses are looked at. *)
Lemma recovery_throttle_witness :
  length (List.filter id (logins (AV:=toy_access) claimed_node guesses).1) = 5 ∧
  (N.of_nat (length (List.filter id (logins (AV:=toy_access) claimed_node guesses).1)) ≤ 5)%N.
Proof.
  split; [vm_compute; reflexivity|].
  refine (recovery_throttle (AV:=toy_access) claimed_node guesses 100 _ _ _).
  - dec.
  - cbn. repeat split; dec.
  - repeat constructor; unfold wrong; dec.
Defined.
