(* ===== verification/ConcreteRpc.v ===== *)
(** * A concrete environment of a node session

    JSON values and the environment of [NodeSession], on the instances of
    [ConcreteNode.v], with the laws the theorems on sessions assume. *)

From S2P Require Import Prelude Text Crypto Event Store Room Sync Net Link E2ee Seal Persist Access.
From S2P Require Import Session Concrete ConcreteNet ConcreteNode.

#[export] Instance Scalar_ser : Ser Scalar.
Proof.
  refine (iso_ser (λ x, match x with JStr s => (true, (s, 0%N)) | JNum n => (false, ([], n)) end)
    (λ '(b, (s, n)), Some (if b : bool then JStr s else JNum n)) _).
  by intros [].
Defined.

#[export] Instance toy_json : JsonValue := {|
  Value := list (list byte * Scalar);
  value_from_slice := ser_decode;
  value_get_str v k := field k v;
  json_object l := ser l |}.
#[export] Instance toy_json_laws : @JsonValueLaws toy_json.
Proof. intros l _. exists l. split; [exact (ser_codec l)|done]. Qed.

#[export] Instance RoomOutboundPackage_ser : Ser RoomOutboundPackage.
Proof.
  by refine (iso_ser (λ p, (ro_v p, ro_room_id p, ro_session_id p, ro_message_index p,
      ro_pickle_b64 p, ro_session_key_b64 p, ro_owner_device p))
    (λ '(a, b, c, d, e, f, g), Some (mkRoomOutboundPackage a b c d e f g)) _); intros [].
Defined.

#[export] Instance toy_node : NodeEnv := {|
  node_access := toy_access;
  node_db := toy_db;
  node_event_encode := ser_encode; node_event_decode := ser_decode;
  node_create_encode := ser_encode; node_create_decode := ser_decode;
  node_member_encode := ser_encode; node_member_decode := ser_decode;
  node_json := toy_json;
  node_package_encode := ser_encode; node_package_decode := ser_decode;
  node_request_encode := ser_encode; node_response_decode := ser_decode |}.
#[export] Instance toy_node_laws : @NodeEnvLaws toy_node := {|
  node_store_laws := toy_store_laws; node_room_laws := toy_room_laws;
  node_link_laws := toy_link_laws; node_persist_laws := toy_persist_laws;
  node_seal_laws := toy_seal_laws; node_json_laws := toy_json_laws |}.
