(* ===== verification/WitnessRpc.v ===== *)
(** * Witnesses for the node session

    Two nodes on the environment of [ConcreteRpc.v]: alice makes a room and posts
    to it, bob gets the room session, the events and a relayed envelope; a third
    session starts from the store of [Witness.v]. *)

From S2P Require Import Prelude Text Crypto Event Dag Store Room Sync Net Link Passkey E2ee Seal Persist Rate.
From S2P Require Import Access Session Peers Messages Assist Integrity Concrete Witness ConcreteNet ConcreteNode WitnessNode.
From S2P Require Import ConcreteRpc.

#[local] Existing Instance toy_iter.

(** ** Addresses *)

Lemma advertised_uri_parses_witness :
  ∃ u, PeerUri_parse (advertise_p2p_uri (mkSocketAddr (text "10.0.0.7") 7400)
         (Some (text "pond.example")) true false) = Ok u.
Proof.
  destruct (advertised_uri_parses (mkSocketAddr (text "10.0.0.7") 7400) (Some (text "pond.example"))
    true false) as (u & Hu & _); [dec|]. exists u. exact Hu.
Defined.

(** ** Messages *)

Abbreviation session := (NodeSession (NE:=toy_node)).

Definition alice_start : state (NE:=toy_node) :=
  (NodeSession_new (NE:=toy_node) alice_sk 7%N 8%N, disk0).
Definition bob_start : session := NodeSession_new (NE:=toy_node) bob_sk 9%N 10%N.

Definition alice_made : Response (NE:=toy_node) CreateRoomResponse * state (NE:=toy_node) :=
  rpc_create_room (NE:=toy_node) alice_start (text "den") never.
Definition alice_den : state (NE:=toy_node) := alice_made.2.
Definition room_hex : list byte := Eval vm_compute in
  match alice_made.1 with Ok r => crr_room_id r | Err _ => [] end.
Definition room0 : RoomId := Eval vm_compute in
  match parse_room_id (NE:=toy_node) room_hex with Ok r => r | Err _ => den end.
Abbreviation posted := (send_local (NE:=toy_node) alice_den room_hex (text "quack") 77%N never).
Definition no_sent : Sent :=
  {| st_event := no_event; st_room_outbound := None; st_peers := []; st_full_dag := [] |}.
Definition sent1 : Sent := from_ok no_sent posted.1.
Definition no_package : RoomOutboundPackage := mkRoomOutboundPackage 0 [] [] 0 [] [] alice.
Definition package1 : RoomOutboundPackage := default no_package (st_room_outbound sent1).
Abbreviation bob_imported :=
  (import_room_outbound (VZ:=toy_voz) (ns_e2ee bob_start) package1).

Lemma pair_ok {E A S} (p : result E A * S) (d : A) : is_ok p.1 = true → p = (Ok (from_ok d p.1), p.2).
Proof. by destruct p as [[]]. Qed.
Lemma posted_eq : posted = (Ok sent1, posted.2).
Proof. unfold sent1. apply pair_ok. vm_compute. reflexivity. Qed.
Lemma package1_eq : st_room_outbound sent1 = Some package1.
Proof. unfold package1. apply default_eq. vm_compute. reflexivity. Qed.
Definition imported_id : list byte := from_ok [] bob_imported.1.
Lemma bob_imported_eq : bob_imported = (Ok imported_id, bob_imported.2).
Proof. unfold imported_id. apply pair_ok. vm_compute. reflexivity. Qed.

Lemma shared_message_readable_witness :
  (decrypt_message_text (NE:=toy_node) bob_imported.2 (st_event sent1)).1 = text "quack".
Proof.
  refine (shared_message_readable (NE:=toy_node) (NL:=toy_node_laws) alice_den posted.2 room_hex
    (text "quack") 77%N never sent1 package1 (ns_e2ee bob_start) bob_imported.2 bob_imported.2
    imported_id _ _ _ _ _ (rtc_refl _ _)).
  - exact posted_eq.
  - exact package1_eq.
  - dec.
  - vm_compute. reflexivity.
  - exact bob_imported_eq.
Defined.

(** Bob's address answers that it cannot be reached. *)
Definition bob_away : list byte → PeerHttp := λ _,
  {| ph_olm_keys := Err (text "refused"); ph_import_olm _ _ := Err []; ph_ingest _ := Err [] |}.
Definition alice_peered : state (NE:=toy_node) :=
  (upsert_peer (NE:=toy_node) alice_made.2.1 (text "bob") (text "http://10.0.0.8:8788") None None,
   disk0).

Lemma alice_peered_wf : session_wf (NE:=toy_node) (NL:=toy_node_laws) alice_peered.1.
Proof.
  apply wf_upsert, wf_create_room. apply new_session_wf.
Qed.

Lemma no_inbox (n : DeviceNode (H:=@node_store toy_node)) : inbox n = [] → inbox_blocked n.
Proof. intros Hn e. rewrite Hn. by intros []%not_elem_of_nil. Qed.

(** Evaluation at types that do not mention the environment. *)
Lemma nil_is {A} (l : list A) : match l with [] => true | _ :: _ => false end = true → l = [].
Proof. by destruct l. Qed.
Lemma none_is {A} (o : option A) : match o with None => true | Some _ => false end = true → o = None.
Proof. by destruct o. Qed.

Lemma alice_peered_inbox : inbox (ns_node alice_peered.1) = [].
Proof. apply nil_is. vm_compute. reflexivity. Qed.

(** One peer, whose push fails. *)
Abbreviation sending := (send_message (NE:=toy_node) alice_peered room_hex (text "quack") 77%N never
  (λ s, s) (Some bob_away) (λ n, N.of_nat n)).

Lemma send_message_exact_witness :
  ∃ resp, sending.1 = Ok resp ∧ sd_fanout_ok resp + length (sd_fanout_errors resp) = 1.
Proof.
  pose proof (send_message_exact (NE:=toy_node) (NL:=toy_node_laws) alice_peered room_hex
    (text "quack") 77%N never (λ s, s) (Some bob_away) (λ n, N.of_nat n)
    (sw_node _ alice_peered_wf) (no_inbox _ alice_peered_inbox)) as H.
  assert (match sending.1 with Ok r => sd_fanout_peers r =? 1 | Err _ => false end = true) as Hok
    by (vm_compute; reflexivity).
  destruct sending as [[resp|e] s]; [|discriminate Hok].
  cbn [fst] in Hok. apply Nat.eqb_eq in Hok. destruct (send_local _ _ _ _ _) as [l s1].
  destruct H as (sent & r & H). exists resp. split; [reflexivity|]. rewrite <-Hok. apply H.
Defined.

(** ** Exchange *)

Definition alice_posted : session := posted.2.1.

Lemma alice_posted_wf : session_wf (NE:=toy_node) (NL:=toy_node_laws) alice_posted.
Proof. apply wf_send, wf_create_room, new_session_wf. Qed.
Lemma bob_start_wf : session_wf (NE:=toy_node) (NL:=toy_node_laws) bob_start.
Proof. apply new_session_wf. Qed.

Lemma sync_peer_converges_witness :
  room_part (SE:=@node_store toy_node) (ns_node (sync_ingest (NE:=toy_node) bob_start
    (list_events (SE:=@node_store toy_node) (HI:=@persist_iter (@access_persist (@node_access toy_node)))
      (ns_node alice_posted) room0)).2) room0 !! se_id (st_event sent1) =
    Some (st_event sent1).
Proof.
  pose proof (sync_peer_converges (NE:=toy_node) (NL:=toy_node_laws) alice_posted bob_start room_hex room0)
    as H. cbv zeta in H.
  destruct (sync_peer (NE:=toy_node) alice_posted room_hex _ _) as [res g'].
  destruct H as (_ & _ & _ & _ & Hu & Heq & _).
  - apply ok_is. vm_compute. reflexivity.
  - exact (sw_node _ alice_posted_wf).
  - exact (sw_node _ bob_start_wf).
  - apply no_inbox, nil_is. vm_compute. reflexivity.
  - apply no_inbox, nil_is. vm_compute. reflexivity.
  - left. apply none_is. vm_compute. reflexivity.
  - left. apply none_is. vm_compute. reflexivity.
  - apply agree_list. dec.
  - apply no_parked, nil_is. vm_compute. reflexivity.
  - apply no_parked, nil_is. vm_compute. reflexivity.
  - rewrite <-Heq. apply Hu. left. apply room_part_lookup. split; dec.
Defined.

(** ** The relay *)

Definition alice_linked : session := with_e2ee (NE:=toy_node) alice_posted alice3.
Definition bob_linked : session := with_e2ee (NE:=toy_node) bob_start bob3.
Abbreviation sealed_for_bob := (seal_event_for_recipient (NE:=toy_node) alice_linked m1 bob 0%N 0%N nonce0).

Lemma relay_delivers_witness :
  ∃ env e2ee, poll_item (NE:=toy_node) bob_linked env (λ g, g) =
    let '(r, g) := ingest_remote (NE:=toy_node) (with_e2ee bob_linked e2ee) m1 in
    (Some (m1, match r with Ok b => b | Err _ => false end), g).
Proof.
  assert (match sealed_for_bob.1 with Ok (_, OlmV2) => true | _ => false end = true) as Hok
    by (vm_compute; reflexivity).
  destruct sealed_for_bob as [[[ct [|]]|e] gA'] eqn:Hs; try discriminate Hok.
  destruct (relay_delivers (NE:=toy_node) (NL:=toy_node_laws) (OL:=toy_olm_laws) alice_linked gA'
    bob_linked m1 bob 0%N 0%N nonce0 ct OlmV2 (λ g, g)) as (e2ee & Hp).
  - vm_compute. reflexivity.
  - vm_compute. reflexivity.
  - exact Hs.
  - exists 40%N, 40%N. split; [vm_compute; reflexivity|]. split; [vm_compute; reflexivity|exact eq_refl].
  - eexists _, e2ee. exact Hp.
Defined.

(** Two events wait for bob; the relay takes both. *)
Definition alice_pushing : session :=
  let g := with_node (NE:=toy_node) alice_linked (set_outbox (ns_node alice_linked) [m1; st_event sent1]) in
  with_remote (NE:=toy_node) (with_olm_keys (NE:=toy_node) g {[bob := mkOlmDeviceKeys bob [] []]})
    (mkRemote None (Some (text "td://10.0.0.9:7500")) (rm_relay_key (ns_remote g)) false false).
Definition taking_relay : PeerUri → result RelayClientError TcpStream := λ _,
  Ok (mkTcpStream (mkReader (concat (frame ∘ ser <$> [RespOk; RespOk])) None) (mkWriter [] None)).
Definition push_draws : Draws (NE:=toy_node) := λ k, (N.of_nat k, N.of_nat k, nonce0).
Abbreviation pushed := (push_outbox_to_relay (NE:=toy_node) alice_pushing taking_relay push_draws).

Lemma push_outbox_exact_witness :
  pushed.1 = Ok 2%N ∧ ∃ sealed,
    seals (NE:=toy_node) (OL:=toy_olm_laws) push_draws 0
      (with_node (NE:=toy_node) alice_pushing (set_outbox (ns_node alice_pushing) [])) sealed pushed.2 ∧
    sealed.*1 = [(bob, m1); (bob, st_event sent1)].
Proof.
  assert (pushed.1 = Ok 2%N) as Hn by ok.
  split; [exact Hn|].
  pose proof (push_outbox_exact (NE:=toy_node) (NL:=toy_node_laws) (OL:=toy_olm_laws) alice_pushing
    taking_relay push_draws) as H.
  destruct pushed as [r g']. cbn [fst snd] in *. cbv zeta in H.
  change (rm_relay_uri (ns_remote alice_pushing)) with (Some (text "td://10.0.0.9:7500")) in H.
  destruct H as (_ & _ & _ & H). destruct (H 2%N Hn) as [[Hz _]|(peer & client & sealed & _ & _ & Hs & Hss & _)];
    [discriminate Hz|].
  exists sealed. split; [exact Hss|]. rewrite Hs. dec.
Defined.

(** ** Integrity *)

Lemma session_integrity_witness : session_wf (NE:=toy_node) (NL:=toy_node_laws) alice_made.2.1.
Proof.
  apply (session_integrity (NE:=toy_node) (NL:=toy_node_laws) alice_sk 7%N 8%N disk0 alice_made.2).
  apply rtc_once, st_create_room.
Defined.

Definition db_a : FsPath (EventsDb:=toy_db) := sq_conn store_a.
Abbreviation restarted :=
  (load_from_data_dir (NE:=toy_node) alice_sk 7%N 8%N db_a never disk0).
Definition session_a : session := from_ok bob_start restarted.1.

Lemma store_a_eq : durable node_a = Some store_a.
Proof. unfold store_a. apply default_eq. vm_compute. reflexivity. Qed.

Lemma restart_session_witness : session_wf (NE:=toy_node) (NL:=toy_node_laws) session_a.
Proof.
  destruct node_a_good as [_ _ Hsa].
  refine (proj1 (restart_session (NE:=toy_node) (NL:=toy_node_laws) alice_sk 7%N 8%N db_a never never
    disk0 restarted.2 session_a _ _ _ _)).
  - intros store Hs. injection Hs as <-. eexists. apply (Hsa store_a). apply store_a_eq.
  - unfold session_a. apply pair_ok. vm_compute. reflexivity.
  - dec.
  - intros id ev Hev. apply (map_Forall_lookup_1 (λ _ e, (se_ts_ms e + 1 < 2 ^ 64)%N)
      (events (ns_node session_a)) id ev); [|exact Hev]. dec.
Defined.
