(* ===== verification/ConcreteServe.v ===== *)
(** * Concrete transports, signals and values

    A Noise library without secrecy, channels as logs, PEM files, digits of [hex] and
    JSON values, with the laws the theorems on transports and appliances assume. *)

From S2P Require Import Prelude Text Json Crypto Event Sync Net Noise Link Base64 E2ee Seal Persist Quic Access.
From S2P Require Import Session Messages Notify Concrete ConcreteNet ConcreteNode ConcreteRpc.

(** ** Noise *)

(** A handshake state is the side and the messages seen; a transport has a counter for
    each direction and appends it to what it sends. *)
Definition toy_tag16 (n : N) : list byte := be_bytes 16 n.

Definition toy_write (t : N * N) (p : list byte) (cap : N) : result unit (list byte) * (N * N) :=
  if (N.of_nat (length p) + 16 <=? cap)%N then (Ok (p ++ toy_tag16 t.1), (N.succ t.1, t.2)) else (Err tt, t).
Definition toy_read (t : N * N) (c : list byte) (cap : N) : result unit (list byte) * (N * N) :=
  let p := take (length c - 16) c in
  if (N.of_nat (length c) <=? cap)%N && bool_decide (c = p ++ toy_tag16 t.2)
  then (Ok p, (t.1, N.succ t.2)) else (Err tt, t).

#[export] Instance toy_snow : Snow := {|
  snow_error := unit;
  HandshakeState := bool * nat;
  TransportState := N * N;
  snow_build side _ := Ok (side, 0);
  hs_write_message s _ _ := (Ok (repeat x2a s.2), (s.1, S s.2));
  hs_read_message s m _ :=
    if bool_decide (m = repeat x2a s.2) then (Ok [], (s.1, S s.2)) else (Err tt, s);
  into_transport_mode s := if s.2 =? 3 then Ok (0%N, 0%N) else Err tt;
  write_message := toy_write;
  read_message := toy_read |}.

#[export] Instance toy_snow_laws : @SnowLaws toy_snow.
Proof.
  refine {| Noise.paired k i r := i = (true, k) ∧ r = (false, k); Noise.in_step _ a b := a.1 = b.2 |}; cbn.
  - intros _ _ i r [= <-] [= <-]. done.
  - intros i r [-> ->]. eexists _, _, _. split_and!; try done; cbn; by rewrite bool_decide_eq_true_2.
  - intros i r [-> ->]. eexists _, _, _. split_and!; try done; cbn; by rewrite bool_decide_eq_true_2.
  - intros i r [-> ->]. eexists _, _, _. split_and!; try done; cbn; by rewrite bool_decide_eq_true_2.
  - intros i r [-> ->]. by exists (0%N, 0%N), (0%N, 0%N).
  - intros n a b p cap Hab _ Hc. unfold toy_write. change TAG_LEN with 16%N in Hc.
    rewrite (proj2 (N.leb_le _ _) Hc). eexists _, _, (b.1, N.succ b.2). split; [done|].
    rewrite length_app. unfold toy_tag16. rewrite length_be_bytes. split; [change TAG_LEN with 16%N; lia|].
    split; [|cbn; congruence]. intros cap' Hcap. unfold toy_read.
    rewrite (proj2 (N.leb_le _ _)) by (rewrite length_app, length_be_bytes; lia).
    rewrite length_app, length_be_bytes, Nat.add_sub, take_app_length. unfold toy_tag16.
    rewrite Hab. by rewrite bool_decide_eq_true_2.
  - done.
  - intros n a p cap b Hb. unfold toy_write. by destruct (_ <=? _)%N.
Defined.

(** ** Signals *)

(** The channel is the log of what was sent and forgets nothing, a receiver its place in
    it; a notifier counts. *)
#[export] Instance toy_signals : Signals := {|
  Sender := list RoomChange;
  Receiver := nat;
  channel _ := [];
  send tx c := tx ++ [c];
  subscribe tx := length tx;
  recv tx rx := match drop rx tx with c :: _ => Some (RecvOk c, S rx) | [] => None end;
  Notifier := nat;
  Notified := nat;
  notifier_new := 0;
  notify_waiters n := S n;
  notified n := n;
  notified_ready n f := f <? n |}.

Lemma drop_next {A} n (l : list A) c r : drop n l = c :: r → drop (S n) l = r ∧ S n ≤ length l.
Proof.
  intros H. pose proof (f_equal length H) as Hl. rewrite length_drop in Hl. cbn in Hl. split; [|lia].
  rewrite <-Nat.add_1_r, <-drop_drop, H. done.
Qed.

#[export] Instance toy_signals_laws : @SignalsLaws toy_signals.
Proof.
  refine {| attached tx rx := rx ≤ length tx; unread tx rx := Some (drop rx tx);
    registered n f := f ≤ n |}; cbn.
  - done.
  - intros tx rx c H. rewrite length_app. lia.
  - intros tx rx r rx' H. destruct (drop rx tx) eqn:Hd; [done|]. intros [= <- <-].
    by apply drop_next in Hd as [_ ?].
  - intros tx. by rewrite drop_ge.
  - intros tx rx c H. right. eexists. split; [done|]. by rewrite drop_app_le.
  - by intros tx rx [= ->].
  - intros tx rx c l [= Hd]. exists (S rx). rewrite Hd. split; [done|]. f_equal. by apply drop_next in Hd as [? _].
  - done.
  - intros n. apply Nat.ltb_irrefl.
  - done.
  - intros n f H. lia.
  - intros n f H. apply Nat.leb_le. lia.
Defined.

(** ** Hexadecimal *)

#[export] Instance toy_hex_digits : @HexDigits toy_hex.
Proof.
  split; intros l; cbn; unfold toy_hex_encode; induction l as [|b l IH]; cbn [mbind list_bind]; [done| |done|].
  - apply Forall_app. split; [|exact IH]. by destruct b; repeat constructor.
  - rewrite length_app, IH. cbn. lia.
Qed.

(** ** PEM *)

(** The text before the next dash, and the rest. *)
Fixpoint until_dash (s : list byte) : list byte * list byte :=
  match s with
  | b :: r => if decide (b = x2d) then ([], s) else let '(p, r) := until_dash r in (b :: p, r)
  | [] => ([], [])
  end.

(** One block, and what follows it. *)
Definition toy_pem_block (label s : list byte) : option (list byte * list byte) :=
  s ← strip_prefix (text "-----BEGIN " ++ label ++ text "-----" ++ [x0a]) s;
  let '(body, s) := until_dash s in
  s ← strip_prefix (text "-----END " ++ label ++ text "-----" ++ [x0a]) s;
  match base64_decode_config body false with Ok der => Some (der, s) | Err _ => None end.

Fixpoint toy_pem_blocks (fuel : nat) (label s : list byte) : list (list byte) :=
  match fuel with
  | O => []
  | S fuel =>
    match toy_pem_block label s with
    | Some (der, s) => der :: toy_pem_blocks fuel label s
    | None => []
    end
  end.

Lemma until_dash_app l s : Forall (λ c, c ≠ x2d) l → until_dash (l ++ x2d :: s) = (l, x2d :: s).
Proof. induction 1 as [|c l Hc _ IH]; cbn [app until_dash]; [done|]. by rewrite decide_False, IH. Qed.

Lemma no_dash data : Forall (λ c, c ≠ x2d) (base64_encode_config data false).
Proof.
  assert (∀ t k, b64_char false t k ≠ x2d) as H.
  { intros t k Hc. destruct (b64_char_ok false t k) as [Hv _]. by rewrite Hc in Hv. }
  induction data as [| | |a b c l IH] using list_ind_3; cbn [base64_encode_config app pad];
    repeat (constructor; [apply H|]); [repeat constructor; done..|done].
Qed.

Lemma filter_newlines l : Forall (λ c, c ≠ x0a) l → List.filter (λ c, negb (bool_decide (c = x0a))) l = l.
Proof. induction 1 as [|b c Hb _ IH]; cbn; [done|]. by rewrite bool_decide_eq_false_2, IH. Qed.

(** The lines of a text without line breaks are the text. *)
Lemma lines_text cs : Forall (Forall (λ c, c ≠ x0a)) cs →
  List.filter (λ c, negb (bool_decide (c = x0a))) (concat ((λ c, c ++ [x0a]) <$> cs)) = concat cs.
Proof.
  induction 1 as [|c cs Hc _ IH]; [done|]. rewrite fmap_cons. cbn [concat].
  rewrite !List.filter_app, IH, filter_newlines by done. by rewrite app_nil_r.
Qed.

Lemma Forall_chunks {A} (P : A → Prop) n (l : list A) : 0 < n → Forall P l → Forall (Forall P) (chunks n l).
Proof. intros Hn H. apply Forall_concat. by rewrite concat_chunks. Qed.

Definition pem_body (der : list byte) : list byte :=
  concat ((λ chunk, chunk ++ [x0a]) <$> chunks 64 (base64_encode_config der false)).

Lemma decode_lines der : base64_decode_config (pem_body der) false = Ok der.
Proof.
  etrans; [|exact (base64_roundtrip false der)]. unfold base64_decode_config, pem_body.
  pose proof (no_newline false der) as Hn.
  rewrite lines_text by (apply Forall_chunks; [lia|done]). by rewrite concat_chunks, filter_newlines by (done || lia).
Qed.

Lemma body_no_dash der : Forall (λ c, c ≠ x2d) (pem_body der).
Proof.
  apply Forall_concat, Forall_fmap. pose proof (Forall_chunks _ 64 _ ltac:(lia) (no_dash der)) as H.
  eapply Forall_impl; [|exact H]. intros l Hl. apply Forall_app. by split; [|repeat constructor].
Qed.

Lemma toy_pem_block_spec label der s : toy_pem_block label (pem_block label der ++ s) = Some (der, s).
Proof.
  unfold toy_pem_block, pem_block. fold (pem_body der).
  assert (∀ a b c d e f g h : list byte, (a ++ b ++ c ++ d ++ e ++ f ++ g ++ h) ++ s =
    (a ++ b ++ c ++ d) ++ e ++ (f ++ g ++ h) ++ s) as Ha by (intros; by rewrite <-!app_assoc).
  rewrite Ha, strip_prefix_app. cbn [mbind option_bind].
  change (text "-----END " ++ label ++ text "-----" ++ [x0a]) with
    (x2d :: text "----END " ++ label ++ text "-----" ++ [x0a]).
  cbn [app]. rewrite until_dash_app by apply body_no_dash.
  set (ft := x2d :: (text "----END " ++ label ++ text "-----" ++ [x0a])).
  change (x2d :: ((text "----END " ++ label ++ text "-----" ++ [x0a]) ++ s)) with (ft ++ s).
  rewrite strip_prefix_app. cbn [mbind option_bind]. by rewrite decode_lines.
Qed.

Lemma pem_blocks_length label ders : length ders ≤ length (concat (pem_block label <$> ders)).
Proof.
  induction ders as [|d l IH]; [done|]. rewrite fmap_cons. cbn [concat length].
  rewrite length_app. unfold pem_block at 1. rewrite !length_app. cbn [length]. lia.
Qed.

Lemma toy_pem_blocks_spec label ders n : length ders ≤ n →
  toy_pem_blocks n label (concat (pem_block label <$> ders)) = ders.
Proof.
  revert n. induction ders as [|d l IH]; intros [|n] Hn; cbn in Hn; try lia; try done.
  rewrite fmap_cons. cbn [concat toy_pem_blocks]. rewrite toy_pem_block_spec, IH by lia. done.
Qed.

#[export] Instance toy_tls : Tls := {|
  tls_crypto := toy_crypto; tls_hex := toy_hex;
  pem_certs s := Ok (toy_pem_blocks (length s) (text "CERTIFICATE") s);
  pem_private_key s := Ok (Pkcs8 ∘ fst <$> toy_pem_block (text "PRIVATE KEY") s);
  single_cert certs _ := match certs with [] => Err (text "no certificate") | _ :: _ => Ok tt end |}.
#[export] Instance toy_tls_laws : @TlsLaws toy_tls.
Proof.
  split.
  - intros ders. unfold pem_certs, toy_tls. by rewrite toy_pem_blocks_spec by apply pem_blocks_length.
  - intros der. unfold pem_private_key, toy_tls.
    pose proof (toy_pem_block_spec (text "PRIVATE KEY") der []) as H. rewrite app_nil_r in H. by rewrite H.
Qed.

(** ** JSON values *)

(** A list behind a mark for each element. *)
Fixpoint ser_items {A} (f : A → list byte) (l : list A) : list byte :=
  match l with [] => [x00] | a :: l => x01 :: f a ++ ser_items f l end.
Fixpoint de_items {A} (p : list byte → option (A * list byte)) (n : nat) (s : list byte) :
    option (list A * list byte) :=
  match n, s with
  | S _, x00 :: s => Some ([], s)
  | S n, x01 :: s => '(a, s) ← p s; '(l, s) ← de_items p n s; Some (a :: l, s)
  | _, _ => None
  end.

Lemma de_items_ser {A} (p : list byte → option (A * list byte)) f l n s : length l < n →
  Forall (λ a, ∀ s, p (f a ++ s) = Some (a, s)) l → de_items p n (ser_items f l ++ s) = Some (l, s).
Proof.
  revert n. induction l as [|a l IH]; intros [|n] Hn Hl; cbn in Hn; try lia; [done|].
  inversion Hl as [|? ? Ha Hl']; subst. cbn [ser_items app de_items]. rewrite <-app_assoc, Ha.
  cbn [mbind option_bind]. by rewrite IH by (done || lia).
Qed.

Fixpoint ser_jv (v : Jv) : list byte :=
  match v with
  | VNull => [x00]
  | VBool b => x01 :: ser b
  | VNumber n => x02 :: ser n
  | VOther s => x03 :: ser s
  | VString s => x04 :: ser s
  | VArray l => x05 :: ser_items ser_jv l
  | VObject l => x06 :: ser_items (λ x, ser x.1 ++ ser_jv x.2) l
  end.

Definition de_with {A} `{Ser B} (f : B → A) (s : list byte) : option (A * list byte) :=
  '(b, s) ← de s; Some (f b, s).

Fixpoint de_jv (fuel : nat) (s : list byte) : option (Jv * list byte) :=
  match fuel, s with
  | S _, x00 :: s => Some (VNull, s)
  | S _, x01 :: s => de_with VBool s
  | S _, x02 :: s => de_with VNumber s
  | S _, x03 :: s => de_with VOther s
  | S _, x04 :: s => de_with VString s
  | S n, x05 :: s => '(l, s) ← de_items (de_jv n) (S n) s; Some (VArray l, s)
  | S n, x06 :: s =>
    '(l, s) ← de_items (λ s, '(k, s) ← de s; '(v, s) ← de_jv n s; Some ((k, v), s)) (S n) s;
    Some (VObject l, s)
  | _, _ => None
  end.

Lemma ser_items_sizes {A} (f : A → list byte) l n : length (ser_items f l) ≤ n →
  length l < n ∧ Forall (λ a, length (f a) ≤ n) l.
Proof.
  induction l as [|a l IH] in n |- *; cbn; [by split; [lia|]|]. rewrite length_app. intros H.
  destruct (IH (n - 1 - length (f a)) ltac:(lia)) as [H1 H2]. split; [lia|]. constructor; [lia|].
  eapply Forall_impl; [|exact H2]. cbn. lia.
Qed.

Lemma de_ser_jv fuel : ∀ v s, length (ser_jv v) ≤ fuel → de_jv fuel (ser_jv v ++ s) = Some (v, s).
Proof.
  induction fuel as [|fuel IH]; intros v s Hf; [by destruct v; cbn in Hf; lia|].
  destruct v as [|b|n|r|r|l|l]; cbn [ser_jv app de_jv] in *; [done|unfold de_with; by rewrite de_ser..| |].
  - cbn [length] in Hf. destruct (ser_items_sizes ser_jv l fuel ltac:(lia)) as [Hn Hl].
    rewrite de_items_ser; [done|lia|]. eapply Forall_impl; [|exact Hl]. auto.
  - cbn [length] in Hf. destruct (ser_items_sizes (λ x, ser x.1 ++ ser_jv x.2) l fuel ltac:(lia)) as [Hn Hl].
    rewrite de_items_ser; [done|lia|]. eapply Forall_impl; [|exact Hl].
    intros [k v]. cbn [fst snd]. rewrite length_app. intros Hx s'. rewrite <-app_assoc, de_ser.
    cbn [mbind option_bind]. by rewrite IH by lia.
Qed.

#[export] Instance toy_jv : JvText := {|
  jv_from_str s := d ← toy_hex_decode s; '(v, r) ← de_jv (length d) d;
    match r with [] => Some v | _ :: _ => None end;
  jv_pretty v := toy_hex_encode (ser_jv v) |}.
#[export] Instance toy_jv_laws : @JvTextLaws toy_jv.
Proof.
  split; intros v; cbn.
  - intros _. rewrite toy_hex_roundtrip. cbn [mbind option_bind].
    pose proof (de_ser_jv (length (ser_jv v)) v [] (le_n _)) as H. rewrite app_nil_r in H. by rewrite H.
  - pose proof (toy_hex_utf8 (ser_jv v) []) as H. rewrite app_nil_r in H. by rewrite H.
Qed.
