(* ===== verification/WitnessServe.v ===== *)
(** * Witnesses for transports, signals, serving and the appliance

    Concrete runs on the instances of [ConcreteServe.v]: two Noise peers, a stream and
    a long poll on alice's node, pinned nodes, an exposed node, an update taken back, a
    network joined. *)

From S2P Require Import Prelude Text Ip Json Crypto Event Dag Store Room Sync Net Noise Link Base64 Passkey E2ee Seal.
From S2P Require Import Persist Quic Rate Access Files Ota Wifi Session Peers Messages Assist Notify Serve Integrity.
From S2P Require Import Concrete Witness ConcreteNet ConcreteNode WitnessNode ConcreteRpc WitnessRpc ConcreteServe.

#[local] Existing Instance toy_iter.

(** A result evaluated at a type that does not mention the environment. *)
Lemma ok_at {E A} `{EqDecision A} (r : result E A) (x : A) :
  match r with Ok a => bool_decide (a = x) | Err _ => false end = true → r = Ok x.
Proof. destruct r; [|done]. by intros ->%bool_decide_eq_true. Qed.
Lemma ok_in {E A S} (p : result E A * S) (d : A) : is_ok p.1 = true → p = (Ok (from_ok d p.1), p.2).
Proof. by destruct p as [[]]. Qed.

(** ** Noise *)

Definition some_events : list SignedEvent := [root; m1].

Lemma some_events_fit : Forall (λ ev, fits (to_vec (Encode:=ser_encode) ev)) (some_events ++ [m1]).
Proof. dec. Qed.

Lemma noise_session_witness : ∃ bi br,
  talk (SW:=toy_snow) (H:=ser_encode) (H0:=ser_decode) true (Ok []) some_events 2
    (mkTcpStream (mkReader br None) (mkWriter [] None)) = (Ok ([m1], Some NoiseClosed), bi).
Proof.
  destruct (noise_session (SW:=toy_snow) (HE:=ser_encode) (HD:=ser_decode) (HC:=ser_codec)
    [] [] (true, 0) (false, 0) some_events [m1]) as (bi & br & H & _);
    [reflexivity|reflexivity|exact some_events_fit|dec|dec|]. by exists bi, br.
Defined.

(** ** The stream and the long poll *)

Definition world0 : World (NE:=toy_node) (SG:=toy_signals) :=
  mkWorld (NE:=toy_node) (SG:=toy_signals) alice_made.2.1 (RoomNotify_new (SG:=toy_signals)) 0.
Definition room_text : list byte := Notify.room_hex (NE:=toy_node) room0.
Definition opened : Response (Stream (SG:=toy_signals)) * World (NE:=toy_node) (SG:=toy_signals) :=
  stream_messages (NE:=toy_node) (SG:=toy_signals) room_text world0 id.

Lemma room_text_parses : parse_room_id (NE:=toy_node) room_text = Ok room0.
Proof. apply ok_at. vm_compute. reflexivity. Qed.

(** Somebody else's announcement comes in before the stream is left alone. *)
Definition announced (w : World (NE:=toy_node) (SG:=toy_signals)) : World (NE:=toy_node) (SG:=toy_signals) :=
  set_notify w (notify (SG:=toy_signals) (wo_notify w) (Notify.room_hex (NE:=toy_node) room0) 1).

Lemma stream_converges_witness :
  match opened with
  | (Ok s0, w1) => ∃ s' w' pre m, rtc alone (s0, announced w1) (s', w') ∧ sr_sent s' = pre ++ [m] ∧
      sm_count m = room_count (wo_session w') room0
  | (Err _, _) => False
  end.
Proof.
  assert (is_ok opened.1 = true) as Hok by (vm_compute; reflexivity).
  destruct opened as [[s0|e] w1] eqn:Ho; [|discriminate Hok].
  destruct (stream_converges (NE:=toy_node) (SG:=toy_signals) (SL:=toy_signals_laws) room0 world0 id false
    s0 w1 s0 (announced w1)) as (s' & w' & pre & m & Hr & _ & Hs & _ & Hc & _).
  - exact room_text_parses.
  - apply rtc_refl.
  - exact Ho.
  - exact (rtc_once _ _ (run_world (NE:=toy_node) (SG:=toy_signals) room0 s0 w1 false (announced w1) false
      (ws_announce (NE:=toy_node) (SG:=toy_signals) room0 w1 false 1))).
  - exists s', w', pre, m. split; [exact Hr|]. split; [exact Hs|exact Hc].
Defined.

Definition poll : WaitMessagesRequest := mkWaitMessagesRequest room_text 0 None.

(** Alice posts while the poll has not looked yet. *)
Definition world1 : World (NE:=toy_node) (SG:=toy_signals) :=
  mkWorld (NE:=toy_node) (SG:=toy_signals) alice_posted (RoomNotify_new (SG:=toy_signals)) 5.

Definition poller : Waiter (SG:=toy_signals) := mkWaiter poll room0 (millis 15000) WtLook.

Lemma wait_messages_answers_witness :
  answers (NE:=toy_node) (SG:=toy_signals) 0 (5 + millis 15000) 8 (λ c, c = 1) poller world1.
Proof.
  destruct (wait_messages_answers (NE:=toy_node) (SG:=toy_signals) (SL:=toy_signals_laws) poll world0 poller
    poller world1) as (_ & _ & H).
  - unfold wait_messages, poll, wm_room_id. rewrite room_text_parses. reflexivity.
  - apply rtc_once, wait_world. cbn. lia.
  - eapply answers_weaken; [exact (H ltac:(discriminate))|apply le_n|apply N.le_refl|].
    intros c [->|[[m Hm] _]]; [dec|discriminate Hm].
Defined.

(** ** Identities and pins *)

Definition cert1 : CertificateDer := text "a certificate of a pond, long enough for a second line of its text".
Definition written1 := write_self_signed_pem (Ok ([cert1], Pkcs8 (text "key"))) QUIC_CERT QUIC_KEY never disk0.
Definition no_cfg : QuicTlsConfig := mkQuicTlsConfig [] OtherKey [] false false [].
Definition cfg1 : QuicTlsConfig := from_ok no_cfg written1.1.

Lemma pem_identity_roundtrip_witness :
  load_pem_identity (TL:=toy_tls) (contents written1.2 QUIC_CERT) (contents written1.2 QUIC_KEY) =
    Ok ([cert1], Pkcs8 (text "key")).
Proof.
  refine (proj1 (pem_identity_roundtrip (TL:=toy_tls) (TLL:=toy_tls_laws) [cert1] (text "key")
    QUIC_CERT QUIC_KEY never disk0 written1.2 cfg1 _ _ _)).
  - discriminate.
  - dec.
  - unfold cfg1. apply ok_in. vm_compute. reflexivity.
Defined.

(** Two nodes that pin one identity. *)
Definition pin_text : list byte := hex_encode (Hex:=toy_hex) (array_bytes (cert_pin_blake3 (TL:=toy_tls) cert1)).
Definition pinned_opts : ServeOptions :=
  mkServeOptions None None None None (toy_hash []) true true false true None None false None None
    (Some pin_text) None.

(** A [rustls] that completes every connection its verifiers allow. *)
Definition toy_establishes (c : ClientConfig) (s : ServerConfig) : bool :=
  match sc_certs s with
  | leaf :: _ => is_ok (verify_server_cert (TL:=toy_tls) (cc_verifier c) leaf)
  | [] => false
  end &&
  match sc_client_verifier s with
  | None => true
  | Some v =>
    match cc_identity c with
    | Some (leaf :: _, _) => is_ok (verify_client_cert (TL:=toy_tls) v leaf)
    | _ => false
    end
  end.

Lemma ok_unit {E} (r : result E unit) : is_ok r = true → r = Ok tt.
Proof. by destruct r as [[]|]. Qed.

Lemma toy_establishes_checks : rustls_checks (TL:=toy_tls) toy_establishes.
Proof.
  intros c s [H1 H2]%andb_true_iff. split.
  - destruct (sc_certs s) as [|leaf rest]; [discriminate H1|]. exists leaf, rest. split; [reflexivity|].
    by apply ok_unit.
  - intros v Hv. rewrite Hv in H2. destruct (cc_identity c) as [[[|leaf rest] k]|]; try discriminate H2.
    exists leaf, rest, k. split; [reflexivity|]. by apply ok_unit.
Qed.

Definition no_pem (_ : list byte) : result io_error (list byte) := Err OtherIo.
Definition gen1 : Generated := Ok ([cert1], Pkcs8 (text "key")).
Abbreviation built1 := (build_quic_tls_config (NE:=toy_node) (TL:=toy_tls) pinned_opts false no_pem gen1 never disk0).
Definition pinned_cfg : QuicTlsConfig :=
  mkQuicTlsConfig [cert1] (Pkcs8 (text "key")) [cert_pin_blake3 (TL:=toy_tls) cert1] true false (text "td-pond").
Definition pinned_client : ClientConfig := from_ok (mkClientConfig (mkServerVerifier [] false) None []) (client_config (TL:=toy_tls) pinned_cfg).
Definition pinned_server : ServerConfig := from_ok (mkServerConfig None [] OtherKey [] 0) (server_config (TL:=toy_tls) pinned_cfg).

Lemma ok_from {E A} (r : result E A) (d : A) : is_ok r = true → r = Ok (from_ok d r).
Proof. by destruct r. Qed.

#[local] Instance PrivateKeyDer_eq_dec : EqDecision PrivateKeyDer.
Proof. solve_decision. Defined.
#[local] Instance QuicTlsConfig_eq_dec : EqDecision QuicTlsConfig.
Proof. solve_decision. Defined.

Lemma built1_eq : built1 = (Ok (Some pinned_cfg), built1.2).
Proof.
  pose proof (ok_at built1.1 (Some pinned_cfg)) as H. rewrite (surjective_pairing built1) at 1.
  rewrite H; [reflexivity|]. vm_compute. reflexivity.
Qed.

Lemma quic_peers_pinned_witness :
  ∃ leaf, head (qc_certs pinned_cfg) = Some leaf ∧
    cert_pin_blake3 (TL:=toy_tls) leaf ∈ [cert_pin_blake3 (TL:=toy_tls) cert1].
Proof.
  refine (proj1 (quic_peers_pinned (NE:=toy_node) (TL:=toy_tls) toy_establishes pinned_opts pinned_opts
    false false no_pem no_pem gen1 gen1 never never disk0 disk0 built1.2 built1.2 pinned_cfg pinned_cfg pinned_client pinned_server
    [cert_pin_blake3 (TL:=toy_tls) cert1] [cert_pin_blake3 (TL:=toy_tls) cert1]
    toy_establishes_checks built1_eq _ built1_eq _ _ _ _) _).
  - apply ok_at. vm_compute. reflexivity.
  - apply ok_at. vm_compute. reflexivity.
  - apply ok_from. vm_compute. reflexivity.
  - apply ok_from. vm_compute. reflexivity.
  - vm_compute. reflexivity.
  - discriminate.
Defined.

(** ** An exposed node *)

Definition start1 : Start (NE:=toy_node) := {|
  sa_signing := alice_sk; sa_seed := 7%N; sa_seed' := 8%N; sa_events_db := db_a;
  sa_read_pem := no_pem; sa_generated := gen1; sa_ephemeral := gen1;
  sa_tls_files _ _ := Ok tt; sa_tls_self_signed := Ok (Ok tt);
  sa_listen_quic _ _ := Ok (mkSocketAddr (text "0.0.0.0") 7400);
  sa_listen _ := Ok (mkSocketAddr (text "0.0.0.0") 8787) |}.
Abbreviation started := (prepare_serve (NE:=toy_node) (SG:=toy_signals) (TL:=toy_tls) start1
  (text "0.0.0.0:8787") pinned_opts never disk0).
Definition with_token : HttpRequest :=
  mkHttpRequest (text "10.0.0.9") (text "POST") (text "/v1/rooms/create") None (mkHeaders None (Some token1)).
Definition gate1 (n : Serve.Node (NE:=toy_node) (SG:=toy_signals)) (d : Disk) : bool :=
  is_ok (authn_rate_middleware
    (mkRpcState (run (AV:=toy_access) (ns_access (nd_session n), d) [claim_act]).1 (nd_require_owner n)
       (mkRateLimitBook ∅) (nd_rate_limit_enabled n)) with_token 20 20 21).1.

Lemma exposed_node_gated_witness :
  match started with
  | (Ok p, d) => ∃ l1 a l2, [claim_act] = l1 ++ a :: l2 ∧
      grants (AV:=toy_access) (run (AV:=toy_access) (ns_access (nd_session (ps_node p)), d) l1) a token1
  | (Err _, _) => False
  end.
Proof.
  assert (match started with (Ok p, d) => gate1 (ps_node p) d | (Err _, _) => false end = true) as Hok
    by (vm_compute; reflexivity).
  destruct started as [[p|e] d] eqn:Hs; [|discriminate Hok].
  destruct (exposed_node_gated (NE:=toy_node) (SG:=toy_signals) (TL:=toy_tls) start1 (text "0.0.0.0:8787")
    pinned_opts never disk0 d p [claim_act] (mkRateLimitBook ∅) with_token 20 20 21 Hs
    eq_refl eq_refl) as (tok & Ht & Hg).
  - apply ok_unit. exact Hok.
  - reflexivity.
  - injection Ht as <-. exact Hg.
Defined.

(** A node started from a data directory with the log of [Witness.v]. *)
Abbreviation durable_start := (prepare_serve (NE:=toy_node) (SG:=toy_signals) (TL:=toy_tls) start1
  (text "127.0.0.1:8788") (default_with_data_dir (NE:=toy_node) (text "/pond")) never disk0).

Lemma served_node_integrity_witness :
  match durable_start with
  | (Ok p, d) => session_wf (NE:=toy_node) (NL:=toy_node_laws)
      (rpc_create_room (NE:=toy_node) (nd_session (ps_node p), d) (text "den") never).2.1
  | (Err _, _) => False
  end.
Proof.
  assert (match durable_start with
    | (Ok p, _) => (ns_ts_counter (nd_session (ps_node p)) + 1 <? 2 ^ 64)%N &&
        forallb (λ q : EventId * SignedEvent, (se_ts_ms q.2 + 1 <? 2 ^ 64)%N)
          (map_to_list (events (ns_node (nd_session (ps_node p)))))
    | (Err _, _) => false end = true) as Hok by (vm_compute; reflexivity).
  destruct durable_start as [[p|e] d] eqn:Hs; [|discriminate Hok].
  apply andb_true_iff in Hok as [Hc Hts]. destruct node_a_good as [_ _ Hsa].
  refine (served_node_integrity (NE:=toy_node) (NL:=toy_node_laws) (SG:=toy_signals) (TL:=toy_tls) start1
    (text "127.0.0.1:8788") (default_with_data_dir (NE:=toy_node) (text "/pond")) never disk0 d p _ _ Hs _ _ _).
  - intros store Ho. injection Ho as <-. eexists. apply (Hsa store_a). apply store_a_eq.
  - by apply N.ltb_lt.
  - intros id ev Hev. apply N.ltb_lt. rewrite forallb_forall in Hts. apply (Hts (id, ev)).
    apply list_elem_of_In. by apply elem_of_map_to_list.
  - apply rtc_once, (st_create_room (NE:=toy_node) (nd_session (ps_node p), d)).
Defined.

(** ** The listener *)

Definition nobody (_ : nat) (w : World (NE:=toy_node) (SG:=toy_signals)) : World (NE:=toy_node) (SG:=toy_signals) := w.

Lemma p2p_listener_exact_witness :
  serve_tcp (NE:=toy_node) (SG:=toy_signals)
    (mkTcpStream (mkReader (frames (H:=node_event_encode (NodeEnv:=toy_node)) some_events) None) (mkWriter [] None))
    world0 nobody =
  ingest_events (NE:=toy_node) (SG:=toy_signals) world0 some_events nobody.
Proof.
  refine (proj1 (p2p_listener_exact (NE:=toy_node) (SG:=toy_signals) (SW:=toy_snow) (SNL:=toy_snow_laws)
    (HC:=ser_codec) some_events (mkWriter [] None) world0 nobody [] [] (true, 0) (false, 0) _ _ _ _)).
  - dec.
  - dec.
  - reflexivity.
  - reflexivity.
Defined.

(** ** The appliance *)

Definition no_var (_ : list byte) : option (list byte) := None.
Definition owner_headers : Headers := mkHeaders None (Some token1).

(** A disk with a previous binary and a record of both versions. *)
Definition updated_disk : Disk := mkDisk
  (<[PREV_BIN := mkFile (text "old binary") true]>
   (<[OTA_STATE := mkFile (jv_pretty (JvText:=toy_jv) (jobj [(text "installed_version", VString (text "1.2"));
      (text "previous_version", VString (text "1.1"))])) true]> ∅)) ∅ true false 0.
Abbreviation back := (ota_rollback (AV:=toy_access) (JT:=toy_jv) (text "0.1") (text "/data") no_var
  claimed_node owner_headers 20 21 KickOk 5 never updated_disk).

Lemma ota_rollback_exact_witness :
  match back with
  | (Json a, _, d') => or_version a = text "1.1" ∧ or_from_version a = text "1.2" ∧
      dk_files d' !! PREV_BIN = dk_files updated_disk !! PREV_BIN
  | (Refuse _ _ _, _, _) => False
  end.
Proof.
  pose proof (ota_rollback_exact (AV:=toy_access) (JT:=toy_jv) (text "0.1") (text "/data") no_var
    claimed_node owner_headers 20 21 KickOk 5 updated_disk) as H.
  assert (match back with (Json a, _, _) => bool_decide (or_version a = text "1.1") &&
    bool_decide (or_from_version a = text "1.2") | _ => false end = true) as Hok by (vm_compute; reflexivity).
  destruct back as [[[a|st e x] g] d']; [|discriminate Hok].
  apply andb_true_iff in Hok as [H1%bool_decide_eq_true H2%bool_decide_eq_true].
  destruct H as (_ & _ & _ & _ & _ & _ & _ & H).
  - apply ok_unit. vm_compute. reflexivity.
  - reflexivity.
  - reflexivity.
  - split; [exact H1|]. split; [exact H2|]. apply H; discriminate.
Defined.

Definition nmcli1 (_ : list (list byte)) : Nmcli := NmOk (text "activated").
Definition join_home : WifiApplyRequest := mkWifiApplyRequest (text " home ") (Some (text "secret")) None.
Abbreviation joined := (wifi_apply (AV:=toy_access) (JT:=toy_jv) no_var nmcli1 claimed_node owner_headers
  join_home 20 21 id never updated_disk).

Lemma wifi_apply_exact_witness :
  match joined with
  | (Json a, g', d') =>
    ws_ssid (wifi_status (JT:=toy_jv) no_var g' never d').1 = Some (text "home") ∧
    wa_ok a = true
  | (Refuse _ _ _, _, _) => False
  end.
Proof.
  pose proof (wifi_apply_exact (AV:=toy_access) (JT:=toy_jv) no_var nmcli1 (H:=toy_jv_laws) claimed_node
    owner_headers join_home 20 21 id updated_disk eq_refl (λ _, eq_refl)) as H. cbv zeta in H.
  assert (match joined with (Json a, _, _) => wa_ok a | _ => false end = true) as Hok by (vm_compute; reflexivity).
  destruct joined as [[[a|st e x] g'] d']; [|discriminate Hok].
  destruct H as (_ & _ & _ & _ & _ & _ & _ & H). split; [|exact Hok].
  rewrite (H eq_refl). reflexivity.
Defined.
