(* ===== verification/WitnessDemos.v ===== *)
(** * Witnesses for the demonstration programs

    Both programs run on the concrete environment: alice and bob of [Witness.v], a relay
    with an empty store. *)

From S2P Require Import Prelude Text Crypto Event Dag Store Room Sync Net Link Passkey E2ee Seal Persist Rate.
From S2P Require Import Access Session Relay Demos Catchup Bench Concrete Witness ConcreteNet ConcreteNode WitnessNode.
From S2P Require Import ConcreteRpc WitnessRpc WitnessServe.

#[local] Existing Instance toy_iter.
#[local] Instance fits_dec l : Decision (fits l) := decide_rel N.le _ _.

#[local] Instance toy_demo : DemoEnv := {|
  demo_node := toy_node; demo_envelopes := toy_envelopes;
  demo_io_text e := []; demo_serde_text := [];
  demo_request_decode := ser_decode; demo_response_encode := ser_encode |}.
#[local] Instance toy_demo_laws : @RelayEnvLaws (demo_relay (H:=toy_demo)) := toy_relay_laws.

Definition alice_kp : DeviceKeypair := DeviceKeypair_generate (KE:=toy_link) alice_sk.
Definition bob_kp : DeviceKeypair := DeviceKeypair_generate (KE:=toy_link) bob_sk.

(** ** Two users *)

Definition p2p_e1 : SignedEvent := from_ok no_event (Demos.signed (NE:=toy_node) alice_kp (p2p_create alice_kp)).
Definition p2p_e2 : SignedEvent := from_ok no_event (Demos.signed (NE:=toy_node) alice_kp (p2p_msg alice_kp p2p_e1)).
Definition p2p_e3 : SignedEvent := from_ok no_event (Demos.signed (NE:=toy_node) bob_kp (p2p_reply bob_kp p2p_e2)).
Definition loopback (port : N) : SocketAddr := mkSocketAddr (text "127.0.0.1") port.

Lemma two_user_p2p_shares_witness :
  is_ok (two_user_p2p (NE:=toy_node) alice_sk bob_sk (loopback 7400) (loopback 7401)) = true ∧
  ∃ d, two_user_p2p (NE:=toy_node) alice_sk bob_sk (loopback 7400) (loopback 7401) = Ok d ∧
     tip_set (SE:=node_store (H:=toy_node)) (dm_bob d) p2p_room = {[se_id p2p_e3]}.
Proof.
  split; [vm_compute; reflexivity|].
  destruct (two_user_p2p_shares (NE:=toy_node) (NL:=toy_node_laws) alice_sk bob_sk (loopback 7400) (loopback 7401)
    p2p_e1 p2p_e2 p2p_e3) as (d & Hd & _ & _ & _ & Ht).
  - dec.
  - apply ok_from. vm_compute. reflexivity.
  - apply ok_from. vm_compute. reflexivity.
  - apply ok_from. vm_compute. reflexivity.
  - change (Forall (λ e, fits (ser e)) [p2p_e1; p2p_e2; p2p_e3]). dec.
  - unfold collision_free. dec.
  - exists d. split; [exact Hd|exact Ht].
Defined.

(** ** Offline catch-up *)

Definition catchup_draws : Draws (DE:=toy_demo) :=
  mkDraws (DE:=toy_demo) alice_sk bob_sk (1%N, 2%N) (3%N, 4%N) 5%N 6%N 7%N.
Definition empty_relay : RelayState (LE:=demo_relay (H:=toy_demo)) :=
  mkRelayState (LE:=demo_relay (H:=toy_demo)) (mkEnvelopeStore (LE:=demo_relay (H:=toy_demo)) ∅)
    (RateLimiter_new 0 DEFAULT_RATE).
Definition minute (k : nat) : N * N := (N.of_nat k * 60000000000, N.of_nat k * 60000000000 + 1)%N.
Definition no_file : EConnection (EnvelopesDb:=toy_envelopes) → option (result io_error (list byte)) := λ _, None.

Definition cu_e1 : SignedEvent := from_ok no_event (Demos.signed (NE:=toy_node) alice_kp (catchup_create alice_kp)).
Definition cu_e2 : SignedEvent := from_ok no_event (Demos.signed (NE:=toy_node) alice_kp (catchup_msg alice_kp cu_e1)).
Definition cu_e3 : SignedEvent := from_ok no_event (Demos.signed (NE:=toy_node) bob_kp (catchup_live bob_kp cu_e2)).
Definition no_keys : OlmDeviceKeys := mkOlmDeviceKeys alice [] [].
Abbreviation bob_published :=
  (publish_keys (VZ:=toy_voz) (E2eeDevice_new (VZ:=toy_voz) 3%N 4%N (kp_device_id bob_kp)) 5%N).
Definition bob_keys : OlmDeviceKeys := from_ok no_keys bob_published.1.
Abbreviation alice_established :=
  (establish_olm_outbound (VZ:=toy_voz) (E2eeDevice_new (VZ:=toy_voz) 1%N 2%N (kp_device_id alice_kp)) bob_keys 6%N).
Abbreviation cu_sealed := (seal_for_relay_olm (SN:=toy_seal) (SE:=node_store (H:=toy_node))
  alice_established.2 (kp_device_id bob_kp) cu_e2 7%N).
Definition cu_ct : list byte := from_ok [] cu_sealed.1.
Definition cu_env : RelayEnvelope :=
  RelayEnvelope_new (H:=toy_crypto) (kp_device_id bob_kp) (kp_device_id alice_kp) (Some catchup_room) cu_ct 2.

Lemma cu_wire_fits : wire_fits (DE:=toy_demo) (kp_device_id alice_kp) (kp_device_id bob_kp) cu_env.
Proof.
  split.
  - change (fits (ser (Put cu_env))). dec.
  - change (fits (ser (Fetch (kp_device_id alice_kp) 0 10))). dec.
  - change (fits (ser (Fetch (kp_device_id bob_kp) 0 10))). dec.
  - change (fits (ser (Ack (kp_device_id bob_kp) [re_envelope_id cu_env]))). dec.
  - change (fits (ser RespOk)). dec.
  - change (fits (ser (Envelopes [cu_env]))). dec.
  - change (fits (ser (Envelopes []))). dec.
  - intros e. change (fits (ser (RespErr []))). dec.
Qed.

Abbreviation cu_run := (relay_offline_catchup (DE:=toy_demo) (λ k, 2 <=? k) catchup_draws minute empty_relay no_file).

Lemma offline_catchup_converges_witness :
  is_ok cu_run = true ∧
  match cu_run with
   | Ok d => tip_set (SE:=node_store (H:=toy_node)) (cu_bob d) catchup_room = {[se_id cu_e3]}
   | Err e => catchup_error (DE:=toy_demo) cu_ct no_file e
   end.
Proof.
  split; [vm_compute; reflexivity|].
  unshelve epose proof (offline_catchup_converges (DE:=toy_demo) (RL:=toy_demo_laws) (NL:=toy_node_laws) (OL:=toy_olm_laws)
    (OS:=toy_olm_start) (λ k, 2 <=? k) catchup_draws minute empty_relay no_file 0 cu_e1 cu_e2 cu_e3 bob_keys
    bob_published.2 alice_established.2 cu_sealed.2 cu_ct _ _ _ _ _ _ _ _ _ _ _ _ _) as H.
  - reflexivity.
  - split; [apply map_Forall_empty|reflexivity].
  - reflexivity.
  - apply ok_in. vm_compute. reflexivity.
  - rewrite (surjective_pairing alice_established). f_equal.
  - apply ok_from. vm_compute. reflexivity.
  - apply ok_from. vm_compute. reflexivity.
  - apply ok_from. vm_compute. reflexivity.
  - apply ok_in. vm_compute. reflexivity.
  - dec.
  - exact cu_wire_fits.
  - change (fits (ser cu_e3)). dec.
  - unfold collision_free. dec.
  - destruct cu_run as [d|e]; [|exact H]. destruct H as (_ & _ & _ & _ & Ht). exact Ht.
Defined.

(** ** The benchmarks *)

Example ingest_bench_runs :
  match ingest_bench (NE:=toy_node) alice_sk (bench_n (Some (text "4")) 5000) with
  | Ok d => RoomDag_len d | Err _ => 0 end = 4.
Proof. vm_compute. reflexivity. Qed.

Definition carol : DeviceId := mkDeviceId (repeat_array 32 x03).
Definition bench_draws : BenchDraws (VZ:=toy_voz) :=
  mkBenchDraws (VZ:=toy_voz) (alice, (1%N, 2%N)) (bob, (3%N, 4%N)) (carol, (5%N, 6%N)) (7%N, 8%N) (9%N, 10%N) 11%N N.of_nat.

Example e2ee_bench_runs : is_ok (e2ee_bench (VZ:=toy_voz) bench_draws 3) = true.
Proof. vm_compute. reflexivity. Qed.
